(* ===== verification/_CoqProject ===== *)
-Q . S2P
Prelude.v
Strings.v
Float64.v
Protocol.v
Memory.v
RingBuffer.v
Hash.v
Aead.v
Cipher.v
CipherMem.v
Encoding.v
Pake.v
Engine.v
WebSocket.v
Publisher.v
PubThreads.v
PubLocks.v
Progress.v
Sanitize.v
Files.v
Subscriber.v
Feed.v
PubRaces.v
FileTransfer.v
Wasm.v
Invite.v
Dial.v
Transport.v
Cli.v
Terminal.v
Session.v
SubThreads.v
RateLimit.v
ProxyProto.v
RelaySession.v
MetricsPage.v
RelayServer.v
RelayInv.v
RelayProps.v
RelayFifo.v
RelayNode.v
System.v
