(* ===== verification/Prelude.v ===== *)
(** * A verification library for ZeroFeed

    ZeroFeed (Go) carries an end-to-end encrypted publish/subscribe stream: a
    publisher and its subscribers meet through an untrusted relay under a session
    ID derived from a shared passphrase, run a password-authenticated key exchange,
    and then exchange sealed frames with an in-stream key ratchet, a replay buffer
    for reconnecting subscribers and file transfer.  This library models the
    program's packages as executable definitions and proves what makes them
    correct, up to the composition publisher - relay - subscriber.

    ** Parts of the program and where they are modelled

    Foundations
    - [Prelude.v]: machine integers, bytes, big-endian numbers, slices, Go results,
      tactics and hint databases; generic lemmas.
    - [Strings.v], [Hash.v], [Aead.v], [Encoding.v], [Float64.v]: what the code uses
      of Go's [strings], [net], [sha256], [hmac], [aes]/[cipher] (GCM), [sha1],
      [base64], [hex] and [net/url], and of float64 arithmetic and its formatting
      in [fmt], as functions that compute, with published test vectors.
      [Aead.AEAD] is the class the protocol proofs use; [aes256gcm] discharges it.

    Wire format and cryptography
    - [Protocol.v]: src/pkg/protocol/messages.go, envelope.go.  Headers, [Encode],
      [DecodeWithMax] (generic in the reader: [DecodeFrom]), padding.
    - [Memory.v]: src/pkg/crypto/memzero.go and the buffer pool of ringbuffer.go,
      over an explicit store with aliasing.
    - [RingBuffer.v]: src/pkg/feed/ringbuffer.go, with its abstract queue [RingSpec].
    - [Cipher.v]: src/pkg/crypto/cipher.go, by value; [CipherMem.v]: the key arrays of
      its objects in the explicit store, and that they are overwritten.
    - [Pake.v]: src/pkg/crypto/pake.go and the identifiers of session_id.go.  X25519,
      ML-KEM-768 and Argon2id come from outside: class [KeyExchange].

    The clients (src/pkg/feed, src/main.go, src/cmd/wasm)
    - [Engine.v]: connections, the state-and-error monad, sealed frames.
    - [Publisher.v], [Subscriber.v]: the two engines, every method, each run to
      completion.
    - [PubThreads.v]: the publisher's methods as steps of goroutines that share the
      engine, cut at its mutexes and its atomic counter; the state [Engine] is the
      engine with the holders of [mu], [writeMu], [rekeyMu] and the goroutines'
      program counters, [pub_next] is a step.  [PubLocks.v]: deadlock and progress.
      [PubRaces.v]: a goroutine alone against the sequential method, and races.
    - [SubThreads.v]: the subscriber's stream as a program of steps ([prog]), with
      [Close] coming at any place between them ([exec]); a Hoare logic for it ([wp]).
    - [Sanitize.v], [Files.v]: terminal sanitising and file reception of
      [SubscribeStream]; [FileTransfer.v]: [SendFile]; [Progress.v]: progress.go.
    - [Feed.v]: the two engines together.
    - [Invite.v], [Dial.v]: invite.go, relay_list.go and the dialling half of
      session_id.go.  [Transport.v]: src/pkg/transport; quic-go is the class
      [QuicLib] with its documented behaviour as the laws [QuicLaws].
    - [Wasm.v]: the functions the browser build exports, and scripts that call them.
    - [Cli.v]: sub-commands, flags, code generation, settings, log levels.  [Terminal.v]: the
      notices, banners, usage and version texts, and the records of src/pkg/logger.
    - [Session.v]: [main], [runPublish] and [runSubscribe] around the engines, from
      the arguments to the exit status.

    The relay (src/pkg/relay)
    - [RateLimit.v], [ProxyProto.v], [WebSocket.v]: ratelimit.go, proxy_proto.go,
      websocket.go.  [MetricsPage.v]: the page of metrics.go.
    - [RelaySession.v], [RelayServer.v]: session.go, server.go and the stream
      handler of server_quic.go as a transition system.  The state [Server] holds
      heaps of sockets, clients and sessions, the session map, the metrics, the
      clock and the goroutines with their program counters ([pc]); [thread_step]
      runs one goroutine to its next interaction, [relay_next] is a step of the
      relay, and [oracle] carries the choices of the Go run-time (select, map order,
      read-ahead).
    - [RelayInv.v], [RelayProps.v], [RelayFifo.v]: the invariant by induction on
      runs, and what follows from it.
    - [RelayNode.v]: the process around the server: [runRelay] and [main] of
      src/main.go, the listeners and HTTP servers of server.go and server_quic.go,
      signals and shutdown.  The state [Node] holds the server and where each of
      these goroutines is; [node_next] is a step of one of them or of the server.
    - [System.v]: publisher, relay and subscriber composed.

    ** What the theorems show

    - Delivery: the payloads a subscriber outputs are the published ones, once and
      in order, across ratchets, heartbeats and the relay, over which the handshake
      takes place too, and from the standard input of one process to the standard output of another
      ([System.relayed_delivery], [Session.piped_session], [Feed.end_to_end_delivery],
      [FileTransfer.file_transfer],
      [Feed.replay_catches_up], [RelayFifo.relay_fifo], [RelayFifo.writer_drains]).
    - Keys: the handshake and the key exchange agree, keys stay in step and are
      scrubbed, nonces are not reused, tampering stops the session
      ([Feed.handshake_shares_key], [Pake.pake_agreement], [Pake.confirm_binds_key],
      [Publisher.publisher_key_sync], [Feed.nonce_never_reused],
      [Subscriber.tampered_frame_stops], [Feed.publisher_close],
      [Cipher.Decrypt_accepts_iff], [CipherMem.cipher_lifecycle], and [Session.exit_wipes]
      for runs that no signal interrupts);
      [Feed.seqnum_unauthenticated] marks the limit of the protection against tampering.
    - Goroutines of the publisher: keys, nonces and buffers are safe in every
      interleaving, a goroutine alone does what the sequential method does, and
      without [Close] all calls complete ([PubThreads.goroutines_safe],
      [PubRaces.publish_alone], [PubLocks.streaming_completes]).  Where the locking
      falls short is proved too: a deadlock with [Close], a message lost to a
      reordering, a frame stranded by a ratchet, and two races with [Close]
      ([PubLocks.close_deadlock], [PubRaces.overtaken_message_lost],
      [PubRaces.late_frame_stops_stream], [PubRaces.close_races]).
    - The subscriber against [Close]: cut into steps the stream is the sequential
      one, a stream that does not reconnect leaves no secret behind wherever [Close]
      comes, and where it does not hold: a reconnection that undoes [Close], a panic
      ([SubThreads.stream_refines], [SubThreads.close_stops_stream],
      [SubThreads.close_misses_reconnection], [SubThreads.close_during_rekey]).
    - The relay: invariants of every reachable state and interleaving, isolation of
      sessions, creation and reaping of sessions, the rate limiter
      ([RelayProps.relay_safe], [RelayProps.session_isolation],
      [RelayProps.only_handshake_creates_session], [RelayProps.reaper_exact],
      [RelayProps.orphan_removes_new_session], [RateLimit.ban_lasts],
      [RateLimit.ban_ends], [ProxyProto.proxied_client_identified],
      [MetricsPage.metrics_roundtrip]).  All of it holds of the relay process, which
      runs what was configured and which an interrupt brings to its end ([RelayNode.node_refines],
      [RelayNode.node_shutdown]); [RelayNode.session_after_shutdown] is a session
      that outlives the shutdown.
    - Browsers: a WebSocket connection is indistinguishable from a byte stream, and
      the WebAssembly join is the native join ([WebSocket.ws_decode_equiv],
      [WebSocket.ws_roundtrip], [Wasm.wasm_native_join]), and wiping forgets it
      ([Wasm.wasm_wipe_forgets]).
    - Formats and entry points: round trips and errors of frames and invitations,
      pinned and QUIC dialling, flags, sizes, what the banners reveal ([Protocol.Encode_Decode_roundtrip],
      [Protocol.Decode_canonical], [Protocol.Decode_errors],
      [Invite.invite_roundtrip], [Dial.pinned_dial], [Transport.quic_dial],
      [Cli.join_follows_invite], [Terminal.banners_reveal],
      [Cli.parseByteSize_spec], [Cli.relay_port]).
    - Subscriber, ring and output: exactly-once delivery against any relay,
      termination and bounded back-off, refinement of the queue, safe terminal
      output ([Subscriber.subscriber_exactly_once],
      [Subscriber.SubscribeStream_terminates], [Subscriber.reconnect_bounded],
      [RingBuffer.Push_refines], [RingBuffer.replay_complete_unless_overflow],
      [Sanitize.sanitize_safe]); byte counts and the progress bar, with the rounding
      of their floating-point arithmetic ([Progress.FormatBytes_spec],
      [Progress.progress_complete]).

    ** Conventions, bounds and fuel

    A [uintN] is a [Z] reduced by [wrap N] where the code can overflow; a byte is
    [Byte.byte]; a time or duration is a [Z] of nanoseconds.  What the environment
    decides (clock, random bytes, dial and file results, stale pool contents) is an
    argument.  An [io.Reader] is the list of bytes and errors it will deliver, so
    loops over it recurse on that list or take its length as fuel, which they cannot
    exhaust: every turn consumes at least one element ([fill], [unframe],
    [decode_stream]).  [SubscribeStream] takes fuel bounded by the input and the
    number of reconnections, whose list ends where the context does;
    [SubscribeStream_terminates] shows that this bound
    suffices.  [parse_flags] takes the number of arguments, [split_str] and [runes]
    the length of the text.  [unitLoop] takes 7, more turns than dividing an int64 by
    1024 can need ([FormatBytes_spec]).  [redraw] consumes the list of random draws and is
    partial when they run out.

    ** Not modelled

    - src/pkg/crypto/memlock_*.go: system calls ([mlockall], core-dump limits).
    - Sockets below reads, writes and accepts, the request parsing of [net/http], the
      layout of [log/slog] records, certificate creation and quic-go: libraries.
      What they answer is an argument of the steps that use it.
    - The signal handler of a publisher or subscriber is a [Close] between any two
      steps ([PubThreads.v], [SubThreads.v]); that of the relay is in [RelayNode.v].
    - Data races below the steps of [pub_next], [SubThreads.step], [thread_step] and
      [node_next] (a field read while another goroutine writes it outside a lock) are not modelled.

    Open in the plan: refusal of a busy relay seen from the client; liveness of
    forwarding under a fair scheduler for several subscribers; [SendFile] as a
    goroutine of its own in [PubThreads.v]. *)

From Stdlib Require Export ZArith Lia Sorting.Sorted.
From Stdlib Require Export Strings.Byte.
From stdpp Require Export base tactics option list gmap strings.

Set Default Proof Using "Type".
#[global] Open Scope Z_scope.

(** ** Machine integers *)

(** A [w]-bit unsigned value: Go's [uint8], [uint16], [uint32], [uint64]
    conversions and additions reduce modulo [2^w]. *)
Definition wrap (w z : Z) : Z := z `mod` 2 ^ w.

Definition u64_add (a b : Z) : Z := wrap 64 (a + b).

(** [int64], and [int] on 64-bit machines, wraps around at both ends. *)
Definition int64 (z : Z) : Prop := - 2 ^ 63 <= z < 2 ^ 63.
Definition s64 (z : Z) : Z := (z + 2 ^ 63) `mod` 2 ^ 64 - 2 ^ 63.

(** [Time.Sub] saturates at the ends of [time.Duration]. *)
Definition time_sub (a b : Z) : Z := Z.max (- 2 ^ 63) (Z.min (2 ^ 63 - 1) (a - b)).

(** ** Bytes *)

Definition Z_of_byte (b : byte) : Z := Z.of_N (Byte.to_N b).

Definition byte_of_Z (z : Z) : byte :=
  match Byte.of_N (Z.to_N (wrap 8 z)) with
  | Some b => b
  | None => x00
  end.

#[global] Instance byte_eq_dec : EqDecision byte := Byte.byte_eq_dec.

Abbreviation bytes := (list byte).

(** [len s] as a Go [int]. *)
Abbreviation zlen l := (Z.of_nat (length l)).

Definition zeros (n : nat) : bytes := replicate n x00.

(** ** Big-endian integers: [encoding/binary.BigEndian] *)

Fixpoint be_bytes (n : nat) (z : Z) : bytes :=
  match n with
  | O => []
  | S n' => byte_of_Z (z `div` 256 ^ Z.of_nat n') :: be_bytes n' z
  end.

Fixpoint be_val_acc (acc : Z) (l : bytes) : Z :=
  match l with
  | [] => acc
  | b :: l' => be_val_acc (acc * 256 + Z_of_byte b) l'
  end.

Definition be_val (l : bytes) : Z := be_val_acc 0 l.

(** ** Go slices: sub-slicing and the builtin [copy] *)

(** [l[i:j]] for in-range bounds. *)
Definition slice {A} (i j : nat) (l : list A) : list A := take (j - i) (drop i l).

(** [copy(dst[i:], src)]: writes as much of [src] as fits. *)
Definition copy_at {A} (i : nat) (dst src : list A) : list A :=
  take i dst ++ take (length dst - i) src ++ drop (i + length src) dst.

(** ** Results: Go's [(value, error)] pairs *)

Inductive result (E A : Type) : Type :=
  | Ok (a : A)
  | Err (e : E).
Arguments Ok {E A} a.
Arguments Err {E A} e.

Definition result_bind {E A B} (m : result E A) (k : A -> result E B) : result E B :=
  match m with Ok a => k a | Err e => Err e end.

Declare Scope go_scope.
Delimit Scope go_scope with go.
Notation "'let?' x ':=' m 'in' k" := (result_bind m (fun x => k))
  (at level 10, x pattern, m at level 100, k at level 200) : go_scope.
#[global] Open Scope go_scope.

(** ** Tactics and hint databases *)

Create HintDb zf discriminated.
Create Rewrite HintDb zf_len.

(** Split boolean guards of the goal or the context into cases. *)
Ltac zcase :=
  repeat match goal with
  | |- context [?a <? ?b] => destruct (Z.ltb_spec a b)
  | |- context [?a <=? ?b] => destruct (Z.leb_spec a b)
  | |- context [?a =? ?b] => destruct (Z.eqb_spec a b)
  | H : context [?a <? ?b] |- _ => destruct (Z.ltb_spec a b)
  | H : context [?a <=? ?b] |- _ => destruct (Z.leb_spec a b)
  | H : context [?a =? ?b] |- _ => destruct (Z.eqb_spec a b)
  end.

(** Length arithmetic on byte strings. *)
Ltac len_lia := autorewrite with zf_len in *; cbn [length] in *; lia.

(** Name the first [n] elements of a list known to be at least that long. *)
Tactic Notation "explode" integer(k) hyp(l) :=
  do k (destruct l as [|? l]; [exfalso; simpl in *; lia|]).

(** The same when [k] is the exact length. *)
Tactic Notation "explode_all" integer(k) hyp(l) :=
  do k (destruct l as [|? l]; [exfalso; simpl in *; lia|]);
  destruct l; [|exfalso; simpl in *; lia].

(** ** Lemmas: lengths *)

Lemma length_slice {A} i j (l : list A) : length (slice i j l) = Nat.min (j - i) (length l - i).
Proof. unfold slice. rewrite length_take, length_drop. lia. Qed.

Lemma length_copy_at {A} i (dst src : list A) :
  (i <= length dst)%nat -> length (copy_at i dst src) = length dst.
Proof. intros. unfold copy_at. rewrite !length_app, !length_take, length_drop. lia. Qed.

Lemma length_zeros n : length (zeros n) = n.
Proof. apply length_replicate. Qed.

Lemma length_be_bytes n z : length (be_bytes n z) = n.
Proof. induction n; simpl; congruence. Qed.

#[global] Hint Rewrite @length_app @length_take @length_drop @length_slice @length_replicate
  length_zeros length_be_bytes @length_fmap : zf_len.

(** ** Lemmas: bytes *)

Lemma Z_of_byte_range b : 0 <= Z_of_byte b < 256.
Proof. unfold Z_of_byte. pose proof (Byte.to_N_bounded b). lia. Qed.

Lemma Z_of_byte_of_Z z : Z_of_byte (byte_of_Z z) = wrap 8 z.
Proof.
  unfold byte_of_Z. assert (Hr : 0 <= wrap 8 z < 256) by (apply Z.mod_pos_bound; lia).
  destruct (Byte.of_N (Z.to_N (wrap 8 z))) as [b|] eqn:E.
  - apply Byte.to_of_N in E. unfold Z_of_byte. rewrite E. lia.
  - apply Byte.of_N_None_iff in E. lia.
Qed.

Lemma Z_of_byte_inj b c : Z_of_byte b = Z_of_byte c -> b = c.
Proof.
  unfold Z_of_byte. intros H. apply N2Z.inj in H.
  pose proof (Byte.of_to_N b). pose proof (Byte.of_to_N c). congruence.
Qed.

Lemma byte_of_Z_of_byte b : byte_of_Z (Z_of_byte b) = b.
Proof.
  apply Z_of_byte_inj. rewrite Z_of_byte_of_Z. apply Z.mod_small.
  pose proof (Z_of_byte_range b). lia.
Qed.

Lemma byte_of_Z_wrap z : byte_of_Z (wrap 8 z) = byte_of_Z z.
Proof. unfold byte_of_Z, wrap. by rewrite Zmod_mod. Qed.

(** ** Lemmas: big-endian round trips *)

Lemma be_val_acc_app acc l1 l2 :
  be_val_acc acc (l1 ++ l2) = be_val_acc (be_val_acc acc l1) l2.
Proof. revert acc; induction l1; simpl; auto. Qed.

Lemma be_val_acc_shift l acc :
  be_val_acc acc l = acc * 256 ^ zlen l + be_val l.
Proof.
  unfold be_val. revert acc. induction l as [|b l IH]; intros acc; simpl be_val_acc; [simpl; lia|].
  rewrite IH, (IH (0 * 256 + _)). simpl length.
  rewrite Nat2Z.inj_succ, Z.pow_succ_r by lia. lia.
Qed.

Lemma be_val_cons b l : be_val (b :: l) = Z_of_byte b * 256 ^ zlen l + be_val l.
Proof. unfold be_val at 1. simpl. rewrite be_val_acc_shift. lia. Qed.

Lemma be_val_range l : 0 <= be_val l < 256 ^ zlen l.
Proof.
  induction l as [|b l IH]; [cbv; split; congruence|].
  rewrite be_val_cons. simpl length. rewrite Nat2Z.inj_succ, Z.pow_succ_r by lia.
  pose proof (Z_of_byte_range b). nia.
Qed.

Lemma pow256_pos n : 0 < 256 ^ Z.of_nat n.
Proof. apply Z.pow_pos_nonneg; lia. Qed.

Lemma be_val_bytes n z : be_val (be_bytes n z) = z `mod` 256 ^ Z.of_nat n.
Proof.
  induction n as [|n IH]; simpl be_bytes; [by rewrite Z.mod_1_r|].
  rewrite be_val_cons, IH, length_be_bytes, Z_of_byte_of_Z. unfold wrap.
  rewrite Nat2Z.inj_succ, Z.pow_succ_r by lia. pose proof (pow256_pos n).
  rewrite (Z.mul_comm 256), Z.rem_mul_r by lia. change (2 ^ 8) with 256. ring.
Qed.

Lemma be_bytes_val l : be_bytes (length l) (be_val l) = l.
Proof.
  assert (G : forall l k, be_bytes (length l) (k * 256 ^ zlen l + be_val l) = l).
  { clear l. induction l as [|b l IH]; intros k; [done|].
    simpl length. simpl be_bytes. rewrite be_val_cons. pose proof (be_val_range l). pose proof (pow256_pos (length l)).
    set (p := 256 ^ zlen l) in *.
    replace (256 ^ Z.of_nat (S (length l))) with (256 * p)
      by (unfold p; rewrite <- Z.pow_succ_r by lia; f_equal; lia).
    replace (k * (256 * p) + (Z_of_byte b * p + be_val l))
      with ((k * 256 + Z_of_byte b) * p + be_val l) by lia.
    f_equal; [|apply IH].
    rewrite Z.div_add_l, Z.div_small, Z.add_0_r by lia.
    apply Z_of_byte_inj. rewrite Z_of_byte_of_Z. unfold wrap. change (2 ^ 8) with 256.
    rewrite Z.add_comm, Z_mod_plus_full. apply Z.mod_small, Z_of_byte_range. }
  apply (G l 0).
Qed.

Lemma be_bytes_inj n a b :
  0 <= a < 256 ^ Z.of_nat n -> 0 <= b < 256 ^ Z.of_nat n -> be_bytes n a = be_bytes n b -> a = b.
Proof.
  intros Ha Hb H. apply (f_equal be_val) in H. rewrite !be_val_bytes in H.
  by rewrite !Z.mod_small in H.
Qed.

Lemma be_bytes_val_n n l : length l = n -> be_bytes n (be_val l) = l.
Proof. intros <-. apply be_bytes_val. Qed.

(** ** Lemmas: slices *)

Lemma take_exact {A} n (l r : list A) : length l = n -> take n (l ++ r) = l.
Proof. intros <-. apply take_app_length. Qed.

Lemma drop_exact {A} n (l r : list A) : length l = n -> drop n (l ++ r) = r.
Proof. intros <-. apply drop_app_length. Qed.

Lemma slice_mid {A} i j (l m r : list A) :
  length l = i -> (i + length m)%nat = j -> slice i j (l ++ m ++ r) = m.
Proof.
  intros Hl Hm. unfold slice. rewrite drop_exact by done. apply take_exact. lia.
Qed.

Lemma slice_head {A} n (m r : list A) : length m = n -> slice 0 n (m ++ r) = m.
Proof. intros <-. by apply (slice_mid 0 _ []). Qed.

Lemma slice_skip {A} i j (l r : list A) :
  (length l <= i)%nat -> slice i j (l ++ r) = slice (i - length l) (j - length l) r.
Proof.
  intros. unfold slice. rewrite drop_app_ge by lia. f_equal. lia.
Qed.

Lemma copy_at_exact {A} i (dst src : list A) :
  (i + length src <= length dst)%nat ->
  copy_at i dst src = take i dst ++ src ++ drop (i + length src) dst.
Proof. intros. unfold copy_at. by rewrite (take_ge src) by lia. Qed.

Lemma copy_at_app_l {A} i (dst r src : list A) :
  (i + length src <= length dst)%nat -> copy_at i (dst ++ r) src = copy_at i dst src ++ r.
Proof.
  intros. rewrite !copy_at_exact by (rewrite ?length_app; lia).
  rewrite take_app_le, drop_app_le, <- !app_assoc by lia. done.
Qed.

(** Overwriting the middle segment of a concatenation. *)
Lemma copy_at_mid {A} i (l m r src : list A) :
  length l = i -> length m = length src -> copy_at i (l ++ m ++ r) src = l ++ src ++ r.
Proof.
  intros Hl Hm. rewrite copy_at_exact by (rewrite !length_app; lia).
  rewrite take_exact by done. do 2 f_equal.
  rewrite drop_app_ge by lia. rewrite drop_exact by lia. done.
Qed.

Lemma copy_at_head {A} (m r src : list A) :
  length m = length src -> copy_at 0 (m ++ r) src = src ++ r.
Proof. intros. by apply (copy_at_mid 0 []). Qed.

(** A list of known length splits at any point below it. *)
Lemma split_at {A} n (l : list A) :
  (n <= length l)%nat -> exists l1 l2, l = l1 ++ l2 /\ length l1 = n.
Proof. intros. exists (take n l), (drop n l). rewrite take_drop, length_take. split; [done|lia]. Qed.

Lemma insert_mid {A} i (l r : list A) x y :
  length l = i -> <[i := y]> (l ++ x :: r) = l ++ y :: r.
Proof. intros <-. induction l; simpl; [done|]. by f_equal. Qed.

Lemma nth_mid {A} i (l r : list A) x d : length l = i -> nth i (l ++ x :: r) d = x.
Proof. intros <-. induction l; simpl; auto. Qed.

Lemma filter_none {A} (P : A -> Prop) `{forall x, Decision (P x)} (l : list A) :
  Forall (fun x => ~ P x) l -> filter P l = [].
Proof. induction 1 as [|x l Hx _ IH]; [done|]. by rewrite filter_cons_False. Qed.

Lemma filter_all {A} (P : A -> Prop) `{forall x, Decision (P x)} (l : list A) :
  Forall P l -> filter P l = l.
Proof. induction 1 as [|x l Hx _ IH]; [done|]. by rewrite filter_cons_True, IH. Qed.
