(* ===== verification/Strings.v ===== *)
(** * Byte strings as the standard library's [strings] and [net] treat them

    The helpers the repository's parsers use: searching, splitting, trimming,
    case folding (ASCII), prefixes, decimal numbers, and [net.SplitHostPort]. *)

From S2P Require Import Prelude.

Definition COLON : byte := x3a.
Definition LBRACKET : byte := x5b.
Definition RBRACKET : byte := x5d.

#[global] Instance byte_countable : Countable byte.
Proof. apply (inj_countable Byte.to_N Byte.of_N). apply Byte.of_to_N. Defined.

(** A string literal of the source. *)
Definition str (s : string) : bytes := String.list_byte_of_string s.

Definition eqb (a b : byte) : bool := bool_decide (a = b).

(** [strings.IndexByte], [strings.LastIndexByte]; [None] for -1. *)
Fixpoint index_byte (c : byte) (s : bytes) : option nat :=
  match s with
  | [] => None
  | b :: s' => if eqb b c then Some 0%nat else S <$> index_byte c s'
  end.

Fixpoint last_index_byte (c : byte) (s : bytes) : option nat :=
  match s with
  | [] => None
  | b :: s' =>
      match last_index_byte c s' with
      | Some i => Some (S i)
      | None => if eqb b c then Some 0%nat else None
      end
  end.

Definition contains_byte (c : byte) (s : bytes) : bool := bool_decide (c ∈ s).

(** [strings.HasPrefix], [strings.HasSuffix], [strings.TrimPrefix] *)
Definition has_prefix (p s : bytes) : bool := bool_decide (take (length p) s = p).
Definition has_suffix (p s : bytes) : bool :=
  (length p <=? length s)%nat && bool_decide (drop (length s - length p) s = p).
Definition trim_prefix (p s : bytes) : bytes := if has_prefix p s then drop (length p) s else s.

(** [strings.Split(s, sep)] for a one-byte separator: always at least one part. *)
Fixpoint split_byte (c : byte) (s : bytes) : list bytes :=
  match s with
  | [] => [[]]
  | b :: s' =>
      if eqb b c then [] :: split_byte c s'
      else match split_byte c s' with
           | [] => [[b]]
           | p :: ps => (b :: p) :: ps
           end
  end.

(** [strings.TrimSpace] on ASCII. *)
Definition is_space (b : byte) : bool :=
  bool_decide (b ∈ [x09; x0a; x0b; x0c; x0d; x20]).
Fixpoint trim_left (s : bytes) : bytes :=
  match s with b :: s' => if is_space b then trim_left s' else s | [] => [] end.
Definition trim_space (s : bytes) : bytes := reverse (trim_left (reverse (trim_left s))).

(** [strings.ToLower] / [strings.ToUpper] on ASCII. *)
Definition lower (b : byte) : byte :=
  if (0x41 <=? Z_of_byte b) && (Z_of_byte b <=? 0x5a) then byte_of_Z (Z_of_byte b + 32) else b.
Definition upper (b : byte) : byte :=
  if (0x61 <=? Z_of_byte b) && (Z_of_byte b <=? 0x7a) then byte_of_Z (Z_of_byte b - 32) else b.
Definition to_lower (s : bytes) : bytes := lower <$> s.
Definition to_upper (s : bytes) : bytes := upper <$> s.

(** [fmt]'s [%d] of an unsigned 64-bit number: twenty digits are enough. *)
Definition digit (n : Z) : byte := byte_of_Z (0x30 + n).
Fixpoint dec_digits (fuel : nat) (n : Z) : bytes :=
  match fuel with
  | O => []
  | S fuel' => (if n <? 10 then [] else dec_digits fuel' (n `div` 10)) ++ [digit (n `mod` 10)]
  end.
Definition dec (n : Z) : bytes := dec_digits 20 n.

(** The number a digit string denotes. *)
Definition dec_val (s : bytes) : Z := fold_left (fun acc b => acc * 10 + (Z_of_byte b - 0x30)) s 0.

(** [net.SplitHostPort]: [host:port] or [[host]:port]; [None] on an error. *)
Definition SplitHostPort (hostport : bytes) : option (bytes * bytes) :=
  match last_index_byte COLON hostport with
  | None => None
  | Some i =>
      let finish host j k :=
        if contains_byte LBRACKET (drop j hostport) || contains_byte RBRACKET (drop k hostport) then None
        else Some (host, drop (S i) hostport) in
      if has_prefix [LBRACKET] hostport then
        match index_byte RBRACKET hostport with
        | None => None
        | Some e => if (S e =? i)%nat then finish (slice 1 e hostport) 1%nat (S e) else None
        end
      else
        let host := take i hostport in
        if contains_byte COLON host then None else finish host 0%nat 0%nat
  end.

(** [net.JoinHostPort] *)
Definition JoinHostPort (host port : bytes) : bytes :=
  if contains_byte COLON host then [LBRACKET] ++ host ++ [RBRACKET; COLON] ++ port
  else host ++ [COLON] ++ port.

(** The host part of a remote address, or the whole of it
    (ratelimit.go:51-54, 84-87, 108-111). *)
Definition host_of (remoteAddr : bytes) : bytes :=
  match SplitHostPort remoteAddr with Some (host, _) => host | None => remoteAddr end.

(** ** Facts *)

Lemma last_index_byte_app c l r :
  c ∉ r -> last_index_byte c (l ++ c :: r) = Some (length l).
Proof.
  intros Hr. assert (last_index_byte c r = None) as E.
  { induction r as [|b r IH]; [done|]. apply not_elem_of_cons in Hr as [Hb Hr].
    simpl. rewrite IH by done. unfold eqb. by rewrite bool_decide_false by congruence. }
  induction l as [|b l IH]; simpl.
  - rewrite E. unfold eqb. by rewrite bool_decide_true by done.
  - by rewrite IH.
Qed.

Lemma index_byte_app c l r : c ∉ l -> index_byte c (l ++ c :: r) = Some (length l).
Proof.
  intros Hl. induction l as [|b l IH]; simpl.
  - unfold eqb. by rewrite bool_decide_true.
  - apply not_elem_of_cons in Hl as [Hb Hl]. unfold eqb. rewrite bool_decide_false by congruence.
    by rewrite IH.
Qed.

Lemma split_byte_none c s : c ∉ s -> split_byte c s = [s].
Proof.
  induction s as [|b s IH]; intros H; [done|]. apply not_elem_of_cons in H as [H1 H2].
  cbn [split_byte]. unfold eqb. rewrite bool_decide_false by congruence. by rewrite IH.
Qed.

Lemma split_byte_app c l r : c ∉ l -> split_byte c (l ++ c :: r) = l :: split_byte c r.
Proof.
  induction l as [|b l IH]; intros H; cbn [app split_byte].
  - unfold eqb. by rewrite bool_decide_true.
  - apply not_elem_of_cons in H as [H1 H2]. unfold eqb. rewrite bool_decide_false by congruence. by rewrite IH.
Qed.

(** Decimal printing: the value comes back, and only digits are printed. *)
Lemma digit_val n : 0 <= n < 10 -> Z_of_byte (digit n) = 0x30 + n.
Proof. intros H. unfold digit. rewrite Z_of_byte_of_Z. apply Z.mod_small. lia. Qed.

Lemma dec_digits_val fuel n : 0 <= n < 10 ^ Z.of_nat fuel -> dec_val (dec_digits fuel n) = n.
Proof.
  revert n. induction fuel as [|fuel IH]; intros n Hn; [simpl in *; unfold dec_val; simpl; lia|].
  rewrite Nat2Z.inj_succ, Z.pow_succ_r in Hn by lia. cbn [dec_digits].
  pose proof (Z.mod_pos_bound n 10 ltac:(lia)). unfold dec_val. rewrite fold_left_app. cbn [fold_left].
  fold (dec_val (if n <? 10 then [] else dec_digits fuel (n `div` 10))). rewrite digit_val by lia.
  destruct (Z.ltb_spec n 10).
  - rewrite Z.mod_small by lia. unfold dec_val. simpl. lia.
  - rewrite IH by (split; [apply Z.div_pos; lia|apply Z.div_lt_upper_bound; lia]).
    pose proof (Z.div_mod n 10). lia.
Qed.

Lemma dec_dec_val n : 0 <= n < 2 ^ 64 -> dec_val (dec n) = n.
Proof. intros H. apply dec_digits_val. change (10 ^ Z.of_nat 20) with 100000000000000000000. lia. Qed.

Lemma dec_digits_only fuel n b : 0 <= n -> b ∈ dec_digits fuel n -> 0x30 <= Z_of_byte b <= 0x39.
Proof.
  revert n. induction fuel as [|fuel IH]; intros n Hn; cbn [dec_digits]; [by rewrite elem_of_nil|].
  pose proof (Z.mod_pos_bound n 10 ltac:(lia)).
  rewrite elem_of_app, list_elem_of_singleton. intros [Hb| ->]; [|rewrite digit_val by lia; lia].
  destruct (n <? 10); [by apply elem_of_nil in Hb|]. eapply IH, Hb. apply Z.div_pos; lia.
Qed.

(** A separator that occurs in neither tail splits uniquely. *)
Lemma app_sep_inj (c : byte) l1 r1 l2 r2 :
  c ∉ r1 -> c ∉ r2 -> l1 ++ c :: r1 = l2 ++ c :: r2 -> l1 = l2 /\ r1 = r2.
Proof.
  intros H1 H2 E. pose proof (last_index_byte_app c l1 r1 H1) as E1.
  rewrite E, (last_index_byte_app c l2 r2 H2) in E1. injection E1 as E1.
  apply app_inj_1 in E as [-> E]; [|done]. by injection E as ->.
Qed.

(** Splitting an address put together from a host and a port gives them back:
    plain hosts, and bracketed ones (IPv6). *)
Lemma SplitHostPort_plain host port :
  COLON ∉ host -> LBRACKET ∉ host ++ port -> RBRACKET ∉ host ++ port -> COLON ∉ port ->
  SplitHostPort (host ++ COLON :: port) = Some (host, port).
Proof.
  intros H1 H2 H3 H4. unfold SplitHostPort. rewrite last_index_byte_app by done.
  assert (LBRACKET ∉ host ++ COLON :: port) as H2'.
  { rewrite elem_of_app, elem_of_cons in *. intros [?|[?|?]]; [tauto|discriminate|tauto]. }
  assert (RBRACKET ∉ host ++ COLON :: port) as H3'.
  { rewrite elem_of_app, elem_of_cons in *. intros [?|[?|?]]; [tauto|discriminate|tauto]. }
  assert (has_prefix [LBRACKET] (host ++ COLON :: port) = false) as ->.
  { unfold has_prefix. apply bool_decide_eq_false. intros E. apply H2'.
    destruct (host ++ COLON :: port); [discriminate|]. simpl in E. rewrite take_0 in E. injection E as ->. apply list_elem_of_here. }
  rewrite take_app_length. unfold contains_byte. rewrite bool_decide_false by done.
  rewrite !drop_0, !bool_decide_false by done. cbn [orb].
  rewrite drop_app_ge by lia. by replace (S (length host) - length host)%nat with 1%nat by lia.
Qed.

Lemma SplitHostPort_bracketed host port :
  LBRACKET ∉ host ++ port -> RBRACKET ∉ host ++ port -> COLON ∉ port ->
  SplitHostPort ([LBRACKET] ++ host ++ [RBRACKET; COLON] ++ port) = Some (host, port).
Proof.
  intros H1 H2 H3. unfold SplitHostPort. rewrite elem_of_app in H1, H2.
  set (a := [LBRACKET] ++ host ++ [RBRACKET; COLON] ++ port).
  assert (last_index_byte COLON a = Some (S (S (length host)))) as ->.
  { unfold a. replace ([LBRACKET] ++ host ++ [RBRACKET; COLON] ++ port)
      with (([LBRACKET] ++ host ++ [RBRACKET]) ++ COLON :: port) by (rewrite <- !app_assoc; done).
    rewrite last_index_byte_app by done. rewrite !length_app. simpl. f_equal. lia. }
  assert (has_prefix [LBRACKET] a = true) as -> by (by apply bool_decide_eq_true).
  assert (index_byte RBRACKET a = Some (S (length host))) as ->.
  { unfold a. change ([LBRACKET] ++ host ++ [RBRACKET; COLON] ++ port)
      with ((LBRACKET :: host) ++ RBRACKET :: COLON :: port).
    apply (index_byte_app RBRACKET (LBRACKET :: host)). rewrite elem_of_cons. intros [?|?]; [discriminate|tauto]. }
  rewrite Nat.eqb_refl. unfold contains_byte.
  assert (drop 1 a = host ++ RBRACKET :: COLON :: port) as -> by done.
  assert (drop (S (S (length host))) a = COLON :: port) as ->.
  { change (drop (S (length host)) (host ++ RBRACKET :: COLON :: port) = COLON :: port).
    rewrite drop_app_ge by lia. by replace (S (length host) - length host)%nat with 1%nat by lia. }
  rewrite !bool_decide_false.
  - cbn [orb]. f_equal. f_equal.
    + unfold slice, a. cbn [app]. rewrite skipn_cons, skipn_O.
      replace (S (length host) - 1)%nat with (length host) by lia. by rewrite take_app_length.
    + change (drop (S (S (length host))) (host ++ RBRACKET :: COLON :: port) = port).
      rewrite drop_app_ge by lia. by replace (S (S (length host)) - length host)%nat with 2%nat by lia.
  - rewrite elem_of_cons. intros [?|?]; [discriminate|tauto].
  - rewrite elem_of_app, !elem_of_cons. intros [?|[?|[?|?]]]; [tauto|discriminate|discriminate|tauto].
Qed.
