(* ===== verification/Float64.v ===== *)
(** * [float64]

    Binary64 arithmetic as IEEE 754 defines it, on the Standard Library's
    [SpecFloat] (53 bits of mantissa, exponents up to 1024), with the conversions
    from and to [int64] and the decimal formatting of [fmt] that the progress bar
    uses, and what is exact about them. *)

From Stdlib Require Import Floats.SpecFloat.
From S2P Require Import Prelude Strings.

(** ** Operations *)

(** [float64(z)] *)
Definition f64 (z : Z) : spec_float := binary_normalize 53 1024 z 0 false.
Definition fdiv (x y : spec_float) : spec_float := SFdiv 53 1024 x y.
Definition fmul (x y : spec_float) : spec_float := SFmul 53 1024 x y.
Definition fadd (x y : spec_float) : spec_float := SFadd 53 1024 x y.
(** [x > y]; false when one of them is not a number. *)
Definition fgt (x y : spec_float) : bool := SFltb y x.

(** [int64(x)]: truncation; the language leaves a value that does not fit to the
    implementation, [oor]. *)
Definition ftrunc (x : spec_float) : option Z :=
  match x with
  | S754_zero _ => Some 0
  | S754_finite s m e => Some (cond_Zopp s (if 0 <=? e then Zpos m * 2 ^ e else Zpos m `div` 2 ^ (- e)))
  | _ => None
  end.
Definition to_int (oor : spec_float -> Z) (x : spec_float) : Z :=
  match ftrunc x with
  | Some z => if (- 2 ^ 63 <=? z) && (z <? 2 ^ 63) then z else oor x
  | None => oor x
  end.

(** ** Formatting *)

(** [n / d] rounded to the nearest integer, a half to the even one. *)
Definition half_even (n d : Z) : Z :=
  let q := n `div` d in
  match 2 * (n `mod` d) ?= d with
  | Lt => q
  | Gt => q + 1
  | Eq => if Z.even q then q else q + 1
  end.

(** A natural number, with at least [w] digits. *)
Definition dec_pad (w : nat) (n : Z) : bytes := let ds := dec n in replicate (w - length ds) x30 ++ ds.

(** [N / 10^prec] as a decimal fraction. *)
Definition decimal (prec : nat) (N : Z) : bytes :=
  dec (N `div` 10 ^ Z.of_nat prec) ++ x2e :: dec_pad prec (N `mod` 10 ^ Z.of_nat prec).

(** [%.<prec>f] *)
Definition fmt_f (prec : nat) (x : spec_float) : bytes :=
  match x with
  | S754_nan => str "NaN"
  | S754_infinity s => (if s then x2d else x2b) :: str "Inf"
  | S754_zero s => (if s then [x2d] else []) ++ decimal prec 0
  | S754_finite s m e =>
      let n := Zpos m * 10 ^ Z.of_nat prec in
      (if s then [x2d] else []) ++ decimal prec (if 0 <=? e then n * 2 ^ e else half_even n (2 ^ (- e)))
  end.

(** Padding with spaces on the left ([%5s] and the like). *)
Definition pad_left (w : nat) (s : bytes) : bytes := replicate (w - length s) x20 ++ s.

(** [%d] and [%02d] of an [int]. *)
Definition fmt_d (n : Z) : bytes := if n <? 0 then x2d :: dec (- n) else dec n.
Definition fmt_02d (n : Z) : bytes := if n <? 0 then x2d :: dec (- n) else dec_pad 2 n.

Example fmt_f_third : fmt_f 2 (fdiv (f64 1) (f64 3)) = str "0.33".
Proof. reflexivity. Qed.
Example fmt_f_tie : (fmt_f 1 (fdiv (f64 1) (f64 4)), fmt_f 1 (fdiv (f64 3) (f64 4))) = (str "0.2", str "0.8").
Proof. reflexivity. Qed.

(** ** Rounding *)

Lemma digits2_log2 m : Zpos (digits2_pos m) = Z.log2 (Zpos m) + 1.
Proof.
  induction m as [m IH|m IH|]; [| |done]; cbn [digits2_pos]; rewrite Pos2Z.inj_succ, IH.
  - rewrite Pos2Z.inj_xI, Z.log2_succ_double by lia. lia.
  - rewrite Pos2Z.inj_xO, Z.log2_double by lia. lia.
Qed.

Lemma iter_xO m d : Zpos (Pos.iter xO m d) = Zpos m * 2 ^ Zpos d.
Proof.
  induction d as [|d IH] using Pos.peano_ind; [cbn; lia|].
  rewrite Pos.iter_succ, Pos2Z.inj_xO, IH, Pos2Z.inj_succ, Z.pow_succ_r by lia. lia.
Qed.

Lemma shr_1_half r : 0 <= shr_m r -> shr_m (shr_1 r) = shr_m r `div` 2.
Proof.
  destruct r as [[|[p|p|]|p] rr ss]; cbn [shr_1 shr_m]; intros; try lia; try done.
  - apply (Z.div_unique_pos _ _ _ 1); lia.
  - apply (Z.div_unique_pos _ _ _ 0); lia.
Qed.

Lemma iter_shr n r : 0 <= shr_m r -> shr_m (SpecFloat.iter_pos shr_1 n r) = shr_m r `div` 2 ^ Zpos n /\ 0 <= shr_m (SpecFloat.iter_pos shr_1 n r).
Proof.
  revert r. induction n as [n IH|n IH|]; intros r Hr; cbn [SpecFloat.iter_pos].
  - pose proof (shr_1_half r Hr) as E. assert (0 <= shr_m (shr_1 r)) by (rewrite E; apply Z.div_pos; lia).
    destruct (IH _ H) as [E1 H1], (IH _ H1) as [E2 H2]. split; [|done].
    assert (Ep : 2 ^ Zpos n~1 = 2 * 2 ^ Zpos n * 2 ^ Zpos n)
      by (replace (Zpos n~1) with (1 + Zpos n + Zpos n) by lia; rewrite !Z.pow_add_r by lia; lia).
    rewrite E2, E1, E, Ep. rewrite !Z.div_div by lia. f_equal; ring.
  - destruct (IH _ Hr) as [E1 H1], (IH _ H1) as [E2 H2]. split; [|done].
    assert (Ep : 2 ^ Zpos n~0 = 2 ^ Zpos n * 2 ^ Zpos n) by (replace (Zpos n~0) with (Zpos n + Zpos n) by lia; apply Z.pow_add_r; lia).
    rewrite E2, E1, Ep. rewrite !Z.div_div by lia. f_equal; ring.
  - split; [by apply shr_1_half|]. rewrite shr_1_half by done. apply Z.div_pos; lia.
Qed.

(** A mantissa of 53 bits needs no rounding, an even one of 54 bits loses its last
    bit. *)
Lemma round_53 s m e :
  Z.log2 (Zpos m) = 52 -> -1074 <= e <= 971 -> binary_round_aux 53 1024 s (Zpos m) e loc_Exact = S754_finite s m e.
Proof.
  intros Hm He. unfold binary_round_aux, shr_fexp, fexp, emin. cbn [Zdigits2 shr_record_of_loc].
  rewrite digits2_log2, Hm. replace (Z.max (52 + 1 + e - 53) (3 - 1024 - 53) - e) with 0 by lia.
  cbn [shr shr_m loc_of_shr_record round_nearest_even shr_record_of_loc Zdigits2]. rewrite digits2_log2, Hm.
  replace (Z.max (52 + 1 + e - 53) (3 - 1024 - 53) - e) with 0 by lia. cbn [shr shr_m].
  by rewrite (proj2 (Z.leb_le e (1024 - 53))) by lia.
Qed.

Lemma round_54 s m e :
  Z.log2 (Zpos m) = 52 -> -1074 <= e <= 971 ->
  binary_round_aux 53 1024 s (Zpos m~0) (e - 1) loc_Exact = S754_finite s m e.
Proof.
  intros Hm He. pose proof (round_53 s m e Hm He) as H53.
  unfold binary_round_aux in *. unfold shr_fexp at 1. cbn [Zdigits2 shr_record_of_loc].
  rewrite (digits2_log2 m~0), Pos2Z.inj_xO, Z.log2_double, Hm by lia. unfold fexp, emin.
  replace (Z.max (Z.succ 52 + 1 + (e - 1) - 53) (3 - 1024 - 53) - (e - 1)) with 1 by lia.
  cbn [shr SpecFloat.iter_pos shr_1 shr_m loc_of_shr_record round_nearest_even orb]. replace (e - 1 + 1) with e by lia.
  unfold shr_fexp in H53 at 1. cbn [Zdigits2 shr_record_of_loc] in H53. rewrite digits2_log2, Hm in H53.
  unfold fexp at 1, emin at 1 in H53.
  replace (Z.max (52 + 1 + e - 53) (3 - 1024 - 53) - e) with 0 in H53 by lia.
  exact H53.
Qed.

(** Small integers are represented exactly, normalised to 53 bits. *)
Lemma f64_exact b :
  0 < b < 2 ^ 53 -> exists m, f64 b = S754_finite false m (Z.log2 b - 52) /\
    Zpos m = b * 2 ^ (52 - Z.log2 b) /\ Z.log2 (Zpos m) = 52.
Proof.
  intros [H0 H1]. destruct b as [|b|b]; try lia.
  assert (Hl : 0 <= Z.log2 (Zpos b) <= 52).
  { split; [apply Z.log2_nonneg|]. enough (Z.log2 (Zpos b) < 53) by lia. by apply Z.log2_lt_pow2. }
  unfold f64, binary_normalize, binary_round. rewrite digits2_log2. unfold shl_align, fexp, emin.
  replace (Z.max (Z.log2 (Zpos b) + 1 + 0 - 53) (3 - 1024 - 53) - 0) with (Z.log2 (Zpos b) - 52) by lia.
  replace (Z.max (Z.log2 (Zpos b) + 1 + 0 - 53) (3 - 1024 - 53)) with (Z.log2 (Zpos b) - 52) by lia.
  assert (Hlog : forall d, 0 <= d -> Z.log2 (Zpos b * 2 ^ d) = d + Z.log2 (Zpos b)) by (intros; by apply Z.log2_mul_pow2).
  destruct (Z.log2 (Zpos b) - 52) as [|d|d] eqn:Ed; [|lia|].
  - exists b. replace (52 - Z.log2 (Zpos b)) with 0 by lia. rewrite round_53 by lia. split; [done|]. lia.
  - exists (Pos.iter xO b d). replace (52 - Z.log2 (Zpos b)) with (Zpos d) by lia.
    assert (Z.log2 (Zpos (Pos.iter xO b d)) = 52) by (rewrite iter_xO, Hlog; lia).
    rewrite round_53 by lia. split; [done|]. split; [apply iter_xO|done].
Qed.

(** Every positive [int64] becomes a finite number. *)
Lemma f64_finite z : 0 < z < 2 ^ 63 -> exists m e, f64 z = S754_finite false m e.
Proof.
  intros [H0 H1]. destruct (Z.lt_ge_cases z (2 ^ 53)) as [Hlt|Hge].
  { destruct (f64_exact z ltac:(lia)) as (m & E & _). eauto. }
  destruct z as [|z|z]; try lia.
  assert (Hl : 53 <= Z.log2 (Zpos z) < 63).
  { split; [by apply Z.log2_le_pow2|by apply Z.log2_lt_pow2]. }
  unfold f64, binary_normalize, binary_round. rewrite digits2_log2. unfold shl_align, fexp, emin.
  replace (Z.max (Z.log2 (Zpos z) + 1 + 0 - 53) (3 - 1024 - 53) - 0) with (Z.log2 (Zpos z) - 52) by lia.
  destruct (Z.log2 (Zpos z) - 52) as [|d|d] eqn:Ed; [lia| |lia]. unfold binary_round_aux, shr_fexp at 1.
  cbn [Zdigits2 shr_record_of_loc]. rewrite digits2_log2. unfold fexp at 1, emin at 1.
  replace (Z.max (Z.log2 (Zpos z) + 1 + 0 - 53) (3 - 1024 - 53) - 0) with (Zpos d) by lia. cbn [shr].
  set (r := SpecFloat.iter_pos _ _ _). destruct (iter_shr d (Build_shr_record (Zpos z) false false)) as [E Hr]; [cbn; lia|].
  fold r in E, Hr. cbn [shr_m] in E.
  assert (Hm : 2 ^ 52 <= shr_m r < 2 ^ 53).
  { pose proof (Z.log2_spec (Zpos z) ltac:(lia)) as [Ha Hb]. rewrite E. split.
    - apply Z.div_le_lower_bound; [lia|]. rewrite <- Z.pow_add_r by lia. by replace (Zpos d + 52) with (Z.log2 (Zpos z)) by lia.
    - apply Z.div_lt_upper_bound; [lia|]. rewrite <- Z.pow_add_r by lia. by replace (Zpos d + 53) with (Z.succ (Z.log2 (Zpos z))) by lia. }
  set (q := round_nearest_even _ _).
  assert (Hq : 2 ^ 52 <= q <= 2 ^ 53).
  { unfold q, round_nearest_even. repeat case_match; lia. }
  clearbody q. destruct q as [|q|q]; [lia| |lia]. unfold shr_fexp. cbn [Zdigits2 shr_record_of_loc]. rewrite digits2_log2.
  assert (Hlq : 52 <= Z.log2 (Zpos q) <= 53).
  { split; [apply Z.log2_le_pow2; lia|exact (Z.log2_le_mono _ _ (proj2 Hq))]. }
  unfold fexp, emin. destruct (Z.eq_dec (Z.log2 (Zpos q)) 52) as [El|El].
  - rewrite El. replace (Z.max (52 + 1 + (0 + Zpos d) - 53) (3 - 1024 - 53) - (0 + Zpos d)) with 0 by lia. cbn [shr shr_m].
    rewrite (proj2 (Z.leb_le (0 + Zpos d) (1024 - 53))) by lia. eauto.
  - replace (Z.log2 (Zpos q)) with 53 by lia.
    replace (Z.max (53 + 1 + (0 + Zpos d) - 53) (3 - 1024 - 53) - (0 + Zpos d)) with 1 by lia. cbn [shr].
    destruct (iter_shr 1 (Build_shr_record (Zpos q) false false)) as [E1 _]; [cbn; lia|]. rewrite E1. cbn [shr_m].
    assert (Hpos : 2 ^ 51 <= Zpos q `div` 2 ^ 1) by (apply Z.div_le_lower_bound; lia).
    destruct (Zpos q `div` 2 ^ 1) as [|q'|q']; [lia| |lia].
    rewrite (proj2 (Z.leb_le (0 + Zpos d + 1) (1024 - 53))) by lia. eauto.
Qed.

(** ** Division *)

Lemma fdiv_self s m e : fdiv (S754_finite s m e) (S754_finite s m e) = f64 1.
Proof.
  unfold fdiv, SFdiv, SFdiv_core_binary. rewrite xorb_nilpotent, !Z.sub_diag.
  change (Z.min (fexp 53 1024 0) 0) with (-53). change (0 - -53) with 53. cbv iota zeta.
  rewrite Z.shiftl_mul_pow2 by lia. pose proof (Z_div_mod (Zpos m * 2 ^ 53) (Zpos m) ltac:(lia)) as Hd.
  destruct (Z.div_eucl (Zpos m * 2 ^ 53) (Zpos m)) as [q r]. destruct Hd as [E Hr].
  assert (q = 2 ^ 53 /\ r = 0) as [-> ->].
  { destruct (Z.div_mod_unique (Zpos m) q (2 ^ 53) r 0); [left; lia..|lia|done]. }
  unfold new_location, new_location_even, new_location_odd. destruct (Z.even _); reflexivity.
Qed.

(** Division by a power of two is exact. *)
Lemma fdiv_pow2 m1 e1 e2 :
  Z.log2 (Zpos m1) = 52 -> -1000 <= e1 - e2 <= 1000 - 53 ->
  fdiv (S754_finite false m1 e1) (S754_finite false (2 ^ 52) e2) = S754_finite false m1 (e1 - e2 - 52).
Proof.
  intros Hm He. unfold fdiv, SFdiv, SFdiv_core_binary. cbn [Zdigits2 xorb]. rewrite !digits2_log2, Hm.
  change (Z.log2 (Zpos (2 ^ 52))) with 52. unfold fexp, emin.
  replace (Z.min (Z.max (52 + 1 + e1 - (52 + 1 + e2) - 53) (3 - 1024 - 53)) (e1 - e2)) with (e1 - e2 - 53) by lia.
  replace (e1 - e2 - (e1 - e2 - 53)) with 53 by lia. cbv iota zeta. rewrite Z.shiftl_mul_pow2 by lia.
  pose proof (Z_div_mod (Zpos m1 * 2 ^ 53) (Zpos (2 ^ 52)) ltac:(lia)) as Hd.
  destruct (Z.div_eucl (Zpos m1 * 2 ^ 53) (Zpos (2 ^ 52))) as [q r]. destruct Hd as [E Hr].
  assert (q = Zpos m1~0 /\ r = 0) as [-> ->].
  { destruct (Z.div_mod_unique (Zpos (2 ^ 52)) q (Zpos m1~0) r 0); [left; lia..| |done].
    rewrite <- E, Pos2Z.inj_xO, Pos2Z.inj_pow. change (2 ^ 53) with (2 * 2 ^ 52). lia. }
  change (new_location (Zpos (2 ^ 52)) 0) with loc_Exact.
  replace (e1 - e2 - 53) with (e1 - e2 - 52 - 1) by lia. apply round_54; lia.
Qed.

Lemma half_even_scale n d c : 0 < d -> 0 < c -> half_even (n * c) (d * c) = half_even n d.
Proof.
  intros Hd Hc. unfold half_even. rewrite Z.div_mul_cancel_r, Z.mul_mod_distr_r by lia.
  rewrite Z.mul_assoc. by rewrite (Zmult_compare_compat_r (2 * (n `mod` d)) d c) by lia.
Qed.

Lemma half_even_bounds n d lo hi : 0 < d -> lo * d <= n <= hi * d -> lo <= half_even n d <= hi.
Proof.
  intros Hd [Hlo Hhi]. unfold half_even. pose proof (Z.div_mod n d ltac:(lia)). pose proof (Z.mod_pos_bound n d Hd).
  assert (lo <= n `div` d) by nia. assert (n `div` d <= hi) by nia.
  assert (n `div` d = hi -> n `mod` d = 0) by nia.
  destruct (Z.compare_spec (2 * (n `mod` d)) d); repeat case_match; nia.
Qed.
