(* ===== verification/Protocol.v ===== *)
(** * Wire protocol: [pkg/protocol/messages.go] and [pkg/protocol/envelope.go]

    The 38-byte ZFED frame header, the frame encoder and decoder and the
    payload padding.  A [uint8] field is a [byte]; a [[16]byte] array is a byte
    list whose length is part of [Envelope_wf].  An [io.Reader] is the sequence
    of bytes and errors its [Read] calls deliver ([reader]); the end of the list
    is a permanent [EOF].  An [io.Writer] is the byte string one [Write] call is
    given. *)

From S2P Require Import Prelude.

(** ** Constants (messages.go:5-33, envelope.go:18-24,125-130) *)

Definition Version : byte := x03.
Definition MinSupportedVersion : byte := x03.

Definition MsgTypePAKEInitPub : byte := x01.
Definition MsgTypePAKEInitSub : byte := x02.
Definition MsgTypePAKEStep2 : byte := x03.
Definition MsgTypeDataStream : byte := x04.
Definition MsgTypeHeartbeat : byte := x05.
Definition MsgTypeClose : byte := x06.
Definition MsgTypeSyncReq : byte := x07.
Definition MsgTypeChunkAck : byte := x08.
Definition MsgTypeRekey : byte := x09.
Definition MsgTypeKeyConfirm : byte := x0a.

Definition TagText : byte := x01.
Definition TagFileStart : byte := x02.
Definition TagFileChunk : byte := x03.
Definition TagFileEnd : byte := x04.

Definition MagicSize : nat := 4.
Definition SessionIDSize : nat := 16.
Definition NonceSize : nat := 12.
Definition HeaderSize : nat := MagicSize + 1 + 1 + SessionIDSize + NonceSize + 4.

Definition MagicHeader : bytes := [x5a; x46; x45; x44].

Definition MaxPayloadSize : Z := 32 * 1024 * 1024.
Definition MaxHandshakePayload : Z := 8192.
Definition framePoolSize : Z := 64 * 1024.

Definition DefaultPaddingTargetSize : Z := 1280.
Definition lenPrefixSize : nat := 4.

(** ** Data (messages.go:45-52) *)

Record Envelope := mkEnvelope {
  env_Version : byte;
  env_MsgType : byte;
  env_SessionID : bytes;
  env_Nonce : bytes;
  env_Payload : bytes
}.

#[global] Instance Envelope_eq_dec : EqDecision Envelope.
Proof. solve_decision. Defined.

(** The fixed-size arrays of the Go struct. *)
Definition Envelope_wf (env : Envelope) : Prop :=
  length (env_SessionID env) = SessionIDSize /\ length (env_Nonce env) = NonceSize.

(** The zero value of a [[12]byte] nonce, in the frames that carry none. *)
Definition zeroNonce : bytes := zeros NonceSize.

(** ** Readers *)

Inductive io_error := EOF | UnexpectedEOF | Timeout | ConnError.

#[global] Instance io_error_eq_dec : EqDecision io_error.
Proof. solve_decision. Defined.

Abbreviation reader := (list (byte + io_error)).

(** A reader that delivers exactly [bs]. *)
Definition reader_of (bs : bytes) : reader := inl <$> bs.

(** [io.ReadFull(r, buf)] with [len(buf) = n]: an error after the first byte
    turns [EOF] into [ErrUnexpectedEOF]; the bytes already read are gone. *)
Fixpoint read_full_from (started : bool) (n : nat) (r : reader) : result io_error bytes * reader :=
  match n with
  | O => (Ok [], r)
  | S n' =>
      let eof := if started then UnexpectedEOF else EOF in
      match r with
      | [] => (Err eof, [])
      | inr e :: r' => (Err (match e with EOF => eof | _ => e end), r')
      | inl b :: r' =>
          match read_full_from true n' r' with
          | (Ok l, r'') => (Ok (b :: l), r'')
          | (Err e, r'') => (Err e, r'')
          end
      end
  end.

Definition read_full : nat -> reader -> result io_error bytes * reader := read_full_from false.

(** ** Frame header (messages.go:55-63) *)

Definition SerializeHeader (buf : bytes) (version msgType : byte) (sessionID nonce : bytes)
    (payloadLen : Z) : bytes :=
  let buf := copy_at 0 buf MagicHeader in
  let buf := <[4%nat := version]> buf in
  let buf := <[5%nat := msgType]> buf in
  let buf := copy_at 6 buf (take 16 sessionID) in
  let buf := copy_at 22 buf (take 12 nonce) in
  copy_at 34 buf (be_bytes 4 payloadLen).

(** ** Encode (envelope.go:35-63) *)

Inductive encode_error := EncPayloadTooLarge.

(** [pool] is the buffer [framePool.Get] returns: 64 KB with the contents of
    whatever frame used it last.  The result is the argument of the one
    [w.Write] call. *)
Definition Encode (pool : bytes) (env : Envelope) : result encode_error bytes :=
  let payloadLen := wrap 32 (zlen (env_Payload env)) in
  if MaxPayloadSize <? payloadLen then Err EncPayloadTooLarge
  else
    let fullSize := Z.of_nat HeaderSize + payloadLen in
    let buf := if fullSize <=? framePoolSize
               then take (Z.to_nat fullSize) pool
               else zeros (Z.to_nat fullSize) in
    let buf := SerializeHeader buf (env_Version env) (env_MsgType env)
                 (env_SessionID env) (env_Nonce env) payloadLen in
    Ok (if 0 <? payloadLen then copy_at HeaderSize buf (env_Payload env) else buf).

(** ** Decode (envelope.go:66-121) *)

Inductive decode_error :=
  | ErrRead (e : io_error)
  | ErrInvalidMagic
  | ErrUnsupportedVer (version : byte)
  | ErrPayloadTooLarge
  | ErrReadPayload (payloadLen : Z) (e : io_error).

#[global] Instance decode_error_eq_dec : EqDecision decode_error.
Proof. solve_decision. Defined.

(** The decoder reads its [io.Reader] only through [io.ReadFull]; [readFull] is
    that operation on the reader's type [R]. *)
Definition DecodeFrom {R : Type} (readFull : nat -> R -> result io_error bytes * R)
    (r : R) (maxPayload : Z) : result decode_error Envelope * R :=
  match readFull HeaderSize r with
  | (Err e, r1) => (Err (ErrRead e), r1)
  | (Ok headerBuf, r1) =>
      if negb (bool_decide (slice 0 4 headerBuf = MagicHeader)) then (Err ErrInvalidMagic, r1)
      else
        let version := nth 4 headerBuf x00 in
        if Z_of_byte version <? Z_of_byte MinSupportedVersion
        then (Err (ErrUnsupportedVer version), r1)
        else
          let msgType := nth 5 headerBuf x00 in
          let sessionID := slice 6 22 headerBuf in
          let nonce := slice 22 34 headerBuf in
          let payloadLen := be_val (slice 34 38 headerBuf) in
          if maxPayload <? payloadLen then (Err ErrPayloadTooLarge, r1)
          else if 0 <? payloadLen then
            match readFull (Z.to_nat payloadLen) r1 with
            | (Err e, r2) => (Err (ErrReadPayload payloadLen e), r2)
            | (Ok payload, r2) =>
                (Ok (mkEnvelope version msgType sessionID nonce payload), r2)
            end
          else (Ok (mkEnvelope version msgType sessionID nonce []), r1)
  end.

Definition DecodeWithMax (r : reader) (maxPayload : Z) : result decode_error Envelope * reader :=
  DecodeFrom read_full r maxPayload.

Definition Decode (r : reader) : result decode_error Envelope * reader :=
  DecodeWithMax r MaxPayloadSize.

Definition DecodeEnvelope (data : bytes) : result decode_error Envelope :=
  fst (Decode (reader_of data)).

(** [errors.Is(err, io.EOF)] on a decoder error: both wrap with [%w]. *)
Definition decode_error_is_EOF (e : decode_error) : bool :=
  match e with
  | ErrRead EOF | ErrReadPayload _ EOF => true
  | _ => false
  end.

(** ** Padding (envelope.go:133-158) *)

Definition PadPayload (data : bytes) (targetSize : Z) : bytes :=
  let realLen := zlen data in
  let needed := realLen + Z.of_nat lenPrefixSize in
  let targetSize := if targetSize <? needed then needed else targetSize in
  let out := zeros (Z.to_nat targetSize) in
  let out := copy_at 0 out (be_bytes 4 (wrap 32 realLen)) in
  if 0 <? realLen then copy_at lenPrefixSize out data else out.

Inductive pad_error := ErrInvalidPadding.

Definition UnpadPayload (data : bytes) : result pad_error bytes :=
  if zlen data <? Z.of_nat lenPrefixSize then Err ErrInvalidPadding
  else
    let realLen := be_val (slice 0 lenPrefixSize data) in
    if zlen data <? realLen + Z.of_nat lenPrefixSize then Err ErrInvalidPadding
    else Ok (slice lenPrefixSize (lenPrefixSize + Z.to_nat realLen) data).

#[global] Arguments DecodeWithMax : simpl never.
#[global] Arguments Decode : simpl never.
#[global] Arguments Encode : simpl never.
#[global] Arguments PadPayload : simpl never.
#[global] Arguments UnpadPayload : simpl never.
#[global] Arguments SerializeHeader : simpl never.

(** ** The frame as one byte string *)

Definition header_bytes (version msgType : byte) (sessionID nonce : bytes) (payloadLen : Z) : bytes :=
  MagicHeader ++ [version] ++ [msgType] ++ sessionID ++ nonce ++ be_bytes 4 payloadLen.

(** What [Encode] puts on the wire for a well-formed envelope. *)
Definition frame_bytes (env : Envelope) : bytes :=
  header_bytes (env_Version env) (env_MsgType env) (env_SessionID env) (env_Nonce env)
    (zlen (env_Payload env)) ++ env_Payload env.

#[global] Arguments header_bytes : simpl never.
#[global] Arguments frame_bytes : simpl never.

Lemma frame_bytes_mk v t s n p :
  frame_bytes (mkEnvelope v t s n p) = header_bytes v t s n (zlen p) ++ p.
Proof. reflexivity. Qed.

(** An envelope [Decode] can return: array sizes, supported version, bounded
    payload. *)
Record Envelope_ok (max : Z) (env : Envelope) : Prop := {
  ok_wf : Envelope_wf env;
  ok_version : Z_of_byte MinSupportedVersion <= Z_of_byte (env_Version env);
  ok_size : zlen (env_Payload env) <= max
}.

Lemma SerializeHeader_spec buf v t sid n len :
  length sid = 16%nat -> length n = 12%nat -> (HeaderSize <= length buf)%nat ->
  SerializeHeader buf v t sid n len = header_bytes v t sid n len ++ drop HeaderSize buf.
Proof.
  intros Hs Hn Hb. unfold SerializeHeader, header_bytes.
  change HeaderSize with 38%nat in *.
  destruct (split_at 38 buf Hb) as (h & r & -> & Hh). rewrite (drop_exact 38) by done. clear Hb.
  explode_all 16 sid. explode_all 12 n. explode_all 38 h.
  rewrite copy_at_app_l, !insert_app_l, !copy_at_app_l by (vm_compute; lia). reflexivity.
Qed.

Lemma length_header_bytes v t sid n len :
  length sid = 16%nat -> length n = 12%nat -> length (header_bytes v t sid n len) = HeaderSize.
Proof. intros Hs Hn. unfold header_bytes. rewrite !length_app, length_be_bytes, Hs, Hn. done. Qed.

(** The encoder writes [frame_bytes] whatever the pooled buffer held. *)
Lemma Encode_spec pool env :
  Envelope_wf env -> length pool = Z.to_nat framePoolSize ->
  zlen (env_Payload env) <= MaxPayloadSize -> Encode pool env = Ok (frame_bytes env).
Proof.
  intros [Hs Hn] Hp Hl. unfold Encode, frame_bytes.
  assert (Hw : wrap 32 (zlen (env_Payload env)) = zlen (env_Payload env))
    by (apply Z.mod_small; unfold MaxPayloadSize in *; lia).
  rewrite Hw. destruct (Z.ltb_spec MaxPayloadSize (zlen (env_Payload env))); [lia|].
  set (buf := if _ <=? framePoolSize then _ else _).
  assert (Hbuf : length buf = (HeaderSize + length (env_Payload env))%nat).
  { unfold buf, framePoolSize in *. zcase; len_lia. }
  rewrite SerializeHeader_spec by (done || lia).
  assert (Hd : length (drop HeaderSize buf) = length (env_Payload env)) by len_lia.
  pose proof (length_header_bytes (env_Version env) (env_MsgType env) _ _
    (zlen (env_Payload env)) Hs Hn) as Hh.
  f_equal. zcase.
  - rewrite <- (app_nil_r (drop HeaderSize buf)). rewrite copy_at_mid by done.
    by rewrite app_nil_r.
  - f_equal. destruct (env_Payload env) as [|? ?]; [|simpl in *; lia].
    by apply nil_length_inv.
Qed.

(** ** Readers over known bytes *)

Lemma reader_of_app l1 l2 : reader_of (l1 ++ l2) = reader_of l1 ++ reader_of l2.
Proof. apply fmap_app. Qed.

Lemma read_full_from_app s l r :
  read_full_from s (length l) (reader_of l ++ r) = (Ok l, r).
Proof. revert s. induction l as [|b l IH]; intros s; simpl; [done|]. by rewrite IH. Qed.

Lemma read_full_app n l r : length l = n -> read_full n (reader_of l ++ r) = (Ok l, r).
Proof. intros <-. apply read_full_from_app. Qed.

Lemma read_full_from_inv s n r l r' :
  read_full_from s n r = (Ok l, r') -> r = reader_of l ++ r' /\ length l = n.
Proof.
  revert s r l r'. induction n as [|n IH]; intros s r l r' H; simpl in H; [by inversion H|].
  destruct r as [|[b|e] r]; try discriminate.
  destruct (read_full_from true n r) as [[l1|e] r1] eqn:E; [|discriminate].
  apply IH in E as [-> <-]. by inversion H; subst.
Qed.

(** An error before the [n] bytes are complete discards the bytes before it. *)
Lemma read_full_interrupted n l e r :
  (0 < length l < n)%nat -> e <> EOF -> read_full n (reader_of l ++ inr e :: r) = (Err e, r).
Proof.
  unfold read_full. generalize false as s. revert n.
  induction l as [|b l IH]; intros n s Hn He; simpl in Hn; [lia|].
  destruct n as [|n]; [lia|]. simpl. destruct l as [|b' l].
  - destruct n; [lia|]. simpl. by destruct e.
  - rewrite IH by (simpl in *; lia || done). done.
Qed.

(** ** Decoding a header *)

Lemma DecodeWithMax_header v t sid n len rest max :
  length sid = 16%nat -> length n = 12%nat -> 0 <= len < 2 ^ 32 ->
  DecodeWithMax (reader_of (header_bytes v t sid n len) ++ rest) max =
    if Z_of_byte v <? Z_of_byte MinSupportedVersion then (Err (ErrUnsupportedVer v), rest)
    else if max <? len then (Err ErrPayloadTooLarge, rest)
    else match read_full (Z.to_nat len) rest with
         | (Err e, r2) => (Err (ErrReadPayload len e), r2)
         | (Ok payload, r2) => (Ok (mkEnvelope v t sid n payload), r2)
         end.
Proof.
  intros Hs Hn Hl. unfold DecodeWithMax, DecodeFrom.
  rewrite read_full_app by (by apply length_header_bytes).
  unfold header_bytes.
  assert (E1 : slice 0 4 (MagicHeader ++ [v] ++ [t] ++ sid ++ n ++ be_bytes 4 len) = MagicHeader)
    by (by apply slice_head).
  assert (E2 : nth 4 (MagicHeader ++ [v] ++ [t] ++ sid ++ n ++ be_bytes 4 len) x00 = v)
    by (apply (nth_mid 4 MagicHeader); done).
  assert (E3 : nth 5 (MagicHeader ++ [v] ++ [t] ++ sid ++ n ++ be_bytes 4 len) x00 = t)
    by (apply (nth_mid 5 (MagicHeader ++ [v])); done).
  assert (E4 : slice 6 22 (MagicHeader ++ [v] ++ [t] ++ sid ++ n ++ be_bytes 4 len) = sid)
    by (apply (slice_mid 6 22 (MagicHeader ++ [v] ++ [t])); simpl; lia).
  assert (E5 : slice 22 34 (MagicHeader ++ [v] ++ [t] ++ sid ++ n ++ be_bytes 4 len) = n).
  { replace (MagicHeader ++ [v] ++ [t] ++ sid ++ n ++ be_bytes 4 len)
      with ((MagicHeader ++ [v] ++ [t] ++ sid) ++ n ++ be_bytes 4 len)
      by (rewrite <- !app_assoc; done).
    apply slice_mid; rewrite ?length_app; simpl; lia. }
  assert (E6 : be_val (slice 34 38 (MagicHeader ++ [v] ++ [t] ++ sid ++ n ++ be_bytes 4 len)) = len).
  { replace (MagicHeader ++ [v] ++ [t] ++ sid ++ n ++ be_bytes 4 len)
      with ((MagicHeader ++ [v] ++ [t] ++ sid ++ n) ++ be_bytes 4 len ++ [])
      by (rewrite <- !app_assoc, app_nil_r; done).
    rewrite slice_mid by (rewrite ?length_app, ?length_be_bytes; simpl; lia).
    rewrite be_val_bytes. apply Z.mod_small. simpl. lia. }
  rewrite E1, E2, E3, E4, E5, E6. rewrite bool_decide_true by done. simpl negb. cbv iota.
  zcase; try done. replace len with 0 by lia. done.
Qed.

(** Decoding inverts [frame_bytes] and leaves the rest of the stream. *)
Lemma DecodeWithMax_frame max env rest :
  max < 2 ^ 32 -> Envelope_ok max env ->
  DecodeWithMax (reader_of (frame_bytes env) ++ rest) max = (Ok env, rest).
Proof.
  intros Hm [[Hs Hn] Hv Hl]. unfold frame_bytes. rewrite reader_of_app, <- app_assoc.
  rewrite DecodeWithMax_header by (done || lia). zcase; try lia.
  rewrite read_full_app by lia. by destruct env.
Qed.

(** A decoded envelope is well formed and its frame is exactly what was read. *)
Lemma DecodeWithMax_inv max r env r' :
  DecodeWithMax r max = (Ok env, r') ->
  r = reader_of (frame_bytes env) ++ r' /\ Envelope_ok max env.
Proof.
  unfold DecodeWithMax, DecodeFrom. destruct (read_full HeaderSize r) as [[h|e] r1] eqn:E; [|done].
  apply read_full_from_inv in E as [-> Hh].
  case_bool_decide as Hm; cbn [negb]; [|done].
  destruct (Z.ltb_spec (Z_of_byte (nth 4 h x00)) (Z_of_byte MinSupportedVersion)) as [|Hv]; [done|].
  set (len := be_val (slice 34 38 h)).
  assert (Hrange : 0 <= len < 2 ^ 32).
  { unfold len. pose proof (be_val_range (slice 34 38 h)) as Hr.
    assert (zlen (slice 34 38 h) = 4) as E4 by (rewrite length_slice, Hh; done).
    rewrite E4 in Hr. lia. }
  (* the header bytes are the fields read from them *)
  assert (Hfields : h = header_bytes (nth 4 h x00) (nth 5 h x00) (slice 6 22 h) (slice 22 34 h) len).
  { unfold header_bytes, len. rewrite be_bytes_val_n by (rewrite length_slice, Hh; done).
    rewrite <- Hm. change HeaderSize with 38%nat in Hh. by explode_all 38 h. }
  assert (length (slice 6 22 h) = 16 /\ length (slice 22 34 h) = 12)%nat as [Hs Hn]
    by (rewrite !length_slice, Hh; done).
  destruct (Z.ltb_spec max len) as [|Hmax]; [done|].
  destruct (Z.ltb_spec 0 len) as [Hpos|Hz].
  - destruct (read_full (Z.to_nat len) r1) as [[p|e] r2] eqn:E2; [|done].
    apply read_full_from_inv in E2 as [-> Hp]. intros [= <- <-].
    assert (Hlen : zlen p = len) by lia. split; [|split; [split|..]; simpl; lia || done].
    rewrite frame_bytes_mk, Hlen, <- Hfields, reader_of_app, app_assoc. done.
  - intros [= <- <-]. split; [|split; [split|..]; simpl; lia || done].
    rewrite frame_bytes_mk, app_nil_r. change (zlen (@nil byte)) with 0. replace 0 with len by lia.
    by rewrite <- Hfields.
Qed.

(** ** Frame streams *)

(** The read loop every peer runs: [Decode] until the stream ends or fails.
    [fuel] bounds the number of frames. *)
Fixpoint decode_stream (fuel : nat) (r : reader) : list Envelope * option decode_error :=
  match fuel with
  | O => ([], None)
  | S fuel' =>
      match Decode r with
      | (Ok env, r') => let (envs, e) := decode_stream fuel' r' in (env :: envs, e)
      | (Err e, _) => ([], Some e)
      end
  end.

Lemma MaxPayloadSize_u32 : MaxPayloadSize < 2 ^ 32.
Proof. done. Qed.

Lemma Decode_frame env rest :
  Envelope_ok MaxPayloadSize env -> Decode (reader_of (frame_bytes env) ++ rest) = (Ok env, rest).
Proof. apply DecodeWithMax_frame, MaxPayloadSize_u32. Qed.

Lemma decode_stream_frames envs rest :
  Forall (Envelope_ok MaxPayloadSize) envs ->
  forall fuel, decode_stream (length envs + fuel) (reader_of (concat (frame_bytes <$> envs)) ++ rest)
    = let (more, e) := decode_stream fuel rest in (envs ++ more, e).
Proof.
  induction 1 as [|env envs Hok _ IH]; intros fuel;
    [simpl; by destruct (decode_stream fuel rest)|].
  rewrite fmap_cons. cbn [concat length Nat.add decode_stream]. rewrite reader_of_app, <- app_assoc, Decode_frame by done. rewrite IH. by destruct (decode_stream fuel rest).
Qed.

(** Distinct well-formed envelopes have distinct frames. *)
Lemma frame_bytes_inj e1 e2 :
  Envelope_ok MaxPayloadSize e1 -> Envelope_ok MaxPayloadSize e2 ->
  frame_bytes e1 = frame_bytes e2 -> e1 = e2.
Proof.
  intros H1 H2 E. pose proof (Decode_frame e1 [] H1) as D1. pose proof (Decode_frame e2 [] H2) as D2.
  rewrite E in D1. congruence.
Qed.

(** ** Padding *)

Lemma PadPayload_spec data t :
  PadPayload data t =
    be_bytes 4 (wrap 32 (zlen data)) ++ data ++
    zeros (Z.to_nat (Z.max t (zlen data + 4) - 4 - zlen data)).
Proof.
  unfold PadPayload, lenPrefixSize.
  set (T := if t <? _ then _ else _).
  assert (HT : T = Z.max t (zlen data + 4)) by (unfold T; zcase; lia). clearbody T. subst T.
  set (k := Z.to_nat (_ - 4 - _)).
  assert (Hz : zeros (Z.to_nat (Z.max t (zlen data + 4))) = zeros 4 ++ zeros (length data) ++ zeros k).
  { unfold zeros. rewrite <- !replicate_add. f_equal. lia. }
  rewrite Hz. clear Hz. rewrite copy_at_head by (by rewrite ?length_be_bytes, ?length_zeros).
  zcase.
  - by rewrite copy_at_mid by (rewrite ?length_be_bytes, ?length_zeros; done).
  - destruct data; [done|simpl in *; lia].
Qed.

Lemma length_PadPayload data t : zlen (PadPayload data t) = Z.max t (zlen data + 4).
Proof. rewrite PadPayload_spec. len_lia. Qed.

Lemma UnpadPayload_prefix n data suffix :
  length data = Z.to_nat n -> 0 <= n < 2 ^ 32 ->
  UnpadPayload (be_bytes 4 n ++ data ++ suffix) = Ok data.
Proof.
  intros Hl Hn. unfold UnpadPayload, lenPrefixSize.
  rewrite slice_head by (apply length_be_bytes).
  rewrite be_val_bytes, Z.mod_small by (simpl; lia).
  zcase; try (exfalso; len_lia).
  by rewrite slice_mid by (rewrite ?length_be_bytes; lia).
Qed.

Lemma UnpadPayload_inv p data :
  UnpadPayload p = Ok data ->
  exists suffix, p = be_bytes 4 (zlen data) ++ data ++ suffix /\ zlen data < 2 ^ 32.
Proof.
  unfold UnpadPayload, lenPrefixSize. zcase; try discriminate.
  set (n := be_val (slice 0 4 p)) in *. intros Hd.
  assert (data = slice 4 (4 + Z.to_nat n) p) as -> by congruence. clear Hd.
  assert (Hp4 : (4 <= length p)%nat) by lia.
  assert (Hn : 0 <= n < 2 ^ 32).
  { unfold n. pose proof (be_val_range (slice 0 4 p)) as Hr.
    replace (zlen (slice 0 4 p)) with 4 in Hr by (rewrite length_slice; lia). lia. }
  exists (drop (4 + Z.to_nat n) p).
  assert (Hlen : zlen (slice 4 (4 + Z.to_nat n) p) = n) by (rewrite length_slice; lia).
  rewrite Hlen. split; [|lia]. unfold n.
  rewrite be_bytes_val_n by (rewrite length_slice; lia). fold n.
  rewrite <- (take_drop 4 p) at 1. unfold slice. rewrite drop_0. f_equal.
  replace (4 + Z.to_nat n - 4)%nat with (Z.to_nat n) by lia.
  rewrite <- (drop_drop p _ 4). by rewrite take_drop.
Qed.

(** * Properties *)

(** C26: A frame written by [Encode], whatever the recycled pool buffer held, is
    read back by [Decode] (with any bound that admits the payload) as the same
    envelope, and the bytes after it stay in the stream. *)
Theorem Encode_Decode_roundtrip pool env max rest :
  length pool = Z.to_nat framePoolSize -> Envelope_ok max env -> max <= MaxPayloadSize ->
  exists bs, Encode pool env = Ok bs /\
    length bs = (HeaderSize + length (env_Payload env))%nat /\
    DecodeWithMax (reader_of bs ++ rest) max = (Ok env, rest).
Proof.
  intros Hp Hok Hm. exists (frame_bytes env). pose proof Hok as [[Hs Hn] _ Hl]. split; [|split].
  - apply Encode_spec; [done..|lia].
  - unfold frame_bytes. by rewrite length_app, length_header_bytes.
  - apply DecodeWithMax_frame; [unfold MaxPayloadSize in *; lia|done].
Qed.

Definition sample_env : Envelope :=
  mkEnvelope Version MsgTypeSyncReq (zeros 16) zeroNonce (be_bytes 8 5).

Lemma sample_env_ok : Envelope_ok MaxHandshakePayload sample_env.
Proof. by repeat split. Qed.

Lemma Encode_Decode_roundtrip_witness :
  exists bs, Encode (zeros (Z.to_nat framePoolSize)) sample_env = Ok bs /\
    length bs = (HeaderSize + length (env_Payload sample_env))%nat /\
    DecodeWithMax (reader_of bs ++ [inl x00]) MaxHandshakePayload = (Ok sample_env, [inl x00]).
Proof.
  apply (Encode_Decode_roundtrip (zeros (Z.to_nat framePoolSize)) sample_env
    MaxHandshakePayload [inl x00]); [apply length_zeros|exact sample_env_ok|done].
Defined.

(** Decoding is canonical: whatever a reader delivers, an accepted frame has
    the magic, a supported version, 16 and 12 byte arrays, a payload within the
    bound, and the bytes consumed are exactly the ones [Encode] writes for it;
    the relay therefore forwards a frame byte for byte. *)
Theorem Decode_canonical pool r max env r' :
  DecodeWithMax r max = (Ok env, r') -> max <= MaxPayloadSize ->
  length pool = Z.to_nat framePoolSize ->
  Envelope_ok max env /\
  exists bs, Encode pool env = Ok bs /\ r = reader_of bs ++ r'.
Proof.
  intros H Hm Hp. apply DecodeWithMax_inv in H as [-> Hok]. split; [done|].
  exists (frame_bytes env). split; [|done]. destruct Hok. apply Encode_spec; [done..|lia].
Qed.

Lemma Decode_canonical_witness :
  Envelope_ok MaxPayloadSize sample_env /\
  exists bs, Encode (zeros (Z.to_nat framePoolSize)) sample_env = Ok bs /\
    reader_of (frame_bytes sample_env) = reader_of bs ++ [].
Proof.
  apply (Decode_canonical _ _ MaxPayloadSize sample_env []);
    [vm_compute; reflexivity|done|apply length_zeros].
Defined.

(** C27: Header errors: on a header with the wrong version or an oversized
    declared length, [DecodeWithMax] reports the matching error having consumed
    the 38 header bytes and none of the payload; with the wrong magic likewise;
    a stream that ends early is [EOF] before the first byte and
    [ErrUnexpectedEOF] after it. *)
Theorem Decode_errors max :
  (forall v t sid n len rest, length sid = 16%nat -> length n = 12%nat -> 0 <= len < 2 ^ 32 ->
     (Z_of_byte v < Z_of_byte MinSupportedVersion ->
        DecodeWithMax (reader_of (header_bytes v t sid n len) ++ rest) max
          = (Err (ErrUnsupportedVer v), rest)) /\
     (Z_of_byte MinSupportedVersion <= Z_of_byte v -> max < len ->
        DecodeWithMax (reader_of (header_bytes v t sid n len) ++ rest) max
          = (Err ErrPayloadTooLarge, rest))) /\
  (forall h rest, length h = HeaderSize -> take 4 h <> MagicHeader ->
     DecodeWithMax (reader_of h ++ rest) max = (Err ErrInvalidMagic, rest)) /\
  DecodeWithMax [] max = (Err (ErrRead EOF), []) /\
  (forall l, (0 < length l < HeaderSize)%nat ->
     DecodeWithMax (reader_of l) max = (Err (ErrRead UnexpectedEOF), [])).
Proof.
  split; [|split; [|split]].
  - intros v t sid n len rest Hs Hn Hl. rewrite DecodeWithMax_header by done.
    split; intros; zcase; done || lia.
  - intros h rest Hh Hm. unfold DecodeWithMax, DecodeFrom. rewrite read_full_app by done.
    change (slice 0 4 h) with (take 4 h). by rewrite bool_decide_false by done.
  - done.
  - intros l Hl. unfold DecodeWithMax, DecodeFrom, read_full.
    assert (E : forall n s l, (0 < length l < n)%nat ->
      read_full_from s n (reader_of l) = (Err UnexpectedEOF, [])).
    { clear. induction n as [|n IH]; intros s l Hl; [lia|]. destruct l as [|b l]; [simpl in Hl; lia|].
      simpl. destruct l as [|b' l]; [destruct n; [simpl in Hl; lia|done]|].
      rewrite IH by (simpl in *; lia). done. }
    by rewrite E.
Qed.

(** A byte stream that is a concatenation of frames is read back as exactly
    those envelopes, in order, then a clean end of file. *)
Theorem decode_stream_roundtrip envs :
  Forall (Envelope_ok MaxPayloadSize) envs ->
  decode_stream (S (length envs)) (reader_of (concat (frame_bytes <$> envs)))
    = (envs, Some (ErrRead EOF)).
Proof.
  intros H. pose proof (decode_stream_frames envs [] H 1) as E.
  rewrite app_nil_r, Nat.add_1_r in E. rewrite E. simpl. by rewrite app_nil_r.
Qed.

Lemma decode_stream_roundtrip_witness :
  decode_stream 3 (reader_of (concat (frame_bytes <$> [sample_env; sample_env])))
    = ([sample_env; sample_env], Some (ErrRead EOF)).
Proof.
  apply (decode_stream_roundtrip [sample_env; sample_env]).
  repeat constructor; done.
Defined.

(** A read deadline that expires inside a frame discards the part already
    read: [Decode] reports the timeout, and the next read starts in the middle
    of the frame. *)
Theorem Decode_timeout_loses_prefix l1 l2 rest :
  (0 < length l1 < HeaderSize)%nat ->
  Decode (reader_of l1 ++ inr Timeout :: reader_of l2 ++ rest)
    = (Err (ErrRead Timeout), reader_of l2 ++ rest).
Proof. intros H. unfold Decode, DecodeWithMax, DecodeFrom. by rewrite read_full_interrupted. Qed.

Lemma Decode_timeout_loses_prefix_witness :
  Decode (reader_of (take 5 (frame_bytes sample_env)) ++ inr Timeout ::
          reader_of (drop 5 (frame_bytes sample_env)) ++ [])
    = (Err (ErrRead Timeout), reader_of (drop 5 (frame_bytes sample_env)) ++ []).
Proof. apply Decode_timeout_loses_prefix. vm_compute. lia. Defined.

(** Unpadding inverts padding for every payload shorter than 4 GB, whatever
    the target size. *)
Theorem Unpad_Pad_roundtrip data targetSize :
  zlen data < 2 ^ 32 -> UnpadPayload (PadPayload data targetSize) = Ok data.
Proof.
  intros H. rewrite PadPayload_spec. unfold wrap. rewrite Z.mod_small by lia.
  apply UnpadPayload_prefix; lia.
Qed.

Lemma Unpad_Pad_roundtrip_witness :
  UnpadPayload (PadPayload [x01; x02] 1280) = Ok [x01; x02].
Proof. apply Unpad_Pad_roundtrip. done. Defined.

(** Padding hides the length: every payload that fits the bucket (at most
    1276 bytes) is padded to exactly 1280 bytes, and a larger one grows by the
    4-byte prefix only. *)
Theorem PadPayload_uniform data :
  zlen (PadPayload data DefaultPaddingTargetSize) =
    (if zlen data <=? 1276 then 1280 else zlen data + 4).
Proof. rewrite length_PadPayload. unfold DefaultPaddingTargetSize. zcase; lia. Qed.

(** [UnpadPayload] never reads past its input: it fails exactly when the
    input is shorter than the prefix or than the declared length, and otherwise
    returns the bytes right after the prefix. *)
Theorem UnpadPayload_bounds p :
  match UnpadPayload p with
  | Ok data => exists suffix, p = be_bytes 4 (zlen data) ++ data ++ suffix
  | Err _ => (length p < 4)%nat \/ zlen p < be_val (take 4 p) + 4
  end.
Proof.
  destruct (UnpadPayload p) as [d|e] eqn:E.
  - apply UnpadPayload_inv in E as (s & ? & _). eauto.
  - unfold UnpadPayload, lenPrefixSize in E. change (slice 0 4 p) with (take 4 p) in E.
    zcase; try discriminate; lia.
Qed.
