(* ===== verification/Memory.v ===== *)
(** * Byte buffers, zeroization and the buffer pool:
    [pkg/crypto/memzero.go] and the pool of [pkg/feed/ringbuffer.go:9-33]

    The store is explicit because the guarantees are about memory: a buffer
    returned to the shared pool, or wiped on exit, holds no plaintext and is
    referenced by nobody else.  A slice is a pointer to a backing array and a
    length; the capacity is the length of the backing array.  [sync.Pool.Get]
    may return any pooled buffer or a new one, so the store carries the list of
    the choices it will make. *)

From S2P Require Import Prelude.

Record Slice := mkSlice { ptr : nat; len : nat }.

#[global] Instance Slice_eq_dec : EqDecision Slice.
Proof. solve_decision. Defined.

(** The process memory: backing arrays, the next free address, [bufPool], the
    pool's future choices, and the registry of memzero.go:9-14. A registered
    wiper is named by a number. *)
Record Mem := mkMem {
  heap : gmap nat bytes;
  next : nat;
  bufPool : list Slice;
  poolChoices : list (option nat);
  registeredWipers : list nat;
  registeredBuffers : list Slice;
  pinnedBuffers : gset nat
}.

Definition emptyMem : Mem := mkMem ∅ 0 [] [] [] [] ∅.

Definition set_heap (f : gmap nat bytes -> gmap nat bytes) (m : Mem) : Mem :=
  mkMem (f (heap m)) (next m) (bufPool m) (poolChoices m)
    (registeredWipers m) (registeredBuffers m) (pinnedBuffers m).
Definition set_pool (p : list Slice) (c : list (option nat)) (m : Mem) : Mem :=
  mkMem (heap m) (next m) p c (registeredWipers m) (registeredBuffers m) (pinnedBuffers m).
Definition set_registry (w : list nat) (b : list Slice) (p : gset nat) (m : Mem) : Mem :=
  mkMem (heap m) (next m) (bufPool m) (poolChoices m) w b p.

(** The backing array of an address and the bytes a slice shows. *)
Definition backing (m : Mem) (p : nat) : bytes := default [] (heap m !! p).
Definition contents (m : Mem) (s : Slice) : bytes := take (len s) (backing m (ptr s)).
Definition cap (m : Mem) (s : Slice) : nat := length (backing m (ptr s)).

(** [make([]byte, n, c)] *)
Definition make_slice (n c : nat) (m : Mem) : Slice * Mem :=
  (mkSlice (next m) n,
   mkMem (<[next m := zeros c]> (heap m)) (S (next m)) (bufPool m) (poolChoices m)
     (registeredWipers m) (registeredBuffers m) (pinnedBuffers m)).

(** [copy(s, src)] *)
Definition copy_slice (s : Slice) (src : bytes) (m : Mem) : Mem :=
  set_heap (alter (fun c => copy_at 0 c (take (len s) src)) (ptr s)) m.

(** ** memzero.go *)

(** [ZeroBytes] (memzero.go:22-41): an empty slice is left alone; otherwise the
    buffer is unpinned and its whole capacity is overwritten. *)
Definition ZeroBytes (b : Slice) (m : Mem) : Mem :=
  if (len b =? 0)%nat then m
  else
    let m := set_registry (registeredWipers m) (registeredBuffers m)
               (pinnedBuffers m ∖ {[ptr b]}) m in
    set_heap (alter (fun c => zeros (length c)) (ptr b)) m.

(** memzero.go:44-48 *)
Definition ZeroBytesSlice (bs : list Slice) (m : Mem) : Mem :=
  fold_left (fun m b => ZeroBytes b m) bs m.

(** memzero.go:51-58; a [nil] callback is not registered. *)
Definition RegisterWiper (fn : option nat) (m : Mem) : Mem :=
  match fn with
  | None => m
  | Some w => set_registry (registeredWipers m ++ [w]) (registeredBuffers m) (pinnedBuffers m) m
  end.

(** memzero.go:61-76 *)
Definition RegisterBuffer (b : Slice) (m : Mem) : Mem :=
  if (len b =? 0)%nat then m
  else set_registry (registeredWipers m) (registeredBuffers m ++ [b])
         ({[ptr b]} ∪ pinnedBuffers m) m.

(** The swap-remove loop of [UnregisterBuffer] (memzero.go:94-102): the first
    registered slice with the same data pointer is replaced by the last one and
    the list shortened. *)
Definition swap_remove (i : nat) (l : list Slice) : list Slice :=
  match last l with
  | None => l
  | Some z => take (length l - 1) (<[i := z]> l)
  end.

Definition UnregisterBuffer (b : Slice) (m : Mem) : Mem :=
  if (len b =? 0)%nat then m
  else
    let regs := registeredBuffers m in
    let regs' := match list_find (fun r => (0 < len r)%nat /\ ptr r = ptr b) regs with
                 | Some (i, _) => swap_remove i regs
                 | None => regs
                 end in
    set_registry (registeredWipers m) regs' (pinnedBuffers m ∖ {[ptr b]}) m.

(** memzero.go:106-116 *)
Definition ClearWipers (m : Mem) : Mem := set_registry [] [] ∅ m.

(** memzero.go:119-144, where [run w] is the effect of callback [w]. *)
Definition WipeAll (run : nat -> Mem -> Mem) (m : Mem) : Mem :=
  let wipers := registeredWipers m in
  let buffers := registeredBuffers m in
  let m := set_registry [] [] ∅ m in
  let m := fold_left (fun m w => run w m) wipers m in
  ZeroBytesSlice buffers m.

(** ** The buffer pool (ringbuffer.go:9-33) *)

(** [bufPool.Get()]: a pooled slice, or [make([]byte, 0, 4096)]. *)
Definition pool_get (m : Mem) : Slice * Mem :=
  let choice := head (poolChoices m) in
  let rest := tail (poolChoices m) in
  match mjoin choice ≫= (fun i => (i,.) <$> bufPool m !! i) with
  | Some (i, s) => (s, set_pool (delete i (bufPool m)) rest m)
  | None => make_slice 0 4096 (set_pool (bufPool m) rest m)
  end.

Definition getBuffer (size : nat) (m : Mem) : Slice * Mem :=
  let (bp, m) := pool_get m in
  if (cap m bp <? size)%nat then make_slice size size m
  else (mkSlice (ptr bp) size, m).

Definition putBuffer (b : option Slice) (m : Mem) : Mem :=
  match b with
  | None => m
  | Some b =>
      let m := ZeroBytes b m in
      set_pool (mkSlice (ptr b) 0 :: bufPool m) (poolChoices m) m
  end.

(** ** Ownership *)

(** A slice in use: its backing array is allocated and clean past its length. *)
Definition slice_ok (m : Mem) (s : Slice) : Prop :=
  exists c, heap m !! ptr s = Some c /\ (len s <= length c)%nat /\
    drop (len s) c = zeros (length c - len s).

(** [owned m ls]: the slices [ls] and the pool are pairwise disjoint, each
    slice of [ls] is usable, every pooled buffer is all zeros, and fresh
    addresses are unused. *)
Record owned (m : Mem) (ls : list Slice) : Prop := {
  owned_nodup : NoDup (ptr <$> ls ++ bufPool m);
  owned_ok : Forall (slice_ok m) ls;
  owned_pool : Forall (fun s => len s = 0%nat /\ slice_ok m s) (bufPool m);
  owned_next : forall p c, heap m !! p = Some c -> (p < next m)%nat
}.

#[global] Instance owned_Permutation m : Proper (Permutation ==> iff) (owned m).
Proof.
  intros l1 l2 HP. split; intros [H1 H2 H3 H4]; split; auto; first [by rewrite <- HP | by rewrite HP].
Qed.

Lemma owned_empty : owned emptyMem [].
Proof. split; simpl; [constructor..|]. intros p c H. by rewrite lookup_empty in H. Qed.

(** Memory [m'] agrees with [m] on the given slices. *)
Definition same_contents (m m' : Mem) (ls : list Slice) : Prop :=
  forall s, s ∈ ls -> contents m' s = contents m s.

Lemma slice_ok_heap m m' s :
  heap m' !! ptr s = heap m !! ptr s -> slice_ok m s -> slice_ok m' s.
Proof. unfold slice_ok. intros ->. done. Qed.

Lemma contents_heap m m' s :
  heap m' !! ptr s = heap m !! ptr s -> contents m' s = contents m s.
Proof. unfold contents, backing. by intros ->. Qed.

Lemma owned_ptr_ne m ls s s' :
  owned m (s :: ls) -> s' ∈ ls ++ bufPool m -> ptr s' <> ptr s.
Proof.
  intros [Hn _ _ _] Hin E. simpl in Hn. apply NoDup_cons in Hn as [Hn _].
  apply Hn. rewrite <- E. by apply list_elem_of_fmap_2.
Qed.

Lemma owned_alloc m ls n c :
  owned m ls -> (n <= c)%nat ->
  let '(s, m') := make_slice n c m in
  owned m' (s :: ls) /\ len s = n /\ contents m' s = zeros n /\ same_contents m m' (ls ++ bufPool m).
Proof.
  intros [Hn Hok Hp Hnx] Hle. simpl.
  assert (Hfresh : heap m !! next m = None).
  { destruct (heap m !! next m) eqn:E; [|done]. apply Hnx in E. lia. }
  assert (Hne : forall s, slice_ok m s -> ptr s <> next m).
  { intros s (b & Hb & _) E. rewrite E in Hb. congruence. }
  set (m' := mkMem _ _ _ _ _ _ _).
  assert (Hframe : forall s, slice_ok m s -> heap m' !! ptr s = heap m !! ptr s).
  { intros s Hs. simpl. rewrite lookup_insert_ne; [done|]. intros E. by apply (Hne s Hs). }
  assert (Hall : Forall (slice_ok m) (ls ++ bufPool m)).
  { apply Forall_app; split; [done|]. eapply Forall_impl; [exact Hp|]. by intros s []. }
  split; [split|split; [done|split]].
  - simpl. apply NoDup_cons. split; [|done]. intros Hin.
    apply list_elem_of_fmap in Hin as (s & E & Hin).
    rewrite Forall_forall in Hall. by apply (Hne s (Hall s Hin)).
  - constructor.
    + exists (zeros c). simpl. rewrite lookup_insert_eq, length_zeros. split; [done|]. split; [done|].
      unfold zeros. by rewrite drop_replicate.
    + eapply Forall_impl; [exact Hok|]. intros s Hs. eapply slice_ok_heap, Hs. by apply Hframe.
  - simpl. eapply Forall_impl; [exact Hp|]. intros s [Hl Hs]. split; [done|].
    eapply slice_ok_heap, Hs. by apply Hframe.
  - simpl. intros p b Hb. apply lookup_insert_Some in Hb as [[<- _]|[_ Hb]]; [lia|].
    apply Hnx in Hb. lia.
  - unfold contents, backing; simpl. rewrite lookup_insert_eq. simpl. unfold zeros.
    rewrite take_replicate. f_equal. lia.
  - intros s Hin. apply contents_heap, Hframe. by rewrite Forall_forall in Hall; apply Hall.
Qed.

Lemma owned_weaken m s ls : owned m (s :: ls) -> owned m ls.
Proof.
  intros [Hn Hok Hp Hnx]. split; auto; [|by apply Forall_cons in Hok as [_ ?]].
  simpl in Hn. by apply NoDup_cons in Hn as [_ ?].
Qed.

(** A clean buffer may be resliced to any length within its capacity. *)
Lemma owned_reslice m s ls n :
  owned m (s :: ls) -> len s = 0%nat -> (n <= cap m s)%nat -> owned m (mkSlice (ptr s) n :: ls).
Proof.
  intros [Hn Hok Hp Hnx] Hl Hc. split; auto. apply Forall_cons in Hok as [(c & Hb & _ & Hz) Hok].
  constructor; [|done]. exists c. rewrite Hl, drop_0, Nat.sub_0_r in Hz.
  unfold cap, backing in Hc. rewrite Hb in Hc. simpl in *. split; [done|]. split; [done|].
  rewrite Hz, length_zeros. unfold zeros. by rewrite drop_replicate.
Qed.

Lemma pool_get_spec m ls :
  owned m ls ->
  let '(s, m') := pool_get m in
  owned m' (s :: ls) /\ len s = 0%nat /\ same_contents m m' ls.
Proof.
  intros Ho. unfold pool_get. set (rest := tail (poolChoices m)).
  destruct (mjoin _ ≫= _) as [[i s]|] eqn:E.
  - assert (Hi : bufPool m !! i = Some s).
    { destruct (mjoin (head (poolChoices m))) as [j|]; [|discriminate]. simpl in E.
      destruct (bufPool m !! j) eqn:Ej; [|discriminate]. simpl in E. congruence. }
    pose proof (delete_Permutation _ _ _ Hi) as HP. destruct Ho as [Hn Hok Hp Hnx].
    rewrite HP in Hp. apply Forall_cons in Hp as [[Hl Hs] Hp].
    split; [split|by split].
    + simpl. rewrite HP, <- Permutation_middle in Hn. done.
    + by constructor.
    + done.
    + done.
  - assert (Ho' : owned (set_pool (bufPool m) rest m) ls) by (by destruct Ho).
    pose proof (owned_alloc _ ls 0 4096 Ho' ltac:(lia)) as (H1 & H2 & _ & H3).
    split; [done|]. split; [done|]. intros s Hs. apply H3, elem_of_app; auto.
Qed.

Lemma getBuffer_spec n m ls :
  owned m ls ->
  let '(s, m') := getBuffer n m in
  owned m' (s :: ls) /\ len s = n /\ same_contents m m' ls.
Proof.
  intros Ho. unfold getBuffer. pose proof (pool_get_spec m ls Ho) as Hg.
  destruct (pool_get m) as [bp m1]. destruct Hg as (H1 & H2 & H3).
  destruct (Nat.ltb_spec (cap m1 bp) n).
  - pose proof (owned_alloc m1 ls n n (owned_weaken _ _ _ H1) ltac:(lia)) as Ha.
    destruct (make_slice n n m1) as [s m2]. destruct Ha as (A1 & A2 & _ & A3).
    split; [done|]. split; [done|]. intros s' Hs. rewrite A3 by (apply elem_of_app; auto). by apply H3.
  - split; [by apply owned_reslice|done].
Qed.

(** Writing a whole slice. *)
Lemma copy_slice_spec s src m ls :
  owned m (s :: ls) -> length src = len s ->
  owned (copy_slice s src m) (s :: ls) /\ contents (copy_slice s src m) s = src /\
  same_contents m (copy_slice s src m) ls.
Proof.
  intros Ho Hl. assert (Hne' : forall s', s' ∈ ls ++ bufPool m -> ptr s' <> ptr s)
    by (intros; by apply (owned_ptr_ne m ls s)).
  destruct Ho as [Hn Hok Hp Hnx].
  apply Forall_cons in Hok as [(c & Hc & Hle & Hz) Hok].
  assert (Hframe : forall s', s' ∈ ls ++ bufPool m ->
    heap (copy_slice s src m) !! ptr s' = heap m !! ptr s').
  { intros s' Hs'. simpl. apply lookup_alter_ne. intros E. by apply (Hne' s'). }
  assert (Hnew : heap (copy_slice s src m) !! ptr s = Some (src ++ drop (len s) c)).
  { simpl. rewrite lookup_alter_eq, Hc. simpl. f_equal. rewrite (take_ge src) by lia.
    rewrite copy_at_exact by lia. simpl. by rewrite Hl. }
  rewrite Forall_forall in Hok. rewrite Forall_forall in Hp.
  split; [split|split].
  - done.
  - constructor.
    + eexists. split; [exact Hnew|]. rewrite length_app, length_drop. split; [lia|].
      rewrite drop_exact by done. rewrite Hz. f_equal. lia.
    + apply Forall_forall. intros s' Hs'. eapply slice_ok_heap, Hok, Hs'. apply Hframe, elem_of_app; auto.
  - apply Forall_forall. intros s' Hs'. destruct (Hp s' Hs'). split; [done|].
    eapply slice_ok_heap; [|done]. apply Hframe, elem_of_app; auto.
  - simpl. intros p b Hb. apply lookup_alter_Some in Hb as [(<- & b' & Hb & _)|[_ Hb]]; eauto.
  - unfold contents, backing. rewrite Hnew. simpl. by apply take_exact.
  - intros s' Hs'. apply contents_heap, Hframe, elem_of_app; auto.
Qed.

(** Returning a slice to the pool scrubs it and gives up its ownership. *)
Lemma putBuffer_spec s m ls :
  owned m (s :: ls) ->
  owned (putBuffer (Some s) m) ls /\ same_contents m (putBuffer (Some s) m) ls.
Proof.
  intros Ho. assert (Hne : forall s', s' ∈ ls ++ bufPool m -> ptr s' <> ptr s)
    by (intros; by apply (owned_ptr_ne m ls s)).
  destruct Ho as [Hn Hok Hp Hnx]. apply Forall_cons in Hok as [(c & Hc & Hle & Hz) Hok].
  set (m' := putBuffer (Some s) m).
  assert (Hpool : bufPool m' = mkSlice (ptr s) 0 :: bufPool m).
  { unfold m', putBuffer, ZeroBytes. by destruct (len s =? 0)%nat. }
  assert (Hframe : forall s', s' ∈ ls ++ bufPool m -> heap m' !! ptr s' = heap m !! ptr s').
  { intros s' Hs'. unfold m', putBuffer, ZeroBytes. destruct (len s =? 0)%nat; [done|].
    simpl. apply lookup_alter_ne. intros E. by apply (Hne s'). }
  assert (Hnew : heap m' !! ptr s = Some (zeros (length c))).
  { unfold m', putBuffer, ZeroBytes. destruct (Nat.eqb_spec (len s) 0) as [E|_]; simpl.
    - rewrite E, drop_0, Nat.sub_0_r in Hz. congruence.
    - by rewrite lookup_alter_eq, Hc. }
  rewrite Forall_forall in Hok. rewrite Forall_forall in Hp.
  split; [split|].
  - rewrite Hpool. simpl in Hn. rewrite <- Permutation_middle. done.
  - apply Forall_forall. intros s' Hs'. eapply slice_ok_heap, Hok, Hs'. apply Hframe, elem_of_app; auto.
  - rewrite Hpool. constructor.
    + split; [done|]. eexists. split; [exact Hnew|]. simpl. split; [lia|].
      by rewrite length_zeros, drop_0, Nat.sub_0_r.
    + apply Forall_forall. intros s' Hs'. destruct (Hp s' Hs'). split; [done|].
      eapply slice_ok_heap; [|done]. apply Hframe, elem_of_app; auto.
  - unfold m', putBuffer, ZeroBytes. destruct (len s =? 0)%nat; simpl; [done|].
    intros p b Hb. apply lookup_alter_Some in Hb as [(<- & b' & Hb & _)|[_ Hb]]; eauto.
  - intros s' Hs'. apply contents_heap, Hframe, elem_of_app; auto.
Qed.

(** ** Zeroization of registered buffers *)

(** The buffer is allocated and shows only zeros. *)
Definition scrubbed (m : Mem) (p : nat) : Prop := backing m p = zeros (length (backing m p)).

Lemma ZeroBytes_scrubs b m : (0 < len b)%nat -> scrubbed (ZeroBytes b m) (ptr b).
Proof.
  intros Hl. unfold scrubbed, ZeroBytes, backing. destruct (Nat.eqb_spec (len b) 0); [lia|].
  simpl. rewrite lookup_alter_eq. destruct (heap m !! ptr b); simpl; [|done].
  by rewrite length_zeros.
Qed.

Lemma ZeroBytes_keeps_scrubbed b m p : scrubbed m p -> scrubbed (ZeroBytes b m) p.
Proof.
  unfold scrubbed, ZeroBytes, backing. destruct (len b =? 0)%nat; [done|]. simpl.
  destruct (decide (ptr b = p)) as [->|Hne].
  - rewrite lookup_alter_eq. destruct (heap m !! p); simpl; [|done]. by rewrite length_zeros.
  - by rewrite lookup_alter_ne.
Qed.

Lemma ZeroBytesSlice_scrubs bs m b :
  b ∈ bs -> (0 < len b)%nat -> scrubbed (ZeroBytesSlice bs m) (ptr b).
Proof.
  revert m. induction bs as [|b' bs IH]; intros m Hin Hl; [by apply not_elem_of_nil in Hin|].
  unfold ZeroBytesSlice in *. simpl. destruct (decide (b ∈ bs)) as [Hin'|Hnin]; [by apply IH|].
  apply elem_of_cons in Hin as [->|]; [|done]. clear IH Hnin.
  assert (H : scrubbed (ZeroBytes b' m) (ptr b')) by (by apply ZeroBytes_scrubs).
  generalize dependent (ZeroBytes b' m). induction bs as [|b'' bs IH]; intros m' H; [done|].
  simpl. apply IH, ZeroBytes_keeps_scrubbed, H.
Qed.

(** ** The registry *)

Lemma swap_remove_Permutation i l r : l !! i = Some r -> l ≡ₚ r :: swap_remove i l.
Proof.
  intros Hi. unfold swap_remove. destruct (last l) as [z|] eqn:Hz.
  - apply last_Some in Hz as [l' ->]. rewrite length_app. simpl. rewrite Nat.add_sub.
    destruct (decide (i = length l')) as [->|Hne].
    + rewrite lookup_app_r, Nat.sub_diag in Hi by lia. simpl in Hi. injection Hi as ->.
      rewrite insert_app_r_alt, Nat.sub_diag by lia. rewrite take_app_length.
      by rewrite Permutation_app_comm.
    + assert (i < length l')%nat.
      { apply lookup_lt_Some in Hi. rewrite length_app in Hi. simpl in Hi. lia. }
      rewrite lookup_app_l in Hi by lia. rewrite insert_app_l by lia.
      rewrite take_exact by (apply length_insert).
      rewrite insert_take_drop by lia. rewrite <- (take_drop_middle l' i r Hi) at 1.
      rewrite <- !Permutation_middle, Permutation_app_comm. simpl. apply perm_swap.
  - apply last_None in Hz as ->. done.
Qed.

(** * Properties *)

(** [WipeAll] leaves only zeros in every non-empty registered buffer, over
    its whole capacity, whatever the registered callbacks do to memory. *)
Theorem WipeAll_scrubs run m b :
  b ∈ registeredBuffers m -> (0 < len b)%nat -> scrubbed (WipeAll run m) (ptr b).
Proof. intros Hin Hl. by apply ZeroBytesSlice_scrubs. Qed.

Definition sample_mem : Mem :=
  let (s, m) := make_slice 3 4 emptyMem in
  RegisterBuffer s (copy_slice s ([x41; x42; x43] : bytes) m).

Lemma WipeAll_scrubs_witness :
  backing sample_mem 0%nat = ([x41; x42; x43; x00] : bytes) /\
  scrubbed (WipeAll (fun _ m => m) sample_mem) 0.
Proof.
  split; [vm_compute; reflexivity|].
  apply (WipeAll_scrubs (fun _ m => m) sample_mem (mkSlice 0 3)); [|simpl; lia].
  by apply list_elem_of_here.
Defined.

(** [UnregisterBuffer] drops exactly one registration with the buffer's
    data pointer, keeps every other one, and unpins the buffer; when none
    matches, the registry is unchanged. *)
Theorem UnregisterBuffer_removes_one b m :
  (0 < len b)%nat ->
  (ptr b ∉ pinnedBuffers (UnregisterBuffer b m)) /\
  ((exists r, ptr r = ptr b /\ (0 < len r)%nat /\
      registeredBuffers m ≡ₚ r :: registeredBuffers (UnregisterBuffer b m)) \/
   (Forall (fun r => ~ ((0 < len r)%nat /\ ptr r = ptr b)) (registeredBuffers m) /\
      registeredBuffers (UnregisterBuffer b m) = registeredBuffers m)).
Proof.
  intros Hl. unfold UnregisterBuffer. destruct (Nat.eqb_spec (len b) 0); [lia|]. simpl.
  split; [set_solver|].
  destruct (list_find _ (registeredBuffers m)) as [[i r]|] eqn:E.
  - apply list_find_Some in E as (Hi & [? ?] & _). left. exists r.
    split; [done|]. split; [done|]. by apply swap_remove_Permutation.
  - right. split; [by apply list_find_None in E|done].
Qed.

Lemma UnregisterBuffer_removes_one_witness :
  (0%nat ∉ pinnedBuffers (UnregisterBuffer (mkSlice 0 3) sample_mem)) /\
  ((exists r, ptr r = 0%nat /\ (0 < len r)%nat /\
      registeredBuffers sample_mem ≡ₚ r :: registeredBuffers (UnregisterBuffer (mkSlice 0 3) sample_mem)) \/
   (Forall (fun r => ~ ((0 < len r)%nat /\ ptr r = 0%nat)) (registeredBuffers sample_mem) /\
      registeredBuffers (UnregisterBuffer (mkSlice 0 3) sample_mem) = registeredBuffers sample_mem)).
Proof. apply (UnregisterBuffer_removes_one (mkSlice 0 3) sample_mem). simpl. lia. Defined.
