(* ===== verification/RingBuffer.v ===== *)
(** * The replay ring buffer: [pkg/feed/ringbuffer.go]

    A fixed array of sequence-numbered messages whose payloads are slices of
    the shared buffer pool.  [RingSpec] is what it promises: a bounded queue of
    (sequence number, payload) pairs.  The theorems show that every operation
    refines the queue, that no payload buffer is ever shared, and that evicted
    or wiped payloads reach the pool zeroed. *)

From S2P Require Import Prelude Memory.

(** ** Abstract specification: a queue of at most [capacity] messages *)

Module RingSpec.
Abbreviation t := (list (Z * bytes)).

(** Append, dropping the oldest message when full. *)
Definition push (capacity : nat) (seqNum : Z) (msg : bytes) (q : t) : t :=
  (if (length q =? capacity)%nat then tail q else q) ++ [(seqNum, msg)].

Definition after (lastSeqNum : Z) (q : t) : t :=
  filter (fun item => lastSeqNum < item.1) q.
End RingSpec.

(** ** Data (ringbuffer.go:36-49) *)

Record SeqMsg := mkSeqMsg { SeqNum : Z; Payload : option Slice }.

(** The zero value of the struct. *)
Definition noMsg : SeqMsg := mkSeqMsg 0 None.

Record RingBuffer := mkRing {
  capacity : nat;
  data : list SeqMsg;
  head : nat;
  tail : nat;
  size : nat
}.

(** ** Operations *)

(** ringbuffer.go:52-60 *)
Definition NewRingBuffer (cap0 : Z) : RingBuffer :=
  let c := if cap0 <=? 0 then 100%nat else Z.to_nat cap0 in
  mkRing c (replicate c noMsg) 0 0 0.

(** [rb.data[i]] for an index in range. *)
Definition item (rb : RingBuffer) (i : nat) : SeqMsg := default noMsg (data rb !! i).

Definition set_data (rb : RingBuffer) (d : list SeqMsg) : RingBuffer :=
  mkRing (capacity rb) d (head rb) (tail rb) (size rb).

(** The eviction of ringbuffer.go:70-78. *)
Definition evict (rb : RingBuffer) (m : Mem) : RingBuffer * Mem :=
  let old := item rb (head rb) in
  let m := putBuffer (Payload old) m in
  let d := match Payload old with
           | Some _ => <[head rb := mkSeqMsg (SeqNum old) None]> (data rb)
           | None => data rb
           end in
  (mkRing (capacity rb) d ((head rb + 1) mod capacity rb) (tail rb) (size rb - 1), m).

(** ringbuffer.go:63-86 *)
Definition Push (seqNum : Z) (msg : bytes) (rb : RingBuffer) (m : Mem) : RingBuffer * Mem :=
  let (msgCopy, m) := getBuffer (length msg) m in
  let m := copy_slice msgCopy msg m in
  let (rb, m) := if (size rb =? capacity rb)%nat then evict rb m else (rb, m) in
  (mkRing (capacity rb) (<[tail rb := mkSeqMsg seqNum (Some msgCopy)]> (data rb))
     (head rb) ((tail rb + 1) mod capacity rb) (size rb + 1), m).

(** [rb.data[(rb.head + i) % rb.capacity]] *)
Definition nth_item (rb : RingBuffer) (i : nat) : SeqMsg :=
  item rb ((head rb + i) mod capacity rb).

(** The bytes of a payload slice; [nil] has none. *)
Definition payload_bytes (m : Mem) (p : option Slice) : bytes :=
  match p with Some s => contents m s | None => [] end.

(** A fresh pooled copy of a payload (ringbuffer.go:98-99, 117-118). *)
Definition copy_payload (p : option Slice) (m : Mem) : Slice * Mem :=
  let src := payload_bytes m p in
  let (s, m) := getBuffer (length src) m in
  (s, copy_slice s src m).

(** The loop of [GetAfter] (ringbuffer.go:94-105) over the given indices. *)
Fixpoint get_after_loop (lastSeqNum : Z) (rb : RingBuffer) (idx : list nat) (m : Mem)
    : list (Z * Slice) * Mem :=
  match idx with
  | [] => ([], m)
  | i :: idx' =>
      let it := nth_item rb i in
      if lastSeqNum <? SeqNum it then
        let (s, m) := copy_payload (Payload it) m in
        let (rest, m) := get_after_loop lastSeqNum rb idx' m in
        ((SeqNum it, s) :: rest, m)
      else get_after_loop lastSeqNum rb idx' m
  end.

(** ringbuffer.go:89-107 *)
Definition GetAfter (lastSeqNum : Z) (rb : RingBuffer) (m : Mem) : list (Z * Slice) * Mem :=
  get_after_loop lastSeqNum rb (seq 0 (size rb)) m.

Fixpoint get_all_loop (rb : RingBuffer) (idx : list nat) (m : Mem) : list Slice * Mem :=
  match idx with
  | [] => ([], m)
  | i :: idx' =>
      let (s, m) := copy_payload (Payload (nth_item rb i)) m in
      let (rest, m) := get_all_loop rb idx' m in
      (s :: rest, m)
  end.

(** ringbuffer.go:110-122 *)
Definition GetAll (rb : RingBuffer) (m : Mem) : list Slice * Mem :=
  get_all_loop rb (seq 0 (size rb)) m.

(** ringbuffer.go:125-129 *)
Definition Len (rb : RingBuffer) : nat := size rb.

(** ringbuffer.go:132-140 *)
Definition OldestSeqNum (rb : RingBuffer) : Z :=
  if (size rb =? 0)%nat then 0 else SeqNum (item rb (head rb)).

(** ringbuffer.go:143-152; the subtraction is on [uint64]. *)
Definition IsOverflow (lastSeqNum : Z) (rb : RingBuffer) : bool :=
  if ((size rb =? 0)%nat || (lastSeqNum =? 0))%bool then false
  else
    let oldest := SeqNum (item rb (head rb)) in
    ((0 <? oldest) && (lastSeqNum <? wrap 64 (oldest - 1)))%bool.

(** The loop body of [Wipe] (ringbuffer.go:159-165). *)
Definition wipe_slot (it : SeqMsg) (m : Mem) : SeqMsg * Mem :=
  match Payload it with
  | Some s => (noMsg, putBuffer (Some s) m)
  | None => (it, m)
  end.

Fixpoint wipe_loop (d : list SeqMsg) (m : Mem) : list SeqMsg * Mem :=
  match d with
  | [] => ([], m)
  | it :: d' =>
      let (it', m) := wipe_slot it m in
      let (d'', m) := wipe_loop d' m in
      (it' :: d'', m)
  end.

(** ringbuffer.go:155-169; the array has [capacity] slots. *)
Definition Wipe (rb : RingBuffer) (m : Mem) : RingBuffer * Mem :=
  let (d, m) := wipe_loop (data rb) m in
  (mkRing (capacity rb) d 0 0 0, m).

(** ** Abstraction and invariant *)

(** The messages stored, oldest first. *)
Definition abs (rb : RingBuffer) (m : Mem) : RingSpec.t :=
  (fun i => let it := nth_item rb i in (SeqNum it, payload_bytes m (Payload it)))
    <$> seq 0 (size rb).

(** The buffers the ring owns. *)
Definition live (rb : RingBuffer) : list Slice := omap Payload (data rb).

(** Indices wrap around the array; exactly the [size] slots from [head] hold a
    payload; the payload buffers, the pool and the buffers [ext] held by the
    callers are disjoint and the pool is clean. *)
Record ring_inv (rb : RingBuffer) (m : Mem) (ext : list Slice) : Prop := {
  inv_cap : (0 < capacity rb)%nat;
  inv_len : length (data rb) = capacity rb;
  inv_head : (head rb < capacity rb)%nat;
  inv_size : (size rb <= capacity rb)%nat;
  inv_tail : tail rb = ((head rb + size rb) mod capacity rb)%nat;
  inv_full : forall i, (i < size rb)%nat -> is_Some (Payload (nth_item rb i));
  inv_free : forall i, (size rb <= i < capacity rb)%nat -> Payload (nth_item rb i) = None;
  inv_owned : owned m (live rb ++ ext)
}.

(** ** Index arithmetic *)

Lemma mod_add_inj c h i j :
  (i < c)%nat -> (j < c)%nat -> ((h + i) mod c = (h + j) mod c)%nat -> i = j.
Proof.
  intros Hi Hj E. assert (Hc : (c <> 0)%nat) by lia.
  pose proof (Nat.div_mod_eq (h + i) c) as D1. pose proof (Nat.div_mod_eq (h + j) c) as D2.
  rewrite E in D1. assert ((h + i) / c = (h + j) / c)%nat as D; [|nia]. nia.
Qed.

(** Every array index is some position counted from [h]. *)
Lemma mod_add_surj c h k : (h < c)%nat -> (k < c)%nat -> exists i, (i < c)%nat /\ ((h + i) mod c = k)%nat.
Proof.
  intros Hh Hk. destruct (le_lt_dec h k).
  - exists (k - h)%nat. split; [lia|]. replace (h + (k - h))%nat with k by lia. by apply Nat.mod_small.
  - exists (k + c - h)%nat. split; [lia|]. replace (h + (k + c - h))%nat with (k + 1 * c)%nat by lia.
    rewrite Nat.Div0.mod_add. by apply Nat.mod_small.
Qed.

Lemma mod_succ_shift c h i : (((h + 1) mod c + i) mod c = (h + S i) mod c)%nat.
Proof. rewrite Nat.Div0.add_mod_idemp_l. f_equal. lia. Qed.

(** ** The buffers owned by an updated array *)

Lemma live_split (d : list SeqMsg) i it it' :
  d !! i = Some it ->
  exists l1 l2, omap Payload d = l1 ++ option_list (Payload it) ++ l2 /\
    omap Payload (<[i := it']> d) = l1 ++ option_list (Payload it') ++ l2.
Proof.
  intros Hi. exists (omap Payload (take i d)), (omap Payload (drop (S i) d)).
  split.
  - rewrite <- (take_drop_middle d i it Hi) at 1. rewrite omap_app. simpl. by destruct (Payload it).
  - rewrite insert_take_drop by (by eapply lookup_lt_Some). rewrite omap_app. simpl.
    by destruct (Payload it').
Qed.

Lemma live_add (d : list SeqMsg) i it q s :
  d !! i = Some it -> Payload it = None ->
  omap Payload (<[i := mkSeqMsg q (Some s)]> d) ≡ₚ s :: omap Payload d.
Proof.
  intros Hi Hn. destruct (live_split d i it (mkSeqMsg q (Some s)) Hi) as (l1 & l2 & -> & ->).
  rewrite Hn. simpl. by rewrite <- Permutation_middle.
Qed.

Lemma live_remove (d : list SeqMsg) i it s q :
  d !! i = Some it -> Payload it = Some s ->
  omap Payload d ≡ₚ s :: omap Payload (<[i := mkSeqMsg q None]> d).
Proof.
  intros Hi Hs. destruct (live_split d i it (mkSeqMsg q None) Hi) as (l1 & l2 & -> & ->).
  rewrite Hs. simpl. by rewrite <- Permutation_middle.
Qed.

Lemma lookup_item rb i : (i < length (data rb))%nat -> data rb !! i = Some (item rb i).
Proof. intros H. unfold item. by destruct (lookup_lt_is_Some_2 _ _ H) as [x ->]. Qed.

Lemma payload_live rb i s :
  Payload (item rb i) = Some s -> s ∈ live rb.
Proof.
  unfold item, live. intros H. destruct (data rb !! i) as [it|] eqn:E; [|done].
  apply list_elem_of_omap. exists it. split; [by eapply list_elem_of_lookup_2|done].
Qed.

(** The abstraction only depends on the bytes of the live buffers. *)
Lemma payload_bytes_same m m' rb i ls :
  same_contents m m' ls -> live rb ⊆ ls ->
  payload_bytes m' (Payload (item rb i)) = payload_bytes m (Payload (item rb i)).
Proof.
  intros Hs Hl. destruct (Payload (item rb i)) as [s|] eqn:E; [|done]. simpl.
  apply Hs, Hl. by eapply payload_live.
Qed.

Lemma abs_same_mem rb m m' ls :
  same_contents m m' ls -> live rb ⊆ ls -> abs rb m' = abs rb m.
Proof.
  intros Hs Hl. unfold abs. apply list_fmap_ext. intros i x Hx.
  f_equal. by eapply payload_bytes_same.
Qed.

Lemma length_abs rb m : length (abs rb m) = size rb.
Proof. unfold abs. by rewrite length_fmap, length_seq. Qed.

Lemma lookup_abs rb m i :
  (i < size rb)%nat ->
  abs rb m !! i = Some (SeqNum (nth_item rb i), payload_bytes m (Payload (nth_item rb i))).
Proof. intros H. unfold abs. rewrite list_lookup_fmap, lookup_seq_lt by done. done. Qed.

(** ** Creation *)

Lemma item_replicate c h t s i : item (mkRing c (replicate c noMsg) h t s) i = noMsg.
Proof.
  unfold item. simpl. destruct (replicate c noMsg !! i) eqn:E; [|done].
  apply lookup_replicate in E as [-> _]. done.
Qed.

Lemma omap_replicate_none n : omap Payload (replicate n noMsg) = [].
Proof. by induction n. Qed.

Lemma NewRingBuffer_inv cap0 m ext :
  owned m ext -> ring_inv (NewRingBuffer cap0) m ext /\ abs (NewRingBuffer cap0) m = [].
Proof.
  intros Ho. unfold NewRingBuffer. set (c := if _ : bool then _ else _).
  assert (Hc : (0 < c)%nat) by (unfold c; zcase; lia).
  split; [|done]. split; simpl; auto; try lia.
  - apply length_replicate.
  - rewrite Nat.Div0.mod_0_l. done.
  - unfold nth_item. intros i _. by rewrite item_replicate.
  - unfold live. simpl. by rewrite omap_replicate_none.
Qed.

(** ** Eviction and push *)

(** Dropping the oldest message of a full ring. *)
Lemma evict_spec rb m ext :
  ring_inv rb m ext -> size rb = capacity rb ->
  let '(rb', m') := evict rb m in
  ring_inv rb' m' ext /\ capacity rb' = capacity rb /\ (size rb' < capacity rb')%nat /\
  abs rb' m' = list.tail (abs rb m) /\ same_contents m m' ext.
Proof.
  intros [Hc Hl Hh Hs Ht Hf Hfr Ho] Hfull. unfold evict.
  assert (Hhi : data rb !! head rb = Some (item rb (head rb))) by (apply lookup_item; lia).
  destruct (Hf 0%nat ltac:(lia)) as [s Hp]. unfold nth_item in Hp.
  rewrite Nat.add_0_r, Nat.mod_small in Hp by done. rewrite Hp.
  set (d' := <[head rb := _]> (data rb)).
  pose proof (live_remove _ _ _ s (SeqNum (item rb (head rb))) Hhi Hp) as HP.
  set (rb' := mkRing _ _ _ _ _).
  assert (Ho' : owned m (s :: live rb' ++ ext)) by (unfold live in *; by rewrite HP in Ho).
  destruct (putBuffer_spec s m _ Ho') as [Hown Hsame].
  assert (Hitem : forall i, (i < capacity rb)%nat -> (0 < i)%nat ->
    item rb' ((head rb + i) mod capacity rb) = item rb ((head rb + i) mod capacity rb)).
  { intros i Hi Hpos. unfold item. simpl. unfold d'. rewrite list_lookup_insert_ne; [done|].
    intros E. assert (0 = i)%nat; [|lia]. apply (mod_add_inj (capacity rb) (head rb)); [lia..|].
    rewrite Nat.add_0_r. rewrite (Nat.mod_small (head rb)) by done. exact E. }
  assert (Hnth0 : forall i, nth_item rb' i = item rb' ((head rb + S i) mod capacity rb)).
  { intros i. unfold nth_item. by rewrite <- mod_succ_shift. }
  assert (Hnth : forall i, (S i < capacity rb)%nat -> nth_item rb' i = nth_item rb (S i)).
  { intros i Hi. rewrite Hnth0.
    
    apply Hitem; lia. }
  split; [split|split; [done|split; [simpl; lia|split]]].
  - done.
  - simpl. unfold d'. by rewrite length_insert.
  - simpl. apply Nat.mod_upper_bound. lia.
  - simpl. lia.
  - change (tail rb = (((head rb + 1) mod capacity rb + (size rb - 1)) mod capacity rb)%nat).
    rewrite mod_succ_shift, Ht. f_equal. lia.
  - simpl. intros i Hi. rewrite Hnth by lia. apply Hf. lia.
  - simpl. intros i Hi. assert (i = capacity rb - 1)%nat as -> by lia.
    rewrite Hnth0.
    replace (head rb + S (capacity rb - 1))%nat with (head rb + 1 * capacity rb)%nat by lia.
    rewrite Nat.Div0.mod_add, Nat.mod_small by done. unfold item. simpl. unfold d'.
    by rewrite list_lookup_insert_eq by lia.
  - exact Hown.
  - apply list_eq. intros i. rewrite lookup_tail.
    destruct (decide (S i < size rb)%nat) as [Hi|Hi].
    + rewrite !lookup_abs by (simpl; lia). rewrite Hnth by lia. do 2 f_equal.
      rewrite <- (Hnth i) by lia. unfold nth_item. eapply payload_bytes_same; [exact Hsame|].
      intros x Hx. apply elem_of_app; auto.
    + rewrite !(proj2 (lookup_ge_None _ _)); [done|rewrite length_abs; simpl; lia..].
  - intros x Hx. apply Hsame, elem_of_app; auto.
Qed.

Lemma ring_inv_ext_perm rb m e1 e2 : e1 ≡ₚ e2 -> ring_inv rb m e1 -> ring_inv rb m e2.
Proof. intros HP []. split; auto. by rewrite <- HP. Qed.

(** A ring keeps its messages when memory changes outside its buffers. *)
Lemma ring_inv_mem rb m m' ext ext' :
  ring_inv rb m ext -> owned m' (live rb ++ ext') -> ring_inv rb m' ext'.
Proof. intros [] H. by split. Qed.

(** Storing a new message in the first free slot. *)
Lemma append_spec rb m ext s seqNum :
  ring_inv rb m (s :: ext) -> (size rb < capacity rb)%nat ->
  let rb' := mkRing (capacity rb) (<[tail rb := mkSeqMsg seqNum (Some s)]> (data rb))
               (head rb) ((tail rb + 1) mod capacity rb) (size rb + 1) in
  ring_inv rb' m ext /\ abs rb' m = abs rb m ++ [(seqNum, contents m s)].
Proof.
  intros [Hc Hl Hh Hs Ht Hf Hfr Ho] Hlt rb'.
  assert (Htl : (tail rb < capacity rb)%nat) by (rewrite Ht; apply Nat.mod_upper_bound; lia).
  assert (Hold : forall i, (i < capacity rb)%nat -> i <> size rb -> nth_item rb' i = nth_item rb i).
  { intros i Hi Hne. unfold nth_item, item. simpl. rewrite list_lookup_insert_ne; [done|].
    rewrite Ht. intros E. apply Hne. symmetry. by apply (mod_add_inj (capacity rb) (head rb)). }
  assert (Hnew : nth_item rb' (size rb) = mkSeqMsg seqNum (Some s)).
  { unfold nth_item, item. simpl. rewrite <- Ht, list_lookup_insert_eq by lia. done. }
  assert (Hfree : Payload (item rb (tail rb)) = None).
  { rewrite Ht. apply (Hfr (size rb)). lia. }
  split; [split|].
  - done.
  - simpl. by rewrite length_insert.
  - done.
  - simpl. lia.
  - simpl. rewrite Ht, Nat.Div0.add_mod_idemp_l. f_equal. lia.
  - simpl. intros i Hi. destruct (decide (i = size rb)) as [->|]; [by rewrite Hnew|].
    rewrite Hold by lia. apply Hf. lia.
  - simpl. intros i Hi. rewrite Hold by lia. apply Hfr. lia.
  - unfold live. simpl. rewrite live_add; [|by apply lookup_item; lia|done].
    simpl. by rewrite Permutation_middle.
  - apply list_eq. intros i. destruct (decide (i < size rb)%nat) as [Hi|Hi].
    + rewrite lookup_app_l by (rewrite length_abs; lia).
      rewrite !lookup_abs by (simpl; lia). by rewrite Hold by lia.
    + destruct (decide (i = size rb)) as [->|Hne].
      * rewrite lookup_app_r by (rewrite length_abs; lia). rewrite length_abs, Nat.sub_diag.
        rewrite lookup_abs by (simpl; lia). by rewrite Hnew.
      * rewrite !(proj2 (lookup_ge_None _ _)); [done|..];
          rewrite ?length_app, ?length_abs; simpl; lia.
Qed.

Lemma Push_spec seqNum msg rb m ext :
  ring_inv rb m ext ->
  let '(rb', m') := Push seqNum msg rb m in
  ring_inv rb' m' ext /\ capacity rb' = capacity rb /\ same_contents m m' ext /\
  abs rb' m' = RingSpec.push (capacity rb) seqNum msg (abs rb m).
Proof.
  intros Hinv. unfold Push, RingSpec.push. rewrite length_abs.
  pose proof (getBuffer_spec (length msg) m _ (inv_owned _ _ _ Hinv)) as Hg.
  destruct (getBuffer (length msg) m) as [s m1]. destruct Hg as (Ho & Hlen & Hsame1).
  destruct (copy_slice_spec s msg m1 _ Ho (eq_sym Hlen)) as (Ho2 & Hcont & Hsame2).
  set (m2 := copy_slice s msg m1) in *.
  assert (Hinv2 : ring_inv rb m2 (s :: ext)).
  { eapply ring_inv_mem; [exact Hinv|]. by rewrite <- Permutation_middle. }
  assert (Hsame : same_contents m m2 (live rb ++ ext)).
  { intros x Hx. rewrite Hsame2, Hsame1 by done. done. }
  assert (Habs : abs rb m2 = abs rb m).
  { eapply abs_same_mem; [exact Hsame|]. intros x Hx. apply elem_of_app; auto. }
  destruct (Nat.eqb_spec (size rb) (capacity rb)) as [E|E].
  - pose proof (evict_spec rb m2 _ Hinv2 E) as He. destruct (evict rb m2) as [rb1 m3].
    destruct He as (Hinv3 & Hcap & Hlt & Htl & Hsame3).
    destruct (append_spec rb1 m3 ext s seqNum Hinv3 Hlt) as [H1 H2].
    split; [done|]. split; [done|]. split.
    + intros x Hx. rewrite Hsame3 by (apply elem_of_cons; auto). apply Hsame, elem_of_app; auto.
    + rewrite H2, Htl, Habs, Hsame3, Hcont by (apply elem_of_cons; auto). done.
  - destruct (append_spec rb m2 ext s seqNum Hinv2) as [H1 H2].
    { destruct Hinv. lia. }
    split; [done|]. split; [done|]. split.
    + intros x Hx. apply Hsame, elem_of_app; auto.
    + by rewrite H2, Habs, Hcont.
Qed.

(** ** Reading *)

Lemma copy_payload_spec p m ls :
  owned m ls -> (forall s, p = Some s -> s ∈ ls) ->
  let '(s, m') := copy_payload p m in
  owned m' (s :: ls) /\ contents m' s = payload_bytes m p /\ same_contents m m' ls.
Proof.
  intros Ho Hin. unfold copy_payload.
  pose proof (getBuffer_spec (length (payload_bytes m p)) m ls Ho) as Hg.
  destruct (getBuffer _ m) as [s m1]. destruct Hg as (Ho1 & Hlen & Hs1).
  destruct (copy_slice_spec s (payload_bytes m p) m1 ls Ho1 (eq_sym Hlen)) as (Ho2 & Hc & Hs2).
  split; [done|]. split; [done|]. intros x Hx. by rewrite Hs2, Hs1.
Qed.

(** The result of a read: copies of the selected payloads in buffers of their
    own, the ring untouched. *)
Lemma get_after_loop_spec last rb idx m ext :
  ring_inv rb m ext ->
  let '(items, m') := get_after_loop last rb idx m in
  ring_inv rb m' ((snd <$> items) ++ ext) /\
  same_contents m m' (live rb ++ ext) /\
  ((fun it => (it.1, contents m' it.2)) <$> items) =
    RingSpec.after last ((fun i => (SeqNum (nth_item rb i), payload_bytes m (Payload (nth_item rb i)))) <$> idx).
Proof.
  revert m ext. induction idx as [|i idx IH]; intros m ext Hinv.
  { simpl. split; [done|]. split; [by intros ? ?|done]. }
  cbn [get_after_loop]. unfold RingSpec.after in *. rewrite fmap_cons.
  destruct (Z.ltb_spec last (SeqNum (nth_item rb i))) as [Hlt|Hge].
  - pose proof (copy_payload_spec (Payload (nth_item rb i)) m (live rb ++ ext)
      (inv_owned _ _ _ Hinv)) as Hcp.
    destruct (copy_payload _ m) as [s m1]. destruct Hcp as (Ho & Hc & Hsame).
    { intros s' E. apply elem_of_app; left. by eapply payload_live. }
    assert (Hinv1 : ring_inv rb m1 (s :: ext)).
    { eapply ring_inv_mem; [exact Hinv|]. by rewrite <- Permutation_middle. }
    specialize (IH m1 (s :: ext) Hinv1). destruct (get_after_loop last rb idx m1) as [items m2].
    destruct IH as (Hinv2 & Hsame2 & Heq).
    assert (Hs : contents m2 s = contents m1 s).
    { apply Hsame2, elem_of_app; right. apply list_elem_of_here. }
    rewrite filter_cons_True by (simpl; lia). split; [|split].
    + eapply ring_inv_ext_perm; [|exact Hinv2]. rewrite fmap_cons. simpl.
      by rewrite <- Permutation_middle.
    + intros x Hx. rewrite Hsame2; [by apply Hsame|].
      apply elem_of_app in Hx as [?|?]; apply elem_of_app; [by left|right]. by apply list_elem_of_further.
    + rewrite fmap_cons. simpl. rewrite Hs, Hc. f_equal. rewrite Heq. f_equal.
      apply list_fmap_ext. intros k y _. f_equal. unfold nth_item. eapply payload_bytes_same; [exact Hsame|].
      intros x Hx. apply elem_of_app; auto.
  - specialize (IH m ext Hinv). destruct (get_after_loop last rb idx m) as [items m1].
    rewrite filter_cons_False by (simpl; lia). exact IH.
Qed.

Lemma GetAfter_spec last rb m ext :
  ring_inv rb m ext ->
  let '(items, m') := GetAfter last rb m in
  ring_inv rb m' ((snd <$> items) ++ ext) /\ same_contents m m' (live rb ++ ext) /\
  abs rb m' = abs rb m /\
  ((fun it => (it.1, contents m' it.2)) <$> items) = RingSpec.after last (abs rb m).
Proof.
  intros Hinv. unfold GetAfter. pose proof (get_after_loop_spec last rb (seq 0 (size rb)) m ext Hinv) as H.
  destruct (get_after_loop _ _ _ _) as [items m']. destruct H as (H1 & H2 & H3).
  split; [done|]. split; [done|]. split; [|done].
  eapply abs_same_mem; [exact H2|]. intros x Hx. apply elem_of_app; auto.
Qed.

Lemma get_all_loop_spec rb idx m ext :
  ring_inv rb m ext ->
  let '(items, m') := get_all_loop rb idx m in
  ring_inv rb m' (items ++ ext) /\ same_contents m m' (live rb ++ ext) /\
  contents m' <$> items = (fun i => payload_bytes m (Payload (nth_item rb i))) <$> idx.
Proof.
  revert m ext. induction idx as [|i idx IH]; intros m ext Hinv.
  { simpl. split; [done|]. split; [by intros ? ?|done]. }
  cbn [get_all_loop]. pose proof (copy_payload_spec (Payload (nth_item rb i)) m (live rb ++ ext)
      (inv_owned _ _ _ Hinv)) as Hcp.
  destruct (copy_payload _ m) as [s m1]. destruct Hcp as (Ho & Hc & Hsame).
  { intros s' E. apply elem_of_app; left. by eapply payload_live. }
  assert (Hinv1 : ring_inv rb m1 (s :: ext)).
  { eapply ring_inv_mem; [exact Hinv|]. by rewrite <- Permutation_middle. }
  specialize (IH m1 (s :: ext) Hinv1). destruct (get_all_loop rb idx m1) as [items m2].
  destruct IH as (Hinv2 & Hsame2 & Heq). split; [|split].
  - eapply ring_inv_ext_perm; [|exact Hinv2]. simpl. by rewrite <- Permutation_middle.
  - intros x Hx. rewrite Hsame2; [by apply Hsame|].
    apply elem_of_app in Hx as [?|?]; apply elem_of_app; [by left|right]. by apply list_elem_of_further.
  - rewrite !fmap_cons, Heq. f_equal.
    + rewrite Hsame2; [done|]. apply elem_of_app; right. apply list_elem_of_here.
    + apply list_fmap_ext. intros k y _. unfold nth_item. eapply payload_bytes_same; [exact Hsame|].
      intros x Hx. apply elem_of_app; auto.
Qed.

(** ** Wiping *)

Lemma wipe_loop_spec d m ext :
  owned m (omap Payload d ++ ext) ->
  let '(d', m') := wipe_loop d m in
  length d' = length d /\ Forall (fun it => Payload it = None) d' /\
  owned m' ext /\ same_contents m m' ext.
Proof.
  revert m. induction d as [|it d IH]; intros m Ho; simpl.
  { split; [done|]. split; [constructor|]. split; [done|]. by intros ? ?. }
  unfold wipe_slot. simpl in Ho. destruct (Payload it) as [s|] eqn:E.
  - simpl in Ho. destruct (putBuffer_spec s m _ Ho) as [Ho1 Hs1]. specialize (IH _ Ho1).
    destruct (wipe_loop d _) as [d' m']. destruct IH as (Hl & Hn & Ho2 & Hs2).
    split; [by simpl; rewrite Hl|]. split; [by constructor|]. split; [done|].
    intros x Hx. rewrite Hs2 by done. apply Hs1, elem_of_app; auto.
  - specialize (IH m Ho). destruct (wipe_loop d m) as [d' m']. destruct IH as (Hl & Hn & Ho2 & Hs2).
    split; [by simpl; rewrite Hl|]. split; [by constructor|]. done.
Qed.

Lemma putBuffer_keeps_scrubbed s m p : scrubbed m p -> scrubbed (putBuffer (Some s) m) p.
Proof. intros H. by apply (ZeroBytes_keeps_scrubbed s) in H. Qed.

Lemma putBuffer_scrubs s m : slice_ok m s -> scrubbed (putBuffer (Some s) m) (ptr s).
Proof.
  intros (c & Hc & Hle & Hz). destruct (Nat.eq_dec (len s) 0%nat) as [E|E].
  - apply putBuffer_keeps_scrubbed. unfold scrubbed, backing. rewrite Hc. simpl.
    by rewrite E, drop_0, Nat.sub_0_r in Hz.
  - apply (ZeroBytes_scrubs s m). lia.
Qed.

Lemma wipe_loop_keeps_scrubbed d m p : scrubbed m p -> scrubbed (wipe_loop d m).2 p.
Proof.
  revert m. induction d as [|it d IH]; intros m H; simpl; [done|]. unfold wipe_slot.
  destruct (Payload it) as [s|].
  - specialize (IH _ (putBuffer_keeps_scrubbed s m p H)). by destruct (wipe_loop d _).
  - specialize (IH m H). by destruct (wipe_loop d m).
Qed.

Lemma wipe_loop_scrubs d m ext s :
  owned m (omap Payload d ++ ext) -> s ∈ omap Payload d -> scrubbed (wipe_loop d m).2 (ptr s).
Proof.
  revert m. induction d as [|it d IH]; intros m Ho Hin; simpl in *; [by apply not_elem_of_nil in Hin|].
  unfold wipe_slot. destruct (Payload it) as [s'|] eqn:E.
  - simpl in Ho, Hin. destruct (putBuffer_spec s' m _ Ho) as [Ho1 _].
    apply elem_of_cons in Hin as [->|Hin].
    + pose proof (wipe_loop_keeps_scrubbed d (putBuffer (Some s') m) (ptr s')) as H.
      destruct (wipe_loop d _). apply H, putBuffer_scrubs. by destruct Ho as [_ Hok _ _]; inversion Hok.
    + specialize (IH _ Ho1 Hin). by destruct (wipe_loop d _).
  - specialize (IH m Ho Hin). by destruct (wipe_loop d m).
Qed.

(** ** Sequences of pushes *)

(** [Wipe] empties the ring and overwrites every stored payload with zeros
    over its whole capacity; buffers held elsewhere are untouched. *)
Lemma Wipe_spec rb m ext :
  ring_inv rb m ext ->
  let '(rb', m') := Wipe rb m in
  ring_inv rb' m' ext /\ abs rb' m' = [] /\ live rb' = [] /\ same_contents m m' ext /\
  forall s, s ∈ live rb -> scrubbed m' (ptr s).
Proof.
  intros [Hc Hl Hh Hs Ht Hf Hfr Ho]. unfold Wipe, live in *.
  pose proof (wipe_loop_spec _ _ _ Ho) as HW.
  pose proof (fun s => wipe_loop_scrubs (data rb) m ext s Ho) as HS.
  destruct (wipe_loop (data rb) m) as [d m']. destruct HW as (Hl' & Hn & Ho' & Hsame). simpl.
  assert (Hnone : omap Payload d = []).
  { clear -Hn. induction Hn as [|it d E _ IH]; [done|]. simpl. by rewrite E. }
  split; [|done]. split; simpl; auto; try lia.
  - by rewrite Nat.Div0.mod_0_l.
  - intros i _. unfold nth_item, item. simpl.
    destruct (d !! (i mod capacity rb)%nat) as [it|] eqn:E; [|done].
    by apply (Forall_lookup_1 _ _ _ _ Hn E).
  - unfold live. simpl. by rewrite Hnone.
Qed.

(** The publisher's use of the ring: a run of pushes. *)
Definition push_all (msgs : list (Z * bytes)) (rb : RingBuffer) (m : Mem) : RingBuffer * Mem :=
  fold_left (fun st it => Push it.1 it.2 st.1 st.2) msgs (rb, m).

Definition lastn {A} (n : nat) (l : list A) : list A := drop (length l - n) l.

Lemma push_lastn c (l : list (Z * bytes)) q msg :
  (0 < c)%nat -> RingSpec.push c q msg (lastn c l) = lastn c (l ++ [(q, msg)]).
Proof.
  intros Hc. unfold RingSpec.push, lastn. rewrite length_drop, !length_app. simpl.
  destruct (Nat.eqb_spec (length l - (length l - c)) c) as [E|E].
  - rewrite drop_app_le by lia. f_equal.
    replace (length l + 1 - c)%nat with (length l - c + 1)%nat by lia.
    rewrite <- (drop_drop l 1). destruct (drop (length l - c) l) eqn:D; [|done].
    apply (f_equal length) in D. rewrite length_drop in D. simpl in D. lia.
  - replace (length l + 1 - c)%nat with 0%nat by lia.
    replace (length l - c)%nat with 0%nat by lia. done.
Qed.

Lemma push_all_spec msgs rb m ext done_msgs :
  ring_inv rb m ext -> abs rb m = lastn (capacity rb) done_msgs ->
  let '(rb', m') := push_all msgs rb m in
  ring_inv rb' m' ext /\ capacity rb' = capacity rb /\
  abs rb' m' = lastn (capacity rb) (done_msgs ++ msgs).
Proof.
  revert rb m done_msgs. induction msgs as [|[q msg] msgs IH]; intros rb m dm Hinv Habs; simpl.
  { by rewrite app_nil_r. }
  pose proof (Push_spec q msg rb m ext Hinv) as HP. unfold push_all in *. simpl.
  destruct (Push q msg rb m) as [rb1 m1]. destruct HP as (H1 & H2 & _ & H3).
  specialize (IH rb1 m1 (dm ++ [(q, msg)]) H1).
  destruct (fold_left _ msgs (rb1, m1)) as [rb2 m2]. rewrite H2, <- app_assoc in IH. apply IH.
  rewrite H3, Habs. apply push_lastn. by destruct Hinv.
Qed.

(** * Properties *)

(** [Push] refines the bounded queue: it appends the message, drops exactly
    the oldest one when the ring is full, keeps the invariant (no two buffers
    shared, pooled buffers all zero) and leaves every buffer held elsewhere
    unchanged. *)
Theorem Push_refines seqNum msg rb m ext :
  ring_inv rb m ext ->
  let '(rb', m') := Push seqNum msg rb m in
  ring_inv rb' m' ext /\ same_contents m m' ext /\
  abs rb' m' = RingSpec.push (capacity rb) seqNum msg (abs rb m).
Proof.
  intros H. pose proof (Push_spec seqNum msg rb m ext H) as HP.
  destruct (Push seqNum msg rb m) as [rb' m']. naive_solver.
Qed.

Definition sample_ring : RingBuffer * Mem :=
  push_all [(1, [x41]); (2, [x42; x42]); (3, [x43])] (NewRingBuffer 2) emptyMem.

Lemma sample_ring_inv : ring_inv sample_ring.1 sample_ring.2 [].
Proof.
  destruct (NewRingBuffer_inv 2 emptyMem [] owned_empty) as [H1 H2].
  pose proof (push_all_spec [(1, [x41]); (2, [x42; x42]); (3, [x43])]
    (NewRingBuffer 2) emptyMem [] [] H1 H2) as H.
  unfold sample_ring. destruct (push_all _ _ _). by destruct H.
Qed.

Lemma Push_refines_witness :
  let '(rb', m') := Push 4 [x44] sample_ring.1 sample_ring.2 in
  ring_inv rb' m' [] /\ same_contents sample_ring.2 m' [] /\
  abs rb' m' = RingSpec.push 2 4 [x44] (abs sample_ring.1 sample_ring.2).
Proof. apply (Push_refines 4 [x44] sample_ring.1 sample_ring.2 [] sample_ring_inv). Defined.

(** [GetAfter k] returns, oldest first, exactly the stored messages whose
    sequence number is greater than [k], each copied into a buffer of its own;
    the stored messages are unchanged. *)
Theorem GetAfter_refines last rb m ext :
  ring_inv rb m ext ->
  let '(items, m') := GetAfter last rb m in
  ring_inv rb m' ((snd <$> items) ++ ext) /\ abs rb m' = abs rb m /\
  ((fun it => (it.1, contents m' it.2)) <$> items) = RingSpec.after last (abs rb m).
Proof.
  intros H. pose proof (GetAfter_spec last rb m ext H) as HP.
  destruct (GetAfter last rb m) as [items m']. naive_solver.
Qed.

Lemma GetAfter_refines_witness :
  let '(items, m') := GetAfter 2 sample_ring.1 sample_ring.2 in
  ring_inv sample_ring.1 m' ((snd <$> items) ++ []) /\
  abs sample_ring.1 m' = abs sample_ring.1 sample_ring.2 /\
  ((fun it => (it.1, contents m' it.2)) <$> items) =
    RingSpec.after 2 (abs sample_ring.1 sample_ring.2).
Proof. apply (GetAfter_refines 2 sample_ring.1 sample_ring.2 [] sample_ring_inv). Defined.

(** [GetAll] copies every stored payload, oldest first, into buffers of
    their own. *)
Theorem GetAll_refines rb m ext :
  ring_inv rb m ext ->
  let '(items, m') := GetAll rb m in
  ring_inv rb m' (items ++ ext) /\ contents m' <$> items = snd <$> abs rb m.
Proof.
  intros H. unfold GetAll. pose proof (get_all_loop_spec rb (seq 0 (size rb)) m ext H) as HP.
  destruct (get_all_loop _ _ _) as [items m']. destruct HP as (H1 & _ & H3). split; [done|].
  rewrite H3. unfold abs. by rewrite <- list_fmap_compose.
Qed.

Lemma GetAll_refines_witness :
  let '(items, m') := GetAll sample_ring.1 sample_ring.2 in
  ring_inv sample_ring.1 m' (items ++ []) /\
  contents m' <$> items = snd <$> abs sample_ring.1 sample_ring.2.
Proof. apply (GetAll_refines sample_ring.1 sample_ring.2 [] sample_ring_inv). Defined.

(** From a new buffer, any run of pushes keeps exactly the last [capacity]
    messages, in order, whatever buffers the pool hands out. *)
Theorem ring_keeps_last cap0 msgs m ext :
  owned m ext ->
  let '(rb, m') := push_all msgs (NewRingBuffer cap0) m in
  ring_inv rb m' ext /\ abs rb m' = lastn (capacity (NewRingBuffer cap0)) msgs.
Proof.
  intros Ho. destruct (NewRingBuffer_inv cap0 m ext Ho) as [H1 H2].
  pose proof (push_all_spec msgs _ m ext [] H1 H2) as H.
  destruct (push_all msgs _ m) as [rb m']. naive_solver.
Qed.

Lemma ring_keeps_last_witness :
  let '(rb, m') := push_all [(1, [x41]); (2, [x42]); (3, [x43])] (NewRingBuffer 2) emptyMem in
  ring_inv rb m' [] /\
  abs rb m' = lastn (capacity (NewRingBuffer 2)) [(1, [x41]); (2, [x42]); (3, [x43])].
Proof. apply (ring_keeps_last 2 _ emptyMem [] owned_empty). Defined.

(** [IsOverflow] is the missing-messages test: if the numbers pushed
    increase and a peer that last saw a non-zero [k] is not reported as
    overflowed, then no message after [k] has been overwritten: a replay of
    [GetAfter k] is everything pushed after [k]. *)
Theorem replay_complete_unless_overflow cap0 msgs m ext last rb m' :
  owned m ext -> StronglySorted (fun a b => a.1 < b.1) msgs ->
  Forall (fun it => 0 < it.1 < 2 ^ 64) msgs -> 0 < last ->
  push_all msgs (NewRingBuffer cap0) m = (rb, m') ->
  IsOverflow last rb = false ->
  RingSpec.after last (abs rb m') = RingSpec.after last msgs.
Proof.
  intros Ho Hsort Hpos Hlast Hpush. destruct (NewRingBuffer_inv cap0 m ext Ho) as [H1 H2].
  pose proof (push_all_spec msgs _ m ext [] H1 H2) as H. set (c := capacity (NewRingBuffer cap0)) in *.
  assert (Hc : (0 < c)%nat) by (by destruct H1).
  rewrite Hpush in H. destruct H as (Hinv & Hcap & Habs). simpl in Habs.
  intros Hov. rewrite Habs. unfold lastn in *. rewrite <- (take_drop (length msgs - c) msgs) at 3.
  unfold RingSpec.after. rewrite filter_app. symmetry.
  rewrite filter_none; [done|].
  destruct (drop (length msgs - c) msgs) as [|[q0 m0] kept] eqn:Hk.
  { apply (f_equal length) in Hk. rewrite length_drop in Hk. simpl in Hk.
    replace (length msgs - c)%nat with 0%nat by lia. constructor. }
  assert (Hsz : (0 < size rb)%nat) by (rewrite <- (length_abs rb m'), Habs; simpl; lia).
  assert (Hold : SeqNum (item rb (head rb)) = q0).
  { pose proof (lookup_abs rb m' 0 Hsz) as E. rewrite Habs in E. simpl in E.
    unfold nth_item in E. rewrite Nat.add_0_r, Nat.mod_small in E by (by destruct Hinv). congruence. }
  rewrite <- (take_drop (length msgs - c) msgs), Hk in Hsort, Hpos.
  apply Forall_app in Hpos as [_ Hpos]. apply Forall_cons in Hpos as [Hq0 _]. simpl in Hq0.
  unfold IsOverflow in Hov. rewrite Hold in Hov.
  destruct (Nat.eqb_spec (size rb) 0); [lia|]. destruct (Z.eqb_spec last 0); [lia|]. simpl in Hov.
  unfold wrap in Hov. rewrite Z.mod_small in Hov by lia.
  apply Forall_forall. intros [q msg] Hin. simpl.
  assert (q < q0); [|zcase; simpl in *; try discriminate; lia].
  clear -Hsort Hin. revert Hsort Hin. generalize (take (length msgs - c) msgs).
  induction l as [|it l IH]; intros Hsort Hin; [by apply not_elem_of_nil in Hin|].
  simpl in Hsort. apply StronglySorted_inv in Hsort as [Hs Hf].
  apply elem_of_cons in Hin as [<-|Hin]; [|by apply IH].
  apply Forall_app in Hf as [_ Hf]. by apply Forall_cons in Hf as [? _].
Qed.

Definition sample_msgs : list (Z * bytes) := [(1, [x41]); (2, [x42]); (3, [x43])].

Lemma replay_complete_unless_overflow_witness :
  let st := push_all sample_msgs (NewRingBuffer 2) emptyMem in
  RingSpec.after 1 (abs st.1 st.2) = RingSpec.after 1 sample_msgs.
Proof.
  intros st.
  apply (replay_complete_unless_overflow 2 sample_msgs emptyMem [] 1 st.1 st.2 owned_empty).
  - repeat constructor; simpl; lia.
  - repeat constructor; simpl; lia.
  - lia.
  - apply surjective_pairing.
  - vm_compute. reflexivity.
Defined.
