(* ===== verification/Hash.v ===== *)
(** * Hash functions: [crypto/sha256] and [crypto/hmac] of the Go library

    SHA-256 (FIPS 180-4) and HMAC (RFC 2104) as executable functions on byte
    strings, checked against published test vectors.  They are the functions
    the source calls as [sha256.Sum256], [hmac.New(sha256.New, key)] and
    [hmac.Equal].  [crypto/sha1], which only the WebSocket handshake uses, is in
    Encoding.v. *)

From S2P Require Import Prelude.

(** ** 32-bit words *)

Definition add32 (a b : Z) : Z := wrap 32 (a + b).
Definition rotr (n x : Z) : Z := Z.lor (Z.shiftr x n) (wrap 32 (Z.shiftl x (32 - n))).
Definition not32 (x : Z) : Z := 0xffffffff - x.

(** Split a byte string in [n]-byte groups; [fuel] groups at most. *)
Fixpoint groups (fuel n : nat) (l : bytes) : list bytes :=
  match fuel with
  | O => []
  | S f => match l with [] => [] | _ => take n l :: groups f n (drop n l) end
  end.

(** ** SHA-256 *)

Module Sha256.

(** The round constants are the first 32 bits of the fractional parts of the
    cube roots (initial state: square roots) of the first 64 (8) primes. *)
Definition is_prime (n : Z) : bool :=
  forallb (fun d => negb (n mod (Z.of_nat d) =? 0)) (seq 2 (Z.to_nat (Z.sqrt n) - 1)).
Definition primes : list Z :=
  Eval vm_compute in List.filter is_prime (Z.of_nat <$> seq 2 310).

Fixpoint cbrt_loop (n : nat) (x r : Z) : Z :=
  match n with
  | O => r
  | S n' => let r' := r + 2 ^ Z.of_nat n' in cbrt_loop n' x (if r' ^ 3 <=? x then r' else r)
  end.

Definition K : list Z :=
  Eval vm_compute in (fun p => cbrt_loop 40 (p * 2 ^ 96) 0 mod 2 ^ 32) <$> primes.
Definition H0 : list Z :=
  Eval vm_compute in (fun p => Z.sqrt (p * 2 ^ 64) mod 2 ^ 32) <$> take 8 primes.

Definition Ch (x y z : Z) : Z := Z.lxor (Z.land x y) (Z.land (not32 x) z).
Definition Maj (x y z : Z) : Z := Z.lxor (Z.lxor (Z.land x y) (Z.land x z)) (Z.land y z).
Definition Sigma0 (x : Z) : Z := Z.lxor (Z.lxor (rotr 2 x) (rotr 13 x)) (rotr 22 x).
Definition Sigma1 (x : Z) : Z := Z.lxor (Z.lxor (rotr 6 x) (rotr 11 x)) (rotr 25 x).
Definition sigma0 (x : Z) : Z := Z.lxor (Z.lxor (rotr 7 x) (rotr 18 x)) (Z.shiftr x 3).
Definition sigma1 (x : Z) : Z := Z.lxor (Z.lxor (rotr 17 x) (rotr 19 x)) (Z.shiftr x 10).

(** The message schedule as a sliding window of 16 words. *)
Definition next_window (w : list Z) : list Z :=
  match w with
  | w0 :: w' =>
      w' ++ [add32 (add32 (sigma1 (nth 14 w 0)) (nth 9 w 0)) (add32 (sigma0 (nth 1 w 0)) w0)]
  | [] => []
  end.

Definition round (k w : Z) (s : list Z) : list Z :=
  match s with
  | [a; b; c; d; e; f; g; h] =>
      let t1 := add32 (add32 (add32 h (Sigma1 e)) (Ch e f g)) (add32 k w) in
      let t2 := add32 (Sigma0 a) (Maj a b c) in
      [add32 t1 t2; a; b; c; add32 d t1; e; f; g]
  | _ => s
  end.

Fixpoint rounds (ks : list Z) (w : list Z) (s : list Z) : list Z :=
  match ks with
  | [] => s
  | k :: ks' => rounds ks' (next_window w) (round k (nth 0 w 0) s)
  end.

Definition compress (h : list Z) (block : bytes) : list Z :=
  zip_with add32 h (rounds K (be_val <$> groups 16 4 block) h).

Definition pad (msg : bytes) : bytes :=
  let n := zlen msg in
  msg ++ [x80] ++ zeros (Z.to_nat ((55 - n) `mod` 64)) ++ be_bytes 8 (8 * n).

Definition sum (msg : bytes) : bytes :=
  let p := pad msg in
  let h := fold_left compress (groups (length p) 64 p) H0 in
  be_bytes 4 (nth 0 h 0) ++ be_bytes 4 (nth 1 h 0) ++ be_bytes 4 (nth 2 h 0) ++
  be_bytes 4 (nth 3 h 0) ++ be_bytes 4 (nth 4 h 0) ++ be_bytes 4 (nth 5 h 0) ++
  be_bytes 4 (nth 6 h 0) ++ be_bytes 4 (nth 7 h 0).

End Sha256.

Definition sha256 : bytes -> bytes := Sha256.sum.

(** ** HMAC-SHA-256 *)

Definition byte_xor (a b : byte) : byte := byte_of_Z (Z.lxor (Z_of_byte a) (Z_of_byte b)).
Definition xor_bytes : bytes -> bytes -> bytes := zip_with byte_xor.

Definition hmac_sha256 (key msg : bytes) : bytes :=
  let k := if 64 <? zlen key then sha256 key else key in
  let k := k ++ zeros (64 - length k) in
  let ipad := xor_bytes k (replicate 64 x36) in
  let opad := xor_bytes k (replicate 64 x5c) in
  sha256 (opad ++ sha256 (ipad ++ msg)).

(** ** String literals as bytes: Go's [[]byte("...")] *)

Definition bytes_of_string (s : string) : bytes := String.list_byte_of_string s.

(** Bytes written in hexadecimal, for test vectors. *)
Definition hex_digit (c : Ascii.ascii) : Z :=
  let n := Z.of_nat (Ascii.nat_of_ascii c) in
  if n <? 58 then n - 48 else n - 87.

Fixpoint unhex (s : string) : bytes :=
  match s with
  | String a (String b s') => byte_of_Z (16 * hex_digit a + hex_digit b) :: unhex s'
  | _ => []
  end.

(** ** Facts *)

Lemma length_sha256 msg : length (sha256 msg) = 32%nat.
Proof. unfold sha256, Sha256.sum. rewrite !length_app, !length_be_bytes. done. Qed.

Lemma length_hmac_sha256 key msg : length (hmac_sha256 key msg) = 32%nat.
Proof. apply length_sha256. Qed.

#[global] Hint Rewrite length_sha256 length_hmac_sha256 : zf_len.

Lemma length_xor_bytes a b : length (xor_bytes a b) = Nat.min (length a) (length b).
Proof. apply length_zip_with. Qed.

Lemma byte_xor_involutive a b : byte_xor (byte_xor a b) b = a.
Proof.
  unfold byte_xor. rewrite Z_of_byte_of_Z. unfold wrap.
  assert (H : Z.lxor (Z_of_byte a) (Z_of_byte b) `mod` 2 ^ 8 = Z.lxor (Z_of_byte a) (Z_of_byte b)).
  { pose proof (Z_of_byte_range a). pose proof (Z_of_byte_range b).
    apply Z.mod_small. split; [apply Z.lxor_nonneg; lia|].
    destruct (Z.eq_dec (Z.lxor (Z_of_byte a) (Z_of_byte b)) 0) as [->|Hne]; [done|].
    apply Z.log2_lt_pow2; [pose proof (proj2 (Z.lxor_nonneg (Z_of_byte a) (Z_of_byte b))); lia|].
    eapply Z.le_lt_trans; [apply Z.log2_lxor; lia|].
    apply Z.max_lub_lt.
    - destruct (Z.eq_dec (Z_of_byte a) 0) as [->|]; [done|]. apply Z.log2_lt_pow2; lia.
    - destruct (Z.eq_dec (Z_of_byte b) 0) as [->|]; [done|]. apply Z.log2_lt_pow2; lia. }
  rewrite H, Z.lxor_assoc, Z.lxor_nilpotent, Z.lxor_0_r. apply byte_of_Z_of_byte.
Qed.

Lemma xor_bytes_involutive a k :
  (length a <= length k)%nat -> xor_bytes (xor_bytes a k) k = a.
Proof.
  revert k. induction a as [|x a IH]; intros k H; [done|].
  destruct k as [|y k]; [simpl in H; lia|]. simpl. rewrite byte_xor_involutive, IH; [done|simpl in H; lia].
Qed.

(** Test vectors: FIPS 180-4 "abc" and RFC 4231 case 2. *)
Example sha256_abc :
  sha256 (bytes_of_string "abc") =
  unhex "ba7816bf8f01cfea414140de5dae2223b00361a396177a9cb410ff61f20015ad".
Proof. vm_compute. reflexivity. Qed.

Example hmac_rfc4231_2 :
  hmac_sha256 (bytes_of_string "Jefe") (bytes_of_string "what do ya want for nothing?") =
  unhex "5bdcc146bf60754e6a042426089575c75a003f089d2739839dec58b964ec3843".
Proof. vm_compute. reflexivity. Qed.

#[global] Opaque sha256 hmac_sha256.
