(* ===== verification/Aead.v ===== *)
(** * Authenticated encryption: [crypto/aes] and [crypto/cipher] GCM

    AES-256 (FIPS 197) and GCM with a 12-byte nonce and a 16-byte tag (SP
    800-38D), the AEAD [cipher.NewGCM(aes.NewCipher(key))] provides, as
    executable functions checked against the GCM specification's test cases.
    The class [AEAD] states what the rest of the development uses of it; the
    instance [aes256gcm] discharges it. *)

From S2P Require Import Prelude Hash.

(** ** AES-256 *)

Module Aes.

Definition sbox (b : byte) : byte :=
  match b with
  | x00 => x63 | x01 => x7c | x02 => x77 | x03 => x7b | x04 => xf2 | x05 => x6b | x06 => x6f | x07 => xc5
  | x08 => x30 | x09 => x01 | x0a => x67 | x0b => x2b | x0c => xfe | x0d => xd7 | x0e => xab | x0f => x76
  | x10 => xca | x11 => x82 | x12 => xc9 | x13 => x7d | x14 => xfa | x15 => x59 | x16 => x47 | x17 => xf0
  | x18 => xad | x19 => xd4 | x1a => xa2 | x1b => xaf | x1c => x9c | x1d => xa4 | x1e => x72 | x1f => xc0
  | x20 => xb7 | x21 => xfd | x22 => x93 | x23 => x26 | x24 => x36 | x25 => x3f | x26 => xf7 | x27 => xcc
  | x28 => x34 | x29 => xa5 | x2a => xe5 | x2b => xf1 | x2c => x71 | x2d => xd8 | x2e => x31 | x2f => x15
  | x30 => x04 | x31 => xc7 | x32 => x23 | x33 => xc3 | x34 => x18 | x35 => x96 | x36 => x05 | x37 => x9a
  | x38 => x07 | x39 => x12 | x3a => x80 | x3b => xe2 | x3c => xeb | x3d => x27 | x3e => xb2 | x3f => x75
  | x40 => x09 | x41 => x83 | x42 => x2c | x43 => x1a | x44 => x1b | x45 => x6e | x46 => x5a | x47 => xa0
  | x48 => x52 | x49 => x3b | x4a => xd6 | x4b => xb3 | x4c => x29 | x4d => xe3 | x4e => x2f | x4f => x84
  | x50 => x53 | x51 => xd1 | x52 => x00 | x53 => xed | x54 => x20 | x55 => xfc | x56 => xb1 | x57 => x5b
  | x58 => x6a | x59 => xcb | x5a => xbe | x5b => x39 | x5c => x4a | x5d => x4c | x5e => x58 | x5f => xcf
  | x60 => xd0 | x61 => xef | x62 => xaa | x63 => xfb | x64 => x43 | x65 => x4d | x66 => x33 | x67 => x85
  | x68 => x45 | x69 => xf9 | x6a => x02 | x6b => x7f | x6c => x50 | x6d => x3c | x6e => x9f | x6f => xa8
  | x70 => x51 | x71 => xa3 | x72 => x40 | x73 => x8f | x74 => x92 | x75 => x9d | x76 => x38 | x77 => xf5
  | x78 => xbc | x79 => xb6 | x7a => xda | x7b => x21 | x7c => x10 | x7d => xff | x7e => xf3 | x7f => xd2
  | x80 => xcd | x81 => x0c | x82 => x13 | x83 => xec | x84 => x5f | x85 => x97 | x86 => x44 | x87 => x17
  | x88 => xc4 | x89 => xa7 | x8a => x7e | x8b => x3d | x8c => x64 | x8d => x5d | x8e => x19 | x8f => x73
  | x90 => x60 | x91 => x81 | x92 => x4f | x93 => xdc | x94 => x22 | x95 => x2a | x96 => x90 | x97 => x88
  | x98 => x46 | x99 => xee | x9a => xb8 | x9b => x14 | x9c => xde | x9d => x5e | x9e => x0b | x9f => xdb
  | xa0 => xe0 | xa1 => x32 | xa2 => x3a | xa3 => x0a | xa4 => x49 | xa5 => x06 | xa6 => x24 | xa7 => x5c
  | xa8 => xc2 | xa9 => xd3 | xaa => xac | xab => x62 | xac => x91 | xad => x95 | xae => xe4 | xaf => x79
  | xb0 => xe7 | xb1 => xc8 | xb2 => x37 | xb3 => x6d | xb4 => x8d | xb5 => xd5 | xb6 => x4e | xb7 => xa9
  | xb8 => x6c | xb9 => x56 | xba => xf4 | xbb => xea | xbc => x65 | xbd => x7a | xbe => xae | xbf => x08
  | xc0 => xba | xc1 => x78 | xc2 => x25 | xc3 => x2e | xc4 => x1c | xc5 => xa6 | xc6 => xb4 | xc7 => xc6
  | xc8 => xe8 | xc9 => xdd | xca => x74 | xcb => x1f | xcc => x4b | xcd => xbd | xce => x8b | xcf => x8a
  | xd0 => x70 | xd1 => x3e | xd2 => xb5 | xd3 => x66 | xd4 => x48 | xd5 => x03 | xd6 => xf6 | xd7 => x0e
  | xd8 => x61 | xd9 => x35 | xda => x57 | xdb => xb9 | xdc => x86 | xdd => xc1 | xde => x1d | xdf => x9e
  | xe0 => xe1 | xe1 => xf8 | xe2 => x98 | xe3 => x11 | xe4 => x69 | xe5 => xd9 | xe6 => x8e | xe7 => x94
  | xe8 => x9b | xe9 => x1e | xea => x87 | xeb => xe9 | xec => xce | xed => x55 | xee => x28 | xef => xdf
  | xf0 => x8c | xf1 => xa1 | xf2 => x89 | xf3 => x0d | xf4 => xbf | xf5 => xe6 | xf6 => x42 | xf7 => x68
  | xf8 => x41 | xf9 => x99 | xfa => x2d | xfb => x0f | xfc => xb0 | xfd => x54 | xfe => xbb | xff => x16
  end.

Definition xtime (b : byte) : byte :=
  let z := 2 * Z_of_byte b in byte_of_Z (if 256 <=? z then Z.lxor z 0x11b else z).

(** ShiftRows on a column-major 16-byte state: output position [i] takes the
    byte at the listed input position. *)
Definition shift_rows_index : list nat := [0; 5; 10; 15; 4; 9; 14; 3; 8; 13; 2; 7; 12; 1; 6; 11]%nat.

Definition shift_rows (s : bytes) : bytes := (fun i => nth i s x00) <$> shift_rows_index.

Definition mix_column (a b c d : byte) : bytes :=
  let m2 := xtime in
  let m3 x := byte_xor (xtime x) x in
  let x4 p q r s := byte_xor (byte_xor p q) (byte_xor r s) in
  [x4 (m2 a) (m3 b) c d; x4 a (m2 b) (m3 c) d; x4 a b (m2 c) (m3 d); x4 (m3 a) b c (m2 d)].

Fixpoint mix_columns (s : bytes) : bytes :=
  match s with
  | a :: b :: c :: d :: s' => mix_column a b c d ++ mix_columns s'
  | _ => []
  end.

(** Key expansion: words are 4-byte lists, most recent first. *)
Definition Rcon : list byte := [x01; x02; x04; x08; x10; x20; x40].

Definition rot_word (w : bytes) : bytes := drop 1 w ++ take 1 w.

Definition next_word (i : nat) (ws : list bytes) : bytes :=
  let prev := nth 0 ws [] in
  let t := if (i mod 8 =? 0)%nat
           then xor_bytes (sbox <$> rot_word prev) [nth (i / 8 - 1) Rcon x00; x00; x00; x00]
           else if (i mod 8 =? 4)%nat then sbox <$> prev else prev in
  xor_bytes (nth 7 ws []) t.

Definition expand_key (key : bytes) : bytes :=
  concat (rev (fold_left (fun ws i => next_word i ws :: ws) (seq 8 52) (rev (groups 8 4 key)))).

Definition round_key (w : bytes) (r : nat) : bytes := (fun i => nth i w x00) <$> seq (16 * r) 16.

Definition encrypt_block (w : bytes) (block : bytes) : bytes :=
  let s := xor_bytes block (round_key w 0) in
  let s := fold_left (fun s r => xor_bytes (mix_columns (shift_rows (sbox <$> s))) (round_key w r))
             (seq 1 13) s in
  xor_bytes (shift_rows (sbox <$> s)) (round_key w 14).

End Aes.

(** ** GCM over a block function *)

Module Gcm.
Section Gcm.
Context (E : bytes -> bytes).

(** Multiplication in GF(2^128), bit-reflected as in the standard. *)
Definition poly : Z := Z.shiftl 0xe1 120.

Fixpoint gf_mul_loop (n : nat) (x v acc : Z) : Z :=
  match n with
  | O => acc
  | S n' =>
      let acc := if Z.testbit x (Z.of_nat n') then Z.lxor acc v else acc in
      let v := if Z.testbit v 0 then Z.lxor (Z.shiftr v 1) poly else Z.shiftr v 1 in
      gf_mul_loop n' x v acc
  end.

Definition gf_mul (x y : Z) : Z := gf_mul_loop 128 x y 0.

Definition pad16 (l : bytes) : bytes := l ++ zeros (Z.to_nat ((- zlen l) `mod` 16)).

Definition ghash (h : Z) (aad ct : bytes) : Z :=
  let data := pad16 aad ++ pad16 ct ++ be_bytes 8 (8 * zlen aad) ++ be_bytes 8 (8 * zlen ct) in
  fold_left (fun y b => gf_mul (Z.lxor y (be_val b)) h) (groups (length data) 16 data) 0.

Definition counter_block (nonce : bytes) (c : Z) : bytes := nonce ++ be_bytes 4 c.

(** CTR mode from counter value [c]; [n] blocks. *)
Fixpoint ctr_xor (n : nat) (nonce : bytes) (c : Z) (data : bytes) : bytes :=
  match n with
  | O => []
  | S n' =>
      xor_bytes (take 16 data) (E (counter_block nonce c)) ++
      ctr_xor n' nonce (wrap 32 (c + 1)) (drop 16 data)
  end.

Definition blocks (data : bytes) : nat := ((length data + 15) / 16)%nat.

Definition crypt (nonce data : bytes) : bytes := ctr_xor (blocks data) nonce 2 data.

Definition tag (nonce aad ct : bytes) : bytes :=
  let h := be_val (E (zeros 16)) in
  xor_bytes (be_bytes 16 (ghash h aad ct)) (E (counter_block nonce 1)).

Definition seal (nonce pt aad : bytes) : bytes :=
  let ct := crypt nonce pt in ct ++ tag nonce aad ct.

Definition open (nonce c aad : bytes) : option bytes :=
  if (length c <? 16)%nat then None
  else
    let ct := take (length c - 16) c in
    let t := drop (length c - 16) c in
    if decide (t = tag nonce aad ct) then Some (crypt nonce ct) else None.

(** *** Facts, for any block function with 16-byte output *)

Hypothesis length_E : forall b, length (E b) = 16%nat.

Lemma length_ctr_xor n nonce c data :
  (length data <= 16 * n)%nat -> length (ctr_xor n nonce c data) = length data.
Proof using length_E.
  revert c data. induction n as [|n IH]; intros c data H; simpl; [lia|].
  rewrite length_app, length_xor_bytes, IH by (rewrite length_drop; lia).
  rewrite length_take, length_drop, length_E. lia.
Qed.

Lemma ctr_xor_involutive n nonce c data :
  (length data <= 16 * n)%nat -> ctr_xor n nonce c (ctr_xor n nonce c data) = data.
Proof using length_E.
  revert c data. induction n as [|n IH]; intros c data H.
  { destruct data; [done|simpl in H; lia]. }
  cbn [ctr_xor]. set (x := xor_bytes (take 16 data) _).
  assert (Hx : length x = Nat.min 16 (length data)).
  { unfold x. rewrite length_xor_bytes, length_take, length_E. lia. }
  destruct (le_lt_dec 16 (length data)) as [Hge|Hlt].
  - rewrite take_exact, drop_exact by lia. rewrite IH by (rewrite length_drop; lia).
    unfold x. rewrite xor_bytes_involutive by (rewrite length_take, length_E; lia). apply take_drop.
  - rewrite (drop_ge data) by lia.
    assert (Hnil : forall c', ctr_xor n nonce c' [] = []).
    { intros c'. apply nil_length_inv. rewrite length_ctr_xor; simpl; lia. }
    rewrite Hnil, app_nil_r, (take_ge x), (drop_ge x), Hnil, app_nil_r by lia.
    unfold x. rewrite xor_bytes_involutive by (rewrite length_take, length_E; lia).
    apply take_ge. lia.
Qed.

Lemma blocks_enough data : (length data <= 16 * blocks data)%nat.
Proof.
  unfold blocks. pose proof (Nat.div_mod_eq (length data + 15) 16).
  pose proof (Nat.mod_upper_bound (length data + 15) 16). lia.
Qed.

Lemma length_crypt nonce data : length (crypt nonce data) = length data.
Proof using length_E. apply length_ctr_xor, blocks_enough. Qed.

Lemma crypt_involutive nonce data : crypt nonce (crypt nonce data) = data.
Proof using length_E.
  unfold crypt at 1. unfold blocks. rewrite length_crypt. fold (blocks data).
  apply ctr_xor_involutive, blocks_enough.
Qed.

Lemma length_tag nonce aad ct : length (tag nonce aad ct) = 16%nat.
Proof using length_E. unfold tag. by rewrite length_xor_bytes, length_be_bytes, length_E. Qed.

Lemma length_seal nonce pt aad : length (seal nonce pt aad) = (length pt + 16)%nat.
Proof using length_E. unfold seal. by rewrite length_app, length_crypt, length_tag. Qed.

Lemma open_seal nonce pt aad : open nonce (seal nonce pt aad) aad = Some pt.
Proof using length_E.
  unfold open. rewrite length_seal. destruct (Nat.ltb_spec (length pt + 16) 16); [lia|].
  rewrite Nat.add_sub. unfold seal.
  rewrite take_exact, drop_exact by apply length_crypt.
  by rewrite decide_True, crypt_involutive.
Qed.

Lemma open_inv nonce c aad pt : open nonce c aad = Some pt -> c = seal nonce pt aad.
Proof using length_E.
  unfold open. destruct (Nat.ltb_spec (length c) 16); [done|]. case_decide as Ht; [|done].
  intros [= <-]. unfold seal. rewrite crypt_involutive, <- Ht. by rewrite take_drop.
Qed.

End Gcm.
End Gcm.

(** ** The interface *)

(** What the source relies on of [cipher.AEAD]: decryption inverts encryption
    and accepts nothing but the encryption of its answer; a ciphertext is 16
    bytes longer than its plaintext. *)
Class AEAD := {
  aead_seal : bytes -> bytes -> bytes -> bytes -> bytes;
  aead_open : bytes -> bytes -> bytes -> bytes -> option bytes;
  aead_open_seal key nonce pt aad :
    aead_open key nonce (aead_seal key nonce pt aad) aad = Some pt;
  aead_open_inv key nonce c aad pt :
    aead_open key nonce c aad = Some pt -> c = aead_seal key nonce pt aad;
  aead_seal_length key nonce pt aad :
    length (aead_seal key nonce pt aad) = (length pt + 16)%nat
}.

Lemma length_round_key w r : length (Aes.round_key w r) = 16%nat.
Proof. unfold Aes.round_key. by rewrite length_fmap, length_seq. Qed.

Lemma length_shift_rows s : length (Aes.shift_rows s) = 16%nat.
Proof. done. Qed.

Lemma length_encrypt_block w b : length (Aes.encrypt_block w b) = 16%nat.
Proof. unfold Aes.encrypt_block. by rewrite length_xor_bytes, length_shift_rows, length_round_key. Qed.

(** AES-256-GCM, as [NewCipher] builds it (cipher.go:128-134). *)
#[global] Program Instance aes256gcm : AEAD := {|
  aead_seal key := Gcm.seal (Aes.encrypt_block (Aes.expand_key key));
  aead_open key := Gcm.open (Aes.encrypt_block (Aes.expand_key key))
|}.
Next Obligation. intros. apply Gcm.open_seal, length_encrypt_block. Qed.
Next Obligation. intros. eapply Gcm.open_inv; [apply length_encrypt_block|done]. Qed.
Next Obligation. intros. apply Gcm.length_seal, length_encrypt_block. Qed.

(** GCM specification, test cases 13 and 14 (256-bit zero key, zero nonce). *)
Example gcm_case_13 :
  aead_seal (zeros 32) (zeros 12) [] [] = unhex "530f8afbc74536b9a963b4f1c4cb738b".
Proof. vm_compute. reflexivity. Qed.

Example gcm_case_14 :
  aead_seal (zeros 32) (zeros 12) (zeros 16) [] =
  unhex "cea7403d4d606b6e074ec5d3baf39d18d0d1c8a799996bf0265b98b5d48ab919".
Proof. vm_compute. reflexivity. Qed.
