(* ===== verification/Cipher.v ===== *)
(** * Symmetric cryptography: [pkg/crypto/cipher.go]

    HKDF, nonces, the AEAD cipher object with its key lifecycle, session-key
    wrapping and the SAS badge.  Fresh randomness ([io.ReadFull(rand.Reader,
    buf)]) is an argument: [Some] bytes of the requested size, or [None] when
    the read fails.  [x509.ParseCertificate] is a parameter. *)

From S2P Require Import Prelude Hash Aead.

(** ** Constants and errors (cipher.go:18-32, pake.go:15-31) *)

Definition KeySize : nat := 32.
Definition NonceSize : nat := 12.
Definition DomainInfo : bytes := bytes_of_string "zerofeed-v2-hkdf-aead".

Inductive crypto_error :=
  | ErrDecryptionFailed | ErrInvalidKeySize | ErrInvalidNonceSize | ErrEmptySecret
  | ErrCipherClosed | ErrInvalidWrappedKey | ErrRandom
  | ErrPAKEFailed | ErrInvalidPeerMsg.

(** ** HKDF (cipher.go:35-82) *)

(** The expand loop (cipher.go:54-66); every round appends 32 bytes, so
    [fuel] above [length / 32] is never used up. *)
Fixpoint hkdf_expand (fuel : nat) (prk info prev : bytes) (counter : byte) (okm : bytes) (length : Z)
    : bytes :=
  match fuel with
  | O => okm
  | S fuel' =>
      if zlen okm <? length then
        let nextPrev := hmac_sha256 prk (prev ++ info ++ [counter]) in
        hkdf_expand fuel' prk info nextPrev (byte_of_Z (Z_of_byte counter + 1)) (okm ++ nextPrev) length
      else okm
  end.

Definition HKDFSHA256 (secret salt info : bytes) (length : Z) : result crypto_error bytes :=
  match secret with
  | [] => Err ErrEmptySecret
  | _ =>
      let salt := match salt with [] => bytes_of_string "zerofeed-v2-default-salt" | _ => salt end in
      let prk := hmac_sha256 salt secret in
      let okm := hkdf_expand (S (Z.to_nat length)) prk info [] x01 [] length in
      Ok (take (Z.to_nat length) okm)
  end.

Definition DeriveKey (secret sessionID : bytes) : result crypto_error bytes :=
  HKDFSHA256 secret (bytes_of_string "zerofeed-v2-session-key-salt:" ++ sessionID) DomainInfo
    (Z.of_nat KeySize).

(** cipher.go:147-150 *)
Definition RatchetKey (currentKey salt : bytes) : result crypto_error bytes :=
  HKDFSHA256 currentKey salt (bytes_of_string "zerofeed-v2-key-ratchet-pfs") (Z.of_nat KeySize).

(** ** Nonces (cipher.go:85-99) *)

Definition GenerateNonce (rnd : option bytes) : result crypto_error bytes :=
  match rnd with Some nonce => Ok nonce | None => Err ErrRandom end.

Definition ConstructNonceRFC5116 (sessionSalt : bytes) (seqNum : Z) : bytes :=
  let nonce := zeros NonceSize in
  let nonce := copy_at 0 nonce (take 4 sessionSalt) in
  copy_at 4 nonce (be_bytes 8 seqNum).

(** ** Hexadecimal text: [encoding/hex] and [fmt]'s [%08X] *)

Definition hex_char (upper : bool) (d : Z) : byte :=
  byte_of_Z (if d <? 10 then 48 + d else (if upper then 55 else 87) + d).

Definition hex_byte (upper : bool) (b : byte) : bytes :=
  [hex_char upper (Z_of_byte b `div` 16); hex_char upper (Z_of_byte b `mod` 16)].

Definition EncodeToString (bs : bytes) : bytes := concat (hex_byte false <$> bs).

(** cipher.go:102-110; [parseSPKI] is [x509.ParseCertificate] followed by the
    [RawSubjectPublicKeyInfo] field. *)
Definition CalculateSPKIFingerprint (parseSPKI : bytes -> option bytes) (rawCertDER : bytes) : bytes :=
  match parseSPKI rawCertDER with
  | None => EncodeToString (sha256 rawCertDER)
  | Some spki => EncodeToString (sha256 spki)
  end.

(** ** The cipher object (cipher.go:113-295) *)

(** [aead] holds the key the AEAD instance was built from: its key schedule is
    a copy, so scrubbing [key] does not change it. *)
Record Cipher := mkCipher { c_aead : option bytes; c_key : option bytes }.

Section WithAEAD.
Context {aeadI : AEAD}.

Definition NewCipher (key : bytes) : result crypto_error Cipher :=
  if negb (length key =? KeySize)%nat then Err ErrInvalidKeySize
  else Ok (mkCipher (Some key) (Some key)).

Definition UpdateKey (c : Cipher) (newKey : bytes) : result crypto_error Cipher :=
  if negb (length newKey =? KeySize)%nat then Err ErrInvalidKeySize
  else Ok (mkCipher (Some newKey) (Some newKey)).

Definition GetKey (c : Cipher) : option bytes := c_key c.

(** [nonce = None] is the nil slice: a random nonce is drawn. *)
Definition Encrypt (c : Cipher) (rnd : option bytes) (plaintext : bytes) (nonce : option bytes)
    (aad : bytes) : result crypto_error (bytes * bytes) :=
  let? nonce := match nonce with
                | None => GenerateNonce rnd
                | Some n => if negb (length n =? NonceSize)%nat then Err ErrInvalidNonceSize else Ok n
                end in
  match c_aead c with
  | None => Err ErrCipherClosed
  | Some k => Ok (aead_seal k nonce plaintext aad, nonce)
  end.

Definition Decrypt (c : Cipher) (ciphertext nonce aad : bytes) : result crypto_error bytes :=
  if negb (length nonce =? NonceSize)%nat then Err ErrInvalidNonceSize
  else match c_aead c with
       | None => Err ErrCipherClosed
       | Some k =>
           match aead_open k nonce ciphertext aad with
           | None => Err ErrDecryptionFailed
           | Some plaintext => Ok plaintext
           end
       end.

Definition wrapAAD : bytes := bytes_of_string "zerofeed-v3-pqc-key-wrap".

Definition WrapSessionKey (rnd : option bytes) (p2pKey masterKey : bytes) : result crypto_error bytes :=
  let? ciph := NewCipher p2pKey in
  let? (ciphertext, nonce) := Encrypt ciph rnd masterKey None wrapAAD in
  Ok (nonce ++ ciphertext).

Definition UnwrapSessionKey (p2pKey wrappedData : bytes) : result crypto_error bytes :=
  if (length wrappedData <? NonceSize + 48)%nat then Err ErrInvalidWrappedKey
  else
    let wrappedData := if (NonceSize + 48 <? length wrappedData)%nat
                       then take (NonceSize + 48) wrappedData else wrappedData in
    let? ciph := NewCipher p2pKey in
    Decrypt ciph (drop NonceSize wrappedData) (take NonceSize wrappedData) wrapAAD.

(** [Close] drops key and AEAD; that it also zeroes the key array is in CipherMem.v. *)
Definition Close (c : Cipher) : Cipher := mkCipher None None.

(** ** The SAS badge (cipher.go:298-313) *)

Definition SASVisualEmojis : list bytes := bytes_of_string <$>
  ["🛡️"; "⚡"; "🚀"; "🔒"; "🔑"; "🐺"; "🦅"; "💎";
   "🎯"; "🔥"; "🌊"; "🔮"; "🏆"; "🌟"; "⚓"; "👑"]%string.

Definition CalculateSAS (key : bytes) : bytes * bytes :=
  let h := sha256 key in
  let hexSAS := concat (hex_byte true <$> slice 0 4 h) in
  let idx i := Z.to_nat (Z_of_byte (nth i h x00) `mod` zlen SASVisualEmojis) in
  let emoji i := nth (idx i) SASVisualEmojis [] in
  (hexSAS, emoji 4%nat ++ emoji 5%nat ++ emoji 6%nat ++ emoji 7%nat).

(** ** Facts *)

Lemma NewCipher_ok key : length key = KeySize -> NewCipher key = Ok (mkCipher (Some key) (Some key)).
Proof. intros E. unfold NewCipher. by rewrite E. Qed.

Lemma UpdateKey_ok c key : length key = KeySize -> UpdateKey c key = Ok (mkCipher (Some key) (Some key)).
Proof. intros E. unfold UpdateKey. by rewrite E. Qed.

Lemma Encrypt_open k ok rnd pt n aad :
  length n = NonceSize ->
  Encrypt (mkCipher (Some k) ok) rnd pt (Some n) aad = Ok (aead_seal k n pt aad, n).
Proof. intros E. unfold Encrypt. by rewrite E. Qed.

Lemma Decrypt_open k ok c n aad :
  length n = NonceSize ->
  Decrypt (mkCipher (Some k) ok) c n aad =
    match aead_open k n c aad with Some p => Ok p | None => Err ErrDecryptionFailed end.
Proof. intros E. unfold Decrypt. rewrite E. simpl. by destruct (aead_open k n c aad). Qed.

Lemma ConstructNonce_spec salt seqNum :
  length salt = 4%nat -> ConstructNonceRFC5116 salt seqNum = salt ++ be_bytes 8 seqNum.
Proof.
  intros Hs. unfold ConstructNonceRFC5116. rewrite (take_ge salt) by lia.
  change (zeros NonceSize) with (zeros 4 ++ zeros 8). rewrite copy_at_head by done.
  rewrite <- (app_nil_r (zeros 8)), copy_at_mid by (rewrite ?length_be_bytes, ?length_zeros; done).
  by rewrite app_nil_r.
Qed.

Lemma length_ConstructNonce salt seqNum :
  length salt = 4%nat -> length (ConstructNonceRFC5116 salt seqNum) = NonceSize.
Proof. intros Hs. rewrite ConstructNonce_spec by done. by rewrite length_app, length_be_bytes, Hs. Qed.

(** The expand loop reaches the requested length and only extends its output. *)
Lemma hkdf_expand_prefix fuel prk info prev counter okm length :
  exists more, hkdf_expand fuel prk info prev counter okm length = okm ++ more.
Proof.
  revert prev counter okm. induction fuel as [|fuel IH]; intros; simpl; [exists []; by rewrite app_nil_r|].
  destruct (zlen okm <? length); [|exists []; by rewrite app_nil_r].
  edestruct IH as [more ->]. rewrite <- app_assoc. eauto.
Qed.

Lemma hkdf_expand_length fuel prk info prev counter okm length :
  length <= zlen okm + 32 * Z.of_nat fuel ->
  length <= zlen (hkdf_expand fuel prk info prev counter okm length).
Proof.
  revert prev counter okm. induction fuel as [|fuel IH]; intros prev counter okm H; simpl; [lia|].
  zcase; [|lia]. apply IH. rewrite length_app, length_hmac_sha256. lia.
Qed.

(** Longer requests extend shorter ones. *)
Lemma hkdf_expand_mono f1 f2 prk info prev counter okm l1 l2 :
  l1 <= l2 -> l1 <= zlen okm + 32 * Z.of_nat f1 -> l2 <= zlen okm + 32 * Z.of_nat f2 ->
  exists more, hkdf_expand f2 prk info prev counter okm l2
             = hkdf_expand f1 prk info prev counter okm l1 ++ more.
Proof.
  revert f2 prev counter okm. induction f1 as [|f1 IH]; intros f2 prev counter okm Hl H1 H2.
  { apply hkdf_expand_prefix. }
  destruct f2 as [|f2].
  - exists []. simpl. zcase; [lia|by rewrite app_nil_r].
  - simpl. destruct (Z.ltb_spec (zlen okm) l1), (Z.ltb_spec (zlen okm) l2); try lia.
    + apply IH; rewrite ?length_app, ?length_hmac_sha256; lia.
    + edestruct hkdf_expand_prefix as [more ->]. rewrite <- app_assoc. eauto.
    + exists []. by rewrite app_nil_r.
Qed.

Lemma HKDF_length secret salt info l key :
  0 <= l -> HKDFSHA256 secret salt info l = Ok key -> zlen key = l.
Proof.
  intros Hl Hk. destruct secret as [|s0 secret]; [done|].
  set (okm := hkdf_expand (S (Z.to_nat l)) (hmac_sha256 (match salt with
    [] => bytes_of_string "zerofeed-v2-default-salt" | _ => salt end) (s0 :: secret)) info [] x01 [] l).
  assert (key = take (Z.to_nat l) okm) as -> by (symmetry; injection Hk; done).
  assert (l <= zlen okm) by (apply hkdf_expand_length; cbn [length]; lia).
  rewrite length_take. lia.
Qed.

Lemma RatchetKey_total k salt :
  length k = KeySize -> exists k', RatchetKey k salt = Ok k' /\ length k' = KeySize.
Proof.
  intros Hk. destruct k as [|b k]; [discriminate Hk|].
  destruct (RatchetKey (b :: k) salt) as [k'|e] eqn:E; [|discriminate E].
  exists k'. split; [done|]. unfold RatchetKey in E. apply HKDF_length in E; unfold KeySize in *; lia.
Qed.

(** Wrapping, and unwrapping a wrapped key with anything after it. *)
Definition wrapped (rnd p2pKey masterKey : bytes) : bytes :=
  rnd ++ aead_seal p2pKey rnd masterKey wrapAAD.

Lemma Wrap_run rnd p2pKey masterKey :
  length p2pKey = KeySize -> WrapSessionKey (Some rnd) p2pKey masterKey = Ok (wrapped rnd p2pKey masterKey).
Proof. intros Hp. unfold WrapSessionKey. by rewrite NewCipher_ok. Qed.

Lemma length_wrapped rnd p2pKey masterKey :
  length masterKey = KeySize -> length rnd = NonceSize -> length (wrapped rnd p2pKey masterKey) = 60%nat.
Proof. intros Hm Hr. unfold wrapped. rewrite length_app, aead_seal_length, Hm, Hr. done. Qed.

Lemma Unwrap_run rnd p2pKey masterKey extra :
  length p2pKey = KeySize -> length masterKey = KeySize -> length rnd = NonceSize ->
  UnwrapSessionKey p2pKey (wrapped rnd p2pKey masterKey ++ extra) = Ok masterKey.
Proof.
  intros Hp Hm Hr. pose proof (length_wrapped rnd p2pKey masterKey Hm Hr) as Hl.
  unfold UnwrapSessionKey. rewrite NewCipher_ok by done. rewrite length_app, Hl. unfold NonceSize in *.
  destruct (Nat.ltb_spec (60 + length extra) (12 + 48)); [lia|].
  set (w := if (12 + 48 <? _)%nat then _ else _).
  assert (w = wrapped rnd p2pKey masterKey) as ->.
  { unfold w. destruct (Nat.ltb_spec (12 + 48) (60 + length extra)); [by apply take_exact|].
    destruct extra; [apply app_nil_r|simpl in *; lia]. }
  cbn [result_bind]. unfold wrapped. rewrite drop_exact, take_exact by done.
  rewrite Decrypt_open by done. by rewrite aead_open_seal.
Qed.

End WithAEAD.

#[global] Arguments hkdf_expand : simpl never.
#[global] Opaque SASVisualEmojis.

(** RFC 5869, test case 1. *)
Example hkdf_rfc5869_1 :
  HKDFSHA256 (replicate 22 x0b) (unhex "000102030405060708090a0b0c") (unhex "f0f1f2f3f4f5f6f7f8f9") 42 =
  Ok (unhex "3cb25f25faacd57a90434f64d0362f2a2d2d0a90cf1a5a4c5db02d56ecc4c5bf34007208d5b887185865").
Proof. vm_compute. reflexivity. Qed.

(** * Properties *)

(** [HKDFSHA256] rejects exactly the empty secret and otherwise returns
    exactly the requested number of bytes; a shorter request with the same
    inputs is a prefix of a longer one. *)
Theorem HKDFSHA256_spec secret salt info l1 l2 :
  0 <= l1 <= l2 ->
  match secret with
  | [] => HKDFSHA256 secret salt info l1 = Err ErrEmptySecret
  | _ => exists k1 k2,
      HKDFSHA256 secret salt info l1 = Ok k1 /\ HKDFSHA256 secret salt info l2 = Ok k2 /\
      zlen k1 = l1 /\ zlen k2 = l2 /\ k1 = take (Z.to_nat l1) k2
  end.
Proof.
  intros Hl. destruct secret as [|s0 secret]; [done|].
  destruct (HKDFSHA256 (s0 :: secret) salt info l1) as [k1|e] eqn:E1; [|discriminate E1].
  destruct (HKDFSHA256 (s0 :: secret) salt info l2) as [k2|e] eqn:E2; [|discriminate E2].
  exists k1, k2. split; [done|]. split; [done|].
  pose proof (HKDF_length _ _ _ _ _ (proj1 Hl) E1) as H1.
  pose proof (HKDF_length _ _ _ l2 _ ltac:(lia) E2) as H2.
  split; [done|]. split; [done|]. unfold HKDFSHA256 in E1, E2.
  set (prk := hmac_sha256 _ (s0 :: secret)) in *. injection E1 as <-. injection E2 as <-.
  destruct (hkdf_expand_mono (S (Z.to_nat l1)) (S (Z.to_nat l2)) prk info [] x01 [] l1 l2
    ltac:(lia) ltac:(cbn [length]; lia) ltac:(cbn [length]; lia)) as [more E]. rewrite E in *.
  rewrite take_take, Nat.min_l by lia. rewrite take_app_le; [done|].
  pose proof (hkdf_expand_length (S (Z.to_nat l1)) prk info [] x01 [] l1 ltac:(cbn [length]; lia)). lia.
Qed.

Lemma HKDFSHA256_spec_witness :
  exists k1 k2, HKDFSHA256 [x01] [] [] 16 = Ok k1 /\ HKDFSHA256 [x01] [] [] 42 = Ok k2 /\
    zlen k1 = 16 /\ zlen k2 = 42 /\ k1 = take (Z.to_nat 16) k2.
Proof. apply (HKDFSHA256_spec [x01] [] [] 16 42). lia. Defined.

(** Nonces are unique per message: with the same 4-byte session salt, two
    64-bit sequence numbers give the same 12-byte nonce only if equal; the salt
    can be read back too. *)
Theorem ConstructNonce_inj s1 s2 n1 n2 :
  length s1 = 4%nat -> length s2 = 4%nat -> 0 <= n1 < 2 ^ 64 -> 0 <= n2 < 2 ^ 64 ->
  ConstructNonceRFC5116 s1 n1 = ConstructNonceRFC5116 s2 n2 -> s1 = s2 /\ n1 = n2.
Proof.
  intros H1 H2 Hn1 Hn2. rewrite !ConstructNonce_spec by done. intros E.
  apply app_inj_1 in E as [-> E]; [|lia]. split; [done|].
  by apply (be_bytes_inj 8).
Qed.

Lemma ConstructNonce_inj_witness :
  let s := [x01; x02; x03; x04] in s = s /\ 7 = 7.
Proof.
  apply (ConstructNonce_inj [x01; x02; x03; x04] [x01; x02; x03; x04] 7 7); [done..|lia|lia|done].
Defined.

(** [Decrypt] accepts a ciphertext exactly when it is the encryption of the
    plaintext it returns under the same key, nonce and header: what [Encrypt]
    produced is recovered, and any change to the ciphertext, the nonce or the
    header that is not itself an encryption is refused with
    [ErrDecryptionFailed]. *)
Theorem Decrypt_accepts_iff `{AEAD} key ciph c nonce aad pt :
  NewCipher key = Ok ciph -> length nonce = NonceSize ->
  Decrypt ciph c nonce aad = Ok pt <->
  Encrypt ciph None pt (Some nonce) aad = Ok (c, nonce).
Proof.
  intros Hc Hn. unfold NewCipher in Hc. destruct (length key =? KeySize)%nat; [|discriminate Hc].
  injection Hc as <-. rewrite Decrypt_open, Encrypt_open by done. split.
  - destruct (aead_open key nonce c aad) as [p|] eqn:E; [|discriminate].
    intros [= <-]. apply aead_open_inv in E. by rewrite E.
  - intros [= <-]. by rewrite aead_open_seal.
Qed.

Lemma Decrypt_accepts_iff_witness :
  let ciph := mkCipher (Some (zeros 32)) (Some (zeros 32)) in
  let c := aead_seal (zeros 32) (zeros 12) [x41] [x42] in
  Decrypt ciph c (zeros 12) [x42] = Ok [x41] <->
  Encrypt ciph None [x41] (Some (zeros 12)) [x42] = Ok (c, zeros 12).
Proof. apply (Decrypt_accepts_iff (zeros 32)); done. Defined.

(** Session-key wrapping round-trips: the wrapped key is 12 + 48 = 60
    bytes, [UnwrapSessionKey] under the same tunnel key returns the master key,
    also when more bytes follow, and it accepts nothing but a wrapping. *)
Theorem Wrap_Unwrap_roundtrip `{AEAD} rnd p2pKey masterKey w extra :
  length p2pKey = KeySize -> length masterKey = KeySize -> length rnd = NonceSize ->
  WrapSessionKey (Some rnd) p2pKey masterKey = Ok w ->
  length w = 60%nat /\ UnwrapSessionKey p2pKey (w ++ extra) = Ok masterKey /\
  forall w' k, length w' = 60%nat -> UnwrapSessionKey p2pKey w' = Ok k ->
    WrapSessionKey (Some (take NonceSize w')) p2pKey k = Ok w'.
Proof.
  intros Hp Hm Hr Hw. rewrite Wrap_run in Hw by done. injection Hw as <-.
  split; [by apply length_wrapped|]. split; [by apply Unwrap_run|].
  unfold WrapSessionKey. rewrite NewCipher_ok by done. cbn [result_bind Encrypt c_aead].
  intros w' k Hw' Hu. unfold UnwrapSessionKey in Hu. rewrite NewCipher_ok, Hw' in Hu by done.
    unfold NonceSize in *. simpl result_bind in *.
    rewrite Decrypt_open in Hu by (rewrite length_take; unfold NonceSize; lia).
    simpl (60 <? 12 + 48)%nat in Hu. simpl (12 + 48 <? 60)%nat in Hu. cbv iota in Hu.
    destruct (aead_open _ _ _ _) as [p|] eqn:E; [|discriminate Hu]. injection Hu as <-.
    apply aead_open_inv in E. simpl. rewrite <- E. by rewrite take_drop.
Qed.

Lemma Wrap_Unwrap_roundtrip_witness :
  let w := zeros 12 ++ aead_seal (zeros 32) (zeros 12) (zeros 32) wrapAAD in
  length w = 60%nat /\ UnwrapSessionKey (zeros 32) (w ++ [x01]) = Ok (zeros 32) /\
  forall w' k, length w' = 60%nat -> UnwrapSessionKey (zeros 32) w' = Ok k ->
    WrapSessionKey (Some (take NonceSize w')) (zeros 32) k = Ok w'.
Proof. apply (Wrap_Unwrap_roundtrip (zeros 12) (zeros 32) (zeros 32)); done. Defined.

(** The SAS badge is well formed for every key: eight hexadecimal digits,
    and four emojis of the 16-entry table (every index is in range), so the two
    ends show the same badge for the same key. *)
Theorem CalculateSAS_wf key :
  length (CalculateSAS key).1 = 8%nat /\
  exists e1 e2 e3 e4, (CalculateSAS key).2 = e1 ++ e2 ++ e3 ++ e4 /\
    Forall (fun e => e ∈ SASVisualEmojis) [e1; e2; e3; e4].
Proof.
  unfold CalculateSAS. pose proof (length_sha256 key) as Hl.
  assert (Hidx : forall b, nth (Z.to_nat (Z_of_byte b `mod` zlen SASVisualEmojis)) SASVisualEmojis []
                           ∈ SASVisualEmojis).
  { intros b. apply list_elem_of_In, nth_In.
    assert (0 < zlen SASVisualEmojis) by (vm_compute; done).
    pose proof (Z.mod_pos_bound (Z_of_byte b) (zlen SASVisualEmojis)). lia. }
  split; cbn [fst snd].
  - destruct (sha256 key) as [|a [|b [|c [|d l]]]]; try discriminate Hl. done.
  - do 4 eexists. split; [reflexivity|]. repeat constructor; apply Hidx.
Qed.
