(* ===== verification/CipherMem.v ===== *)
(** * The keys of a cipher in memory (pkg/crypto/cipher.go)

    [Cipher.v] models the cipher object by its values.  Here the object holds its
    key as an array of the explicit store of Memory.v, as the Go code does: every
    [NewCipher] and [UpdateKey] copies the key into a new array, [UpdateKey] and
    [Close] overwrite the array they give up, [GetKey] hands out a copy. *)

From S2P Require Import Prelude Memory Hash Aead Cipher.

(** ** Operations *)

Record KeyObj := mkKeyObj { ko_aead : option bytes; ko_key : option Slice }.

(** [keyCopy := make([]byte, KeySize); copy(keyCopy, key)] *)
Definition copyKey (key : bytes) (m : Mem) : Slice * Mem :=
  let (s, m) := make_slice KeySize KeySize m in (s, copy_slice s key m).

(** cipher.go:120-144; [aes.NewCipher] and [cipher.NewGCM] accept every 32-byte key. *)
Definition NewCipher_mem (key : bytes) (m : Mem) : result crypto_error KeyObj * Mem :=
  if negb (length key =? KeySize)%nat then (Err ErrInvalidKeySize, m)
  else let (s, m) := copyKey key m in (Ok (mkKeyObj (Some key) (Some s)), m).

(** cipher.go:153-183 *)
Definition UpdateKey_mem (newKey : bytes) (o : KeyObj) (m : Mem) : result crypto_error unit * (KeyObj * Mem) :=
  if negb (length newKey =? KeySize)%nat then (Err ErrInvalidKeySize, (o, m))
  else
    let (s, m) := copyKey newKey m in
    let m := match ko_key o with Some old => ZeroBytes old m | None => m end in
    (Ok tt, (mkKeyObj (Some newKey) (Some s), m)).

(** cipher.go:186-196 *)
Definition GetKey_mem (o : KeyObj) (m : Mem) : option Slice * Mem :=
  match ko_key o with
  | None => (None, m)
  | Some s => let (c, m) := copyKey (contents m s) m in (Some c, m)
  end.

(** cipher.go:286-295 *)
Definition Close_mem (o : KeyObj) (m : Mem) : KeyObj * Mem :=
  (mkKeyObj None None, match ko_key o with Some s => ZeroBytes s m | None => m end).

(** ** Histories *)

(** A call on the object; [Encrypt] and [Decrypt] only read it. *)
Inductive key_call := KUpdate (key : bytes) | KGet | KClose.

(** The object, the copies [GetKey] has handed out with the key each was made of, the
    store. *)
Record KeyState := mkKS { ks_obj : KeyObj; ks_copies : list (Slice * bytes); ks_mem : Mem }.

Definition key_step (call : key_call) (st : KeyState) : KeyState :=
  let '(mkKS o copies m) := st in
  match call with
  | KUpdate key => let '(_, (o, m)) := UpdateKey_mem key o m in mkKS o copies m
  | KGet =>
      match GetKey_mem o m with
      | (Some c, m') => mkKS o ((c, match ko_key o with Some s => contents m s | None => [] end) :: copies) m'
      | (None, m') => mkKS o copies m'
      end
  | KClose => let (o, m) := Close_mem o m in mkKS o copies m
  end.

Definition key_run (calls : list key_call) (st : KeyState) : KeyState := fold_left (fun st c => key_step c st) calls st.

(** The same history on the cipher of Cipher.v. *)
Definition cipher_step (c : Cipher) (call : key_call) : Cipher :=
  match call with
  | KUpdate key => match UpdateKey c key with Ok c' => c' | Err _ => c end
  | KGet => c
  | KClose => Close c
  end.

(** What the object shows of the store. *)
Definition key_view (o : KeyObj) (m : Mem) : Cipher := mkCipher (ko_aead o) (contents m <$> ko_key o).

(** ** The store *)

Lemma copyKey_spec key m s m' :
  length key = KeySize -> copyKey key m = (s, m') ->
  s = mkSlice (next m) KeySize /\ next m' = S (next m) /\ heap m' = <[next m := key]> (heap m).
Proof.
  intros Hk [= <- <-]. split; [done|]. split; [done|]. unfold copy_slice, set_heap. cbn [heap next ptr len].
  rewrite alter_insert_eq. f_equal. rewrite take_ge by lia. rewrite <- (app_nil_r (zeros KeySize)), copy_at_head by (by rewrite length_zeros).
  apply app_nil_r.
Qed.

Lemma ZeroBytes_heap s m : len s <> 0%nat -> next (ZeroBytes s m) = next m /\ heap (ZeroBytes s m) = alter (fun c => zeros (length c)) (ptr s) (heap m).
Proof. intros Hl. unfold ZeroBytes. by rewrite (proj2 (Nat.eqb_neq _ _) Hl). Qed.

(** From [n0] on the store holds arrays of the object only: the key, copies that were handed
    out, and zeros; below it nothing has changed. *)
Record keys_inv (m0 : Mem) (st : KeyState) : Prop := {
  ki_next : (next m0 <= next (ks_mem st))%nat;
  ki_key s : ko_key (ks_obj st) = Some s ->
    len s = KeySize /\ (next m0 <= ptr s < next (ks_mem st))%nat /\
    exists k, length k = KeySize /\ heap (ks_mem st) !! ptr s = Some k /\ ko_aead (ks_obj st) = Some k;
  ki_closed : ko_key (ks_obj st) = None -> ko_aead (ks_obj st) = None;
  ki_copies s k : (s, k) ∈ ks_copies st ->
    len s = KeySize /\ length k = KeySize /\ (next m0 <= ptr s < next (ks_mem st))%nat /\ heap (ks_mem st) !! ptr s = Some k /\
    ptr <$> ko_key (ks_obj st) <> Some (ptr s);
  ki_rest p : (next m0 <= p < next (ks_mem st))%nat -> ptr <$> ko_key (ks_obj st) <> Some p -> p ∉ ptr ∘ fst <$> ks_copies st ->
    heap (ks_mem st) !! p = Some (zeros KeySize);
  ki_frame p : (p < next m0)%nat -> heap (ks_mem st) !! p = heap m0 !! p
}.

Lemma copies_ptr s k (l : list (Slice * bytes)) : (s, k) ∈ l -> ptr s ∈ ptr ∘ fst <$> l.
Proof. intros Hin. apply list_elem_of_fmap. by exists (s, k). Qed.

(** Giving up the current key. *)
Definition dropKey (st : KeyState) : KeyState := mkKS (mkKeyObj None None) (ks_copies st) (snd (Close_mem (ks_obj st) (ks_mem st))).

Lemma dropKey_inv m0 st : keys_inv m0 st -> keys_inv m0 (dropKey st) /\ next (ks_mem (dropKey st)) = next (ks_mem st).
Proof.
  intros [Hn Hk Hc Hcp Hr Hf]. unfold dropKey, Close_mem. cbn [snd]. destruct (ko_key (ks_obj st)) as [s|] eqn:Es.
  2: { split; [|done]. by split. }
  destruct (Hk s eq_refl) as (Hl & Hp & k & Hkl & Hh & _).
  destruct (ZeroBytes_heap s (ks_mem st)) as [En Eh]; [by rewrite Hl|]. split; [|done].
  split; cbn [ks_mem ks_obj ks_copies ko_key ko_aead]; rewrite ?En, ?Eh; try done.
  - intros s' k' Hin. destruct (Hcp s' k' Hin) as (H1 & H2 & H3 & H4 & H5). repeat (split; [done|]). split; [|done].
    rewrite lookup_alter_ne; [done|]. cbn in H5. congruence.
  - intros p Hp' _ Hnin. destruct (decide (ptr s = p)) as [<-|Hne].
    + by rewrite lookup_alter_eq, Hh, <- Hkl.
    + rewrite lookup_alter_ne by done. apply Hr; [done| |done]. cbn. congruence.
  - intros p Hp'. rewrite lookup_alter_ne by lia. by apply Hf.
Qed.

(** A new array for a key of the object or for a copy. *)
Lemma alloc_inv m0 st key s m' (mine : bool) :
  keys_inv m0 st -> length key = KeySize -> copyKey key (ks_mem st) = (s, m') ->
  (mine = true -> ko_key (ks_obj st) = None) ->
  keys_inv m0 (if mine then mkKS (mkKeyObj (Some key) (Some s)) (ks_copies st) m' else mkKS (ks_obj st) ((s, key) :: ks_copies st) m').
Proof.
  intros [Hn Hk Hc Hcp Hr Hf] Hl E Hm. destruct (copyKey_spec _ _ _ _ Hl E) as (-> & En & Eh).
  assert (Hold : forall p, (p < next (ks_mem st))%nat -> heap m' !! p = heap (ks_mem st) !! p)
    by (intros p Hp; rewrite Eh, lookup_insert_ne by lia; done).
  assert (Hnew : heap m' !! next (ks_mem st) = Some key) by (by rewrite Eh, lookup_insert_eq).
  assert (Hcp' : forall s k, (s, k) ∈ ks_copies st -> len s = KeySize /\ length k = KeySize /\ (next m0 <= ptr s < next m')%nat /\
      heap m' !! ptr s = Some k /\ ptr s <> next (ks_mem st)).
  { intros s k Hin. destruct (Hcp s k Hin) as (H1 & H2 & H3 & H4 & H5). rewrite Hold, En by lia. split_and!; try done; lia. }
  destruct mine; split; cbn [ks_mem ks_obj ks_copies ko_key ko_aead]; rewrite ?En; try done; try lia.
  - intros s [= <-]. split; [done|]. split; [cbn; lia|]. by exists key.
  - intros s k Hin. destruct (Hcp' s k Hin) as (H1 & H2 & H3 & H4 & H5). rewrite <- En. split_and!; try done; try lia. cbn. congruence.
  - intros p Hp Hne Hnin. cbn in Hne. assert (p <> next (ks_mem st)) by congruence. rewrite Hold by lia.
    apply Hr; [lia| |done]. by rewrite Hm.
  - intros p Hp. rewrite Hold by lia. by apply Hf.
  - intros s Hs. destruct (Hk s Hs) as (H1 & H2 & k & H3 & H4 & H5). split; [done|]. split; [lia|]. exists k. by rewrite Hold by lia.
  - intros s k [[= -> ->]|Hin]%elem_of_cons.
    + cbn [ptr len]. split_and!; try done; [lia|]. intros Hs. destruct (ko_key (ks_obj st)) as [s|] eqn:Es; [|done].
      destruct (Hk s eq_refl) as (_ & H2 & _). cbn in Hs. injection Hs as Hs. lia.
    + destruct (Hcp' s k Hin) as (H1 & H2 & H3 & H4 & H5). destruct (Hcp s k Hin) as (_ & _ & _ & _ & H6). rewrite <- En. done.
  - intros p Hp Hne Hnin. cbn [fmap list_fmap compose fst ptr] in Hnin. rewrite not_elem_of_cons in Hnin. destruct Hnin as [Hnp Hnin].
    rewrite Hold by lia. apply Hr; [lia|done|done].
  - intros p Hp. rewrite Hold by lia. by apply Hf.
Qed.

(** Overwriting the old key after copying the new one, as [UpdateKey] does, or before. *)
Lemma ZeroBytes_copyKey s key m :
  ptr s <> next m -> copyKey key (ZeroBytes s m) = (fst (copyKey key m), ZeroBytes s (snd (copyKey key m))).
Proof.
  intros Hp. unfold ZeroBytes. destruct (len s =? 0)%nat; [done|]. unfold copyKey, make_slice, copy_slice, set_heap, set_registry.
  cbn [fst snd heap next bufPool poolChoices registeredWipers registeredBuffers pinnedBuffers ptr len]. do 2 f_equal.
  rewrite !alter_insert_eq, alter_insert_ne by done. done.
Qed.

Lemma UpdateKey_mem_eq m0 key st :
  keys_inv m0 st -> length key = KeySize ->
  exists s m, copyKey key (ks_mem (dropKey st)) = (s, m) /\
    UpdateKey_mem key (ks_obj st) (ks_mem st) = (Ok tt, (mkKeyObj (Some key) (Some s), m)).
Proof.
  intros HI Hl. unfold UpdateKey_mem, dropKey, Close_mem. rewrite Hl. cbn [Nat.eqb KeySize negb snd ks_mem].
  destruct (ko_key (ks_obj st)) as [old|] eqn:Eo.
  - destruct (ki_key _ _ HI old Eo) as (_ & Hp & _). rewrite ZeroBytes_copyKey by lia.
    destruct (copyKey key (ks_mem st)) as [s m]. eauto.
  - destruct (copyKey key (ks_mem st)) as [s m]. eauto.
Qed.

Lemma current_contents m0 st s :
  keys_inv m0 st -> ko_key (ks_obj st) = Some s ->
  length (contents (ks_mem st) s) = KeySize /\ ko_aead (ks_obj st) = Some (contents (ks_mem st) s).
Proof.
  intros HI Es. destruct (ki_key _ _ HI s Es) as (Hl & _ & k & Hk & Hh & Ha). unfold contents, backing.
  rewrite Hh, Hl. cbn [default]. by rewrite take_ge by (unfold id; lia).
Qed.

Lemma key_step_inv m0 call st : keys_inv m0 st -> keys_inv m0 (key_step call st).
Proof.
  intros HI. destruct st as [o copies m]. destruct call as [key| |].
  - destruct (decide (length key = KeySize)) as [Hl|Hl].
    + destruct (UpdateKey_mem_eq m0 key _ HI Hl) as (s & m' & Ec & Eu). cbn [key_step]. cbn [ks_obj ks_mem] in Eu. rewrite Eu.
      by apply (alloc_inv m0 (dropKey (mkKS o copies m)) key s m' true); [apply dropKey_inv|..].
    + cbn [key_step]. unfold UpdateKey_mem. by rewrite (proj2 (Nat.eqb_neq _ _) Hl).
  - cbn [key_step]. unfold GetKey_mem. destruct (ko_key o) as [s|] eqn:Es; [|done].
    destruct (current_contents m0 _ s HI Es) as [Hl _]. destruct (copyKey (contents m s) m) as [c m'] eqn:Ec.
    by apply (alloc_inv m0 (mkKS o copies m) (contents m s) c m' false).
  - apply (dropKey_inv m0 (mkKS o copies m) HI).
Qed.

Lemma key_view_step m0 call st :
  keys_inv m0 st -> key_view (ks_obj (key_step call st)) (ks_mem (key_step call st)) =
    cipher_step (key_view (ks_obj st) (ks_mem st)) call.
Proof.
  intros HI. pose proof (key_step_inv m0 call st HI) as HI'.
  assert (Hv : forall st, keys_inv m0 st -> key_view (ks_obj st) (ks_mem st) = mkCipher (ko_aead (ks_obj st)) (ko_aead (ks_obj st))).
  { intros st' H'. unfold key_view. destruct (ko_key (ks_obj st')) as [s|] eqn:Es.
    - cbn [fmap option_fmap option_map]. by destruct (current_contents m0 st' s H' Es) as [_ <-].
    - by rewrite (ki_closed _ _ H' Es). }
  rewrite !Hv by done. destruct st as [o copies m]. destruct call as [key| |]; cbn [cipher_step].
  - unfold UpdateKey. destruct (Nat.eqb_spec (length key) KeySize) as [Hl|Hl]; cbn [negb].
    + destruct (UpdateKey_mem_eq m0 key _ HI Hl) as (s & m' & _ & Eu). cbn [key_step]. cbn [ks_obj ks_mem] in Eu. by rewrite Eu.
    + cbn [key_step]. unfold UpdateKey_mem. by rewrite (proj2 (Nat.eqb_neq _ _) Hl).
  - cbn [key_step]. unfold GetKey_mem. destruct (ko_key o); [|done]. by destruct (copyKey _ m).
  - done.
Qed.

Lemma key_run_inv m0 calls st :
  keys_inv m0 st -> keys_inv m0 (key_run calls st) /\
  key_view (ks_obj (key_run calls st)) (ks_mem (key_run calls st)) = fold_left cipher_step calls (key_view (ks_obj st) (ks_mem st)).
Proof.
  revert st. induction calls as [|call calls IH]; intros st HI; [done|]. cbn [key_run fold_left].
  rewrite <- (key_view_step m0) by done. apply IH. by apply key_step_inv.
Qed.

(** * Properties *)

(** C38: The life of a key in memory.  Whatever sequence of [UpdateKey], [GetKey] and
    [Close] calls follows [NewCipher], with keys of any size: the object shows the key
    that the cipher of the protocol model has at that point, and encrypts with the
    bytes in its own array, which are 32; every other array it ever allocated is
    overwritten with zeros, except the copies it handed out, which hold the key they were
    copied from; after a [Close] no array holds a key but those copies; and memory it did not
    allocate is untouched. *)
Theorem cipher_lifecycle key m0 o m1 calls :
  NewCipher_mem key m0 = (Ok o, m1) ->
  let st := key_run calls (mkKS o [] m1) in
  key_view (ks_obj st) (ks_mem st) = fold_left cipher_step calls (mkCipher (Some key) (Some key)) /\
  (forall s, ko_key (ks_obj st) = Some s ->
     length (contents (ks_mem st) s) = KeySize /\ ko_aead (ks_obj st) = Some (contents (ks_mem st) s)) /\
  (forall s k, (s, k) ∈ ks_copies st -> contents (ks_mem st) s = k /\ ptr <$> ko_key (ks_obj st) <> Some (ptr s)) /\
  (forall p, (next m0 <= p < next (ks_mem st))%nat -> ptr <$> ko_key (ks_obj st) <> Some p -> p ∉ ptr ∘ fst <$> ks_copies st ->
     backing (ks_mem st) p = zeros KeySize) /\
  (forall p, (p < next m0)%nat -> backing (ks_mem st) p = backing m0 p).
Proof.
  intros E st. unfold NewCipher_mem in E. destruct (Nat.eqb_spec (length key) KeySize) as [Hl|]; [|done]. cbn [negb] in E.
  destruct (copyKey key m0) as [s m] eqn:Ec. injection E as <- <-.
  assert (HI0 : keys_inv m0 (mkKS (mkKeyObj None None) [] m0)).
  { split; try done; cbn; [intros s' k' []%elem_of_nil|lia]. }
  pose proof (alloc_inv m0 _ key s m true HI0 Hl Ec ltac:(done)) as HI1. cbn [ks_copies] in HI1.
  destruct (key_run_inv m0 calls _ HI1) as [HI Hv]. fold st in HI, Hv. split; [|split; [|split; [|split]]].
  - rewrite Hv. f_equal. unfold key_view. cbn [ko_aead ko_key ks_obj ks_mem].
    destruct (current_contents m0 _ s HI1 eq_refl) as [_ [= ->]]. done.
  - intros s' Hs'. by apply (current_contents m0).
  - intros s' k Hin. destruct (ki_copies _ _ HI s' k Hin) as (H1 & H2 & _ & H3 & H4). split; [|done].
    unfold contents, backing. rewrite H3, H1. cbn [default]. unfold id. by rewrite take_ge by lia.
  - intros p H1 H2 H3. unfold backing. by rewrite (ki_rest _ _ HI p H1 H2 H3).
  - intros p Hp. unfold backing. by rewrite (ki_frame _ _ HI p Hp).
Qed.

(** Three keys and a copy; only the copy is left in memory. *)
Definition demoCalls : list key_call := [KUpdate (replicate 32 x02); KGet; KUpdate [x01]; KUpdate (replicate 32 x03); KClose].

Lemma cipher_lifecycle_witness :
  let st := key_run demoCalls (mkKS (mkKeyObj (Some (replicate 32 x01)) (Some (mkSlice 0 32))) []
              (snd (NewCipher_mem (replicate 32 x01) emptyMem))) in
  backing (ks_mem st) 0 = zeros 32 /\ backing (ks_mem st) 1 = zeros 32 /\ backing (ks_mem st) 3 = zeros 32 /\
  (contents (ks_mem st) <$> (fst <$> ks_copies st)) = [replicate 32 x02].
Proof.
  intros st. destruct (cipher_lifecycle (replicate 32 x01) emptyMem (mkKeyObj (Some (replicate 32 x01)) (Some (mkSlice 0 32)))
    (snd (NewCipher_mem (replicate 32 x01) emptyMem)) demoCalls) as (_ & _ & Hc & Hz & _); [vm_compute; reflexivity|].
  split_and!.
  - apply (Hz 0%nat); [vm_compute; lia|vm_compute; discriminate|vm_compute; set_solver].
  - apply (Hz 1%nat); [vm_compute; lia|vm_compute; discriminate|vm_compute; set_solver].
  - apply (Hz 3%nat); [vm_compute; lia|vm_compute; discriminate|vm_compute; set_solver].
  - destruct (Hc (mkSlice 2 32) (replicate 32 x02)) as [<- _]; [vm_compute; set_solver|]. vm_compute. reflexivity.
Defined.
