(* ===== verification/Encoding.v ===== *)
(** * Standard-library encodings the repository relies on

    [crypto/sha1] and [encoding/base64] (the WebSocket accept key,
    websocket.go), [encoding/hex] (the browser bridge, cmd/wasm/main.go) and the
    query escaping of [net/url] (invitations, invite.go), written out so that
    their clients compute. *)

From S2P Require Import Prelude Strings Hash Cipher.

(** ** SHA-1 *)

Module Sha1.

Definition rotl (n x : Z) : Z := rotr (32 - n) x.

(** The message schedule as a sliding window of 16 words. *)
Definition next_window (w : list Z) : list Z :=
  match w with
  | w0 :: w' =>
      w' ++ [rotl 1 (Z.lxor (Z.lxor (nth 13 w 0) (nth 8 w 0)) (Z.lxor (nth 2 w 0) w0))]
  | [] => []
  end.

(** The round function and constant of round [t]. *)
Definition f (t : nat) (b c d : Z) : Z :=
  if (t <? 20)%nat then Z.lor (Z.land b c) (Z.land (not32 b) d)
  else if (t <? 40)%nat then Z.lxor (Z.lxor b c) d
  else if (t <? 60)%nat then Z.lor (Z.lor (Z.land b c) (Z.land b d)) (Z.land c d)
  else Z.lxor (Z.lxor b c) d.

Definition k (t : nat) : Z :=
  if (t <? 20)%nat then 0x5a827999
  else if (t <? 40)%nat then 0x6ed9eba1
  else if (t <? 60)%nat then 0x8f1bbcdc
  else 0xca62c1d6.

Definition round (t : nat) (w : Z) (s : list Z) : list Z :=
  match s with
  | [a; b; c; d; e] =>
      [add32 (add32 (add32 (rotl 5 a) (f t b c d)) (add32 e (k t))) w; a; rotl 30 b; c; d]
  | _ => s
  end.

Fixpoint rounds (ts : list nat) (w s : list Z) : list Z :=
  match ts with
  | [] => s
  | t :: ts' => rounds ts' (next_window w) (round t (nth 0 w 0) s)
  end.

Definition compress (h : list Z) (block : bytes) : list Z :=
  zip_with add32 h (rounds (seq 0 80) (be_val <$> groups 16 4 block) h).

Definition H0 : list Z := [0x67452301; 0xefcdab89; 0x98badcfe; 0x10325476; 0xc3d2e1f0].

(** SHA-1 pads as SHA-256 does. *)
Definition sum (msg : bytes) : bytes :=
  let p := Sha256.pad msg in
  let h := fold_left compress (groups (length p) 64 p) H0 in
  be_bytes 4 (nth 0 h 0) ++ be_bytes 4 (nth 1 h 0) ++ be_bytes 4 (nth 2 h 0) ++
  be_bytes 4 (nth 3 h 0) ++ be_bytes 4 (nth 4 h 0).

End Sha1.

(** ** base64.StdEncoding *)

Definition b64_alphabet : bytes :=
  str "ABCDEFGHIJKLMNOPQRSTUVWXYZabcdefghijklmnopqrstuvwxyz0123456789+/".

Definition b64_char (v i : Z) : byte :=
  nth (Z.to_nat (Z.land (Z.shiftr v (6 * i)) 63)) b64_alphabet x00.

Definition PADCHAR : byte := x3d.

Fixpoint base64_encode (l : bytes) : bytes :=
  match l with
  | a :: b :: c :: l' =>
      let v := be_val [a; b; c] in
      b64_char v 3 :: b64_char v 2 :: b64_char v 1 :: b64_char v 0 :: base64_encode l'
  | [a; b] =>
      let v := be_val [a; b; x00] in [b64_char v 3; b64_char v 2; b64_char v 1; PADCHAR]
  | [a] => let v := be_val [a; x00; x00] in [b64_char v 3; b64_char v 2; PADCHAR; PADCHAR]
  | [] => []
  end.

(** ** encoding/hex: the decoder ([EncodeToString] is with its user, Cipher.v) *)

(** The value of a digit, either case; [None] for any other byte. *)
Definition from_hex (b : byte) : option Z :=
  let n := Z_of_byte b in
  if (0x30 <=? n) && (n <=? 0x39) then Some (n - 0x30)
  else if (0x61 <=? n) && (n <=? 0x66) then Some (n - 0x57)
  else if (0x41 <=? n) && (n <=? 0x46) then Some (n - 0x37)
  else None.

(** [hex.DecodeString]; [None] on an odd length or a byte that is no digit. *)
Fixpoint hex_decode (l : bytes) : option bytes :=
  match l with
  | [] => Some []
  | [_] => None
  | a :: b :: l' =>
      h ← from_hex a; v ← from_hex b; r ← hex_decode l'; Some (byte_of_Z (16 * h + v) :: r)
  end.

(** ** net/url query escaping *)

Definition PLUS : byte := x2b.
Definition PERCENT : byte := x25.
Definition SPACE : byte := x20.

(** Letters, digits and [-_.~] stand for themselves. *)
Definition unreserved (b : byte) : bool :=
  let n := Z_of_byte b in
  ((0x30 <=? n) && (n <=? 0x39)) || ((0x41 <=? n) && (n <=? 0x5a)) || ((0x61 <=? n) && (n <=? 0x7a)) ||
  bool_decide (b ∈ str "-_.~").

Definition upperhex (n : Z) : byte := nth (Z.to_nat n) (str "0123456789ABCDEF") x00.

Definition escape_byte (b : byte) : bytes :=
  if unreserved b then [b]
  else if eqb b SPACE then [PLUS]
  else [PERCENT; upperhex (Z_of_byte b `div` 16); upperhex (Z_of_byte b `mod` 16)].

(** [url.QueryEscape] *)
Definition QueryEscape (s : bytes) : bytes := concat (escape_byte <$> s).

(** [url.QueryUnescape]; [None] on a malformed escape. *)
Fixpoint QueryUnescape (s : bytes) : option bytes :=
  match s with
  | [] => Some []
  | b :: s' =>
      if eqb b PERCENT then
        match s' with
        | h :: l :: s'' =>
            x ← from_hex h; y ← from_hex l; r ← QueryUnescape s''; Some (byte_of_Z (16 * x + y) :: r)
        | _ => None
        end
      else r ← QueryUnescape s'; Some ((if eqb b PLUS then SPACE else b) :: r)
  end.

(** ** Facts *)

Ltac all_bytes b := destruct b; vm_compute; reflexivity.

Lemma from_hex_hex_char b :
  from_hex (hex_char false (Z_of_byte b `div` 16)) = Some (Z_of_byte b `div` 16) /\
  from_hex (hex_char false (Z_of_byte b `mod` 16)) = Some (Z_of_byte b `mod` 16).
Proof. split; all_bytes b. Qed.

Lemma from_hex_upperhex b :
  from_hex (upperhex (Z_of_byte b `div` 16)) = Some (Z_of_byte b `div` 16) /\
  from_hex (upperhex (Z_of_byte b `mod` 16)) = Some (Z_of_byte b `mod` 16).
Proof. split; all_bytes b. Qed.

Lemma nibbles b : byte_of_Z (16 * (Z_of_byte b `div` 16) + Z_of_byte b `mod` 16) = b.
Proof. rewrite <- Z.div_mod by lia. apply byte_of_Z_of_byte. Qed.

(** Decoding inverts encoding. *)
Lemma hex_decode_encode l : hex_decode (EncodeToString l) = Some l.
Proof.
  induction l as [|b l IH]; [done|]. unfold EncodeToString in *. cbn [fmap list_fmap concat hex_byte app hex_decode].
  destruct (from_hex_hex_char b) as [-> ->]. cbn [mbind option_bind]. rewrite IH. cbn [mbind option_bind].
  by rewrite nibbles.
Qed.

Lemma QueryUnescape_escape_byte b s :
  QueryUnescape (escape_byte b ++ s) = r ← QueryUnescape s; Some (b :: r).
Proof.
  unfold escape_byte. destruct (unreserved b) eqn:Eu.
  - assert (eqb b PERCENT = false /\ eqb b PLUS = false) as [E1 E2].
    { split; apply bool_decide_eq_false; intros ->; vm_compute in Eu; discriminate. }
    cbn [app QueryUnescape]. by rewrite E1, E2.
  - unfold eqb at 1. case_bool_decide as Es.
    + subst. cbn [app QueryUnescape]. done.
    + cbn [app QueryUnescape]. change (eqb PERCENT PERCENT) with true. cbn iota.
      destruct (from_hex_upperhex b) as [-> ->]. cbn [mbind option_bind]. by rewrite nibbles.
Qed.

(** Unescaping inverts escaping, for every byte string. *)
Lemma QueryUnescape_QueryEscape s : QueryUnescape (QueryEscape s) = Some s.
Proof.
  induction s as [|b s IH]; [done|]. unfold QueryEscape in *. cbn [fmap list_fmap concat].
  rewrite QueryUnescape_escape_byte, IH. done.
Qed.

(** What escaping emits never contains a separator of a URL. *)
Lemma QueryEscape_chars s b : b ∈ QueryEscape s -> unreserved b = true \/ b = PLUS \/ b = PERCENT.
Proof.
  unfold QueryEscape. induction s as [|c s IH]; cbn [fmap list_fmap concat]; [by rewrite elem_of_nil|].
  rewrite elem_of_app. intros [H|H]; [|by apply IH]. unfold escape_byte in H.
  destruct (unreserved c) eqn:E; [by apply list_elem_of_singleton in H as ->; left|].
  destruct (eqb c SPACE); [apply list_elem_of_singleton in H as ->; tauto|].
  apply elem_of_cons in H as [->|H]; [tauto|]. left.
  assert (unreserved (upperhex (Z_of_byte c `div` 16)) = true /\ unreserved (upperhex (Z_of_byte c `mod` 16)) = true) as [E1 E2]
    by (split; all_bytes c).
  apply elem_of_cons in H as [->|H]; [done|]. by apply list_elem_of_singleton in H as ->.
Qed.

(** RFC 3174 and RFC 4648 test vectors. *)
Example sha1_abc : Sha1.sum (str "abc") = unhex "a9993e364706816aba3e25717850c26c9cd0d89d".
Proof. vm_compute. reflexivity. Qed.

Example base64_foobar :
  base64_encode (str "foobar") = str "Zm9vYmFy" /\ base64_encode (str "fooba") = str "Zm9vYmE=" /\
  base64_encode (str "foob") = str "Zm9vYg==".
Proof. vm_compute. done. Qed.
