(* ===== verification/Pake.v ===== *)
(** * Password-authenticated key exchange: [pkg/crypto/pake.go], and the
    identifiers of [pkg/feed/session_id.go] derived from the passphrase.

    X25519 ([crypto/ecdh]), ML-KEM-768 ([crypto/mlkem]) and Argon2id
    ([golang.org/x/crypto/argon2]) enter through the class [KeyExchange], whose
    fields are the calls the code makes and whose laws are their documented
    behaviour.  [DhToy] is a concrete Diffie-Hellman instance.  Fresh randomness
    is an argument: [Some] bytes, or [None] when the generator fails. *)

From S2P Require Import Prelude Hash Aead Cipher.

Definition UniformWireMsgSize : nat := 1280.
Definition RawPubWireMsgSize : nat := 1120.
Definition RawSubWireMsgSize : nat := 1216.

(** ** Interface to the key-agreement primitives *)

Class KeyExchange := {
  (** [privKey.PublicKey().Bytes()], [privKey.ECDH(pub)] (fails on an all-zero secret) *)
  x25519_pub : bytes -> bytes;
  x25519_dh : bytes -> bytes -> option bytes;
  (** [decapKey.EncapsulationKey().Bytes()], [NewEncapsulationKey768] (validity),
      [Encapsulate] with its coins, [Decapsulate] *)
  mlkem_ek : bytes -> bytes;
  mlkem_valid_ek : bytes -> bool;
  mlkem_encaps : bytes -> bytes -> bytes * bytes;
  mlkem_decaps : bytes -> bytes -> option bytes;
  (** [argon2.IDKey(password, salt, time, memory, threads, keyLen)] *)
  argon2_IDKey : bytes -> bytes -> Z -> Z -> Z -> Z -> bytes;

  x25519_pub_length sk : length (x25519_pub sk) = 32%nat;
  x25519_agree a b : exists s, length s = 32%nat /\
    x25519_dh a (x25519_pub b) = Some s /\ x25519_dh b (x25519_pub a) = Some s;
  mlkem_ek_length dk : length (mlkem_ek dk) = 1184%nat;
  mlkem_ek_valid dk : mlkem_valid_ek (mlkem_ek dk) = true;
  mlkem_ct_length ek r : length (mlkem_encaps ek r).2 = 1088%nat;
  mlkem_agree dk r :
    mlkem_decaps dk (mlkem_encaps (mlkem_ek dk) r).2 = Some (mlkem_encaps (mlkem_ek dk) r).1
}.

(** ** State (pake.go:34-42); a nil slice is [None] *)

Record PAKEPeer := mkPAKEPeer {
  pk_privKey : bytes;
  pk_mlkemDecap : option bytes;
  pk_pubBytes : option bytes;
  pk_role : Z;
  pk_sharedKey : option bytes;
  pk_macTag : option bytes;
  pk_passphrase : bytes
}.

(** The randomness one peer draws over a handshake. *)
Record PakeRand := mkPakeRand {
  r_priv : option bytes;     (** [curve.GenerateKey] *)
  r_dk : option bytes;       (** [mlkem.GenerateKey768] *)
  r_coins : bytes;           (** inside [Encapsulate] *)
  r_pad : option bytes       (** [rand.Read(pubPadded[len(pubRaw):])] *)
}.

Section WithKeyExchange.
Context {kexI : KeyExchange}.

(** [make], [rand.Read] of the tail and [copy] of the head (pake.go:89-94, 149-153). *)
Definition padPub (pubRaw : bytes) (rnd : option bytes) : result crypto_error bytes :=
  match rnd with
  | None => Err ErrRandom
  | Some noise =>
      let pubPadded := copy_at (length pubRaw) (zeros UniformWireMsgSize) noise in
      Ok (copy_at 0 pubPadded pubRaw)
  end.

Definition newPAKEPeer (passphrase : bytes) (role : Z) (rnd : PakeRand) : result crypto_error PAKEPeer :=
  match passphrase with
  | [] => Err ErrEmptySecret
  | _ =>
      match r_priv rnd with
      | None => Err ErrRandom
      | Some privKey =>
          let pubRawX25519 := x25519_pub privKey in
          let peer := mkPAKEPeer privKey None None role None None passphrase in
          if role =? 2 then
            match r_dk rnd with
            | None => Err ErrRandom
            | Some decapKey =>
                let pubRaw := pubRawX25519 ++ mlkem_ek decapKey in
                let? pubPadded := padPub pubRaw (r_pad rnd) in
                Ok (mkPAKEPeer privKey (Some decapKey) (Some pubPadded) role None None passphrase)
            end
          else Ok peer
      end
  end.

Definition NewPAKEPublisher (passphrase : bytes) (rnd : PakeRand) := newPAKEPeer passphrase 1 rnd.
Definition NewPAKESubscriber (passphrase : bytes) (rnd : PakeRand) := newPAKEPeer passphrase 2 rnd.

Definition Bytes (p : option PAKEPeer) : option bytes :=
  match p with None => None | Some p => pk_pubBytes p end.

(** pake.go:194-206 *)
Definition DeriveMasterKeyArgon2 (passphrase : bytes) : bytes :=
  let salt := sha256 (bytes_of_string "zerofeed-v3-argon2id-static-context:" ++ passphrase) in
  argon2_IDKey passphrase salt 1 (64 * 1024) 1 (Z.of_nat KeySize).

Definition blindMatchTag (argon2Key : bytes) : bytes :=
  hmac_sha256 argon2Key (bytes_of_string "zerofeed-relay-blind-match-tag-v3").

(** session_id.go:21-39 *)
Definition DeriveBlindMatchTag (passphrase : bytes) : bytes :=
  blindMatchTag (DeriveMasterKeyArgon2 passphrase).

Definition DeriveSessionID (passphrase : bytes) : bytes :=
  let tag := hmac_sha256 (DeriveMasterKeyArgon2 passphrase)
               (bytes_of_string "zerofeed-relay-channel-rendezvous-v3") in
  take 16 tag.

Definition set_pubBytes (b : option bytes) (p : PAKEPeer) : PAKEPeer :=
  mkPAKEPeer (pk_privKey p) (pk_mlkemDecap p) b (pk_role p) (pk_sharedKey p) (pk_macTag p) (pk_passphrase p).
Definition set_keys (k t : option bytes) (p : PAKEPeer) : PAKEPeer :=
  mkPAKEPeer (pk_privKey p) (pk_mlkemDecap p) (pk_pubBytes p) (pk_role p) k t (pk_passphrase p).

(** The ML-KEM half of [Update] (pake.go:131-166): the publisher encapsulates to
    the peer's key and builds its reply, the subscriber decapsulates. *)
Definition updateKEM (peerRaw : bytes) (rnd : PakeRand) (p : PAKEPeer)
    : result crypto_error bytes * PAKEPeer :=
  if pk_role p =? 1 then
    let peerMLKEMKeyRaw := slice 32 (32 + 1184) peerRaw in
    if mlkem_valid_ek peerMLKEMKeyRaw then
      let (sharedMLKEM, ciphertext) := mlkem_encaps peerMLKEMKeyRaw (r_coins rnd) in
      let pubRaw := x25519_pub (pk_privKey p) ++ ciphertext in
      match padPub pubRaw (r_pad rnd) with
      | Err e => (Err e, p)
      | Ok pubPadded => (Ok sharedMLKEM, set_pubBytes (Some pubPadded) p)
      end
    else (Err ErrPAKEFailed, p)
  else
    let peerMLKEMCiphertext := slice 32 (32 + 1088) peerRaw in
    match pk_mlkemDecap p with
    | None => (Err ErrPAKEFailed, p)
    | Some dk =>
        match mlkem_decaps dk peerMLKEMCiphertext with
        | None => (Err ErrPAKEFailed, p)
        | Some sharedMLKEM => (Ok sharedMLKEM, p)
        end
    end.

Definition handshakeAuthTag (key : bytes) (role : Z) : bytes :=
  hmac_sha256 key (bytes_of_string "zerofeed-v3-pake-handshake-auth" ++ [byte_of_Z role]).

(** Final key (pake.go:168-177). *)
Definition masterSecret (sharedX25519 sharedMLKEM passphrase : bytes) : result crypto_error bytes :=
  HKDFSHA256 (sharedX25519 ++ sharedMLKEM) (DeriveMasterKeyArgon2 passphrase)
    (bytes_of_string "zerofeed-v3-pake-master-secret") (Z.of_nat KeySize).

(** pake.go:110-190.  [curve.NewPublicKey] only checks the length, here 32. *)
Definition Update (peerBytes : bytes) (rnd : PakeRand) (p : PAKEPeer) : result crypto_error unit * PAKEPeer :=
  if negb (length peerBytes =? UniformWireMsgSize)%nat then (Err ErrInvalidPeerMsg, p)
  else
    match x25519_dh (pk_privKey p) (take 32 peerBytes) with
    | None => (Err ErrPAKEFailed, p)
    | Some sharedX25519 =>
        match updateKEM peerBytes rnd p with
        | (Err e, p) => (Err e, p)
        | (Ok sharedMLKEM, p) =>
            match masterSecret sharedX25519 sharedMLKEM (pk_passphrase p) with
            | Err e => (Err e, p)
            | Ok masterKey =>
                (Ok tt, set_keys (Some masterKey) (Some (handshakeAuthTag masterKey (pk_role p))) p)
            end
        end
    end.

Definition confirmLabel : bytes := bytes_of_string "zerofeed-v3-pake-key-confirmation-v1".

(** pake.go:209-231; [hmac.Equal] is equality of byte strings. *)
Definition ConfirmTag (p : option PAKEPeer) : result crypto_error bytes :=
  match p with
  | None => Err ErrPAKEFailed
  | Some p =>
      match pk_sharedKey p with
      | None => Err ErrPAKEFailed
      | Some k => Ok (hmac_sha256 k (confirmLabel ++ [byte_of_Z (pk_role p)]))
      end
  end.

Definition VerifyPeerConfirm (p : option PAKEPeer) (peerTag : bytes) : result crypto_error unit :=
  match p with
  | None => Err ErrPAKEFailed
  | Some p =>
      match pk_sharedKey p, peerTag with
      | None, _ | _, [] => Err ErrPAKEFailed
      | Some k, _ =>
          if decide (peerTag = hmac_sha256 k (confirmLabel ++ [byte_of_Z (3 - pk_role p)]))
          then Ok tt else Err ErrPAKEFailed
      end
  end.

Definition SessionKey (p : PAKEPeer) : result crypto_error bytes :=
  match pk_sharedKey p with None => Err ErrPAKEFailed | Some k => Ok k end.

(** pake.go:244-264; the X25519 private key is not dropped. *)
Definition ClosePAKE (p : PAKEPeer) : PAKEPeer :=
  mkPAKEPeer (pk_privKey p) None None (pk_role p) None None [].

(** ** Facts *)

(** A padded message is the raw one followed by noise, always 1280 bytes. *)
Lemma padPub_spec pubRaw noise :
  (length pubRaw <= UniformWireMsgSize)%nat ->
  exists rest, padPub pubRaw (Some noise) = Ok (pubRaw ++ rest) /\
    length (pubRaw ++ rest) = UniformWireMsgSize.
Proof.
  intros Hl. set (padded := copy_at (length pubRaw) (zeros UniformWireMsgSize) noise).
  assert (length padded = UniformWireMsgSize) as Hp.
  { unfold padded. by rewrite length_copy_at, length_zeros. }
  assert (padPub pubRaw (Some noise) = Ok (copy_at 0 padded pubRaw)) as -> by done.
  exists (drop (length pubRaw) padded).
  rewrite <- (take_drop (length pubRaw) padded) at 1.
  rewrite copy_at_head by (rewrite length_take; lia). split; [done|].
  rewrite length_app, length_drop. lia.
Qed.

Lemma padPub_length pubRaw rnd b :
  (length pubRaw <= UniformWireMsgSize)%nat -> padPub pubRaw rnd = Ok b -> length b = UniformWireMsgSize.
Proof.
  intros Hl. destruct rnd as [noise|]; [|discriminate].
  destruct (padPub_spec pubRaw noise Hl) as (rest & -> & Hr). by intros [= <-].
Qed.

Lemma masterSecret_total s k pass :
  length s = 32%nat -> exists key, masterSecret s k pass = Ok key /\ length key = KeySize.
Proof.
  intros Hs. destruct s as [|b s]; [discriminate Hs|].
  destruct (masterSecret (b :: s) k pass) as [key|e] eqn:E; [|discriminate E].
  exists key. split; [done|]. unfold masterSecret in E. apply HKDF_length in E; unfold KeySize in *; lia.
Qed.

Lemma NewPAKESubscriber_inv pass rnd p :
  NewPAKESubscriber pass rnd = Ok p ->
  exists sk dk rest, p = mkPAKEPeer sk (Some dk) (Some ((x25519_pub sk ++ mlkem_ek dk) ++ rest)) 2 None None pass /\
    length ((x25519_pub sk ++ mlkem_ek dk) ++ rest) = UniformWireMsgSize.
Proof.
  unfold NewPAKESubscriber, newPAKEPeer. destruct pass as [|b pass]; [discriminate|].
  destruct (r_priv rnd) as [sk|]; [|discriminate]. cbn [Z.eqb Pos.eqb].
  destruct (r_dk rnd) as [dk|]; [|discriminate].
  destruct (r_pad rnd) as [noise|]; [|discriminate].
  destruct (padPub_spec (x25519_pub sk ++ mlkem_ek dk) noise) as (rest & -> & Hr).
  { rewrite length_app, x25519_pub_length, mlkem_ek_length. unfold UniformWireMsgSize. lia. }
  intros [= <-]. by exists sk, dk, rest.
Qed.

Lemma NewPAKEPublisher_inv pass rnd p :
  NewPAKEPublisher pass rnd = Ok p -> exists sk, p = mkPAKEPeer sk None None 1 None None pass.
Proof.
  unfold NewPAKEPublisher, newPAKEPeer. destruct pass as [|b pass]; [discriminate|].
  destruct (r_priv rnd) as [sk|]; [|discriminate]. cbn [Z.eqb Pos.eqb]. intros [= <-]. eauto.
Qed.

(** One honest [Update] on each side. *)
Lemma Update_publisher sk pass skS dkS rest rnd noise s key :
  length ((x25519_pub skS ++ mlkem_ek dkS) ++ rest) = UniformWireMsgSize ->
  r_pad rnd = Some noise -> x25519_dh sk (x25519_pub skS) = Some s ->
  masterSecret s (mlkem_encaps (mlkem_ek dkS) (r_coins rnd)).1 pass = Ok key ->
  exists rest',
    let msg := (x25519_pub sk ++ (mlkem_encaps (mlkem_ek dkS) (r_coins rnd)).2) ++ rest' in
    Update ((x25519_pub skS ++ mlkem_ek dkS) ++ rest) rnd (mkPAKEPeer sk None None 1 None None pass) =
      (Ok tt, mkPAKEPeer sk None (Some msg) 1 (Some key) (Some (handshakeAuthTag key 1)) pass) /\
    length msg = UniformWireMsgSize.
Proof.
  intros Hl Hpad Hdh Hkey. unfold Update. rewrite Hl, Nat.eqb_refl. cbn [negb pk_privKey].
  rewrite <- (app_assoc _ _ rest), take_exact by apply x25519_pub_length. rewrite Hdh.
  unfold updateKEM. cbn [pk_role Z.eqb Pos.eqb pk_privKey].
  rewrite (slice_mid 32 _ (x25519_pub _) _ rest) by (rewrite ?mlkem_ek_length, ?x25519_pub_length; done).
  rewrite mlkem_ek_valid, Hpad.
  pose proof (mlkem_ct_length (mlkem_ek dkS) (r_coins rnd)) as Hct.
  destruct (mlkem_encaps (mlkem_ek dkS) (r_coins rnd)) as [ss ct]. cbn [fst snd] in *.
  destruct (padPub_spec (x25519_pub sk ++ ct) noise) as (rest' & -> & Hr).
  { rewrite length_app, x25519_pub_length, Hct. unfold UniformWireMsgSize. lia. }
  exists rest'. cbn zeta. split; [|done]. cbn [pk_passphrase set_pubBytes]. by rewrite Hkey.
Qed.

Lemma Update_subscriber sk dk pub pass skP r rest rnd s key :
  let msg := (x25519_pub skP ++ (mlkem_encaps (mlkem_ek dk) r).2) ++ rest in
  length msg = UniformWireMsgSize -> x25519_dh sk (x25519_pub skP) = Some s ->
  masterSecret s (mlkem_encaps (mlkem_ek dk) r).1 pass = Ok key ->
  Update msg rnd (mkPAKEPeer sk (Some dk) pub 2 None None pass) =
    (Ok tt, mkPAKEPeer sk (Some dk) pub 2 (Some key) (Some (handshakeAuthTag key 2)) pass).
Proof.
  cbn zeta. intros Hl Hdh Hkey. unfold Update. rewrite Hl, Nat.eqb_refl. cbn [negb pk_privKey].
  rewrite <- (app_assoc _ _ rest), take_exact by apply x25519_pub_length. rewrite Hdh.
  unfold updateKEM. cbn [pk_role Z.eqb Pos.eqb pk_mlkemDecap].
  rewrite (slice_mid 32 _ (x25519_pub _) _ rest) by (rewrite ?mlkem_ct_length, ?x25519_pub_length; done).
  rewrite mlkem_agree. cbn [pk_passphrase]. by rewrite Hkey.
Qed.

Lemma VerifyPeerConfirm_ok p k tag :
  pk_sharedKey p = Some k ->
  VerifyPeerConfirm (Some p) tag = Ok tt <->
  tag = hmac_sha256 k (confirmLabel ++ [byte_of_Z (3 - pk_role p)]).
Proof.
  intros Hk. unfold VerifyPeerConfirm. rewrite Hk. destruct tag as [|b tag].
  - split; [discriminate|]. intros E. apply (f_equal length) in E. rewrite length_hmac_sha256 in E. discriminate E.
  - destruct (decide _); naive_solver.
Qed.

(** The honest exchange, step by step. *)
Lemma pake_honest pass rp rs pub sub :
  NewPAKEPublisher pass rp = Ok pub -> NewPAKESubscriber pass rs = Ok sub -> r_pad rp <> None ->
  exists subMsg pubMsg pub' sub' key,
    pk_pubBytes sub = Some subMsg /\ Update subMsg rp pub = (Ok tt, pub') /\
    pk_pubBytes pub' = Some pubMsg /\ (forall rnd, Update pubMsg rnd sub = (Ok tt, sub')) /\
    length subMsg = UniformWireMsgSize /\ length pubMsg = UniformWireMsgSize /\
    pk_sharedKey pub' = Some key /\ pk_sharedKey sub' = Some key /\ length key = KeySize /\
    pk_role pub' = 1 /\ pk_role sub' = 2.
Proof.
  intros HP HS Hpad. apply NewPAKEPublisher_inv in HP as (skP & ->).
  apply NewPAKESubscriber_inv in HS as (skS & dk & rest & -> & Hl).
  destruct (r_pad rp) as [noise|] eqn:Epad; [|done].
  destruct (x25519_agree skP skS) as (s & Hs & HdhP & HdhS).
  destruct (masterSecret_total s (mlkem_encaps (mlkem_ek dk) (r_coins rp)).1 pass Hs) as (key & Hkey & Hklen).
  destruct (Update_publisher skP pass skS dk rest rp noise s key Hl Epad HdhP Hkey) as (rest' & HU & Hl').
  eexists _, _, _, _, key. split; [done|]. split; [exact HU|]. split; [done|].
  split; [intros rnd; by apply (Update_subscriber skS dk _ pass skP (r_coins rp) rest' rnd s key)|].
  done.
Qed.

(** What a peer holds is well-formed: its message has the uniform size, its key
    the cipher's. *)
Definition pake_inv (p : PAKEPeer) : Prop :=
  (forall b, pk_pubBytes p = Some b -> length b = UniformWireMsgSize) /\
  (forall k, pk_sharedKey p = Some k -> length k = KeySize).

Lemma newPAKEPeer_inv pass role rnd p : newPAKEPeer pass role rnd = Ok p -> pake_inv p.
Proof.
  unfold newPAKEPeer. destruct pass as [|c pass]; [discriminate|].
  destruct (r_priv rnd) as [sk|]; [|discriminate].
  destruct (role =? 2); [|intros [= <-]; split; intros; discriminate].
  destruct (r_dk rnd) as [dk|]; [|discriminate].
  destruct (padPub _ _) as [b|e] eqn:E; [|discriminate]. intros [= <-].
  apply padPub_length in E; [split; [by intros ? [= <-]|discriminate]|].
  rewrite length_app, x25519_pub_length, mlkem_ek_length. unfold UniformWireMsgSize. lia.
Qed.

Lemma updateKEM_inv peerRaw rnd p r q :
  pake_inv p -> updateKEM peerRaw rnd p = (r, q) -> pake_inv q /\ pk_sharedKey q = pk_sharedKey p.
Proof.
  intros [H1 H2]. unfold updateKEM. destruct (pk_role p =? 1).
  - destruct (mlkem_valid_ek _); [|by intros [= <- <-]].
    pose proof (mlkem_ct_length (slice 32 (32 + 1184) peerRaw) (r_coins rnd)) as Hct.
    destruct (mlkem_encaps _ _) as [ss ct]. cbn [snd] in Hct.
    destruct (padPub _ _) as [b|e] eqn:E; intros [= <- <-]; [|done].
    apply padPub_length in E; [split; [split; [by intros ? [= <-]|done]|done]|].
    rewrite length_app, x25519_pub_length, Hct. unfold UniformWireMsgSize. lia.
  - destruct (pk_mlkemDecap p); [|by intros [= <- <-]].
    destruct (mlkem_decaps _ _); by intros [= <- <-].
Qed.

Lemma Update_inv peerBytes rnd p r q :
  pake_inv p -> Update peerBytes rnd p = (r, q) ->
  pake_inv q /\ (r <> Ok tt -> pk_sharedKey q = pk_sharedKey p).
Proof.
  intros Hp. unfold Update. destruct (negb _); [by intros [= <- <-]|].
  destruct (x25519_dh _ _) as [s|]; [|by intros [= <- <-]].
  destruct (updateKEM peerBytes rnd p) as [r0 q0] eqn:EK.
  apply updateKEM_inv in EK as [[Hq1 Hq2] Hs]; [|done].
  destruct r0 as [ss|e]; [|intros [= <- <-]; by repeat split].
  unfold masterSecret. destruct (HKDFSHA256 _ _ _ _) as [k|e] eqn:EH; intros [= <- <-]; [|by repeat split].
  split; [|done]. split; [done|]. intros ? [= <-]. apply HKDF_length in EH; unfold KeySize in *; lia.
Qed.
End WithKeyExchange.

(** ** A concrete instance: finite-field Diffie-Hellman

    Keys are exponents, public keys powers of 2 modulo the prime 2^255 - 19; the
    KEM is ElGamal-style over the same group, padded to the ML-KEM sizes. *)
Module DhToy.

Definition p : Z := 2 ^ 255 - 19.
(** Square-and-multiply, most significant bit first. *)
Fixpoint pow_mod (b : Z) (e : positive) : Z :=
  match e with
  | xH => b mod p
  | xO e' => let h := pow_mod b e' in h * h mod p
  | xI e' => let h := pow_mod b e' in (h * h mod p) * b mod p
  end.
Definition exponent (sk : bytes) : positive := Z.to_pos (be_val sk + 1).
Definition pub (sk : bytes) : bytes := be_bytes 32 (pow_mod 2 (exponent sk)).
Definition dh (sk pk : bytes) : bytes := be_bytes 32 (pow_mod (be_val pk) (exponent sk)).

Lemma p_pos : 0 < p.
Proof. done. Qed.

Lemma pow_mod_spec b e : pow_mod b e = b ^ Z.pos e mod p.
Proof.
  pose proof p_pos. induction e as [e IH|e IH|]; cbn [pow_mod].
  - rewrite IH, Pos2Z.inj_xI, Z.pow_add_r, Z.pow_twice_r, Z.pow_1_r by lia.
    rewrite <- !Z.mul_mod, Z.mul_mod_idemp_l by lia. done.
  - rewrite IH, Pos2Z.inj_xO, Z.pow_twice_r, <- Z.mul_mod by lia. done.
  - by rewrite Z.pow_1_r.
Qed.

Lemma pow_mod_range b e : 0 <= pow_mod b e < 256 ^ 32.
Proof. rewrite pow_mod_spec. pose proof (Z.mod_pos_bound (b ^ Z.pos e) p p_pos). unfold p in *. lia. Qed.

Lemma dh_comm a b : dh a (pub b) = dh b (pub a).
Proof.
  unfold dh, pub. rewrite !be_val_bytes, !Z.mod_small by apply pow_mod_range. f_equal.
  rewrite !pow_mod_spec, !Z.mod_pow_l, <- !Z.pow_mul_r by lia. f_equal. f_equal. lia.
Qed.

(** A stand-in for Argon2id: one HMAC over the same inputs. *)
Definition stretch (password salt : bytes) (time memory threads keyLen : Z) : bytes :=
  hmac_sha256 salt (password ++ be_bytes 4 time ++ be_bytes 4 memory ++ be_bytes 4 threads ++ be_bytes 4 keyLen).

#[local] Obligation Tactic := idtac.
#[global] Program Instance toyKex : KeyExchange := {|
  x25519_pub := pub;
  x25519_dh a b := Some (dh a b);
  mlkem_ek dk := pub dk ++ zeros 1152;
  mlkem_valid_ek ek := (length ek =? 1184)%nat;
  mlkem_encaps ek r := (dh r (take 32 ek), pub r ++ zeros 1056);
  mlkem_decaps dk ct := if (length ct =? 1088)%nat then Some (dh dk (take 32 ct)) else None;
  argon2_IDKey := stretch
|}.
Next Obligation. intros. apply length_be_bytes. Qed.
Next Obligation.
  intros a b. exists (dh a (pub b)). split; [apply length_be_bytes|]. by rewrite (dh_comm b a).
Qed.
Next Obligation. intros dk. cbn beta. rewrite length_app, length_zeros. unfold pub. by rewrite length_be_bytes. Qed.
Next Obligation. intros dk. cbn beta. apply Nat.eqb_eq. rewrite length_app, length_zeros. unfold pub. by rewrite length_be_bytes. Qed.
Next Obligation. intros ek r. cbn beta. cbn [snd]. rewrite length_app, length_zeros. unfold pub. by rewrite length_be_bytes. Qed.
Next Obligation.
  intros dk r. cbn beta. cbn [fst snd]. rewrite length_app, length_zeros.
  rewrite !take_exact by apply length_be_bytes. unfold pub at 1. rewrite length_be_bytes.
  cbn [Nat.add Nat.eqb]. by rewrite dh_comm.
Qed.
End DhToy.

(** * Properties *)

(** Key agreement.  A publisher and a subscriber that hold the same
    passphrase and exchange their messages (the subscriber's first, the
    publisher's reply second) both succeed, hold the same 32-byte session key,
    and each accepts the other's confirmation tag; both wire messages are
    exactly 1280 bytes, whatever randomness is drawn. *)
Theorem pake_agreement `{KeyExchange} pass rp rs pub sub :
  NewPAKEPublisher pass rp = Ok pub -> NewPAKESubscriber pass rs = Ok sub -> r_pad rp <> None ->
  exists subMsg pubMsg pub' sub' key tagP tagS,
    Bytes (Some sub) = Some subMsg /\ Update subMsg rp pub = (Ok tt, pub') /\
    Bytes (Some pub') = Some pubMsg /\ Update pubMsg rs sub = (Ok tt, sub') /\
    length subMsg = UniformWireMsgSize /\ length pubMsg = UniformWireMsgSize /\
    SessionKey pub' = Ok key /\ SessionKey sub' = Ok key /\ length key = KeySize /\
    ConfirmTag (Some pub') = Ok tagP /\ VerifyPeerConfirm (Some sub') tagP = Ok tt /\
    ConfirmTag (Some sub') = Ok tagS /\ VerifyPeerConfirm (Some pub') tagS = Ok tt.
Proof.
  intros HP HS Hpad.
  destruct (pake_honest pass rp rs pub sub HP HS Hpad) as
    (subMsg & pubMsg & pub' & sub' & key & H1 & H2 & H3 & H4 & H5 & H6 & Kp & Ks & Hk & Rp & Rs).
  exists subMsg, pubMsg, pub', sub', key, (hmac_sha256 key (confirmLabel ++ [x01])),
    (hmac_sha256 key (confirmLabel ++ [x02])).
  unfold SessionKey, ConfirmTag. rewrite (VerifyPeerConfirm_ok sub' key), (VerifyPeerConfirm_ok pub' key), Kp, Ks, Rp, Rs by done.
  repeat (split; [done || apply H4|]). done.
Qed.

Lemma pake_agreement_witness :
  let rp := mkPakeRand (Some [x05]) None [x07] (Some [x01]) in
  let rs := mkPakeRand (Some [x0b]) (Some [x0d]) [] (Some []) in
  exists pub sub, NewPAKEPublisher [x41] rp = Ok pub /\ NewPAKESubscriber [x41] rs = Ok sub /\
  exists subMsg pubMsg pub' sub' key tagP tagS,
    Bytes (Some sub) = Some subMsg /\ Update subMsg rp pub = (Ok tt, pub') /\
    Bytes (Some pub') = Some pubMsg /\ Update pubMsg rs sub = (Ok tt, sub') /\
    length subMsg = UniformWireMsgSize /\ length pubMsg = UniformWireMsgSize /\
    SessionKey pub' = Ok key /\ SessionKey sub' = Ok key /\ length key = KeySize /\
    ConfirmTag (Some pub') = Ok tagP /\ VerifyPeerConfirm (Some sub') tagP = Ok tt /\
    ConfirmTag (Some sub') = Ok tagS /\ VerifyPeerConfirm (Some pub') tagS = Ok tt.
Proof.
  eexists _, _. split; [reflexivity|]. split; [reflexivity|].
  apply (pake_agreement [x41]); done.
Defined.

(** Key confirmation binds the key.  A peer accepts the tag of a peer of the
    opposite role exactly when the two HMAC values coincide: with equal session
    keys always, and with different keys (a wrong passphrase or a
    man-in-the-middle) only if the two keys collide under HMAC on that input.  A
    peer's own tag reflected back is accepted only on an HMAC collision between
    the two role bytes. *)
Theorem confirm_binds_key `{KeyExchange} p q kp kq tagq tagp :
  pk_sharedKey p = Some kp -> pk_sharedKey q = Some kq -> pk_role q = 3 - pk_role p ->
  ConfirmTag (Some q) = Ok tagq -> ConfirmTag (Some p) = Ok tagp ->
  let msg r := confirmLabel ++ [byte_of_Z r] in
  (VerifyPeerConfirm (Some p) tagq = Ok tt <->
     hmac_sha256 kq (msg (pk_role q)) = hmac_sha256 kp (msg (pk_role q))) /\
  (kp = kq -> VerifyPeerConfirm (Some p) tagq = Ok tt) /\
  (VerifyPeerConfirm (Some p) tagp = Ok tt ->
     hmac_sha256 kp (msg (pk_role p)) = hmac_sha256 kp (msg (pk_role q))).
Proof.
  intros Hp Hq Hr. unfold ConfirmTag. rewrite Hp, Hq. intros [= <-] [= <-].
  cbn zeta. rewrite !(VerifyPeerConfirm_ok p kp), Hr by done. naive_solver.
Qed.

Definition confirm_peer (role : Z) (key : bytes) : PAKEPeer :=
  mkPAKEPeer [] None None role (Some key) None [].

Lemma confirm_binds_key_witness :
  VerifyPeerConfirm (Some (confirm_peer 1 (zeros 32)))
    (hmac_sha256 (zeros 32) (confirmLabel ++ [x02])) = Ok tt.
Proof.
  apply (confirm_binds_key (confirm_peer 1 (zeros 32)) (confirm_peer 2 (zeros 32)) (zeros 32) (zeros 32)
    (hmac_sha256 (zeros 32) (confirmLabel ++ [x02])) (hmac_sha256 (zeros 32) (confirmLabel ++ [x01])));
    reflexivity.
Defined.

(** Lifecycle of a peer.  Whatever message arrives, [Update] keeps the peer
    well-formed and a failed [Update] derives no key; a message of any other
    length than 1280 is refused without touching the peer; after [Close] no
    session key, tag or confirmation can be obtained from it. *)
Theorem pake_lifecycle `{KeyExchange} pass role rnd p msg rnd' r q :
  newPAKEPeer pass role rnd = Ok p -> Update msg rnd' p = (r, q) ->
  pake_inv q /\ (r <> Ok tt -> SessionKey q = Err ErrPAKEFailed) /\
  (r = Ok tt -> exists k, SessionKey q = Ok k /\ length k = KeySize) /\
  (length msg <> UniformWireMsgSize -> r = Err ErrInvalidPeerMsg /\ q = p) /\
  forall tag, SessionKey (ClosePAKE q) = Err ErrPAKEFailed /\ ConfirmTag (Some (ClosePAKE q)) = Err ErrPAKEFailed /\
    VerifyPeerConfirm (Some (ClosePAKE q)) tag = Err ErrPAKEFailed /\ Bytes (Some (ClosePAKE q)) = None.
Proof.
  intros Hp HU. pose proof (newPAKEPeer_inv _ _ _ _ Hp) as Hinv.
  destruct (Update_inv _ _ _ _ _ Hinv HU) as [Hq Hk].
  assert (pk_sharedKey p = None) as Hnone.
  { revert Hp. clear. unfold newPAKEPeer. destruct pass; [discriminate|]. destruct (r_priv rnd); [|discriminate].
    destruct (role =? 2); [|by intros [= <-]]. destruct (r_dk rnd); [|discriminate].
    destruct (padPub _ _); [by intros [= <-]|discriminate]. }
  split; [done|]. split; [intros Hr; unfold SessionKey; by rewrite (Hk Hr), Hnone|].
  split; [|split].
  - intros ->. revert HU Hq. clear. unfold Update. destruct (negb _); [discriminate|].
    destruct (x25519_dh _ _); [|discriminate]. destruct (updateKEM _ _ _) as [[?|?] ?]; [|discriminate].
    destruct (masterSecret _ _ _) as [k|]; [|discriminate]. intros [= <-] [_ Hk]. exists k. by split; [|apply Hk].
  - intros Hl. revert HU. unfold Update. rewrite (proj2 (Nat.eqb_neq _ _) Hl). by intros [= <- <-].
  - by intros tag.
Qed.

Lemma pake_lifecycle_witness :
  let rnd := mkPakeRand (Some [x05]) None [x07] (Some [x01]) in
  let p := mkPAKEPeer [x05] None None 1 None None [x41] in
  pake_inv p.
Proof.
  exact (proj1 (pake_lifecycle [x41] 1 (mkPakeRand (Some [x05]) None [x07] (Some [x01]))
    (mkPAKEPeer [x05] None None 1 None None [x41]) [x00] (mkPakeRand None None [] None) _ _ eq_refl eq_refl)).
Defined.
