(* ===== verification/Engine.v ===== *)
(** * What the two engines share: effects, connections, sealed frames

    A state-and-error monad for the methods of [pkg/feed], the network
    connection as a value, and the frame construction that
    [PublishPayload], [TriggerRekey] and [replaySyncForSubscriber] repeat
    (publisher.go:511-541, 727-751, 808-836) with its inverse in
    [SubscribeStream] (subscriber.go:380-382, 425-427). *)

From S2P Require Import Prelude Protocol Hash Aead Cipher Pake.

(** ** A state-and-error monad *)

Definition M (S E A : Type) : Type := S -> result E A * S.

#[global] Instance M_ret S E : MRet (M S E) := fun A a s => (Ok a, s).
#[global] Instance M_bind S E : MBind (M S E) := fun A B k m s =>
  match m s with
  | (Ok a, s') => k a s'
  | (Err e, s') => (Err e, s')
  end.

Section Monad.
Context {S E : Type}.

Definition fail {A} (e : E) : M S E A := fun s => (Err e, s).
Definition gets {A} (f : S -> A) : M S E A := fun s => (Ok (f s), s).
Definition modify (f : S -> S) : M S E unit := fun s => (Ok tt, f s).
Definition lift {E' A} (wrapErr : E' -> E) (r : result E' A) : M S E A := fun s =>
  match r with Ok a => (Ok a, s) | Err e => (Err (wrapErr e), s) end.
(** [_ = f()]: the state change stays, the error is dropped. *)
Definition ignore {A} (m : M S E A) : M S E unit := fun s => (Ok tt, snd (m s)).
(** The error as a value. *)
Definition attempt {A} (m : M S E A) : M S E (result E A) := fun s =>
  let (r, s) := m s in (Ok r, s).
(** Clean-up on the error path; the error is still returned. *)
Definition onError {A} (m : M S E A) (cleanup : M S E unit) : M S E A := fun s =>
  match m s with
  | (Ok a, s) => (Ok a, s)
  | (Err e, s) => (Err e, snd (cleanup s))
  end.
Definition when (b : bool) (m : M S E unit) : M S E unit := if b then m else mret tt.
End Monad.

(** Running a bind whose first half succeeds. *)
Lemma bind_ok {S E A B} (m : M S E A) (k : A -> M S E B) s a s' :
  m s = (Ok a, s') -> (m ≫= k) s = k a s'.
Proof. intros H. unfold mbind, M_bind. by rewrite H. Qed.

Lemma bind_inv {S E A B} (m : M S E A) (k : A -> M S E B) s b s' :
  (m ≫= k) s = (Ok b, s') -> exists a s1, m s = (Ok a, s1) /\ k a s1 = (Ok b, s').
Proof. unfold mbind, M_bind. destruct (m s) as [[a|e] s1]; [eauto|discriminate]. Qed.

Lemma bind_attempt {S E A B} (m : M S E A) (k : result E A -> M S E B) s :
  (attempt m ≫= k) s = k (fst (m s)) (snd (m s)).
Proof. unfold mbind, M_bind, attempt. by destruct (m s). Qed.

Lemma bind_ignore {S E A B} (m : M S E A) (k : unit -> M S E B) s :
  (ignore m ≫= k) s = k tt (snd (m s)).
Proof. done. Qed.

Lemma bind_gets {S E A B} (f : S -> A) (k : A -> M S E B) s : (gets f ≫= k) s = k (f s) s.
Proof. done. Qed.

Lemma bind_modify {S E B} (f : S -> S) (k : unit -> M S E B) s : (modify f ≫= k) s = k tt (f s).
Proof. done. Qed.

Lemma bind_lift {S E E' A B} (w : E' -> E) (r : result E' A) (k : A -> M S E B) a s :
  r = Ok a -> (lift w r ≫= k) s = k a s.
Proof. by intros ->. Qed.

(** ** Frame conditions

    [respects R m]: whatever happens, [m] takes a state to an [R]-related one.
    For a preorder [R] this is compositional, so that each method's frame
    condition follows its structure. *)

Definition respects {S E A} (R : relation S) (m : M S E A) : Prop := forall s, R s (snd (m s)).

Section Respects.
Context {S E : Type} (R : relation S).

Lemma respects_bind `{!Transitive R} {A B} (m : M S E A) (k : A -> M S E B) :
  respects R m -> (forall a, respects R (k a)) -> respects R (m ≫= k).
Proof.
  intros Hm Hk s. specialize (Hm s). unfold mbind, M_bind. destruct (m s) as [[a|e] s']; [|done].
  etrans; [exact Hm|]. apply Hk.
Qed.
Lemma respects_modify f : (forall s, R s (f s)) -> respects R (@modify S E f).
Proof. intros H s. apply H. Qed.
Lemma respects_ignore {A} (m : M S E A) : respects R m -> respects R (ignore m).
Proof. intros Hm s. apply Hm. Qed.
Lemma respects_attempt {A} (m : M S E A) : respects R m -> respects R (attempt m).
Proof. intros Hm s. specialize (Hm s). unfold attempt. by destruct (m s). Qed.
Lemma respects_onError `{!Transitive R} {A} (m : M S E A) c :
  respects R m -> respects R c -> respects R (onError m c).
Proof.
  intros Hm Hc s. specialize (Hm s). unfold onError. destruct (m s) as [[a|e] s']; [done|].
  etrans; [exact Hm|]. apply Hc.
Qed.

Context `{!Reflexive R}.
Lemma respects_pure {A} (r : result E A) : respects R (fun s => (r, s)).
Proof. by intros s. Qed.
Lemma respects_ret {A} (a : A) : respects R (mret a : M S E A).
Proof. by intros s. Qed.
Lemma respects_fail {A} e : respects R (@fail S E A e).
Proof. by intros s. Qed.
Lemma respects_gets {A} (f : S -> A) : respects R (@gets S E A f).
Proof. by intros s. Qed.
Lemma respects_lift {E' A} (w : E' -> E) (r : result E' A) : respects R (@lift S E E' A w r).
Proof. intros s. unfold lift. by destruct r. Qed.

(** A step that depends on the current state, and what follows it. *)
Lemma respects_gets_seq `{!Transitive R} {A B} (f : S -> A) (m : A -> M S E unit) (k : M S E B) :
  (forall s, R s (snd (m (f s) s))) -> respects R k -> respects R (x ← gets f; m x;; k).
Proof.
  intros Hm Hk s. specialize (Hm s). unfold mbind, M_bind, gets. destruct (m (f s) s) as [[[]|e] s']; [|done].
  etrans; [exact Hm|]. apply Hk.
Qed.
End Respects.

(** Compose; two goals are left, the first half and the continuation. *)
Ltac respects_bind := notypeclasses refine (respects_bind _ _ _ _ _); [typeclasses eauto| |].
Ltac respects_onError := notypeclasses refine (respects_onError _ _ _ _ _); [typeclasses eauto| |].

#[export] Hint Resolve respects_modify respects_ignore respects_attempt respects_onError
  respects_pure respects_ret respects_fail respects_gets respects_lift : zf.
#[export] Hint Extern 0 (Reflexive _) => typeclasses eauto : zf.
#[export] Hint Extern 0 (Transitive _) => typeclasses eauto : zf.

(** ** Connections

    What the peer will deliver, what has been written, and the outcome of the
    writes to come: a write succeeds, or fails after some of its bytes are out. *)

Record Conn := mkConn {
  c_in : reader;
  c_out : bytes;
  c_writes : list (option nat);
  c_closed : bool
}.

Inductive feed_error :=
  | FErrDial | FErrConnNil | FErrWrite | FErrEncode | FErrDecode (e : decode_error)
  | FErrCrypto (e : crypto_error) | FErrSessionClosed | FErrVersion | FErrFrameType
  | FErrResponseSize | FErrNoConfirm | FErrNoCipher | FErrAuth | FErrRekeyAuth
  | FErrReconnect | FErrContext | FErrFile
  | FPanic.   (** nil dereference *)

Definition conn_write (bs : bytes) (c : Conn) : result feed_error unit * Conn :=
  if c_closed c then (Err FErrWrite, c)
  else match c_writes c with
       | [] => (Ok tt, mkConn (c_in c) (c_out c ++ bs) [] false)
       | None :: ws => (Ok tt, mkConn (c_in c) (c_out c ++ bs) ws false)
       | Some k :: ws => (Err FErrWrite, mkConn (c_in c) (c_out c ++ take k bs) ws false)
       end.

(** The stale bytes of the pooled 64 KB frame buffer of [protocol.Encode]. *)
Definition stalePool (pool : bytes) : bytes := copy_at 0 (zeros (Z.to_nat framePoolSize)) pool.

Lemma length_stalePool pool : length (stalePool pool) = Z.to_nat framePoolSize.
Proof. unfold stalePool. rewrite length_copy_at by lia. apply length_zeros. Qed.

(** [protocol.Encode(conn, env)] *)
Definition conn_encode (pool : bytes) (env : Envelope) (c : Conn) : result feed_error unit * Conn :=
  match Encode pool env with
  | Err _ => (Err FErrEncode, c)
  | Ok bs => conn_write bs c
  end.

(** [protocol.Decode(conn)] *)
Definition conn_decode (c : Conn) : result decode_error Envelope * Conn :=
  if c_closed c then (Err (ErrRead ConnError), c)
  else let (res, r) := Decode (c_in c) in (res, mkConn r (c_out c) (c_writes c) false).

Definition conn_close (c : Conn) : Conn := mkConn (c_in c) (c_out c) (c_writes c) true.

(** [netErr.Timeout()] or [os.ErrDeadlineExceeded] inside a decoder error. *)
Definition is_timeout (e : decode_error) : bool :=
  match e with ErrRead Timeout | ErrReadPayload _ Timeout => true | _ => false end.

(** [transport.Mode] (transport.go) *)
Inductive Mode := ModeTCP | ModeQUIC.

(** ** Sealed frames *)

Section WithAEAD.
Context {aeadI : AEAD}.

Definition sealFrame (ciph : Cipher) (sid : bytes) (msgType : byte) (seqNum : Z) (pt : bytes)
    : result crypto_error Envelope :=
  let sessionSalt := take 4 sid in
  let nonce := ConstructNonceRFC5116 sessionSalt seqNum in
  let framePayloadLen := wrap 32 (8 + zlen pt + 16) in
  let headerBytes := SerializeHeader (zeros HeaderSize) Version msgType sid nonce framePayloadLen in
  let? (ciphertext, _) := Encrypt ciph None pt (Some nonce) headerBytes in
  let framePayload := zeros (8 + length ciphertext) in
  let framePayload := copy_at 0 framePayload (be_bytes 8 seqNum) in
  let framePayload := copy_at 8 framePayload ciphertext in
  Ok (mkEnvelope Version msgType sid nonce framePayload).

(** [ciph.Decrypt(env.Payload[8:], env.Nonce[:], headerBytes)] *)
Definition openFrame (ciph : Cipher) (env : Envelope) : result crypto_error bytes :=
  let headerBytes := SerializeHeader (zeros HeaderSize) (env_Version env) (env_MsgType env)
    (env_SessionID env) (env_Nonce env) (wrap 32 (zlen (env_Payload env))) in
  Decrypt ciph (drop 8 (env_Payload env)) (env_Nonce env) headerBytes.

(** The envelope of message [seqNum] under key [k]. *)
Definition sealed (k sid : bytes) (msgType : byte) (seqNum : Z) (pt : bytes) : Envelope :=
  let nonce := take 4 sid ++ be_bytes 8 seqNum in
  mkEnvelope Version msgType sid nonce
    (be_bytes 8 seqNum ++
     aead_seal k nonce pt (header_bytes Version msgType sid nonce (8 + zlen pt + 16))).

(** Largest plaintext a frame can carry. *)
Definition MaxPlaintext : Z := MaxPayloadSize - 24.

Lemma padded_fits payload :
  zlen payload + 4 <= MaxPlaintext -> zlen (PadPayload payload DefaultPaddingTargetSize) <= MaxPlaintext.
Proof.
  intros H. rewrite length_PadPayload. unfold MaxPlaintext, MaxPayloadSize, DefaultPaddingTargetSize in *. lia.
Qed.

Lemma SerializeHeader_zeros v t sid n len :
  length sid = 16%nat -> length n = 12%nat ->
  SerializeHeader (zeros HeaderSize) v t sid n len = header_bytes v t sid n len.
Proof.
  intros Hs Hn. rewrite SerializeHeader_spec by done.
  rewrite drop_ge by (rewrite length_zeros; lia). apply app_nil_r.
Qed.

Lemma length_nonce sid n : length sid = 16%nat -> length (take 4 sid ++ be_bytes 8 n) = 12%nat.
Proof. intros Hs. rewrite length_app, length_take, length_be_bytes. lia. Qed.

Lemma sealFrame_open k k' sid t n pt :
  length sid = 16%nat -> zlen pt <= MaxPlaintext ->
  sealFrame (mkCipher (Some k) k') sid t n pt = Ok (sealed k sid t n pt).
Proof.
  intros Hs Hl. unfold sealFrame, sealed. unfold MaxPlaintext, MaxPayloadSize in Hl.
  rewrite ConstructNonce_spec by (rewrite length_take; lia).
  rewrite SerializeHeader_zeros by (done || by apply length_nonce).
  rewrite Encrypt_open by (by apply length_nonce). cbn [result_bind].
  unfold wrap. rewrite Z.mod_small by lia.
  set (ct := aead_seal _ _ _ _).
  unfold zeros. rewrite replicate_add. fold (zeros 8). fold (zeros (length ct)).
  rewrite copy_at_head by (by rewrite length_be_bytes).
  rewrite <- (app_nil_r (zeros (length ct))).
  rewrite copy_at_mid by (rewrite ?length_be_bytes, ?length_zeros; done). by rewrite app_nil_r.
Qed.

Lemma length_sealed_payload k sid t n pt : zlen (env_Payload (sealed k sid t n pt)) = 8 + zlen pt + 16.
Proof. cbn [sealed env_Payload]. rewrite length_app, length_be_bytes, aead_seal_length. lia. Qed.

Lemma sealed_ok k sid t n pt :
  length sid = 16%nat -> zlen pt <= MaxPlaintext -> Envelope_ok MaxPayloadSize (sealed k sid t n pt).
Proof.
  intros Hs Hl. split.
  - split; [done|]. by apply length_nonce.
  - done.
  - rewrite length_sealed_payload. unfold MaxPlaintext in Hl. lia.
Qed.

(** Opening inverts sealing, and accepts nothing else. *)
Lemma openFrame_sealed k k' sid t n pt :
  length sid = 16%nat -> zlen pt <= MaxPlaintext ->
  openFrame (mkCipher (Some k) k') (sealed k sid t n pt) = Ok pt.
Proof.
  intros Hs Hl. unfold openFrame. rewrite length_sealed_payload.
  unfold MaxPlaintext, MaxPayloadSize in Hl. unfold wrap. rewrite Z.mod_small by lia.
  cbn [sealed env_Version env_MsgType env_SessionID env_Nonce env_Payload].
  rewrite SerializeHeader_zeros by (done || by apply length_nonce).
  rewrite drop_exact by apply length_be_bytes.
  rewrite Decrypt_open by (by apply length_nonce). by rewrite aead_open_seal.
Qed.

Lemma openFrame_inv k k' env pt :
  Envelope_ok MaxPayloadSize env -> openFrame (mkCipher (Some k) k') env = Ok pt ->
  drop 8 (env_Payload env) =
    aead_seal k (env_Nonce env) pt (header_bytes (env_Version env) (env_MsgType env)
      (env_SessionID env) (env_Nonce env) (zlen (env_Payload env))).
Proof.
  intros [[Hs Hn] _ Hl]. unfold openFrame. unfold MaxPayloadSize in Hl.
  unfold wrap. rewrite Z.mod_small by lia.
  rewrite SerializeHeader_zeros by done. rewrite Decrypt_open by done.
  destruct (aead_open _ _ _ _) as [p|] eqn:E; [|discriminate]. intros [= <-]. by apply aead_open_inv in E.
Qed.

End WithAEAD.

#[global] Arguments sealed : simpl never.
#[global] Arguments sealFrame : simpl never.
#[global] Arguments openFrame : simpl never.

(** ** Connections: facts *)

(** A connection all of whose writes succeed. *)
Definition healthy (c : Conn) : Prop := c_closed c = false /\ c_writes c = [].

Lemma conn_encode_healthy pool env c :
  length pool = Z.to_nat framePoolSize -> Envelope_ok MaxPayloadSize env -> healthy c ->
  conn_encode pool env c = (Ok tt, mkConn (c_in c) (c_out c ++ frame_bytes env) [] false).
Proof.
  intros Hp [Hwf _ Hl] [Hc Hw]. unfold conn_encode. rewrite Encode_spec by done.
  unfold conn_write. by rewrite Hc, Hw.
Qed.

Lemma conn_decode_frame env rest c :
  c_closed c = false -> Envelope_ok MaxPayloadSize env -> c_in c = reader_of (frame_bytes env) ++ rest ->
  conn_decode c = (Ok env, mkConn rest (c_out c) (c_writes c) false).
Proof. intros Hc He Hi. unfold conn_decode. by rewrite Hc, Hi, Decode_frame. Qed.

(** The connection after writing [envs]. *)
Definition emit (c : Conn) (envs : list Envelope) : Conn :=
  mkConn (c_in c) (c_out c ++ concat (frame_bytes <$> envs)) [] false.

Lemma emit_one c env : emit c [env] = mkConn (c_in c) (c_out c ++ frame_bytes env) [] false.
Proof. unfold emit. cbn [fmap list_fmap concat]. by rewrite app_nil_r. Qed.

Lemma healthy_emit c envs : healthy (emit c envs).
Proof. done. Qed.

Lemma emit_emit c e1 e2 : emit (emit c e1) e2 = emit c (e1 ++ e2).
Proof. unfold emit. simpl. by rewrite fmap_app, concat_app, app_assoc. Qed.

Lemma emit_nil c : healthy c -> emit c [] = c.
Proof. destruct c. intros [Hc Hw]. simpl in *. subst. unfold emit. simpl. by rewrite app_nil_r. Qed.

(** ** The frames of a session

    [session_frames sid k n items fs k' n']: from key [k] and counter [n], the
    frames [fs] carry the payloads of [items] with their numbers, ending with key
    [k'] and counter [n'].  Rekey and heartbeat frames come in between. *)
Inductive session_frames `{AEAD} (sid : bytes) :
    bytes -> Z -> list (Z * bytes) -> list Envelope -> bytes -> Z -> Prop :=
  | sf_nil k n : session_frames sid k n [] [] k n
  | sf_data k n payload items fs k' n' :
      zlen payload + 4 <= MaxPlaintext -> n + 1 < 2 ^ 64 ->
      session_frames sid k (n + 1) items fs k' n' ->
      session_frames sid k n ((n + 1, payload) :: items)
        (sealed k sid MsgTypeDataStream (n + 1) (PadPayload payload DefaultPaddingTargetSize) :: fs) k' n'
  | sf_rekey k n salt k1 items fs k' n' :
      length salt = NonceSize -> n + 1 < 2 ^ 64 -> RatchetKey k salt = Ok k1 ->
      session_frames sid k1 (n + 1) items fs k' n' ->
      session_frames sid k n items (sealed k sid MsgTypeRekey (n + 1) salt :: fs) k' n'
  | sf_heartbeat k n items fs k' n' :
      session_frames sid k n items fs k' n' ->
      session_frames sid k n items (mkEnvelope Version MsgTypeHeartbeat sid zeroNonce [] :: fs) k' n'.

Lemma session_frames_app `{AEAD} sid k n i1 f1 k1 n1 i2 f2 k2 n2 :
  session_frames sid k n i1 f1 k1 n1 -> session_frames sid k1 n1 i2 f2 k2 n2 ->
  session_frames sid k n (i1 ++ i2) (f1 ++ f2) k2 n2.
Proof. intros H1 H2. induction H1; simpl; eauto using session_frames. Qed.

Lemma session_frames_ok `{AEAD} sid k n items fs k' n' :
  length sid = 16%nat -> session_frames sid k n items fs k' n' ->
  Forall (Envelope_ok MaxPayloadSize) fs.
Proof.
  intros Hs. induction 1 as [|k n payload items fs k' n' Hl _ _ IH|k n salt k1 items fs k' n' Hl _ _ _ IH
    |k n items fs k' n' _ IH]; constructor; try done.
  - by apply sealed_ok, padded_fits.
  - apply sealed_ok; [done|]. rewrite Hl. by vm_compute.
Qed.
