(* ===== verification/WebSocket.v ===== *)
(** * The WebSocket bridge (pkg/relay/websocket.go)

    Browser subscribers reach the relay through RFC 6455 frames.  [wsConn] is a
    [net.Conn] whose [Read] strips the framing (unmasking, extended lengths,
    ping replies, partial reads from [readBuf]) and whose [Write] adds it.  The
    theorems show that the frame decoder cannot tell a [wsConn] from a plain
    byte stream: [io.ReadFull] on it refines [io.ReadFull] on the stream of its
    data payloads, for every input a peer can send.

    A read error that is neither [EOF] nor a timeout is [ConnError], the 64 MB
    refusal included.  [c_closed] only concerns writes: what a closed connection
    still has buffered is part of its input. *)

From S2P Require Import Prelude Strings Protocol Hash Encoding Engine.

(** ** Origins and the HTTP upgrade *)

Definition wsMagicGUID : bytes := str "258EAFA5-E914-47DA-95CA-C5AB0DC85B11".

Definition COMMA : byte := x2c.

(** [strings.EqualFold] on ASCII. *)
Definition equal_fold (a b : bytes) : bool := bool_decide (to_lower a = to_lower b).

(** [envAllowed] is the variable ZEROFEED_ALLOWED_ORIGINS, empty when unset. *)
Definition isAllowedOrigin (envAllowed origin host : bytes) : bool :=
  let listed := negb (bool_decide (envAllowed = [])) &&
    (bool_decide (envAllowed = str "*") ||
     existsb (fun allowed => equal_fold (trim_space allowed) origin) (split_byte COMMA envAllowed)) in
  let lowerOrigin := to_lower origin in
  if listed then true
  else if has_prefix (str "http://localhost") lowerOrigin ||
          has_prefix (str "https://localhost") lowerOrigin ||
          has_prefix (str "http://127.0.0.1") lowerOrigin ||
          has_prefix (str "https://127.0.0.1") lowerOrigin then true
  else if bool_decide (lowerOrigin = str "https://nicolainzerillo.github.io") ||
          has_suffix (str ".github.io") lowerOrigin then true
  else if negb (bool_decide (host = [])) &&
          (bool_decide (lowerOrigin = str "http://" ++ to_lower host) ||
           bool_decide (lowerOrigin = str "https://" ++ to_lower host)) then true
  else false.

Definition computeAcceptKey (clientKey : bytes) : bytes :=
  base64_encode (Sha1.sum (clientKey ++ wsMagicGUID)).

(** The connection with the bytes already buffered by the HTTP server in front
    of its input ([bufrw.Reader]). *)
Record wsConn := mkWs { ws_conn : Conn; ws_readBuf : bytes }.

Record http_request := mkReq {
  req_Upgrade : bytes;
  req_Key : bytes;
  req_Origin : bytes;
  req_Host : bytes
}.

(** What the [http.ResponseWriter] offers. *)
Inductive hijacker := NoHijacker | HijackError | Hijack (conn : Conn).

Inductive upgrade_error :=
  | UpNotWebSocket | UpMissingKey | UpOrigin | UpNoHijacker | UpHijack.

#[global] Instance upgrade_error_eq_dec : EqDecision upgrade_error.
Proof. solve_decision. Defined.

Definition CRLF : bytes := [x0d; x0a].

Definition upgradeResponse (acceptKey : bytes) : bytes :=
  str "HTTP/1.1 101 Switching Protocols" ++ CRLF ++
  str "Upgrade: websocket" ++ CRLF ++
  str "Connection: Upgrade" ++ CRLF ++
  str "Sec-WebSocket-Accept: " ++ acceptKey ++ CRLF ++ CRLF.

(** The response is far below the 4096 bytes of [bufrw]'s writer, so
    [WriteString] only buffers it; the error of [Flush] is dropped. *)
Definition UpgradeWebSocket (envAllowed : bytes) (w : hijacker) (r : http_request)
    : result upgrade_error wsConn :=
  if negb (equal_fold (req_Upgrade r) (str "websocket")) then Err UpNotWebSocket
  else
    let clientKey := trim_space (req_Key r) in
    if bool_decide (clientKey = []) then Err UpMissingKey
    else
      let origin := trim_space (req_Origin r) in
      if negb (bool_decide (origin = [])) && negb (isAllowedOrigin envAllowed origin (req_Host r))
      then Err UpOrigin
      else match w with
           | NoHijacker => Err UpNoHijacker
           | HijackError => Err UpHijack
           | Hijack conn =>
               Ok (mkWs (snd (conn_write (upgradeResponse (computeAcceptKey clientKey)) conn)) [])
           end.

(** The HTTP handler of [StartWebSocketTLSServer]: refused with a status,
    closed at the connection limit, or handed to [handleConnection]. *)
Inductive ws_outcome := WsStatus (code : Z) | WsBusy (c : wsConn) | WsServe (c : wsConn).

Definition serveWebSocket (envAllowed : bytes) (activeConns maxConns : Z) (w : hijacker) (r : http_request)
    : ws_outcome :=
  match UpgradeWebSocket envAllowed w r with
  | Err e => WsStatus (if bool_decide (e = UpOrigin) then 403 else 400)
  | Ok c =>
      if maxConns <=? activeConns then WsBusy (mkWs (conn_close (ws_conn c)) (ws_readBuf c))
      else WsServe c
  end.

(** ** Reading *)

(** [bufio.Reader.ReadByte] *)
Definition ReadByte : M reader io_error byte := fun r =>
  match r with
  | [] => (Err EOF, [])
  | inr e :: r' => (Err e, r')
  | inl b :: r' => (Ok b, r')
  end.

(** [binary.Read] of an unsigned integer of [n] bytes. *)
Definition readUint (n : nat) : M reader io_error Z :=
  bs ← (read_full n : M reader io_error bytes); mret (be_val bs).

(** [payload[i] ^= maskKey[i%4]] *)
Fixpoint unmask (i : nat) (maskKey payload : bytes) : bytes :=
  match payload with
  | [] => []
  | b :: p => byte_xor b (nth (i mod 4) maskKey x00) :: unmask (S i) maskKey p
  end.

Definition wsMaxPayload : Z := 64 * 1024 * 1024.

(** One pass of the loop body up to the unmasked payload: the opcode and the
    payload of a frame, or [None] for a close frame. *)
Definition readFrame : M reader io_error (option (Z * bytes)) :=
  header ← ReadByte;
  let opcode := Z.land (Z_of_byte header) 0x0F in
  if opcode =? 0x08 then mret None
  else
    lenByte ← ReadByte;
    let masked := negb (Z.land (Z_of_byte lenByte) 0x80 =? 0) in
    let len7 := Z.land (Z_of_byte lenByte) 0x7F in
    payloadLen ← (if len7 =? 126 then readUint 2
                  else if len7 =? 127 then
                    l ← readUint 8; if wsMaxPayload <? l then fail ConnError else mret l
                  else mret len7);
    maskKey ← (if masked then read_full 4 : M reader io_error bytes else mret (zeros 4));
    payload ← (read_full (Z.to_nat payloadLen) : M reader io_error bytes);
    mret (Some (opcode, if masked then unmask 0 maskKey payload else payload)).

(** Text, binary or continuation. *)
Definition isData (opcode : Z) : bool := (opcode =? 0x01) || (opcode =? 0x02) || (opcode =? 0x00).

(** The reply to a ping; the length is written in one byte or two. *)
Definition pongFrame (payload : bytes) : bytes :=
  let pLen := zlen payload in
  [x8a] ++ (if pLen <=? 125 then [byte_of_Z pLen]
            else [x7e; byte_of_Z (Z.shiftr pLen 8); byte_of_Z pLen]) ++ payload.

Definition set_in (r : reader) (c : Conn) : Conn := mkConn r (c_out c) (c_writes c) (c_closed c).

(** The loop of [Read]: fill [readBuf].  Each pass consumes input, so
    [S (length input)] passes are enough. *)
Fixpoint fill (fuel : nat) (c : wsConn) : result io_error unit * wsConn :=
  match ws_readBuf c with
  | _ :: _ => (Ok tt, c)
  | [] =>
      match fuel with
      | O => (Err EOF, c)
      | S fuel' =>
          let (res, r) := readFrame (c_in (ws_conn c)) in
          let conn := set_in r (ws_conn c) in
          match res with
          | Err e => (Err e, mkWs conn [])
          | Ok None => (Err EOF, mkWs conn [])
          | Ok (Some (opcode, payload)) =>
              if opcode =? 0x09 then fill fuel' (mkWs (snd (conn_write (pongFrame payload) conn)) [])
              else if isData opcode then (Ok tt, mkWs conn payload)
              else fill fuel' (mkWs conn [])
          end
      end
  end.

(** [Read(p)] with [len(p) = n]: the bytes copied into [p]. *)
Definition Read (n : nat) (c : wsConn) : result io_error bytes * wsConn :=
  match fill (S (length (c_in (ws_conn c)))) c with
  | (Err e, c') => (Err e, c')
  | (Ok _, c') => (Ok (take n (ws_readBuf c')), mkWs (ws_conn c') (drop n (ws_readBuf c')))
  end.

(** ** Writing *)

Definition wsLength (m : Z) (length : Z) : bytes :=
  if length <=? 125 then [byte_of_Z (m + length)]
  else if length <=? 65535 then [byte_of_Z (m + 126)] ++ be_bytes 2 length
  else [byte_of_Z (m + 127)] ++ be_bytes 8 length.

Definition Write (p : bytes) (c : wsConn) : result feed_error Z * wsConn :=
  let frame := [x82] ++ wsLength 0 (zlen p) ++ p in
  match conn_write frame (ws_conn c) with
  | (Err e, conn) => (Err e, mkWs conn (ws_readBuf c))
  | (Ok _, conn) => (Ok (zlen p), mkWs conn (ws_readBuf c))
  end.

(** ** io.ReadFull over a wsConn *)

Definition is_nil {A} (l : list A) : bool := match l with [] => true | _ => false end.

(** [io.ReadAtLeast]: [Read] until [n] bytes are there. *)
Fixpoint ws_read_full_from (fuel : nat) (started : bool) (n : nat) (c : wsConn)
    : result io_error bytes * wsConn :=
  match n with
  | O => (Ok [], c)
  | S _ =>
      match fuel with
      | O => (Err EOF, c)
      | S fuel' =>
          match Read n c with
          | (Err e, c') => (Err (match e with EOF => if started then UnexpectedEOF else EOF | _ => e end), c')
          | (Ok l, c') =>
              match ws_read_full_from fuel' (started || negb (is_nil l)) (n - length l) c' with
              | (Ok l', c'') => (Ok (l ++ l'), c'')
              | (Err e, c'') => (Err e, c'')
              end
          end
      end
  end.

(** Every [Read] consumes input or returns a byte. *)
Definition ws_ReadFull (n : nat) (c : wsConn) : result io_error bytes * wsConn :=
  ws_read_full_from (n + length (c_in (ws_conn c))) false n c.

(** ** The byte stream a wsConn stands for *)

(** The data payloads of a raw stream, each error where it strikes; a close
    frame reads as the end of the stream. *)
Fixpoint unframe (fuel : nat) (r : reader) : reader :=
  match fuel, r with
  | O, _ | _, [] => []
  | S fuel', _ =>
      match readFrame r with
      | (Err e, r') => inr e :: unframe fuel' r'
      | (Ok None, r') => inr EOF :: unframe fuel' r'
      | (Ok (Some (opcode, payload)), r') =>
          (if isData opcode then reader_of payload else []) ++ unframe fuel' r'
      end
  end.

Definition raw_stream (r : reader) : reader := unframe (length r) r.

Definition ws_stream (c : wsConn) : reader :=
  reader_of (ws_readBuf c) ++ raw_stream (c_in (ws_conn c)).

(** ** An interface for readers

    What the decoder needs of an [io.Reader]: [io.ReadFull] on it is
    [io.ReadFull] on a stream of bytes and errors. *)
Class Reader (R : Type) := {
  ReadFull : nat -> R -> result io_error bytes * R;
  stream : R -> reader;
  ReadFull_stream n r : read_full n (stream r) = (fst (ReadFull n r), stream (snd (ReadFull n r)))
}.

#[global] Program Instance reader_Reader : Reader reader := {| ReadFull := read_full; stream := id |}.
Next Obligation. intros n r. unfold id. apply surjective_pairing. Qed.

(** The decoder on any reader is the decoder on its stream. *)
Lemma DecodeFrom_stream `{Reader R} (r : R) max :
  DecodeWithMax (stream r) max =
    (fst (DecodeFrom ReadFull r max), stream (snd (DecodeFrom ReadFull r max))).
Proof.
  unfold DecodeWithMax, DecodeFrom. rewrite ReadFull_stream.
  destruct (ReadFull HeaderSize r) as [[h|e] r1]; [|done]. cbn [fst snd].
  destruct (negb _); [done|]. destruct (Z_of_byte _ <? _); [done|]. destruct (max <? _); [done|].
  destruct (0 <? _); [|done]. rewrite ReadFull_stream.
  by destruct (ReadFull (Z.to_nat _) r1) as [[p|e] r2].
Qed.

(** ** Facts about frames *)

(** [consumes m]: whatever [m] does, it does not put input back. *)
Definition consumes {A} (m : M reader io_error A) : Prop := respects (fun r r' => (length r' <= length r)%nat) m.

#[local] Instance len_le_trans : Transitive (fun r r' : reader => (length r' <= length r)%nat).
Proof. intros a b c ??. lia. Qed.

Lemma consumes_ReadByte : consumes ReadByte.
Proof. intros [|[b|e] r]; simpl; lia. Qed.

Lemma consumes_read_full n : consumes (read_full n : M reader io_error bytes).
Proof.
  unfold consumes, respects, read_full. generalize false as s.
  induction n as [|n IH]; intros s r; [done|]. destruct r as [|[b|e] r]; simpl; try lia.
  pose proof (IH true r). destruct (read_full_from true n r) as [[l|e] r']; simpl in *; lia.
Qed.

Lemma consumes_readUint n : consumes (readUint n).
Proof. apply respects_bind; [apply _|apply consumes_read_full|]. intros. intros r. done. Qed.

Lemma readFrame_shorter r : r <> [] -> (length (snd (readFrame r)) < length r)%nat.
Proof.
  intros Hr. unfold readFrame. destruct r as [|[b|e] r]; [done| |simpl; lia].
  enough (H : forall k : byte -> M reader io_error (option (Z * bytes)),
    consumes (k b) -> (length (snd ((ReadByte ≫= k) (inl b :: r))) < S (length r))%nat).
  { apply H. destruct (_ =? 8); [by intros ?|]. apply respects_bind; [apply _|apply consumes_ReadByte|]. intros lb.
    apply respects_bind; [apply _| |intros len].
    - destruct (_ =? 126); [apply consumes_readUint|]. destruct (_ =? 127); [|by intros ?].
      apply respects_bind; [apply _|apply consumes_readUint|]. intros l. by destruct (_ <? l); intros ?.
    - apply respects_bind; [apply _|destruct (negb _); [apply consumes_read_full|by intros ?]|]. intros key.
      apply respects_bind; [apply _|apply consumes_read_full|]. by intros p ?. }
  intros k Hk. specialize (Hk r). cbn. unfold mbind, M_bind. cbn. cbn in Hk. lia.
Qed.

Lemma readFrame_nil : readFrame [] = (Err EOF, []).
Proof. done. Qed.

(** Enough fuel is enough. *)
Lemma unframe_fuel f g r : (length r <= f)%nat -> (length r <= g)%nat -> unframe f r = unframe g r.
Proof.
  revert g r. induction f as [|f IH]; intros g r Hf Hg.
  { destruct r; [|simpl in Hf; lia]. by destruct g. }
  destruct r as [|x r]; [by destruct g|]. destruct g as [|g]; [simpl in Hg; lia|].
  cbn [unframe]. pose proof (readFrame_shorter (x :: r) ltac:(done)) as Hs.
  destruct (readFrame (x :: r)) as [[[[op p]|]|e] r']; cbn [snd] in Hs; f_equal; apply IH; simpl in *; lia.
Qed.

Lemma raw_stream_step r :
  r <> [] ->
  raw_stream r =
    match readFrame r with
    | (Err e, r') => inr e :: raw_stream r'
    | (Ok None, r') => inr EOF :: raw_stream r'
    | (Ok (Some (opcode, payload)), r') => (if isData opcode then reader_of payload else []) ++ raw_stream r'
    end.
Proof.
  intros Hr. unfold raw_stream. destruct r as [|x r]; [done|]. cbn [length unframe].
  pose proof (readFrame_shorter (x :: r) ltac:(done)) as Hs.
  destruct (readFrame (x :: r)) as [[[[op p]|]|e] r']; cbn [snd] in Hs; f_equal;
    apply unframe_fuel; simpl in *; lia.
Qed.

(** ** The loop of Read *)

Lemma conn_write_in bs c : c_in (snd (conn_write bs c)) = c_in c.
Proof. unfold conn_write. destruct (c_closed c); [done|]. by destruct (c_writes c) as [|[k|] ws]. Qed.

(** What one call of the loop does to the stream: it delivers a buffer without
    changing the stream, having consumed input if the buffer was empty, or it
    meets the error at the head of the stream. *)
Definition fill_ok (c : wsConn) (res : result io_error unit * wsConn) : Prop :=
  match res with
  | (Ok _, c') =>
      ws_stream c' = ws_stream c /\
      (length (c_in (ws_conn c')) <= length (c_in (ws_conn c)))%nat /\
      (length (c_in (ws_conn c')) < length (c_in (ws_conn c)) \/ ws_readBuf c' <> [])%nat
  | (Err e, c') =>
      (ws_stream c = inr e :: ws_stream c') \/ (ws_stream c = [] /\ e = EOF /\ ws_stream c' = [])
  end.

Lemma fill_spec fuel c : (length (c_in (ws_conn c)) < fuel)%nat -> fill_ok c (fill fuel c).
Proof.
  revert c. induction fuel as [|fuel IH]; intros [conn buf] Hf; [lia|]. cbn [ws_conn] in Hf.
  cbn [fill ws_readBuf ws_conn]. destruct buf as [|b buf]; [|split_and!; auto].
  destruct (decide (c_in conn = [])) as [Hn|Hn].
  { rewrite Hn, readFrame_nil. right. unfold ws_stream. cbn [ws_conn ws_readBuf set_in c_in]. by rewrite Hn. }
  pose proof (readFrame_shorter _ Hn) as Hs. pose proof (raw_stream_step _ Hn) as Hstep.
  destruct (readFrame (c_in conn)) as [[[[op p]|]|e] r'] eqn:E; cbn [snd] in Hs;
    [|left; unfold ws_stream; cbn; by rewrite Hstep..].
  assert (IH' : forall conn', c_in conn' = r' -> isData op = false -> fill_ok (mkWs conn []) (fill fuel (mkWs conn' []))).
  { intros conn' Hc Hd. specialize (IH (mkWs conn' [])). cbn [ws_conn] in IH. rewrite Hc in IH. specialize (IH ltac:(lia)).
    assert (Es : ws_stream (mkWs conn []) = ws_stream (mkWs conn' [])).
    { unfold ws_stream. cbn [ws_conn ws_readBuf]. by rewrite Hc, Hstep, Hd. }
    unfold fill_ok in *. rewrite Es. cbn [ws_conn] in *. rewrite Hc in IH.
    destruct (fill fuel (mkWs conn' [])) as [[[]|e] c']; [|done].
    destruct IH as (E1 & H1 & H2). split_and!; [done|lia|]. destruct H2; [left; lia|by right]. }
  destruct (Z.eqb_spec op 9) as [->|Hop].
  - apply IH'; [|done]. by rewrite conn_write_in.
  - destruct (isData op) eqn:Hd; [|by apply IH'].
    unfold fill_ok, ws_stream. cbn. rewrite Hstep. split_and!; [done|lia|by left].
Qed.

(** ** io.ReadFull on a wsConn *)

Lemma reader_of_take_drop n l r : reader_of l ++ r = reader_of (take n l) ++ reader_of (drop n l) ++ r.
Proof. by rewrite app_assoc, <- reader_of_app, take_drop. Qed.

Lemma read_full_from_prefix s n l r :
  (length l <= n)%nat ->
  read_full_from s n (reader_of l ++ r) =
    match read_full_from (s || negb (is_nil l)) (n - length l) r with
    | (Ok l', r') => (Ok (l ++ l'), r')
    | (Err e, r') => (Err e, r')
    end.
Proof.
  revert s n. induction l as [|b l IH]; intros s n Hn.
  - cbn. rewrite orb_false_r, Nat.sub_0_r. by destruct (read_full_from s n r) as [[?|?] ?].
  - destruct n as [|n]; [simpl in Hn; lia|]. cbn [reader_of fmap list_fmap app read_full_from length Nat.sub].
    change (list_fmap _ _ inl l) with (reader_of l). rewrite IH by (simpl in Hn; lia).
    cbn [is_nil negb orb]. rewrite orb_true_r. by destruct (read_full_from true (n - length l) r) as [[?|?] ?].
Qed.

Lemma ws_read_full_spec fuel s n c :
  (n + length (c_in (ws_conn c)) <= fuel)%nat ->
  read_full_from s n (ws_stream c) =
    (fst (ws_read_full_from fuel s n c), ws_stream (snd (ws_read_full_from fuel s n c))).
Proof.
  revert s n c. induction fuel as [|fuel IH]; intros s n c Hf.
  { assert (n = 0%nat) as -> by lia. done. }
  destruct n as [|n]; [done|]. cbn [ws_read_full_from]. unfold Read.
  pose proof (fill_spec (S (length (c_in (ws_conn c)))) c ltac:(lia)) as H.
  destruct (fill _ c) as [[[]|e] c'].
  2: { destruct H as [H|(H & -> & H')]; rewrite H; cbn; [done|]. by rewrite H'. }
  destruct H as (Es & H1 & H2). rewrite <- Es. unfold ws_stream at 1.
  rewrite (reader_of_take_drop (S n)), read_full_from_prefix by (rewrite length_take; lia).
  set (l := take (S n) (ws_readBuf c')). set (c1 := mkWs (ws_conn c') (drop (S n) (ws_readBuf c'))).
  change (reader_of (drop (S n) (ws_readBuf c')) ++ raw_stream (c_in (ws_conn c'))) with (ws_stream c1).
  rewrite IH.
  2: { unfold c1, l. cbn [ws_conn]. rewrite length_take.
       destruct (ws_readBuf c') as [|b buf]; cbn [length]; [|lia]. destruct H2; [lia|done]. }
  by destruct (ws_read_full_from fuel _ _ c1) as [[?|?] c2].
Qed.

#[global] Program Instance wsConn_Reader : Reader wsConn := {| ReadFull := ws_ReadFull; stream := ws_stream |}.
Next Obligation. intros n c. by apply ws_read_full_spec. Qed.

(** ** Frames as RFC 6455 peers send them *)

(** RFC 6455, section 5.3: octet [i] of the data is combined with octet [i mod 4] of
    the key. *)
Definition rfc_mask (key data : bytes) : bytes := imap (fun i b => byte_xor b (nth (i mod 4) key x00)) data.

(** Section 5.2: the length in 7 bits, in 7+16 or in 7+64, under the mask bit
    [m]; a sender may choose any form the number fits. *)
Inductive rfc_length (m n : Z) : bytes -> Prop :=
  | rfc_len7 : 0 <= n <= 125 -> rfc_length m n [byte_of_Z (m + n)]
  | rfc_len16 : 0 <= n < 2 ^ 16 -> rfc_length m n (byte_of_Z (m + 126) :: be_bytes 2 n)
  | rfc_len64 : 0 <= n < 2 ^ 63 -> rfc_length m n (byte_of_Z (m + 127) :: be_bytes 8 n).

(** [f_head] carries FIN, the reserved bits and the opcode, [f_length] is the
    length field; clients mask. *)
Record wsFrame := mkFrame { f_head : byte; f_length : bytes; f_mask : option bytes; f_payload : bytes }.

Definition f_opcode (f : wsFrame) : Z := Z.land (Z_of_byte (f_head f)) 0x0F.
Definition f_maskbit (f : wsFrame) : Z := match f_mask f with Some _ => 128 | None => 0 end.

Definition frame_on_wire (f : wsFrame) : bytes :=
  f_head f :: f_length f ++
  match f_mask f with Some key => key ++ rfc_mask key (f_payload f) | None => f_payload f end.

(** Not a close frame, the right length, four bytes of mask, at most 64 MB. *)
Record frame_ok (f : wsFrame) : Prop := {
  fo_opcode : f_opcode f <> 8;
  fo_length : rfc_length (f_maskbit f) (zlen (f_payload f)) (f_length f);
  fo_mask key : f_mask f = Some key -> length key = 4%nat;
  fo_size : zlen (f_payload f) <= wsMaxPayload
}.

(** The payloads of the data frames, in order. *)
Definition data_of (fs : list wsFrame) : bytes :=
  concat ((fun f => if isData (f_opcode f) then f_payload f else []) <$> fs).

Definition on_wire (fs : list wsFrame) : bytes := concat (frame_on_wire <$> fs).

Lemma length_rfc_mask key p : length (rfc_mask key p) = length p.
Proof. apply length_imap. Qed.

(** The loop of [Read] undoes the sender's mask. *)
Lemma unmask_mask i key p : unmask i key (imap (fun j b => byte_xor b (nth ((i + j) mod 4) key x00)) p) = p.
Proof.
  revert i. induction p as [|b p IH]; intros i; [done|]. rewrite imap_cons. cbn [unmask].
  rewrite Nat.add_0_r, byte_xor_involutive. f_equal. rewrite <- (IH (S i)) at 2. f_equal. apply imap_ext.
  intros j x _. cbn [compose]. by rewrite Nat.add_succ_r.
Qed.

Lemma unmask_rfc key p : unmask 0 key (rfc_mask key p) = p.
Proof. apply (unmask_mask 0). Qed.

Lemma wsLength_rfc m n : 0 <= n < 2 ^ 63 -> rfc_length m n (wsLength m n).
Proof. intros Hn. unfold wsLength. repeat zcase; constructor; lia. Qed.

(** The two halves of the length byte. *)
Lemma mask_bit b : (Z.land (Z_of_byte b) 0x80 =? 0) = (Z_of_byte b <? 128).
Proof. all_bytes b. Qed.
Lemma low_bits b : Z.land (Z_of_byte b) 0x7F = Z_of_byte b `mod` 128.
Proof. all_bytes b. Qed.

Lemma length_byte m n :
  m = 0 \/ m = 128 -> 0 <= n < 128 ->
  (Z.land (Z_of_byte (byte_of_Z (m + n))) 0x80 =? 0) = (m =? 0) /\
  Z.land (Z_of_byte (byte_of_Z (m + n))) 0x7F = n.
Proof.
  intros Hm Hn. rewrite mask_bit, low_bits, Z_of_byte_of_Z. unfold wrap.
  change (2 ^ 8) with 256. rewrite Z.mod_small by lia. destruct Hm as [-> | ->].
  - split; [zcase; lia|]. apply Z.mod_small. lia.
  - split; [zcase; lia|]. replace (128 + n) with (n + 1 * 128) by lia.
    rewrite Z.mod_add by lia. apply Z.mod_small. lia.
Qed.

(** Reading a length field and what follows it. *)
Lemma readFrame_header h m n len rest :
  Z.land (Z_of_byte h) 0x0F <> 8 -> m = 0 \/ m = 128 -> n <= wsMaxPayload -> rfc_length m n len ->
  readFrame (reader_of (h :: len) ++ rest) =
    ((maskKey ← (if negb (m =? 0) then read_full 4 : M reader io_error bytes else mret (zeros 4));
      payload ← (read_full (Z.to_nat n) : M reader io_error bytes);
      mret (Some (Z.land (Z_of_byte h) 0x0F, if negb (m =? 0) then unmask 0 maskKey payload else payload))) rest
     : result io_error (option (Z * bytes)) * reader).
Proof.
  intros Hop Hm Hn Hl. unfold readFrame, wsMaxPayload in *. cbn [app reader_of fmap list_fmap].
  unfold mbind, M_bind. cbn [ReadByte]. rewrite (proj2 (Z.eqb_neq _ _) Hop).
  change (list_fmap byte (byte + io_error)%type inl) with reader_of.
  destruct Hl as [H1|H1|H1]; cbn [app reader_of fmap list_fmap ReadByte];
    change (list_fmap byte (byte + io_error)%type inl) with reader_of.
  - destruct (length_byte m n) as [-> ->]; [done|lia|].
    rewrite (proj2 (Z.eqb_neq n 126)), (proj2 (Z.eqb_neq n 127)) by lia. done.
  - destruct (length_byte m 126) as [-> ->]; [done|lia|]. rewrite (Z.eqb_refl 126).
    unfold readUint, mbind, M_bind. rewrite read_full_app by apply length_be_bytes.
    unfold mret, M_ret. rewrite be_val_bytes, Z.mod_small by (simpl; lia). done.
  - destruct (length_byte m 127) as [-> ->]; [done|lia|]. change (127 =? 126) with false. rewrite (Z.eqb_refl 127).
    unfold readUint, mbind, M_bind. rewrite read_full_app by apply length_be_bytes.
    unfold mret, M_ret. rewrite be_val_bytes, Z.mod_small by (simpl; lia).
    rewrite (proj2 (Z.ltb_ge _ n)) by lia. done.
Qed.

Lemma readFrame_wire f rest :
  frame_ok f -> readFrame (reader_of (frame_on_wire f) ++ rest) = (Ok (Some (f_opcode f, f_payload f)), rest).
Proof.
  intros [Hop Hl Hk Hn]. unfold frame_on_wire. rewrite app_comm_cons, reader_of_app, <- app_assoc.
  rewrite (readFrame_header _ (f_maskbit f) (zlen (f_payload f))); [|done| |done|done].
  2: { unfold f_maskbit. destruct (f_mask f); [by right|by left]. }
  unfold f_maskbit. destruct (f_mask f) as [key|]; cbn [Z.eqb negb]; unfold mbind, M_bind.
  - rewrite reader_of_app, <- app_assoc, read_full_app by auto.
    rewrite read_full_app by (rewrite length_rfc_mask; lia). by rewrite unmask_rfc.
  - cbn [mret M_ret]. by rewrite read_full_app by lia.
Qed.

Lemma raw_stream_wire fs rest :
  Forall frame_ok fs -> raw_stream (reader_of (on_wire fs) ++ rest) = reader_of (data_of fs) ++ raw_stream rest.
Proof.
  induction 1 as [|f fs Hf _ IH]; [done|]. unfold on_wire, data_of in *. cbn [fmap list_fmap concat].
  rewrite !reader_of_app, <- !app_assoc.
  rewrite raw_stream_step by (by unfold frame_on_wire; cbn).
  rewrite readFrame_wire, IH by done. by destruct (isData _).
Qed.

(** [Decode] until [k] envelopes have come or an error. *)
Fixpoint ws_decode (k : nat) (c : wsConn) : result decode_error (list Envelope) * wsConn :=
  match k with
  | O => (Ok [], c)
  | S k' =>
      match DecodeFrom ws_ReadFull c MaxPayloadSize with
      | (Err e, c') => (Err e, c')
      | (Ok env, c') =>
          match ws_decode k' c' with
          | (Ok envs, c'') => (Ok (env :: envs), c'')
          | (Err e, c'') => (Err e, c'')
          end
      end
  end.

Lemma ws_decode_frames envs c rest :
  Forall (Envelope_ok MaxPayloadSize) envs ->
  ws_stream c = reader_of (concat (frame_bytes <$> envs)) ++ rest ->
  exists c', ws_decode (length envs) c = (Ok envs, c') /\ ws_stream c' = rest.
Proof.
  intros Hok. revert c. induction Hok as [|env envs He _ IH]; intros c Hs; [by exists c|].
  cbn [fmap list_fmap concat] in Hs. rewrite reader_of_app, <- app_assoc in Hs.
  pose proof (DecodeFrom_stream c MaxPayloadSize) as Hd. cbn [stream wsConn_Reader ReadFull] in Hd.
  rewrite Hs in Hd. pose proof (Decode_frame env (reader_of (concat (frame_bytes <$> envs)) ++ rest) He) as Hf.
  unfold Decode in Hf. rewrite Hf in Hd. cbn [length ws_decode].
  destruct (DecodeFrom ws_ReadFull c MaxPayloadSize) as [res c1]. cbn [fst snd] in Hd. injection Hd as <- Hd.
  destruct (IH c1) as (c' & -> & Hc'); [by rewrite Hd|]. by exists c'.
Qed.

Lemma fill_fuel f g c :
  (length (c_in (ws_conn c)) < f)%nat -> (length (c_in (ws_conn c)) < g)%nat -> fill f c = fill g c.
Proof.
  revert g c. induction f as [|f IH]; intros g c Hf Hg; [lia|]. destruct g as [|g]; [lia|]. cbn [fill].
  destruct (ws_readBuf c) as [|b buf]; [|done].
  destruct (decide (c_in (ws_conn c) = [])) as [Hn|Hn]; [by rewrite Hn, readFrame_nil|].
  pose proof (readFrame_shorter _ Hn) as Hs.
  destruct (readFrame (c_in (ws_conn c))) as [[[[op p]|]|e] r']; cbn [snd] in Hs; try done.
  destruct (op =? 9); [|destruct (isData op); [done|]]; apply IH; cbn [ws_conn];
    rewrite ?conn_write_in; cbn [set_in c_in]; lia.
Qed.

(** The pong of [Read] as its receiver parses it: the length field holds the
    payload's length modulo 65536, and what it leaves out follows as garbage. *)
Lemma readFrame_pong p rest :
  readFrame (reader_of (pongFrame p) ++ rest) =
    (Ok (Some (10, take (Z.to_nat (zlen p `mod` 65536)) p)),
     reader_of (drop (Z.to_nat (zlen p `mod` 65536)) p) ++ rest).
Proof.
  set (k := zlen p `mod` 65536). pose proof (Z.mod_pos_bound (zlen p) 65536 ltac:(lia)) as Hk.
  assert (k <= zlen p) as Hkp by (apply Z.mod_le; lia).
  unfold pongFrame. destruct (Z.leb_spec (zlen p) 125) as [H|H].
  - assert (k = zlen p) as -> by (unfold k; apply Z.mod_small; lia).
    pose proof (readFrame_wire (mkFrame x8a [byte_of_Z (0 + zlen p)] None p) rest) as E.
    unfold frame_on_wire in E. cbn [f_head f_length f_mask f_payload] in E.
    rewrite Nat2Z.id, firstn_all, drop_all in *. apply E.
    split; [done|constructor; cbn; lia|done|]. unfold wsMaxPayload. cbn. lia.
  - rewrite app_assoc, reader_of_app, <- app_assoc.
    assert (Eb : [x7e; byte_of_Z (Z.shiftr (zlen p) 8); byte_of_Z (zlen p)] = [x7e] ++ be_bytes 2 k).
    { cbn [be_bytes app Z.of_nat Pos.of_succ_nat Pos.succ Z.pow Z.pow_pos Pos.iter Z.mul Pos.mul]. do 2 f_equal; [|f_equal].
      - rewrite <- (byte_of_Z_wrap (Z.shiftr _ _)), <- (byte_of_Z_wrap (k `div` _)). f_equal.
        rewrite Z.shiftr_div_pow2 by lia. unfold wrap, k. change (256 ^ 1) with 256. change (2 ^ 8) with 256.
        clear. Z.to_euclidean_division_equations. lia.
      - rewrite <- (byte_of_Z_wrap (zlen p)), <- (byte_of_Z_wrap (k `div` _)). f_equal. unfold wrap, k.
        change (256 ^ 0) with 1. rewrite Z.div_1_r. change (2 ^ 8) with 256.
        clear. Z.to_euclidean_division_equations. lia. }
    rewrite Eb. unfold readFrame, mbind, M_bind. cbn [app reader_of fmap list_fmap ReadByte].
    change (list_fmap byte (byte + io_error)%type inl) with reader_of.
    change (Z.land (Z_of_byte x8a) 15) with 10. change (10 =? 8) with false. cbn [ReadByte].
    change (Z.land (Z_of_byte x7e) 127) with 126. change (Z.land (Z_of_byte x7e) 128 =? 0) with true.
    cbn [Z.eqb Pos.eqb negb]. unfold readUint, mbind, M_bind. rewrite read_full_app by apply length_be_bytes.
    unfold mret, M_ret. rewrite be_val_bytes. change (256 ^ Z.of_nat 2) with 65536. rewrite Z.mod_small by lia.
    rewrite <- (take_drop (Z.to_nat k) p) at 1. rewrite reader_of_app, <- app_assoc, read_full_app; [done|].
    rewrite length_take. lia.
Qed.

(** ** Properties *)

(** C24: The frame decoder on a WebSocket connection is the frame decoder on the
    data its peer sent.  The peer sends any RFC 6455 frames, masked with any key
    or not, in any form of the length, data frames and control frames in any order, and the
    connection may hold a remainder [buf] of an earlier frame: decoding gives exactly
    the result of the decoder on [buf] followed by the data the peer put into its data
    frames, and leaves exactly the rest of that data.  A close frame and the end of the
    connection read as the end of the stream, a read error as that error.  On input that is
    not made of such frames the decoder still behaves as on one plain stream. *)
Theorem ws_decode_equiv :
  (forall fs rest conn buf max, Forall frame_ok fs -> c_in conn = reader_of (on_wire fs) ++ rest ->
     let c := mkWs conn buf in
     DecodeWithMax (reader_of (buf ++ data_of fs) ++ raw_stream rest) max =
       (fst (DecodeFrom ws_ReadFull c max), ws_stream (snd (DecodeFrom ws_ReadFull c max)))) /\
  (forall h e r, raw_stream [] = [] /\ raw_stream (inr e :: r) = inr e :: raw_stream r /\
     (Z.land (Z_of_byte h) 0x0F = 8 -> raw_stream (inl h :: r) = inr EOF :: raw_stream r)) /\
  (forall c max, DecodeWithMax (ws_stream c) max =
     (fst (DecodeFrom ws_ReadFull c max), ws_stream (snd (DecodeFrom ws_ReadFull c max)))).
Proof.
  split; [|split].
  - intros fs rest conn buf max Hfs Hc c. rewrite reader_of_app, <- app_assoc, <- raw_stream_wire, <- Hc by done.
    exact (DecodeFrom_stream c max).
  - intros h e r. split; [done|]. split; [by rewrite raw_stream_step|]. intros Hh. rewrite raw_stream_step by done.
    unfold readFrame, mbind, M_bind. cbn [ReadByte]. by rewrite Hh.
  - intros c max. exact (DecodeFrom_stream c max).
Qed.

(** A client that sends ZeroFeed frames cut into any WebSocket frames
    (masked or not, text, binary or continuation, any of the three length
    encodings, pings, pongs and reserved opcodes in between) has exactly those
    envelopes decoded, in order, and the stream goes on with what follows. *)
Theorem ws_roundtrip fs envs rest conn :
  Forall frame_ok fs -> Forall (Envelope_ok MaxPayloadSize) envs ->
  data_of fs = concat (frame_bytes <$> envs) ->
  c_in conn = reader_of (on_wire fs) ++ rest ->
  exists c', ws_decode (length envs) (mkWs conn []) = (Ok envs, c') /\ ws_stream c' = raw_stream rest.
Proof.
  intros Hfs Henvs Hd Hc. apply ws_decode_frames; [done|].
  unfold ws_stream. cbn [ws_readBuf ws_conn]. by rewrite Hc, raw_stream_wire, <- Hd.
Qed.

(** What [Write] sends is one frame that a receiver reads back as exactly
    the bytes written, for every payload up to the reader's 64 MB limit; the
    reported count is the payload's length, and on a failing connection [Write]
    reports the error. *)
Theorem ws_Write_roundtrip p c rest :
  zlen p <= wsMaxPayload ->
  (healthy (ws_conn c) ->
   exists frame, Write p c = (Ok (zlen p), mkWs (mkConn (c_in (ws_conn c)) (c_out (ws_conn c) ++ frame) [] false) (ws_readBuf c)) /\
     raw_stream (reader_of frame ++ rest) = reader_of p ++ raw_stream rest) /\
  (c_closed (ws_conn c) = true -> Write p c = (Err FErrWrite, c)).
Proof.
  intros Hp. unfold Write, conn_write. split.
  - intros [-> ->]. exists (on_wire [mkFrame x82 (wsLength 0 (zlen p)) None p]). unfold on_wire. cbn [fmap list_fmap concat]. rewrite app_nil_r.
    split; [done|]. pose proof (raw_stream_wire [mkFrame x82 (wsLength 0 (zlen p)) None p] rest) as E.
    unfold on_wire, data_of in E. cbn [fmap list_fmap concat f_payload] in E. rewrite !app_nil_r in E. apply E.
    constructor; [|done]. split; [done|apply wsLength_rfc; cbn [f_payload]; unfold wsMaxPayload in Hp; lia|done|done].
  - intros ->. by destruct c.
Qed.

(** A ping is answered before [Read] goes on: the connection's output gains
    one pong and the read continues as if the ping had not been there.  The
    pong's receiver parses the payload of the ping back when it has at most
    65535 bytes; a longer one is announced by its length modulo 65536, and the
    bytes beyond are taken for the next frame. *)
Theorem ws_ping n f rest conn :
  frame_ok f -> f_opcode f = 9 -> healthy conn -> c_in conn = reader_of (frame_on_wire f) ++ rest ->
  Read n (mkWs conn []) = Read n (mkWs (mkConn rest (c_out conn ++ pongFrame (f_payload f)) [] false) []) /\
  forall tail, readFrame (reader_of (pongFrame (f_payload f)) ++ tail) =
    let k := Z.to_nat (zlen (f_payload f) `mod` 65536) in
    (Ok (Some (10, take k (f_payload f))), reader_of (drop k (f_payload f)) ++ tail).
Proof.
  intros Hf Hop [Hc Hw] Hin. split; [|intros; apply readFrame_pong]. unfold Read.
  assert (E : fill (S (length (c_in conn))) (mkWs conn []) =
    fill (S (length rest)) (mkWs (mkConn rest (c_out conn ++ pongFrame (f_payload f)) [] false) [])).
  { cbn [fill ws_readBuf ws_conn]. rewrite Hin, readFrame_wire, Hop by done. cbn [Z.eqb Pos.eqb].
    unfold conn_write. cbn [set_in c_closed c_writes]. rewrite Hc, Hw. cbn [snd].
    apply (fill_fuel _ (S (length rest))); cbn [ws_conn c_in set_in]; [|lia].
    rewrite length_app. unfold frame_on_wire, reader_of. cbn. lia. }
  cbn [ws_conn c_in]. by rewrite E.
Qed.

(** The origin check compares prefixes and suffixes of the whole origin, so
    with no configured list every origin that merely starts with
    [http://localhost] (such as [http://localhost.example]) and every page under
    [.github.io] opens a WebSocket, and a host that is none of these, not the
    server itself, is refused with status 403 before the connection is taken
    over. *)
Theorem ws_origin_check s host key :
  trim_space key <> [] -> trim_space s = s ->
  let req origin := mkReq (str "websocket") key origin host in
  (isAllowedOrigin [] (str "http://localhost" ++ s) host = true /\
   isAllowedOrigin [] (s ++ str ".github.io") host = true) /\
  (forall conn active max, s <> [] -> isAllowedOrigin [] s host = false ->
   serveWebSocket [] active max (Hijack conn) (req s) = WsStatus 403).
Proof.
  intros Hk Hs req. split; [split|].
  - unfold isAllowedOrigin, to_lower. cbn [negb bool_decide andb].
    change (negb (bool_decide ([] =@{bytes} []))) with false. cbn [andb].
    assert (has_prefix (str "http://localhost") (lower <$> str "http://localhost" ++ s) = true) as ->; [|done].
    unfold has_prefix. apply bool_decide_eq_true. rewrite fmap_app.
    change (lower <$> str "http://localhost") with (str "http://localhost"). apply take_app_length.
  - unfold isAllowedOrigin, to_lower. change (negb (bool_decide ([] =@{bytes} []))) with false. cbn [andb].
    destruct (_ || _ || _ || _); [done|].
    assert (has_suffix (str ".github.io") (lower <$> s ++ str ".github.io") = true) as ->; [|by rewrite orb_true_r].
    rewrite fmap_app. change (lower <$> str ".github.io") with (str ".github.io").
    unfold has_suffix. rewrite length_app, Nat.add_sub, drop_app_length, bool_decide_true by done.
    rewrite andb_true_r. apply Nat.leb_le. lia.
  - intros conn active max Hne Ha. unfold serveWebSocket, UpgradeWebSocket. cbn [req req_Upgrade req_Key req_Origin req_Host].
    change (negb (equal_fold (str "websocket") (str "websocket"))) with false. cbn iota.
    rewrite bool_decide_false, Hs, bool_decide_false, Ha by done. done.
Qed.

(** ** The properties at work *)

(** RFC 6455, section 1.3. *)
Example computeAcceptKey_rfc6455 :
  computeAcceptKey (str "dGhlIHNhbXBsZSBub25jZQ==") = str "s3pPLMBiTxaQ9kYGzzhZRbK+xOo=".
Proof. vm_compute. reflexivity. Qed.

Definition demoMask : bytes := [x37; xfa; x21; x3d].

(** A frame cut in two masked pieces, with a ping between them. *)
Definition demoFrames : list wsFrame :=
  [mkFrame x02 (wsLength 128 10) (Some demoMask) (take 10 (frame_bytes sample_env));
   mkFrame x89 (xfe :: be_bytes 2 2) (Some demoMask) (str "hi");
   mkFrame x80 (wsLength 128 (zlen (drop 10 (frame_bytes sample_env)))) (Some demoMask) (drop 10 (frame_bytes sample_env))].

Lemma demoFrames_ok : Forall frame_ok demoFrames.
Proof.
  unfold demoFrames. rewrite !Forall_cons. split_and!; [..|constructor]; split; try (vm_compute; congruence); try (by intros key [= <-]);
    cbn [f_length f_payload f_maskbit f_mask].
  - apply (wsLength_rfc 128 10). lia.
  - apply (rfc_len16 128 2). lia.
  - apply wsLength_rfc. vm_compute. split; congruence.
Qed.

Definition demoConn : Conn := mkConn (reader_of (on_wire demoFrames)) [] [] false.

Lemma ws_decode_equiv_witness :
  let c := mkWs demoConn [] in
  DecodeWithMax (reader_of (frame_bytes sample_env)) MaxPayloadSize =
    (fst (DecodeFrom ws_ReadFull c MaxPayloadSize), ws_stream (snd (DecodeFrom ws_ReadFull c MaxPayloadSize))) /\
  raw_stream [inl x88; inr Timeout] = [inr EOF; inr Timeout].
Proof.
  intros c. destruct ws_decode_equiv as (H1 & H2 & _). split.
  - refine (eq_trans _ (H1 demoFrames [] demoConn [] MaxPayloadSize demoFrames_ok _)); vm_compute; reflexivity.
  - destruct (H2 x88 Timeout [inr Timeout]) as (_ & _ & H3). by rewrite H3 by (vm_compute; reflexivity).
Defined.

Lemma ws_roundtrip_witness :
  exists c', ws_decode 1 (mkWs demoConn []) = (Ok [sample_env], c') /\ ws_stream c' = raw_stream [].
Proof.
  apply (ws_roundtrip demoFrames [sample_env] [] demoConn).
  - exact demoFrames_ok.
  - constructor; [|constructor]. split; [split; reflexivity|vm_compute; congruence|vm_compute; congruence].
  - vm_compute. reflexivity.
  - vm_compute. reflexivity.
Defined.

(** The reply to the ping is on the wire by then. *)
Example ws_roundtrip_pong :
  c_out (ws_conn (snd (ws_decode 1 (mkWs demoConn [])))) = [x8a; x02] ++ str "hi".
Proof. vm_compute. reflexivity. Qed.

Lemma ws_Write_roundtrip_witness :
  (healthy demoConn ->
   exists frame, Write (str "abc") (mkWs demoConn []) =
     (Ok 3, mkWs (mkConn (c_in demoConn) ([] ++ frame) [] false) []) /\
     raw_stream (reader_of frame ++ []) = reader_of (str "abc") ++ raw_stream []) /\
  (false = true -> Write (str "abc") (mkWs demoConn []) = (Err FErrWrite, mkWs demoConn [])).
Proof. apply (ws_Write_roundtrip (str "abc") (mkWs demoConn []) []). vm_compute. congruence. Defined.

Definition demoPing : wsFrame := mkFrame x89 (xfe :: be_bytes 2 2) (Some demoMask) (str "hi").

Lemma ws_ping_witness :
  Read 4 (mkWs (mkConn (reader_of (frame_on_wire demoPing) ++ []) [] [] false) []) =
    Read 4 (mkWs (mkConn [] ([] ++ pongFrame (str "hi")) [] false) []) /\
  forall tail, readFrame (reader_of (pongFrame (str "hi")) ++ tail) =
    let k := Z.to_nat (zlen (str "hi") `mod` 65536) in
    (Ok (Some (10, take k (str "hi"))), reader_of (drop k (str "hi")) ++ tail).
Proof.
  apply (ws_ping 4 demoPing [] (mkConn (reader_of (frame_on_wire demoPing) ++ []) [] [] false)).
  - split; [vm_compute; congruence|apply (rfc_len16 128 2); lia|intros key [= <-]; reflexivity|vm_compute; congruence].
  - reflexivity.
  - split; reflexivity.
  - reflexivity.
Defined.

Lemma ws_origin_check_witness :
  let req origin := mkReq (str "websocket") (str "k") origin (str "relay.example") in
  (isAllowedOrigin [] (str "http://localhost" ++ str "http://other.example") (str "relay.example") = true /\
   isAllowedOrigin [] (str "http://other.example" ++ str ".github.io") (str "relay.example") = true) /\
  (forall conn active max, str "http://other.example" <> [] ->
   isAllowedOrigin [] (str "http://other.example") (str "relay.example") = false ->
   serveWebSocket [] active max (Hijack conn) (req (str "http://other.example")) = WsStatus 403).
Proof.
  apply (ws_origin_check (str "http://other.example") (str "relay.example") (str "k")).
  - vm_compute. congruence.
  - vm_compute. reflexivity.
Defined.

(** The prefix check admits a host of somebody else's. *)
Example ws_origin_other_host :
  isAllowedOrigin [] (str "http://localhost.example") (str "relay.example") = true /\
  isAllowedOrigin [] (str "http://other.example") (str "relay.example") = false.
Proof. vm_compute. done. Qed.
