(* ===== verification/Publisher.v ===== *)
(** * The publisher engine: [pkg/feed/publisher.go]

    [PublisherEngine] is the struct with the memory its replay buffer lives in.
    Every method is a computation in the monad of [Engine.v]; what comes from
    outside (the clock, random bytes, dial results, the stale contents of the
    pooled frame buffer) is an argument.  Here every method runs to
    completion; PubThreads.v interleaves them. *)

From S2P Require Import Prelude Protocol Memory RingBuffer Hash Aead Cipher Pake Engine.

(** publisher.go:25-28; durations are nanoseconds. *)
Definition DefaultRekeyByteThreshold : Z := 1024 * 1024 * 1024.
Definition DefaultRekeyTimeThreshold : Z := 3600 * 10 ^ 9.

(** ** State (publisher.go:31-55) *)

Record PublisherEngine := mkPublisher {
  p_passphrase : option bytes;
  p_masterKey : option bytes;
  p_sessionID : bytes;
  p_pakePeer : option PAKEPeer;
  p_cipher : option Cipher;
  p_conn : option Conn;
  p_seqCounter : Z;
  p_replayBuffer : RingBuffer;
  p_chunkAckChan : option nat;      (** number of queued acknowledgements, capacity 10 *)
  p_expectedFingerprint : bytes;
  p_transportMode : Mode;
  p_sas : bytes * bytes;            (** [sasHex], [sasEmoji] *)
  p_bytesSinceRekey : Z;
  p_lastRekeyTime : Z;
  p_rekeyByteLimit : Z;
  p_rekeyTimeLimit : Z;
  p_untaggedInput : bool;
  p_closed : bool;
  p_mem : Mem
}.

Definition set_conn (c : option Conn) (p : PublisherEngine) : PublisherEngine :=
  mkPublisher (p_passphrase p) (p_masterKey p) (p_sessionID p) (p_pakePeer p) (p_cipher p) c
    (p_seqCounter p) (p_replayBuffer p) (p_chunkAckChan p) (p_expectedFingerprint p)
    (p_transportMode p) (p_sas p) (p_bytesSinceRekey p) (p_lastRekeyTime p) (p_rekeyByteLimit p)
    (p_rekeyTimeLimit p) (p_untaggedInput p) (p_closed p) (p_mem p).
Definition set_pake (k : option PAKEPeer) (p : PublisherEngine) : PublisherEngine :=
  mkPublisher (p_passphrase p) (p_masterKey p) (p_sessionID p) k (p_cipher p) (p_conn p)
    (p_seqCounter p) (p_replayBuffer p) (p_chunkAckChan p) (p_expectedFingerprint p)
    (p_transportMode p) (p_sas p) (p_bytesSinceRekey p) (p_lastRekeyTime p) (p_rekeyByteLimit p)
    (p_rekeyTimeLimit p) (p_untaggedInput p) (p_closed p) (p_mem p).
Definition set_seq (n : Z) (p : PublisherEngine) : PublisherEngine :=
  mkPublisher (p_passphrase p) (p_masterKey p) (p_sessionID p) (p_pakePeer p) (p_cipher p) (p_conn p)
    n (p_replayBuffer p) (p_chunkAckChan p) (p_expectedFingerprint p)
    (p_transportMode p) (p_sas p) (p_bytesSinceRekey p) (p_lastRekeyTime p) (p_rekeyByteLimit p)
    (p_rekeyTimeLimit p) (p_untaggedInput p) (p_closed p) (p_mem p).
Definition set_ring (rb : RingBuffer) (m : Mem) (p : PublisherEngine) : PublisherEngine :=
  mkPublisher (p_passphrase p) (p_masterKey p) (p_sessionID p) (p_pakePeer p) (p_cipher p) (p_conn p)
    (p_seqCounter p) rb (p_chunkAckChan p) (p_expectedFingerprint p)
    (p_transportMode p) (p_sas p) (p_bytesSinceRekey p) (p_lastRekeyTime p) (p_rekeyByteLimit p)
    (p_rekeyTimeLimit p) (p_untaggedInput p) (p_closed p) m.
Definition set_ack (a : option nat) (p : PublisherEngine) : PublisherEngine :=
  mkPublisher (p_passphrase p) (p_masterKey p) (p_sessionID p) (p_pakePeer p) (p_cipher p) (p_conn p)
    (p_seqCounter p) (p_replayBuffer p) a (p_expectedFingerprint p)
    (p_transportMode p) (p_sas p) (p_bytesSinceRekey p) (p_lastRekeyTime p) (p_rekeyByteLimit p)
    (p_rekeyTimeLimit p) (p_untaggedInput p) (p_closed p) (p_mem p).
Definition set_bytes (n : Z) (p : PublisherEngine) : PublisherEngine :=
  mkPublisher (p_passphrase p) (p_masterKey p) (p_sessionID p) (p_pakePeer p) (p_cipher p) (p_conn p)
    (p_seqCounter p) (p_replayBuffer p) (p_chunkAckChan p) (p_expectedFingerprint p)
    (p_transportMode p) (p_sas p) n (p_lastRekeyTime p) (p_rekeyByteLimit p)
    (p_rekeyTimeLimit p) (p_untaggedInput p) (p_closed p) (p_mem p).
(** The assignments at the end of [TriggerRekey] (publisher.go:763-782). *)
Definition set_rekeyed (key : bytes) (c : Cipher) (now : Z) (p : PublisherEngine) : PublisherEngine :=
  mkPublisher (p_passphrase p) (Some key) (p_sessionID p) (p_pakePeer p) (Some c) (p_conn p)
    (p_seqCounter p) (p_replayBuffer p) (p_chunkAckChan p) (p_expectedFingerprint p)
    (p_transportMode p) (CalculateSAS key) 0 now (p_rekeyByteLimit p)
    (p_rekeyTimeLimit p) (p_untaggedInput p) (p_closed p) (p_mem p).

(** publisher.go:58-80, 154-158 *)
Definition SetSPKIFingerprint (fp : bytes) (p : PublisherEngine) : PublisherEngine :=
  mkPublisher (p_passphrase p) (p_masterKey p) (p_sessionID p) (p_pakePeer p) (p_cipher p) (p_conn p)
    (p_seqCounter p) (p_replayBuffer p) (p_chunkAckChan p) fp
    (p_transportMode p) (p_sas p) (p_bytesSinceRekey p) (p_lastRekeyTime p) (p_rekeyByteLimit p)
    (p_rekeyTimeLimit p) (p_untaggedInput p) (p_closed p) (p_mem p).
Definition SetTransportMode (mode : Mode) (p : PublisherEngine) : PublisherEngine :=
  mkPublisher (p_passphrase p) (p_masterKey p) (p_sessionID p) (p_pakePeer p) (p_cipher p) (p_conn p)
    (p_seqCounter p) (p_replayBuffer p) (p_chunkAckChan p) (p_expectedFingerprint p)
    mode (p_sas p) (p_bytesSinceRekey p) (p_lastRekeyTime p) (p_rekeyByteLimit p)
    (p_rekeyTimeLimit p) (p_untaggedInput p) (p_closed p) (p_mem p).
Definition SetUntaggedInput (untagged : bool) (p : PublisherEngine) : PublisherEngine :=
  mkPublisher (p_passphrase p) (p_masterKey p) (p_sessionID p) (p_pakePeer p) (p_cipher p) (p_conn p)
    (p_seqCounter p) (p_replayBuffer p) (p_chunkAckChan p) (p_expectedFingerprint p)
    (p_transportMode p) (p_sas p) (p_bytesSinceRekey p) (p_lastRekeyTime p) (p_rekeyByteLimit p)
    (p_rekeyTimeLimit p) untagged (p_closed p) (p_mem p).
Definition SetRekeyThresholds (byteLimit timeLimit : Z) (p : PublisherEngine) : PublisherEngine :=
  mkPublisher (p_passphrase p) (p_masterKey p) (p_sessionID p) (p_pakePeer p) (p_cipher p) (p_conn p)
    (p_seqCounter p) (p_replayBuffer p) (p_chunkAckChan p) (p_expectedFingerprint p)
    (p_transportMode p) (p_sas p) (p_bytesSinceRekey p) (p_lastRekeyTime p) byteLimit
    timeLimit (p_untaggedInput p) (p_closed p) (p_mem p).

Section Publisher.
Context {aeadI : AEAD} {kexI : KeyExchange}.
(** What [framePool.Get] happens to hold. *)
Variable pool : bytes.

Abbreviation PM := (M PublisherEngine feed_error).

(** publisher.go:83-129; the wiper it registers runs [Close]. *)
Definition NewPublisherEngine (passphrase : bytes) (rnd : PakeRand) (rndKey : option bytes)
    (now : Z) (m : Mem) : result crypto_error PublisherEngine :=
  let sessionID := DeriveSessionID passphrase in
  let? pakePeer := NewPAKEPublisher passphrase rnd in
  match rndKey with
  | None => Err ErrRandom
  | Some masterKey =>
      let? ciph := NewCipher masterKey in
      Ok (mkPublisher (Some passphrase) (Some masterKey) sessionID (Some pakePeer) (Some ciph) None
            0 (NewRingBuffer 100) None [] ModeTCP (CalculateSAS masterKey) 0 now
            DefaultRekeyByteThreshold DefaultRekeyTimeThreshold false false m)
  end.

(** [protocol.Encode] on a connection held by the caller: the engine's field and
    the local variable are the same object. *)
Definition encodeTo (env : Envelope) : PM unit := fun p =>
  match p_conn p with
  | None => (Err FErrConnNil, p)
  | Some c => let (r, c) := conn_encode (stalePool pool) env c in (r, set_conn (Some c) p)
  end.

Definition decodeFrom : PM Envelope := fun p =>
  match p_conn p with
  | None => (Err FErrConnNil, p)
  | Some c =>
      let (r, c) := conn_decode c in
      (match r with Ok env => Ok env | Err e => Err (FErrDecode e) end, set_conn (Some c) p)
  end.

Definition closeConn : PM unit := modify (fun p => set_conn (conn_close <$> p_conn p) p).

(** publisher.go:383-393 *)
Definition sendFrame (env : Envelope) : PM unit := encodeTo env.

(** The relay connection of [Connect]: QUIC with TCP fallback, or TCP
    (publisher.go:166-181).  [dialQUIC] and [dialTCP] are the dial outcomes. *)
Definition dialMode (mode : Mode) (dialQUIC dialTCP : option Conn) : option Conn :=
  match mode with
  | ModeQUIC => match dialQUIC with Some c => Some c | None => dialTCP end
  | ModeTCP => dialTCP
  end.

(** publisher.go:161-214 *)
Definition Connect (dialQUIC dialTCP : option Conn) (rnd : PakeRand) : PM unit :=
  tMode ← gets p_transportMode;
  match dialMode tMode dialQUIC dialTCP with
  | None => fail FErrDial
  | Some conn =>
      modify (set_conn (Some conn));;
      pakePeer ← gets p_pakePeer;
      (match pakePeer with
       | Some _ => mret tt
       | None =>
           pass ← gets p_passphrase;
           peer ← onError (lift FErrCrypto (NewPAKEPublisher (default [] pass) rnd)) closeConn;
           modify (set_pake (Some peer))
       end);;
      pakePeer ← gets p_pakePeer;
      sid ← gets p_sessionID;
      let pakeStep1Env := mkEnvelope Version MsgTypePAKEInitPub sid zeroNonce
                            (default [] (Bytes pakePeer)) in
      onError (encodeTo pakeStep1Env) closeConn
  end.

(** [p.pakePeer.Update(payload)] *)
Definition pakeUpdate (payload : bytes) (rnd : PakeRand) : PM unit := fun p =>
  match p_pakePeer p with
  | None => (Err FPanic, p)
  | Some peer =>
      let (r, peer) := Update payload rnd peer in
      (match r with Ok _ => Ok tt | Err e => Err (FErrCrypto e) end, set_pake (Some peer) p)
  end.

(** Step 2 payload: reply, wrapped master key, confirmation tag
    (publisher.go:250-272, 437-451). *)
Definition step2Payload (peer : option PAKEPeer) (masterKey : bytes) (rndNonce : option bytes)
    : result crypto_error bytes :=
  match peer with
  | None => Err ErrPAKEFailed
  | Some peer =>
      let? p2pKey := SessionKey peer in
      let? wrappedKeyPayload := WrapSessionKey rndNonce p2pKey masterKey in
      let? pubConfirmTag := ConfirmTag (Some peer) in
      Ok ((default [] (Bytes (Some peer)) ++ wrappedKeyPayload) ++ pubConfirmTag)
  end.

(** Waiting for the key confirmation (publisher.go:289-306): at most [n] frames. *)
Fixpoint awaitConfirm (n : nat) : PM unit :=
  match n with
  | O => fail FErrNoConfirm
  | S n' =>
      confirmFrame ← decodeFrom;
      if bool_decide (env_MsgType confirmFrame = MsgTypeKeyConfirm) then
        peer ← gets p_pakePeer;
        lift FErrCrypto (VerifyPeerConfirm peer (env_Payload confirmFrame))
      else awaitConfirm n'
  end.

(** publisher.go:217-309; the read deadline shows as [Timeout] in the reader. *)
Definition CompleteHandshake (rnd : PakeRand) (rndNonce : option bytes) : PM unit :=
  env ← decodeFrom;
  if bool_decide (env_MsgType env = MsgTypeClose) then fail FErrSessionClosed
  else if Z_of_byte (env_Version env) <? Z_of_byte MinSupportedVersion then fail FErrVersion
  else if bool_decide (env_MsgType env <> MsgTypePAKEInitSub /\ env_MsgType env <> MsgTypePAKEStep2)
  then fail FErrFrameType
  else
    pakeUpdate (env_Payload env) rnd;;
    peer ← gets p_pakePeer;
    mk ← gets p_masterKey;
    pakeRespPayload ← lift FErrCrypto (step2Payload peer (default [] mk) rndNonce);
    sid ← gets p_sessionID;
    encodeTo (mkEnvelope Version MsgTypePAKEStep2 sid zeroNonce pakeRespPayload);;
    awaitConfirm 8.

(** publisher.go:703-785 *)
Definition TriggerRekey (now : Z) (rndSalt : option bytes) : PM unit :=
  oc ← gets p_cipher;
  match oc with
  | None => mret tt
  | Some ciph =>
      match GetKey ciph with
      | None => mret tt
      | Some currKey =>
          salt ← lift FErrCrypto (GenerateNonce rndSalt);
          modify (fun p => set_seq (u64_add (p_seqCounter p) 1) p);;
          seqNum ← gets p_seqCounter;
          sid ← gets p_sessionID;
          rekeyEnv ← lift FErrCrypto (sealFrame ciph sid MsgTypeRekey seqNum salt);
          sendFrame rekeyEnv;;
          nextKey ← lift FErrCrypto (RatchetKey currKey salt);
          ciph' ← lift FErrCrypto (UpdateKey ciph nextKey);
          modify (set_rekeyed nextKey ciph' now)
      end
  end.

(** publisher.go:793 *)
Definition shouldRekey (now : Z) (p : PublisherEngine) : bool :=
  ((0 <? p_rekeyByteLimit p) && (p_rekeyByteLimit p <=? p_bytesSinceRekey p)) ||
  ((0 <? p_rekeyTimeLimit p) && (p_rekeyTimeLimit p <=? now - p_lastRekeyTime p)).

(** publisher.go:788-839 *)
Definition PublishPayload (now : Z) (rndSalt : option bytes) (payload : bytes) : PM unit :=
  modify (fun p => set_bytes (u64_add (p_bytesSinceRekey p) (zlen payload)) p);;
  rekey ← gets (shouldRekey now);
  when rekey (ignore (TriggerRekey now rndSalt));;
  oc ← gets p_cipher;
  match oc with
  | None => fail FErrNoCipher
  | Some ciph =>
      modify (fun p => set_seq (u64_add (p_seqCounter p) 1) p);;
      seqNum ← gets p_seqCounter;
      modify (fun p => let (rb, m) := Push seqNum payload (p_replayBuffer p) (p_mem p) in set_ring rb m p);;
      sid ← gets p_sessionID;
      let payloadToEncrypt := PadPayload payload DefaultPaddingTargetSize in
      env ← lift FErrCrypto (sealFrame ciph sid MsgTypeDataStream seqNum payloadToEncrypt);
      sendFrame env
  end.

(** publisher.go:367-374 *)
Definition tagPayload (untagged : bool) (payload : bytes) : bytes :=
  match payload with
  | [] => []
  | b :: _ =>
      if untagged || bool_decide (b ∉ [TagText; TagFileStart; TagFileChunk; TagFileEnd])
      then TagText :: payload else payload
  end.

(** The replayed frames (publisher.go:514-544): an item that cannot be sealed is
    skipped, a failed write does not stop the loop. *)
Fixpoint replayItems (items : list (Z * bytes)) (ciph : Cipher) : PM unit :=
  match items with
  | [] => mret tt
  | (seqNum, payload) :: items' =>
      sid ← gets p_sessionID;
      (match sealFrame ciph sid MsgTypeDataStream seqNum (PadPayload payload DefaultPaddingTargetSize) with
       | Err _ => mret tt
       | Ok frameEnv => ignore (sendFrame frameEnv)
       end);;
      replayItems items' ciph
  end.

Definition putBuffers (ss : list Slice) (m : Mem) : Mem :=
  foldl (fun m s => putBuffer (Some s) m) m ss.

(** publisher.go:493-545 *)
Definition replaySyncForSubscriber (lastSeqNum : Z) : PM unit := fun p =>
  let (items, m) := GetAfter lastSeqNum (p_replayBuffer p) (p_mem p) in
  let p := set_ring (p_replayBuffer p) m p in
  let release p := set_ring (p_replayBuffer p) (putBuffers (snd <$> items) (p_mem p)) p in
  match p_cipher p, p_conn p with
  | Some ciph, Some _ =>
      let (r, p) := replayItems ((fun it => (it.1, contents m it.2)) <$> items) ciph p in
      (r, release p)
  | _, _ => (Ok tt, release p)
  end.

(** One frame of [handleSyncRequests] (publisher.go:429-487). *)
Definition handleSyncFrame (env : Envelope) (rnd : PakeRand) (rndNonce : option bytes) : PM unit :=
  if bool_decide (env_MsgType env = MsgTypePAKEInitSub) then
    opass ← gets p_passphrase;
    match opass with
    | None => mret tt
    | Some pass =>
        match NewPAKEPublisher pass rnd with
        | Err _ => mret tt
        | Ok pakePeerSub =>
            let (_, pakePeerSub) := Update (env_Payload env) rnd pakePeerSub in
            mk ← gets p_masterKey;
            match step2Payload (Some pakePeerSub) (default [] mk) rndNonce with
            | Err _ => mret tt
            | Ok pakeRespPayload =>
                sid ← gets p_sessionID;
                ignore (sendFrame (mkEnvelope Version MsgTypePAKEStep2 sid zeroNonce pakeRespPayload))
            end
        end
    end
  else if bool_decide (env_MsgType env = MsgTypeSyncReq) then
    if (8 <=? length (env_Payload env))%nat
    then replaySyncForSubscriber (be_val (slice 0 8 (env_Payload env)))
    else mret tt
  else if bool_decide (env_MsgType env = MsgTypeChunkAck) then
    modify (fun p => match p_chunkAckChan p with
                     | Some n => set_ack (Some (Nat.min (S n) 10)) p
                     | None => p
                     end)
  else mret tt.

(** The loop of [handleSyncRequests] (publisher.go:407-490), one element of the
    list per iteration with the randomness it may draw; it stops when the list
    (the life of the context) ends, the connection is gone or a read fails for
    another reason than the 500 ms deadline. *)
Fixpoint handleSyncRequests (iters : list (PakeRand * option bytes)) : PM unit :=
  match iters with
  | [] => mret tt
  | (rnd, rndNonce) :: iters' =>
      r ← attempt decodeFrom;
      match r with
      | Ok env => handleSyncFrame env rnd rndNonce;; handleSyncRequests iters'
      | Err (FErrDecode e) => if is_timeout e then handleSyncRequests iters' else mret tt
      | Err _ => mret tt
      end
  end.

(** publisher.go:548-594; the result is the connection as [Close] leaves it. *)
Definition ClosePublisher : PM (option Conn) := fun p =>
  if p_closed p then (Ok None, p)
  else
    let closeEnv := mkEnvelope Version MsgTypeClose (p_sessionID p) zeroNonce [] in
    let conn := (fun c => conn_close (snd (conn_encode (stalePool pool) closeEnv c))) <$> p_conn p in
    let (rb, m) := Wipe (p_replayBuffer p) (p_mem p) in
    (Ok conn, mkPublisher None None (p_sessionID p) None None None
       (p_seqCounter p) rb (p_chunkAckChan p) (p_expectedFingerprint p)
       (p_transportMode p) (p_sas p) (p_bytesSinceRekey p) (p_lastRekeyTime p) (p_rekeyByteLimit p)
       (p_rekeyTimeLimit p) (p_untaggedInput p) true m).

(** The cases of the [select] in [PublishStream] (publisher.go:337-379). *)
Inductive stream_event :=
  | CtxDone
  | HeartbeatTick
  | InputClosed
  | Input (payload : bytes) (now : Z) (rndSalt : option bytes).

Definition heartbeat (sid : bytes) : Envelope := mkEnvelope Version MsgTypeHeartbeat sid zeroNonce [].

(** One iteration: [Some r] when the method returns [r]. *)
Definition publishEvent (ev : stream_event) : PM (option (result feed_error unit)) :=
  match ev with
  | CtxDone => mret (Some (Err FErrContext))
  | HeartbeatTick => sid ← gets p_sessionID; ignore (sendFrame (heartbeat sid));; mret None
  | InputClosed => mret (Some (Ok tt))
  | Input payload now rndSalt =>
      match payload with
      | [] => mret None
      | _ =>
          untagged ← gets p_untaggedInput;
          r ← attempt (PublishPayload now rndSalt (tagPayload untagged payload));
          mret (match r with Ok _ => None | Err e => Some (Err e) end)
      end
  end.

Fixpoint publishEvents (evs : list stream_event) : PM (option (result feed_error unit)) :=
  match evs with
  | [] => mret None
  | ev :: evs' =>
      r ← publishEvent ev;
      match r with Some r => mret (Some r) | None => publishEvents evs' end
  end.

(** publisher.go:326-381, over the events it selects; [defer p.Close()] runs
    once the loop returns.  The goroutine that answers subscribers meanwhile
    ([handleSyncRequests], started at line 331) runs beside it in PubThreads.v. *)
Definition PublishStream (evs : list stream_event)
    : PM (option (result feed_error unit * option Conn)) :=
  r ← publishEvents evs;
  match r with
  | Some r => conn ← ClosePublisher; mret (Some (r, conn))
  | None => mret None
  end.


#[local] Arguments conn_encode : simpl never.
#[local] Arguments Update : simpl never.
#[local] Arguments Push : simpl never.
#[local] Arguments GetAfter : simpl never.
#[local] Arguments Wipe : simpl never.
#[local] Arguments CalculateSAS : simpl never.
#[local] Arguments RatchetKey : simpl never.
#[local] Arguments WrapSessionKey : simpl never.

(** ** Invariant *)

(** Open: one 32-byte key is at once the stored master key and the cipher's key,
    and the SAS badge is computed from it.  Closed: no secret is left, the
    PAKE state with its copies of the passphrase and the tunnel key included. *)
Definition key_inv (p : PublisherEngine) : Prop :=
  if p_closed p
  then p_cipher p = None /\ p_masterKey p = None /\ p_passphrase p = None /\ p_pakePeer p = None
  else exists k, length k = KeySize /\ p_cipher p = Some (mkCipher (Some k) (Some k)) /\
    p_masterKey p = Some k /\ p_sas p = CalculateSAS k /\ p_passphrase p <> None.

Record pub_inv (p : PublisherEngine) : Prop := {
  pi_sid : length (p_sessionID p) = 16%nat;
  pi_key : key_inv p;
  pi_ring : ring_inv (p_replayBuffer p) (p_mem p) [];
  pi_cap : capacity (p_replayBuffer p) = 100%nat;
  pi_seq : 0 <= p_seqCounter p < 2 ^ 64;
  pi_closed : p_closed p = true -> abs (p_replayBuffer p) (p_mem p) = []
}.

(** Operations that touch nothing but the connection. *)
Definition conn_rel (p p' : PublisherEngine) : Prop := exists c, p' = set_conn c p.
Abbreviation only_conn := (respects conn_rel).

Lemma set_conn_same p : set_conn (p_conn p) p = p.
Proof. by destruct p. Qed.

#[global] Instance conn_rel_refl : Reflexive conn_rel.
Proof. intros p. exists (p_conn p). by rewrite set_conn_same. Qed.
#[global] Instance conn_rel_trans : Transitive conn_rel.
Proof. intros p1 p2 p3 [c ->] [c' ->]. by exists c'. Qed.

Lemma encodeTo_conn env : only_conn (encodeTo env).
Proof.
  intros p. unfold encodeTo. destruct (p_conn p) as [c|] eqn:E.
  - destruct (conn_encode _ _ _) as [r c']. by exists (Some c').
  - exists None. simpl. by rewrite <- E, set_conn_same.
Qed.

Lemma decodeFrom_conn : only_conn decodeFrom.
Proof.
  intros p. unfold decodeFrom. destruct (p_conn p) as [c|] eqn:E.
  - destruct (conn_decode c) as [r c']. by exists (Some c').
  - exists None. simpl. by rewrite <- E, set_conn_same.
Qed.

Lemma replayItems_conn items ciph : only_conn (replayItems items ciph).
Proof.
  induction items as [|[n payload] items IH]; simpl; [eauto with zf|].
  respects_bind; [eauto with zf|]. intros sid. respects_bind; [|done].
  destruct (sealFrame _ _ _ _ _); [apply respects_ignore, encodeTo_conn|eauto with zf].
Qed.

Lemma awaitConfirm_conn n : only_conn (awaitConfirm n).
Proof.
  induction n as [|n IH]; simpl; [eauto with zf|].
  respects_bind; [apply decodeFrom_conn|]. intros env. case_bool_decide; [|done].
  respects_bind; [eauto with zf|]. intros peer. eauto with zf.
Qed.

(** The invariant does not look at the connection or the handshake state. *)
Lemma pub_inv_conn c p : pub_inv p -> pub_inv (set_conn c p).
Proof. by intros []. Qed.

Lemma pub_inv_pake k p : pub_inv p -> p_closed p = false -> pub_inv (set_pake k p).
Proof. intros [] Ho. split; try done. unfold key_inv in *. cbn. by rewrite Ho in *. Qed.

(** Operations that preserve the invariant. *)
Definition inv_rel (p p' : PublisherEngine) : Prop := pub_inv p -> pub_inv p'.
Abbreviation preserves := (respects inv_rel).

#[global] Instance inv_rel_preorder : PreOrder inv_rel.
Proof. split; unfold inv_rel; [by intros p|]. intros p1 p2 p3. auto. Qed.

Lemma preserves_conn {A} (m : PM A) : only_conn m -> preserves m.
Proof. intros Hm p Hp. destruct (Hm p) as [c ->]. by apply pub_inv_conn. Qed.

#[local] Hint Resolve pub_inv_conn preserves_conn
  encodeTo_conn decodeFrom_conn replayItems_conn awaitConfirm_conn : zf.
#[local] Hint Unfold inv_rel : zf.

(** A publisher with a cipher is open. *)
Lemma key_inv_open p c :
  key_inv p -> p_cipher p = Some c ->
  p_closed p = false /\ exists k, length k = KeySize /\ c = mkCipher (Some k) (Some k) /\
    p_masterKey p = Some k /\ p_sas p = CalculateSAS k /\ p_passphrase p <> None.
Proof.
  unfold key_inv. destruct (p_closed p); [naive_solver|]. intros (k & Hl & Hc & Hm & Hs & Hp) E.
  split; [done|]. exists k. naive_solver.
Qed.

Lemma key_inv_peer p peer : key_inv p -> p_pakePeer p = Some peer -> p_closed p = false.
Proof. unfold key_inv. destruct (p_closed p); [|done]. intros (_ & _ & _ & E). congruence. Qed.

(** A closed engine has no passphrase to make a peer from. *)
Lemma key_inv_pass p pass : key_inv p -> p_passphrase p = Some pass -> p_closed p = false.
Proof. unfold key_inv. destruct (p_closed p); [|done]. intros (_ & _ & E & _). congruence. Qed.

Lemma u64_add_range a b : 0 <= u64_add a b < 2 ^ 64.
Proof. apply Z.mod_pos_bound. lia. Qed.

Lemma pub_inv_seq p : pub_inv p -> pub_inv (set_seq (u64_add (p_seqCounter p) 1) p).
Proof. intros []. split; auto. apply u64_add_range. Qed.

Lemma pub_inv_bytes n p : pub_inv p -> pub_inv (set_bytes n p).
Proof. by intros []. Qed.

Lemma pub_inv_ack a p : pub_inv p -> pub_inv (set_ack a p).
Proof. by intros []. Qed.

Lemma pub_inv_rekeyed key now p :
  pub_inv p -> p_closed p = false -> length key = KeySize ->
  pub_inv (set_rekeyed key (mkCipher (Some key) (Some key)) now p).
Proof.
  intros [Hs Hk Hr Hc Hq Hcl] Hop Hl. split; auto.
  unfold key_inv in *. simpl. rewrite Hop in *. destruct Hk as (k & _ & _ & _ & _ & Hp).
  by exists key.
Qed.

Lemma preserves_TriggerRekey now rnd : preserves (TriggerRekey now rnd).
Proof.
  intros p Hp. unfold TriggerRekey, mbind, M_bind, gets, modify, lift. cbn [snd fst].
  destruct (p_cipher p) as [ciph|] eqn:Ec; [|done].
  destruct (key_inv_open p ciph (pi_key p Hp) Ec) as (Hop & k & Hl & -> & _).
  cbn [GetKey c_key]. destruct (GenerateNonce rnd) as [salt|e]; [|done].
  pose proof (pub_inv_seq p Hp) as Hp1. set (p1 := set_seq _ p) in *.
  destruct (sealFrame _ _ _ _ _) as [env|e]; [|done].
  destruct (encodeTo_conn env p1) as [c Hc]. unfold sendFrame.
  destruct (encodeTo env p1) as [[[]|e] p2]; cbn [snd] in Hc; subst p2; [|by apply pub_inv_conn].
  destruct (RatchetKey_total k salt Hl) as (k' & -> & Hk').
  rewrite (UpdateKey_ok _ k') by done. cbn [snd].
  apply pub_inv_rekeyed; [by apply pub_inv_conn|done|done].
Qed.

Lemma preserves_push n payload p :
  pub_inv p -> p_closed p = false ->
  pub_inv (let (rb, m) := Push n payload (p_replayBuffer p) (p_mem p) in set_ring rb m p).
Proof.
  intros [Hs Hk Hr Hc Hq Hcl] Hop.
  pose proof (Push_spec n payload (p_replayBuffer p) (p_mem p) [] Hr) as HP.
  destruct (Push _ _ _ _) as [rb m]. destruct HP as (Hr' & Hc' & _ & _).
  split; auto; simpl; [by rewrite Hc'|]. by rewrite Hop.
Qed.

Lemma preserves_PublishPayload now rnd payload : preserves (PublishPayload now rnd payload).
Proof.
  unfold PublishPayload. respects_bind; [apply respects_modify; intros p Hp; by apply pub_inv_bytes|].
  intros _. respects_bind; [eauto with zf|]. intros rekey.
  respects_bind.
  { destruct rekey; [apply respects_ignore, preserves_TriggerRekey|eauto with zf]. }
  intros _ p Hp. unfold mbind, M_bind, gets, modify, lift. cbn [snd fst].
  destruct (p_cipher p) as [ciph|] eqn:Ec; [|done].
  destruct (key_inv_open p ciph (pi_key p Hp) Ec) as (Hop & _).
  pose proof (preserves_push (p_seqCounter (set_seq (u64_add (p_seqCounter p) 1) p)) payload _
    (pub_inv_seq p Hp) Hop) as Hp1.
  set (p1 := let (rb, m) := Push _ _ _ _ in set_ring rb m _) in *.
  destruct (sealFrame _ _ _ _ _) as [env|e]; [|done].
  by apply (preserves_conn (sendFrame env)); [apply encodeTo_conn|].
Qed.

(** The ring and its messages survive a replay; the copies go back to the pool. *)
Lemma putBuffers_spec ss m ls :
  owned m (ss ++ ls) -> owned (putBuffers ss m) ls /\ same_contents m (putBuffers ss m) ls.
Proof.
  revert m. induction ss as [|s ss IH]; intros m Ho; simpl; [by split; [|intros ??]|].
  destruct (putBuffer_spec s m _ Ho) as [Ho1 Hs1].
  destruct (IH _ Ho1) as [Ho2 Hs2]. split; [done|].
  intros x Hx. rewrite Hs2 by done. apply Hs1, elem_of_app. auto.
Qed.

Lemma release_spec rb m ss :
  ring_inv rb m (ss ++ []) ->
  ring_inv rb (putBuffers ss m) [] /\ abs rb (putBuffers ss m) = abs rb m.
Proof.
  intros Hr. pose proof (inv_owned _ _ _ Hr) as Ho. rewrite app_nil_r in Ho.
  assert (owned m (ss ++ live rb)) as Ho' by (by rewrite (Permutation_app_comm ss)).
  destruct (putBuffers_spec ss m _ Ho') as [H1 H2]. split.
  - eapply ring_inv_mem; [exact Hr|]. by rewrite app_nil_r.
  - by eapply abs_same_mem.
Qed.

(** What a replay does: the memory is back to the same messages, and the rest is
    [replayItems] over the messages after [last]. *)
Lemma replaySync_spec last p :
  ring_inv (p_replayBuffer p) (p_mem p) [] ->
  exists m, ring_inv (p_replayBuffer p) m [] /\ abs (p_replayBuffer p) m = abs (p_replayBuffer p) (p_mem p) /\
  exists m0,
  replaySyncForSubscriber last p =
    match p_cipher p, p_conn p with
    | Some ciph, Some _ =>
        let (r, p') := replayItems (RingSpec.after last (abs (p_replayBuffer p) (p_mem p))) ciph
                         (set_ring (p_replayBuffer p) m0 p) in
        (r, set_ring (p_replayBuffer p) m p')
    | _, _ => (Ok tt, set_ring (p_replayBuffer p) m p)
    end.
Proof.
  intros Hr. unfold replaySyncForSubscriber.
  pose proof (GetAfter_spec last _ _ [] Hr) as HG.
  destruct (GetAfter last _ _) as [items m1]. destruct HG as (Hr1 & _ & Ha1 & Hitems).
  destruct (release_spec _ _ _ Hr1) as [Hr2 Ha2].
  exists (putBuffers (snd <$> items) m1). split; [done|]. split; [congruence|]. exists m1.
  cbn [set_ring p_cipher p_conn]. destruct (p_cipher p) as [ciph|]; [|done].
  destruct (p_conn p) as [c|]; [|done]. rewrite Hitems.
  set (p1 := set_ring _ _ _).
  destruct (replayItems_conn (RingSpec.after last (abs (p_replayBuffer p) (p_mem p))) ciph p1) as [c' Hc'].
  destruct (replayItems _ ciph p1) as [r p2]. cbn [snd] in Hc'. subst p2. done.
Qed.

Lemma preserves_replaySync last : preserves (replaySyncForSubscriber last).
Proof.
  intros p [Hs Hk Hr Hc Hq Hcl].
  destruct (replaySync_spec last p Hr) as (m & Hrm & Ham & m0 & ->).
  assert (forall c, pub_inv (set_ring (p_replayBuffer p) m (set_conn c p))) as H.
  { intros c. split; auto. simpl. intros E. rewrite Ham. auto. }
  destruct (p_cipher p) as [ciph|]; [destruct (p_conn p) as [c|] eqn:E|];
    try (specialize (H (p_conn p)); by rewrite set_conn_same in H).
  destruct (replayItems_conn (RingSpec.after last (abs (p_replayBuffer p) (p_mem p))) ciph
    (set_ring (p_replayBuffer p) m0 p)) as [c' Hc'].
  destruct (replayItems _ _ _) as [r p2]. cbn [snd] in *. subst p2. apply (H c').
Qed.

Lemma preserves_handleSyncFrame env rnd rndNonce : preserves (handleSyncFrame env rnd rndNonce).
Proof.
  unfold handleSyncFrame. case_bool_decide; [|case_bool_decide; [|case_bool_decide]].
  - respects_bind; [eauto with zf|]. intros [pass|]; [|eauto with zf].
    destruct (NewPAKEPublisher pass rnd); [|eauto with zf]. destruct (Update _ _ _) as [? peer].
    respects_bind; [eauto with zf|]. intros mk. destruct (step2Payload _ _ _); [|eauto with zf].
    respects_bind; [eauto with zf|]. intros sid. unfold sendFrame. eauto with zf.
  - destruct (_ <=? _)%nat; [apply preserves_replaySync|eauto with zf].
  - apply respects_modify. intros p Hp. destruct (p_chunkAckChan p); [by apply pub_inv_ack|done].
  - eauto with zf.
Qed.

Lemma preserves_ClosePublisher : preserves ClosePublisher.
Proof.
  intros p Hp. unfold ClosePublisher. destruct (p_closed p) eqn:E; [done|].
  destruct Hp as [Hs Hk Hr Hc Hq Hcl].
  pose proof (Wipe_spec _ _ _ Hr) as HW. destruct (Wipe _ _) as [rb m] eqn:EW.
  destruct HW as (Hr' & Ha' & _). cbn [snd]. split; simpl; [done|done|done| |done|done].
  revert EW. unfold Wipe. destruct (wipe_loop _ _). by intros [= <- _].
Qed.

Lemma preserves_Connect dq dt rnd : preserves (Connect dq dt rnd).
Proof.
  unfold Connect. respects_bind; [eauto with zf|]. intros mode.
  destruct (dialMode mode dq dt) as [c|]; [|eauto with zf].
  respects_bind; [eauto with zf|]. intros _.
  apply (respects_gets_seq inv_rel).
  { intros p Hp. destruct (p_pakePeer p); [done|]. unfold mbind, M_bind, gets, onError, lift. cbn [fst snd].
    destruct (p_passphrase p) as [pass|] eqn:Epass.
    - pose proof (key_inv_pass _ _ (pi_key p Hp) Epass) as Ho. cbn [default].
      destruct (NewPAKEPublisher (id pass) rnd); [by apply pub_inv_pake|by apply pub_inv_conn].
    - cbn [default NewPAKEPublisher newPAKEPeer]. by apply pub_inv_conn. }
  respects_bind; [eauto with zf|]. intros peer'.
  respects_bind; [eauto with zf|]. intros sid. respects_onError; [eauto with zf|].
  apply respects_modify. intros ? ?. by apply pub_inv_conn.
Qed.

Lemma preserves_pakeUpdate payload rnd : preserves (pakeUpdate payload rnd).
Proof.
  intros p Hp. unfold pakeUpdate. destruct (p_pakePeer p) eqn:Ep; [|done].
  destruct (Update _ _ _) as [r peer]. apply pub_inv_pake; [done|]. by eapply key_inv_peer; [apply (pi_key p Hp)|].
Qed.

Lemma preserves_CompleteHandshake rnd rndNonce : preserves (CompleteHandshake rnd rndNonce).
Proof.
  unfold CompleteHandshake. respects_bind; [eauto with zf|]. intros env.
  repeat case_match; [eauto with zf..|].
  respects_bind; [apply preserves_pakeUpdate|]. intros _.
  do 5 (respects_bind; [eauto with zf|intros ?]). apply preserves_conn, awaitConfirm_conn.
Qed.

Lemma preserves_publishEvent ev : preserves (publishEvent ev).
Proof.
  destruct ev as [| | |payload now rnd]; simpl; [eauto with zf| |eauto with zf|].
  - do 2 (respects_bind; [unfold sendFrame; eauto with zf|intros ?]). eauto with zf.
  - destruct payload; [eauto with zf|]. respects_bind; [eauto with zf|]. intros untagged.
    respects_bind; [|eauto with zf]. apply respects_attempt, preserves_PublishPayload.
Qed.

(** ** The engine as a state machine: any method, any argument, any order *)

Inductive pub_step : PublisherEngine -> PublisherEngine -> Prop :=
  | step_fingerprint fp p : pub_step p (SetSPKIFingerprint fp p)
  | step_mode mode p : pub_step p (SetTransportMode mode p)
  | step_untagged b p : pub_step p (SetUntaggedInput b p)
  | step_thresholds b t p : pub_step p (SetRekeyThresholds b t p)
  | step_connect dq dt rnd p : pub_step p (snd (Connect dq dt rnd p))
  | step_handshake rnd rndNonce p : pub_step p (snd (CompleteHandshake rnd rndNonce p))
  | step_event ev p : pub_step p (snd (publishEvent ev p))
  | step_publish now rnd payload p : pub_step p (snd (PublishPayload now rnd payload p))
  | step_rekey now rnd p : pub_step p (snd (TriggerRekey now rnd p))
  | step_frame env rnd rndNonce p : pub_step p (snd (handleSyncFrame env rnd rndNonce p))
  | step_close p : pub_step p (snd (ClosePublisher p)).

Lemma pub_step_inv p p' : pub_step p p' -> pub_inv p -> pub_inv p'.
Proof.
  intros Hs. destruct Hs; intros Hp; first
    [ by destruct Hp | by apply preserves_Connect | by apply preserves_CompleteHandshake
    | by apply preserves_publishEvent | by apply preserves_PublishPayload | by apply preserves_TriggerRekey
    | by apply preserves_handleSyncFrame | by apply preserves_ClosePublisher ].
Qed.

Lemma length_DeriveSessionID pass : length (DeriveSessionID pass) = 16%nat.
Proof. unfold DeriveSessionID. rewrite length_take, length_hmac_sha256. done. Qed.

Lemma NewPublisherEngine_inv pass rnd rndKey now m p :
  owned m [] -> NewPublisherEngine pass rnd rndKey now m = Ok p -> pub_inv p /\ p_closed p = false.
Proof.
  intros Ho. unfold NewPublisherEngine. destruct (NewPAKEPublisher pass rnd) as [peer|]; [|discriminate].
  destruct rndKey as [k|]; [|discriminate]. cbn [result_bind]. unfold NewCipher.
  destruct (Nat.eqb_spec (length k) KeySize) as [Hk|]; [|discriminate]. intros E.
  destruct (NewRingBuffer_inv 100 m [] Ho) as [Hr Ha].
  injection E as <-. split; [|done]. split; simpl; [apply length_DeriveSessionID|by exists k|done..].
Qed.

(** ** Runs on a healthy connection *)

(** An open publisher with key [k] and a connection all of whose writes succeed. *)
Definition ready (p : PublisherEngine) (k : bytes) (c : Conn) : Prop :=
  pub_inv p /\ p_cipher p = Some (mkCipher (Some k) (Some k)) /\ p_conn p = Some c /\ healthy c.

Lemma ready_key p k c : ready p k c -> length k = KeySize /\ p_closed p = false.
Proof.
  intros (Hp & Hc & _). destruct (key_inv_open _ _ (pi_key p Hp) Hc) as (Ho & k' & Hl & E & _).
  injection E as ->. done.
Qed.

Lemma sendFrame_healthy env p c :
  p_conn p = Some c -> healthy c -> Envelope_ok MaxPayloadSize env ->
  sendFrame env p = (Ok tt, set_conn (Some (emit c [env])) p).
Proof.
  intros Hc Hh He. unfold sendFrame, encodeTo. rewrite Hc.
  rewrite conn_encode_healthy by (done || apply length_stalePool).
  by rewrite emit_one.
Qed.

Lemma sendFrame_run env p k c :
  ready p k c -> Envelope_ok MaxPayloadSize env ->
  sendFrame env p = (Ok tt, set_conn (Some (emit c [env])) p).
Proof. intros (_ & _ & Hc & Hh). by apply sendFrame_healthy. Qed.

Lemma u64_small n : 0 <= n -> n + 1 < 2 ^ 64 -> u64_add n 1 = n + 1.
Proof. intros. apply Z.mod_small. lia. Qed.

Lemma TriggerRekey_run now salt p k c :
  ready p k c -> length salt = NonceSize -> p_seqCounter p + 1 < 2 ^ 64 ->
  exists k' p', TriggerRekey now (Some salt) p = (Ok tt, p') /\
    RatchetKey k salt = Ok k' /\
    ready p' k' (emit c [sealed k (p_sessionID p) MsgTypeRekey (p_seqCounter p + 1) salt]) /\
    p_sessionID p' = p_sessionID p /\ p_seqCounter p' = p_seqCounter p + 1 /\
    p_replayBuffer p' = p_replayBuffer p /\ p_mem p' = p_mem p /\ p_untaggedInput p' = p_untaggedInput p.
Proof.
  intros Hr Hsalt Hn. destruct (ready_key _ _ _ Hr) as [Hk _].
  pose proof (preserves_TriggerRekey now (Some salt) p (proj1 Hr)) as Hinv.
  destruct (RatchetKey_total k salt Hk) as (k' & HR & Hk').
  pose proof Hr as (Hp & Hc & Hconn & Hh).
  assert (zlen salt <= MaxPlaintext) as Hfit by (rewrite Hsalt; by vm_compute).
  set (p1 := set_seq (p_seqCounter p + 1) p).
  assert (ready p1 k c) as Hr1.
  { split; [|done]. pose proof (pub_inv_seq p Hp) as H1. rewrite u64_small in H1; [done| |done].
    apply (pi_seq p Hp). }
  set (env := sealed k (p_sessionID p) MsgTypeRekey (p_seqCounter p + 1) salt).
  exists k', (set_rekeyed k' (mkCipher (Some k') (Some k')) now (set_conn (Some (emit c [env])) p1)).
  assert (TriggerRekey now (Some salt) p = (Ok tt,
    set_rekeyed k' (mkCipher (Some k') (Some k')) now (set_conn (Some (emit c [env])) p1))) as E.
  { unfold TriggerRekey, mbind, M_bind, gets, modify, lift. cbn [fst snd].
    rewrite Hc. cbn [GetKey c_key GenerateNonce].
    rewrite u64_small by (done || apply (pi_seq p Hp)). fold p1.
    change (p_sessionID p1) with (p_sessionID p). change (p_seqCounter p1) with (p_seqCounter p + 1).
    rewrite sealFrame_open by (done || apply (pi_sid p Hp)). fold env.
    rewrite (sendFrame_run env p1 k c Hr1) by (apply sealed_ok; [apply (pi_sid p Hp)|done]).
    rewrite HR. by rewrite (UpdateKey_ok _ k'). }
  rewrite E in Hinv. split; [done|]. split; [done|]. split; [|done].
  split; [exact Hinv|]. by repeat split.
Qed.

(** The rekey decision of [PublishPayload]: nothing, or one rekey frame. *)
Lemma maybeRekey_run b now salt p k c :
  ready p k c -> length salt = NonceSize -> p_seqCounter p + 1 < 2 ^ 64 ->
  exists k' p' fs, (when b (ignore (TriggerRekey now (Some salt))) : PM unit) p = (Ok tt, p') /\
    session_frames (p_sessionID p) k (p_seqCounter p) [] fs k' (p_seqCounter p') /\
    ready p' k' (emit c fs) /\ p_seqCounter p <= p_seqCounter p' <= p_seqCounter p + 1 /\
    p_sessionID p' = p_sessionID p /\ p_untaggedInput p' = p_untaggedInput p /\
    p_replayBuffer p' = p_replayBuffer p /\ p_mem p' = p_mem p.
Proof.
  intros Hr Hsalt Hn. pose proof Hr as (_ & _ & _ & Hh). destruct b; simpl when.
  - destruct (TriggerRekey_run now salt p k c Hr Hsalt Hn) as
      (k' & p1 & HT & HR & Hr1 & Hsid & Hs & Hrb & Hm & Hu).
    eexists k', p1, _. unfold ignore. rewrite HT. split; [done|]. split; [|split; [exact Hr1|]].
    + eapply sf_rekey; [done|done|done|]. rewrite Hs. constructor.
    + repeat split; (done || lia).
  - exists k, p, []. split; [done|]. split; [constructor|]. rewrite emit_nil by done.
    split; [done|]. split; [lia|done].
Qed.

(** One payload: an optional rekey frame, then the data frame. *)
Lemma PublishPayload_run now salt payload p k c :
  ready p k c -> length salt = NonceSize -> p_seqCounter p + 2 < 2 ^ 64 ->
  zlen payload + 4 <= MaxPlaintext ->
  exists k' p' fs n', PublishPayload now (Some salt) payload p = (Ok tt, p') /\
    session_frames (p_sessionID p) k (p_seqCounter p) [(n', payload)] fs k' n' /\
    p_seqCounter p < n' <= p_seqCounter p + 2 /\
    ready p' k' (emit c fs) /\ p_seqCounter p' = n' /\ p_sessionID p' = p_sessionID p /\
    p_untaggedInput p' = p_untaggedInput p /\
    abs (p_replayBuffer p') (p_mem p') =
      RingSpec.push 100 n' payload (abs (p_replayBuffer p) (p_mem p)).
Proof.
  intros Hr Hsalt Hn Hl. pose proof (preserves_PublishPayload now (Some salt) payload p (proj1 Hr)) as Hinv.
  destruct (PublishPayload now (Some salt) payload p) as [res p'] eqn:ER. cbn [snd] in Hinv.
  revert ER. unfold PublishPayload, mbind at 1, M_bind at 1, modify at 1. cbn [fst snd].
  set (p0 := set_bytes _ p). unfold mbind at 1, M_bind at 1, gets at 1. cbn [fst snd].
  assert (ready p0 k c) as Hr0 by (split; [apply pub_inv_bytes; apply Hr|apply Hr]).
  destruct (maybeRekey_run (shouldRekey now p0) now salt p0 k c Hr0 Hsalt ltac:(simpl; lia))
    as (k' & p1 & fs & Ew & Hfs & Hr1 & Hn1 & Hsid & Hu & Hrb & Hm).
  unfold mbind at 1, M_bind at 1. rewrite Ew. cbn [p0 set_bytes p_seqCounter p_sessionID] in Hfs, Hn1, Hsid.
  pose proof Hr1 as (Hp1 & Hc1 & _). unfold mbind, M_bind, gets, modify, lift. cbn [fst snd].
  rewrite Hc1, u64_small by (apply (pi_seq p1 Hp1) || lia).
  set (p2 := set_seq (p_seqCounter p1 + 1) p1).
  change (p_seqCounter p2) with (p_seqCounter p1 + 1).
  pose proof (Push_spec (p_seqCounter p1 + 1) payload _ _ _ (pi_ring p1 Hp1)) as HP.
  change (p_replayBuffer p2) with (p_replayBuffer p1). change (p_mem p2) with (p_mem p1).
  destruct (Push _ payload _ _) as [rb m] eqn:EP. destruct HP as (HR & Hcap & _ & Habs).
  set (p3 := set_ring rb m p2).
  assert (ready p3 k' (emit c fs)) as Hr3.
  { destruct (ready_key _ _ _ Hr1) as [_ Hop]. split; [|by destruct Hr1 as (_ & ? & ?)].
    pose proof (preserves_push (p_seqCounter p1 + 1) payload p2) as H. cbn [p_replayBuffer p_mem p2 set_seq] in H.
    rewrite EP in H. apply H; [|done]. pose proof (pub_inv_seq p1 Hp1) as H1.
    rewrite u64_small in H1 by (apply (pi_seq p1 Hp1) || lia). done. }
  change (p_sessionID p3) with (p_sessionID p1).
  pose proof (pi_sid p1 Hp1) as Hs16. pose proof (padded_fits payload Hl) as Hfit.
  rewrite sealFrame_open by done. set (env := sealed _ _ _ _ _).
  rewrite (sendFrame_run env p3 k' (emit c fs) Hr3) by (by apply sealed_ok). intros ER.
  assert (res = Ok tt) as -> by congruence.
  assert (p' = set_conn (Some (emit (emit c fs) [env])) p3) as -> by congruence. clear ER.
  eexists k', _, (fs ++ [env]), (p_seqCounter p1 + 1). split; [done|].
  split; [|split; [lia|split; [|split; [reflexivity|split; [exact Hsid|split; [exact Hu|]]]]]].
  - apply (session_frames_app _ _ _ [] _ _ _ [(_, payload)] _ _ _ Hfs).
    unfold env. rewrite Hsid. constructor; [done|lia|constructor].
  - split; [exact Hinv|]. rewrite <- emit_emit. by destruct Hr3 as (_ & ? & _).
  - cbn [set_conn p_replayBuffer p_mem p3 set_ring]. by rewrite Habs, (pi_cap p1 Hp1), Hrb, Hm.
Qed.

(** ** A stretch of [PublishStream] *)

(** Events that keep the stream running: heartbeats and inputs that fit a frame
    once tagged. *)
Definition event_ok (ev : stream_event) : Prop :=
  match ev with
  | HeartbeatTick => True
  | Input payload _ rnd =>
      zlen payload + 5 <= MaxPlaintext /\ exists salt, rnd = Some salt /\ length salt = NonceSize
  | _ => False
  end.

(** The payloads a run of events publishes, tagged. *)
Definition published (untagged : bool) (evs : list stream_event) : list bytes :=
  omap (fun ev => match ev with
                  | Input (b :: l) _ _ => Some (tagPayload untagged (b :: l))
                  | _ => None
                  end) evs.

Lemma length_tagPayload untagged payload : zlen (tagPayload untagged payload) <= zlen payload + 1.
Proof. unfold tagPayload. destruct payload; [simpl; lia|]. destruct (_ || _); cbn [length]; lia. Qed.

Lemma heartbeat_ok sid : length sid = 16%nat -> Envelope_ok MaxPayloadSize (heartbeat sid).
Proof. by split. Qed.

Definition push_items (items : list (Z * bytes)) (q : RingSpec.t) : RingSpec.t :=
  foldl (fun q it => RingSpec.push 100 it.1 it.2 q) q items.

Lemma publishEvent_run ev p k c :
  ready p k c -> event_ok ev -> p_seqCounter p + 2 < 2 ^ 64 ->
  exists k' p' fs items, publishEvent ev p = (Ok None, p') /\
    session_frames (p_sessionID p) k (p_seqCounter p) items fs k' (p_seqCounter p') /\
    items.*2 = published (p_untaggedInput p) [ev] /\
    p_seqCounter p <= p_seqCounter p' <= p_seqCounter p + 2 /\
    ready p' k' (emit c fs) /\ p_sessionID p' = p_sessionID p /\ p_untaggedInput p' = p_untaggedInput p /\
    abs (p_replayBuffer p') (p_mem p') = push_items items (abs (p_replayBuffer p) (p_mem p)).
Proof.
  intros Hr Hev Hn. pose proof Hr as (Hp & Hc & Hconn & Hh).
  destruct ev as [| | |payload now rnd]; try done; simpl publishEvent.
  - eexists k, _, [heartbeat (p_sessionID p)], []. unfold mbind, M_bind, gets, ignore. cbn [fst snd].
    rewrite (sendFrame_run _ p k c Hr) by (apply heartbeat_ok, Hp).
    split; [done|]. split; [constructor; constructor|]. split; [done|]. split; [simpl; lia|].
    split; [|done]. split; [by apply pub_inv_conn|done].
  - destruct payload as [|b payload].
    { exists k, p, [], []. split; [done|]. split; [constructor|]. split; [done|]. split; [lia|].
      rewrite emit_nil by done. done. }
    destruct Hev as (Hl & salt & -> & Hsalt). unfold mbind, M_bind, gets, attempt. cbn [fst snd].
    pose proof (length_tagPayload (p_untaggedInput p) (b :: payload)) as Ht.
    destruct (PublishPayload_run now salt (tagPayload (p_untaggedInput p) (b :: payload)) p k c Hr Hsalt Hn
      ltac:(lia)) as (k' & p' & fs & n' & -> & Hfs & Hn' & Hr' & Hs' & Hsid & Hu & Habs).
    exists k', p', fs, [(n', tagPayload (p_untaggedInput p) (b :: payload))].
    split; [done|]. rewrite Hs'. split; [done|]. split; [done|]. split; [lia|]. done.
Qed.

Lemma publishEvents_run evs p k c :
  ready p k c -> Forall event_ok evs -> p_seqCounter p + 2 * Z.of_nat (length evs) < 2 ^ 64 ->
  exists k' p' fs items, publishEvents evs p = (Ok None, p') /\
    session_frames (p_sessionID p) k (p_seqCounter p) items fs k' (p_seqCounter p') /\
    items.*2 = published (p_untaggedInput p) evs /\
    ready p' k' (emit c fs) /\ p_sessionID p' = p_sessionID p /\
    abs (p_replayBuffer p') (p_mem p') = push_items items (abs (p_replayBuffer p) (p_mem p)).
Proof.
  intros Hr Hevs. revert p k c Hr. induction Hevs as [|ev evs Hev _ IH]; intros p k c Hr Hn.
  { exists k, p, [], []. rewrite emit_nil by apply Hr. split; [done|]. split; [constructor|]. done. }
  destruct (publishEvent_run ev p k c Hr Hev ltac:(cbn [length] in Hn; lia))
    as (k1 & p1 & f1 & i1 & E1 & Hf1 & Hi1 & Hn1 & Hr1 & Hs1 & Hu1 & Ha1).
  destruct (IH p1 k1 (emit c f1) Hr1 ltac:(cbn [length] in Hn; lia))
    as (k2 & p2 & f2 & i2 & E2 & Hf2 & Hi2 & Hr2 & Hs2 & Ha2).
  exists k2, p2, (f1 ++ f2), (i1 ++ i2). cbn [publishEvents]. unfold mbind, M_bind. rewrite E1, E2.
  split; [done|]. rewrite Hs1 in Hf2. split; [by eapply session_frames_app|].
  split. { rewrite fmap_app, Hi1, Hi2, Hu1. unfold published. by rewrite <- omap_app. }
  rewrite <- emit_emit. split; [done|]. split; [congruence|].
  rewrite Ha2, Ha1. unfold push_items. by rewrite foldl_app.
Qed.

(** An event takes at most two numbers. *)
Lemma publishEvents_count evs p k c :
  ready p k c -> Forall event_ok evs -> p_seqCounter p + 2 * Z.of_nat (length evs) < 2 ^ 64 ->
  p_seqCounter (snd (publishEvents evs p)) <= p_seqCounter p + 2 * Z.of_nat (length evs).
Proof.
  intros Hr Hevs. revert p k c Hr. induction Hevs as [|ev evs Hev _ IH]; intros p k c Hr Hn; [cbn; lia|].
  destruct (publishEvent_run ev p k c Hr Hev ltac:(cbn [length] in Hn; lia)) as (k1 & p1 & f1 & i1 & E1 & _ & _ & Hn1 & Hr1 & _).
  cbn [publishEvents length] in *. unfold mbind, M_bind. rewrite E1. specialize (IH p1 k1 _ Hr1 ltac:(lia)). lia.
Qed.
End Publisher.

(** Samples: a connected publisher with the all-zero key. *)
Definition sample_conn : Conn := mkConn [] [] [] false.
Definition sample_pub : PublisherEngine :=
  mkPublisher (Some [x41]) (Some (zeros 32)) (zeros 16) None (Some (mkCipher (Some (zeros 32)) (Some (zeros 32))))
    (Some sample_conn) 0 (NewRingBuffer 100) None [] ModeTCP (CalculateSAS (zeros 32)) 0 0
    DefaultRekeyByteThreshold DefaultRekeyTimeThreshold true false emptyMem.

Lemma sample_pub_inv : pub_inv sample_pub /\ abs (p_replayBuffer sample_pub) (p_mem sample_pub) = [].
Proof.
  destruct (NewRingBuffer_inv 100 emptyMem [] owned_empty) as [Hr Ha].
  split; [|done]. split; [done| |exact Hr|done|done|done]. exists (zeros 32). by repeat split.
Qed.

(** * Properties *)

(** C11: Key synchronisation.  Whatever methods run in whatever order, with any
    arguments, peers, failures and randomness, a publisher's stored master key
    (what reconnecting subscribers are handed), its live cipher key and the SAS
    badge stay in step until it is closed, and once closed it holds no key, no
    passphrase, no PAKE state and no replay data. *)
Theorem publisher_key_sync `{AEAD} `{KeyExchange} pool pass rnd rndKey now m p0 p :
  owned m [] -> NewPublisherEngine pass rnd rndKey now m = Ok p0 ->
  rtc (pub_step pool) p0 p ->
  pub_inv p /\
  (p_closed p = false -> exists k, length k = KeySize /\
     p_cipher p = Some (mkCipher (Some k) (Some k)) /\ p_masterKey p = Some k /\ p_sas p = CalculateSAS k) /\
  (p_closed p = true -> p_cipher p = None /\ p_masterKey p = None /\ p_passphrase p = None /\
     p_pakePeer p = None /\ abs (p_replayBuffer p) (p_mem p) = []).
Proof.
  intros Ho HN Hs. apply NewPublisherEngine_inv in HN as [Hp _]; [|done].
  assert (pub_inv p) as Hp'.
  { clear -Hs Hp. induction Hs as [|? ? ? Hstep _ IH]; [done|]. eauto using pub_step_inv. }
  split; [done|]. destruct Hp' as [_ Hk _ _ _ Hcl]. unfold key_inv in Hk.
  destruct (p_closed p); naive_solver.
Qed.

Lemma publisher_key_sync_witness :
  exists p0, NewPublisherEngine [x41] (mkPakeRand (Some [x05]) None [] None) (Some (zeros 32)) 0 emptyMem = Ok p0 /\
    let p := snd (ClosePublisher [] p0) in
    p_cipher p = None /\ p_masterKey p = None /\ p_passphrase p = None /\ p_pakePeer p = None /\
    abs (p_replayBuffer p) (p_mem p) = [].
Proof.
  eexists. split; [reflexivity|]. intros p.
  refine (proj2 (proj2 (publisher_key_sync [] [x41] (mkPakeRand (Some [x05]) None [] None) (Some (zeros 32)) 0
    emptyMem _ p owned_empty eq_refl (rtc_once _ _ (step_close [] _)))) _).
  reflexivity.
Defined.
