(* ===== verification/PubThreads.v ===== *)
(** * The publisher's goroutines: [pkg/feed/publisher.go] under interleaving

    A publisher process runs several goroutines over one [PublisherEngine]: the
    loop of [PublishStream], the listener [handleSyncRequests], at a terminal a
    goroutine that calls [SendFile], and on an interrupt the goroutine that runs
    [Close].  Publisher.v runs each method to completion; here a method is a
    sequence of steps, cut where the code takes or releases a mutex ([mu],
    [writeMu], [rekeyMu]), adds to the atomic counter, or enters the cipher or
    the ring buffer (each has a lock of its own, so a call of theirs is one
    step).  A section of [mu] that does nothing but read or assign fields is one
    step, enabled when [mu] is free; only [Close] holds [mu] across steps.

    [pub_next] runs one goroutine for one step; a run is any sequence of steps. *)

From S2P Require Import Prelude Protocol Memory RingBuffer Hash Aead Cipher Pake Engine Publisher.

(** ** Goroutines *)

(** The calls a goroutine makes on the engine. *)
Inductive op :=
  | OpPublish (payload : bytes)
  | OpRekey
  | OpHeartbeat
  | OpJoin (payload : bytes)      (** a PAKE-init frame of a subscriber *)
  | OpSync (lastSeqNum : Z)       (** a sync request *)
  | OpAck
  | OpClose.

(** Where [sendFrame] returns to. *)
Inductive cont :=
  | KReturn                                          (** its result is the method's *)
  | KIgnore                                          (** [_ = p.sendFrame(...)], the method ends *)
  | KRekey (ret : option bytes) (currKey salt : bytes)
  | KReplay (all rest : list (Z * Slice)).

(** [ret] is the payload of the [PublishPayload] that called [TriggerRekey];
    [None] when it was called by itself. *)
Inductive pc :=
  | Idle
  | PubCount (payload : bytes)                              (* publisher.go:789-794 *)
  | RekeyLock (ret : option bytes)                          (* 704 *)
  | RekeyKey (ret : option bytes)                           (* 707-719 *)
  | RekeySeq (ret : option bytes) (currKey : bytes)         (* 722-729 *)
  | RekeySeal (ret : option bytes) (currKey salt : bytes) (seqNum : Z)  (* 730-751 *)
  | RekeyUpdate (ret : option bytes) (currKey salt : bytes) (* 757-782 *)
  | SendLock (env : Envelope) (k : cont)                    (* 384 *)
  | SendConn (env : Envelope) (k : cont)                    (* 387-390 *)
  | SendWrite (env : Envelope) (k : cont)                   (* 392, 385 *)
  | PubCipher (payload : bytes)                             (* 800-803 *)
  | PubSeq (payload : bytes)                                (* 805 *)
  | PubPush (payload : bytes) (seqNum : Z)                  (* 806 *)
  | PubSeal (payload : bytes) (seqNum : Z)                  (* 808-836 *)
  | SyncGet (lastSeqNum : Z)                                (* 494 *)
  | SyncCipher (items : list (Z * Slice))                   (* 495 *)
  | SyncConn (ciph : bool) (items : list (Z * Slice))       (* 496-503 *)
  | SyncSeal (all rest : list (Z * Slice))                  (* 514-542, 505-509 *)
  | JoinPass (payload : bytes)                              (* 431-436 *)
  | JoinKey (peer : PAKEPeer)                               (* 437-462 *)
  | AckSend                                                 (* 477-486 *)
  | CloseLock                                               (* 549-555 *)
  | CloseWrite                                              (* 563 *)
  | CloseEncode                                             (* 564-565 *)
  | CloseConn                                               (* 566-568 *)
  | CloseCipher                                             (* 571-589 *)
  | CloseWipe.                                              (* 591-593, 550 *)

(** A goroutine: where it is, the calls to come, and the calls made instead once
    one of them returns an error ([defer p.Close()] in [PublishStream]). *)
Record thread := mkThread { t_pc : pc; t_todo : list op; t_onerr : list op }.

Record Engine := mkEngine {
  e_pub : PublisherEngine;
  e_mu : option nat;          (** the holder *)
  e_writeMu : option nat;
  e_rekeyMu : option nat;
  e_threads : gmap nat thread;
  e_panic : bool;             (** nil dereference: the process is gone *)
  e_seals : list (bytes * Envelope)   (** history: what was sealed, and the frame *)
}.

Definition set_pub (p : PublisherEngine) (e : Engine) : Engine :=
  mkEngine p (e_mu e) (e_writeMu e) (e_rekeyMu e) (e_threads e) (e_panic e) (e_seals e).
Definition set_mu (h : option nat) (e : Engine) : Engine :=
  mkEngine (e_pub e) h (e_writeMu e) (e_rekeyMu e) (e_threads e) (e_panic e) (e_seals e).
Definition set_writeMu (h : option nat) (e : Engine) : Engine :=
  mkEngine (e_pub e) (e_mu e) h (e_rekeyMu e) (e_threads e) (e_panic e) (e_seals e).
Definition set_rekeyMu (h : option nat) (e : Engine) : Engine :=
  mkEngine (e_pub e) (e_mu e) (e_writeMu e) h (e_threads e) (e_panic e) (e_seals e).
Definition set_thread (t : nat) (th : thread) (e : Engine) : Engine :=
  mkEngine (e_pub e) (e_mu e) (e_writeMu e) (e_rekeyMu e) (<[t := th]> (e_threads e)) (e_panic e) (e_seals e).
Definition panic (e : Engine) : Engine :=
  mkEngine (e_pub e) (e_mu e) (e_writeMu e) (e_rekeyMu e) (e_threads e) true (e_seals e).
Definition add_seal (pt : bytes) (env : Envelope) (e : Engine) : Engine :=
  mkEngine (e_pub e) (e_mu e) (e_writeMu e) (e_rekeyMu e) (e_threads e) (e_panic e) ((pt, env) :: e_seals e).

(** What a step may need from outside: the clock and random bytes. *)
Record input := mkInput { i_now : Z; i_salt : option bytes; i_rnd : PakeRand; i_nonce : option bytes }.

(** The [Cipher] object behind a pointer obtained earlier: the one of the engine,
    closed once [Close] has dropped it. *)
Definition cipherObj (p : PublisherEngine) : Cipher := default (mkCipher None None) (p_cipher p).

Definition start_pc (o : op) (sid : bytes) : pc :=
  match o with
  | OpPublish payload => PubCount payload
  | OpRekey => RekeyLock None
  | OpHeartbeat => SendLock (heartbeat sid) KIgnore
  | OpJoin payload => JoinPass payload
  | OpSync lastSeqNum => SyncGet lastSeqNum
  | OpAck => AckSend
  | OpClose => CloseLock
  end.

Section Threads.
Context {aeadI : AEAD} {kexI : KeyExchange}.
Variable pool : bytes.

(** ** Steps *)

Section Step.
Variable (i : input) (t : nat) (th : thread).

Definition goto (c : pc) (e : Engine) : Engine := set_thread t (mkThread c (t_todo th) (t_onerr th)) e.
(** The method returns. *)
Definition return_ok (e : Engine) : Engine := goto Idle e.
Definition return_err (e : Engine) : Engine := set_thread t (mkThread Idle (t_onerr th) []) e.

(** A section of [mu]. *)
Definition locked (e : Engine) (body : Engine) : option Engine :=
  match e_mu e with None => Some body | Some _ => None end.

(** The end of [TriggerRekey]; [PublishPayload] ignores its result. *)
Definition rekeyDone (ret : option bytes) (ok : bool) (e : Engine) : Engine :=
  let e := set_rekeyMu None e in
  match ret with
  | Some payload => goto (PubCipher payload) e
  | None => if ok then return_ok e else return_err e
  end.

(** The end of [sendFrame]. *)
Definition sent (k : cont) (r : result feed_error unit) (e : Engine) : Engine :=
  let e := set_writeMu None e in
  match k, r with
  | KReturn, Ok _ | KIgnore, _ => return_ok e
  | KReturn, Err _ => return_err e
  | KRekey ret currKey salt, Ok _ => goto (RekeyUpdate ret currKey salt) e
  | KRekey ret _ _, Err _ => rekeyDone ret false e
  | KReplay all rest, _ => goto (SyncSeal all rest) e
  end.

(** [ciph.Encrypt] and the frame around it. *)
Definition sealNow (ty : byte) (seqNum : Z) (pt : bytes) (e : Engine) (k : Envelope -> Engine -> Engine)
    (err : Engine -> Engine) : Engine :=
  match sealFrame (cipherObj (e_pub e)) (p_sessionID (e_pub e)) ty seqNum pt with
  | Ok env => k env (add_seal pt env e)
  | Err _ => err e
  end.

Definition rekeyStep (c : pc) (e : Engine) : option Engine :=
  let p := e_pub e in
  match c with
  | RekeyLock ret =>
      match e_rekeyMu e with None => Some (goto (RekeyKey ret) (set_rekeyMu (Some t) e)) | Some _ => None end
  | RekeyKey ret =>
      locked e (match p_cipher p ≫= GetKey with
                | None => rekeyDone ret true e
                | Some currKey => goto (RekeySeq ret currKey) e
                end)
  | RekeySeq ret currKey =>
      Some (match GenerateNonce (i_salt i) with
            | Err _ => rekeyDone ret false e
            | Ok salt =>
                let seqNum := u64_add (p_seqCounter p) 1 in
                goto (RekeySeal ret currKey salt seqNum) (set_pub (set_seq seqNum p) e)
            end)
  | RekeySeal ret currKey salt seqNum =>
      Some (sealNow MsgTypeRekey seqNum salt e (fun env => goto (SendLock env (KRekey ret currKey salt)))
              (rekeyDone ret false))
  | RekeyUpdate ret currKey salt =>
      match RatchetKey currKey salt with
      | Err _ => Some (rekeyDone ret false e)
      | Ok nextKey =>
          locked e (match p_cipher p with
                    | None => panic e
                    | Some ciph =>
                        match UpdateKey ciph nextKey with
                        | Err _ => rekeyDone ret false e
                        | Ok ciph' => rekeyDone ret true (set_pub (set_rekeyed nextKey ciph' (i_now i) p) e)
                        end
                    end)
      end
  | _ => None
  end.

Definition sendStep (c : pc) (e : Engine) : option Engine :=
  match c with
  | SendLock env k =>
      match e_writeMu e with None => Some (goto (SendConn env k) (set_writeMu (Some t) e)) | Some _ => None end
  | SendConn env k =>
      locked e (match p_conn (e_pub e) with
                | None => sent k (Err FErrConnNil) e
                | Some _ => goto (SendWrite env k) e
                end)
  | SendWrite env k =>
      let (r, p) := sendFrame pool env (e_pub e) in Some (sent k r (set_pub p e))
  | _ => None
  end.

Definition publishStep (c : pc) (e : Engine) : option Engine :=
  let p := e_pub e in
  match c with
  | PubCount payload =>
      let p := set_bytes (u64_add (p_bytesSinceRekey p) (zlen payload)) p in
      locked e (goto (if shouldRekey (i_now i) p then RekeyLock (Some payload) else PubCipher payload) (set_pub p e))
  | PubCipher payload =>
      locked e (match p_cipher p with None => return_err e | Some _ => goto (PubSeq payload) e end)
  | PubSeq payload =>
      let seqNum := u64_add (p_seqCounter p) 1 in
      Some (goto (PubPush payload seqNum) (set_pub (set_seq seqNum p) e))
  | PubPush payload seqNum =>
      let (rb, m) := Push seqNum payload (p_replayBuffer p) (p_mem p) in
      Some (goto (PubSeal payload seqNum) (set_pub (set_ring rb m p) e))
  | PubSeal payload seqNum =>
      Some (sealNow MsgTypeDataStream seqNum (PadPayload payload DefaultPaddingTargetSize) e
              (fun env => goto (SendLock env KReturn)) return_err)
  | _ => None
  end.

(** The deferred [putBuffer] calls of [replaySyncForSubscriber]. *)
Definition replayDone (all : list (Z * Slice)) (e : Engine) : Engine :=
  let p := e_pub e in
  return_ok (set_pub (set_ring (p_replayBuffer p) (putBuffers (snd <$> all) (p_mem p)) p) e).

Definition syncStep (c : pc) (e : Engine) : option Engine :=
  let p := e_pub e in
  match c with
  | SyncGet lastSeqNum =>
      let (items, m) := GetAfter lastSeqNum (p_replayBuffer p) (p_mem p) in
      Some (goto (SyncCipher items) (set_pub (set_ring (p_replayBuffer p) m p) e))
  | SyncCipher items => locked e (goto (SyncConn (bool_decide (is_Some (p_cipher p))) items) e)
  | SyncConn ciph items =>
      locked e (if ciph && bool_decide (is_Some (p_conn p)) then goto (SyncSeal items items) e
                else replayDone items e)
  | SyncSeal all [] => Some (replayDone all e)
  | SyncSeal all ((seqNum, payload) :: rest) =>
      Some (sealNow MsgTypeDataStream seqNum (PadPayload (contents (p_mem p) payload) DefaultPaddingTargetSize) e
              (fun env => goto (SendLock env (KReplay all rest))) (goto (SyncSeal all rest)))
  | JoinPass payload =>
      locked e (match p_passphrase p with
                | None => return_ok e
                | Some pass =>
                    match NewPAKEPublisher pass (i_rnd i) with
                    | Err _ => return_ok e
                    | Ok peer => goto (JoinKey (snd (Update payload (i_rnd i) peer))) e
                    end
                end)
  | JoinKey peer =>
      locked e (match step2Payload (Some peer) (default [] (p_masterKey p)) (i_nonce i) with
                | Err _ => return_ok e
                | Ok payload =>
                    goto (SendLock (mkEnvelope Version MsgTypePAKEStep2 (p_sessionID p) zeroNonce payload) KIgnore) e
                end)
  | AckSend =>
      locked e (return_ok (set_pub (match p_chunkAckChan p with
                                    | Some n => set_ack (Some (Nat.min (S n) 10)) p
                                    | None => p
                                    end) e))
  | _ => None
  end.

(** The fields [Close] assigns, one group per step. *)
Definition set_closed (p : PublisherEngine) : PublisherEngine :=
  mkPublisher (p_passphrase p) (p_masterKey p) (p_sessionID p) (p_pakePeer p) (p_cipher p) (p_conn p)
    (p_seqCounter p) (p_replayBuffer p) (p_chunkAckChan p) (p_expectedFingerprint p)
    (p_transportMode p) (p_sas p) (p_bytesSinceRekey p) (p_lastRekeyTime p) (p_rekeyByteLimit p)
    (p_rekeyTimeLimit p) (p_untaggedInput p) true (p_mem p).
Definition drop_keys (p : PublisherEngine) : PublisherEngine :=
  mkPublisher None None (p_sessionID p) None None (p_conn p)
    (p_seqCounter p) (p_replayBuffer p) (p_chunkAckChan p) (p_expectedFingerprint p)
    (p_transportMode p) (p_sas p) (p_bytesSinceRekey p) (p_lastRekeyTime p) (p_rekeyByteLimit p)
    (p_rekeyTimeLimit p) (p_untaggedInput p) (p_closed p) (p_mem p).

Definition closeStep (c : pc) (e : Engine) : option Engine :=
  let p := e_pub e in
  match c with
  | CloseLock =>
      locked e (if p_closed p then return_ok e
                else goto (match p_conn p with Some _ => CloseWrite | None => CloseCipher end)
                       (set_mu (Some t) (set_pub (set_closed p) e)))
  | CloseWrite =>
      match e_writeMu e with None => Some (goto CloseEncode (set_writeMu (Some t) e)) | Some _ => None end
  | CloseEncode =>
      let closeEnv := mkEnvelope Version MsgTypeClose (p_sessionID p) zeroNonce [] in
      Some (goto CloseConn (set_writeMu None (set_pub (snd (encodeTo pool closeEnv p)) e)))
  | CloseConn => Some (goto CloseCipher (set_pub (set_conn None p) e))
  | CloseCipher => Some (goto CloseWipe (set_pub (drop_keys p) e))
  | CloseWipe =>
      let (rb, m) := Wipe (p_replayBuffer p) (p_mem p) in
      Some (return_ok (set_mu None (set_pub (set_ring rb m p) e)))
  | _ => None
  end.

(** A goroutine with nothing under way makes its next call. *)
Definition idleStep (e : Engine) : option Engine :=
  match t_todo th with
  | [] => None
  | o :: todo => Some (set_thread t (mkThread (start_pc o (p_sessionID (e_pub e))) todo (t_onerr th)) e)
  end.

Definition step_thread (e : Engine) : option Engine :=
  match t_pc th with
  | Idle => idleStep e
  | PubCount _ | PubCipher _ | PubSeq _ | PubPush _ _ | PubSeal _ _ => publishStep (t_pc th) e
  | RekeyLock _ | RekeyKey _ | RekeySeq _ _ | RekeySeal _ _ _ _ | RekeyUpdate _ _ _ => rekeyStep (t_pc th) e
  | SendLock _ _ | SendConn _ _ | SendWrite _ _ => sendStep (t_pc th) e
  | SyncGet _ | SyncCipher _ | SyncConn _ _ | SyncSeal _ _ | JoinPass _ | JoinKey _ | AckSend => syncStep (t_pc th) e
  | CloseLock | CloseWrite | CloseEncode | CloseConn | CloseCipher | CloseWipe => closeStep (t_pc th) e
  end.
End Step.

(** One step of goroutine [t]; [None] when it has ended or is blocked. *)
Definition pub_next (i : input) (t : nat) (e : Engine) : option Engine :=
  if e_panic e then None
  else match e_threads e !! t with
       | None => None
       | Some th => step_thread i t th e
       end.

(** A schedule is the list of goroutines that run, with what they get from outside. *)
Fixpoint pub_exec (ls : list (nat * input)) (e : Engine) : option Engine :=
  match ls with
  | [] => Some e
  | (t, i) :: ls => pub_next i t e ≫= pub_exec ls
  end.

Lemma pub_exec_app ls1 ls2 e : pub_exec (ls1 ++ ls2) e = pub_exec ls1 e ≫= pub_exec ls2.
Proof.
  revert e. induction ls1 as [|[t i] ls1 IH]; intros e; [done|]. cbn. destruct (pub_next i t e); [apply IH|done].
Qed.
End Threads.

(** The engine when the goroutines start: every goroutine idle, every lock free. *)
Definition start (p : PublisherEngine) (progs : gmap nat (list op * list op)) : Engine :=
  mkEngine p None None None ((fun pr => mkThread Idle pr.1 pr.2) <$> progs) false [].

(** ** Locks *)

Definition holds_mu (c : pc) : bool :=
  match c with CloseWrite | CloseEncode | CloseConn | CloseCipher | CloseWipe => true | _ => false end.
Definition holds_write (c : pc) : bool :=
  match c with SendConn _ _ | SendWrite _ _ | CloseEncode => true | _ => false end.
Definition holds_rekey (c : pc) : bool :=
  match c with
  | RekeyKey _ | RekeySeq _ _ | RekeySeal _ _ _ _ | RekeyUpdate _ _ _
  | SendLock _ (KRekey _ _ _) | SendConn _ (KRekey _ _ _) | SendWrite _ (KRekey _ _ _) => true
  | _ => false
  end.

(** The lock's field names the one goroutine that is where the lock is held. *)
Definition lock_ok (holds : pc -> bool) (lock : option nat) (ths : gmap nat thread) : Prop :=
  forall t, lock = Some t <-> exists th, ths !! t = Some th /\ holds (t_pc th) = true.

(** What one step of [t] may do to a lock. *)
Definition lock_step (holds : pc -> bool) (t : nat) (lock lock' : option nat) (c c' : pc) : Prop :=
  (lock' = lock /\ holds c' = holds c) \/
  (lock = None /\ lock' = Some t /\ holds c' = true) \/
  (holds c = true /\ holds c' = false /\ lock' = None).

Lemma lock_ok_step holds t lock lock' ths th th' :
  lock_ok holds lock ths -> ths !! t = Some th -> lock_step holds t lock lock' (t_pc th) (t_pc th') ->
  lock_ok holds lock' (<[t := th']> ths).
Proof.
  intros H Ht Hs n. destruct (decide (t = n)) as [<-|Hne].
  - rewrite lookup_insert_eq. pose proof (H t) as Ht'. destruct Hs as [[-> E]|[(-> & -> & E)|(E1 & E2 & ->)]].
    + rewrite Ht'. split; intros (x & Hx & Hh); simplify_eq; eexists; (split; [done|]); congruence.
    + split; [eauto|done].
    + split; [done|]. intros (x & Hx & Hh). simplify_eq. congruence.
  - rewrite lookup_insert_ne by done. destruct Hs as [[-> E]|[(-> & -> & E)|(E1 & E2 & ->)]]; [apply H|..].
    + split; [congruence|]. intros Hx%H. done.
    + split; [done|]. intros Hx%H. assert (lock = Some t) as Hl by (apply H; eauto). congruence.
Qed.

Lemma lock_ok_free holds ths t th :
  lock_ok holds None ths -> ths !! t = Some th -> holds (t_pc th) = false.
Proof. intros H Ht. destruct (holds (t_pc th)) eqn:E; [|done]. assert (None = Some t) by (apply H; eauto). done. Qed.

Lemma lock_ok_holder holds t lock ths th :
  lock_ok holds lock ths -> ths !! t = Some th -> holds (t_pc th) = true -> lock = Some t.
Proof. intros H Ht E. apply H. eauto. Qed.

(** ** Buffers held by replays *)

Definition held_of (c : pc) : list Slice :=
  match c with
  | SyncCipher items | SyncConn _ items => snd <$> items
  | SyncSeal all _ | SendLock _ (KReplay all _) | SendConn _ (KReplay all _) | SendWrite _ (KReplay all _) => snd <$> all
  | _ => []
  end.

Definition held (ths : gmap nat thread) : list Slice := map_to_list ths ≫= fun tt => held_of (t_pc tt.2).

Lemma held_insert t th ths : ths !! t = None -> held (<[t := th]> ths) ≡ₚ held_of (t_pc th) ++ held ths.
Proof. intros H. unfold held. by rewrite map_to_list_insert. Qed.

Lemma held_split t th ths : ths !! t = Some th -> held ths ≡ₚ held_of (t_pc th) ++ held (delete t ths).
Proof.
  intros H. rewrite <- (insert_delete_id ths t th H) at 1. apply held_insert. apply lookup_delete_eq.
Qed.

Lemma held_replace t th ths : held (<[t := th]> ths) ≡ₚ held_of (t_pc th) ++ held (delete t ths).
Proof. rewrite <- insert_delete_eq. apply held_insert. apply lookup_delete_eq. Qed.

(** ** Sequence numbers

    [I] records what every number was issued for: the type of the frame and the
    plaintext it seals. *)
Abbreviation issues := (gmap Z (byte * bytes)).

Definition padded (payload : bytes) : bytes := PadPayload payload DefaultPaddingTargetSize.

Definition issued (I : issues) (it : Z * bytes) : Prop := I !! it.1 = Some (MsgTypeDataStream, padded it.2).
Definition replayable (I : issues) (m : Mem) (it : Z * Slice) : Prop := issued I (it.1, contents m it.2).

Definition claim (I : issues) (m : Mem) (c : pc) : Prop :=
  match c with
  | PubPush payload n | PubSeal payload n => issued I (n, payload)
  | RekeySeal _ _ salt n => I !! n = Some (MsgTypeRekey, salt)
  | SyncCipher items | SyncConn _ items => Forall (replayable I m) items
  | SyncSeal all rest | SendLock _ (KReplay all rest) | SendConn _ (KReplay all rest) | SendWrite _ (KReplay all rest) =>
      rest `suffix_of` all /\ Forall (replayable I m) rest
  | _ => True
  end.

Lemma replayable_mono I I' m m' items :
  I ⊆ I' -> same_contents m m' (snd <$> items) -> Forall (replayable I m) items -> Forall (replayable I' m') items.
Proof.
  intros HI Hm. rewrite !Forall_forall. intros H it Hin. unfold replayable, issued in *. cbn.
  rewrite Hm by (by apply list_elem_of_fmap_2). eapply lookup_weaken; [|exact HI]. by apply H.
Qed.

Lemma claim_mono I I' m m' c :
  I ⊆ I' -> same_contents m m' (held_of c) -> claim I m c -> claim I' m' c.
Proof.
  intros HI Hm.
  assert (Hk : forall all rest, same_contents m m' (snd <$> all) ->
    rest `suffix_of` all /\ Forall (replayable I m) rest -> rest `suffix_of` all /\ Forall (replayable I' m') rest).
  { intros all rest Ha [[l ->] Hr]. split; [by exists l|]. eapply replayable_mono; [done| |exact Hr].
    intros s Hs. apply Ha. rewrite fmap_app. apply elem_of_app. by right. }
  destruct c; cbn in *; try done; unfold issued in *; cbn;
    try (intros; by eapply lookup_weaken); try (by apply replayable_mono); try (destruct k; try done); by apply Hk.
Qed.

(** The key a rekey under way has read. *)
Definition curr_of (c : pc) : option bytes :=
  match c with
  | RekeySeq _ k | RekeySeal _ k _ _ | RekeyUpdate _ k _
  | SendLock _ (KRekey _ k _) | SendConn _ (KRekey _ k _) | SendWrite _ (KRekey _ k _) => Some k
  | _ => None
  end.

Lemma curr_holds c k : curr_of c = Some k -> holds_rekey c = true.
Proof. destruct c; try done; by destruct k0. Qed.

(** ** The invariant *)

Definition keys_open (p : PublisherEngine) : Prop :=
  exists k, length k = KeySize /\ p_cipher p = Some (mkCipher (Some k) (Some k)) /\
    p_masterKey p = Some k /\ p_sas p = CalculateSAS k /\ p_passphrase p <> None.
Definition keys_gone (p : PublisherEngine) : Prop :=
  p_cipher p = None /\ p_masterKey p = None /\ p_passphrase p = None /\ p_pakePeer p = None.

(** With [mu] free the keys are those of an open or of a closed engine; while
    [Close] holds it the engine counts as closed and the keys are still there, or
    (in its last step) gone already. *)
Definition keys_ok (e : Engine) : Prop :=
  match e_mu e with
  | None => key_inv (e_pub e)
  | Some t => p_closed (e_pub e) = true /\
      (match t_pc <$> e_threads e !! t with Some CloseWipe => keys_gone | _ => keys_open end) (e_pub e)
  end.

(** A frame sealed for a number that was issued. *)
Definition seal_ok (I : issues) (sid : bytes) (u : bytes * Envelope) : Prop :=
  exists n, 0 <= n < 2 ^ 64 /\ I !! n = Some (env_MsgType u.2, u.1) /\
    env_Nonce u.2 = ConstructNonceRFC5116 (take 4 sid) n.

Record einv (I : issues) (e : Engine) : Prop := {
  v_sid : length (p_sessionID (e_pub e)) = 16%nat;
  v_mu : lock_ok holds_mu (e_mu e) (e_threads e);
  v_write : lock_ok holds_write (e_writeMu e) (e_threads e);
  v_rekey : lock_ok holds_rekey (e_rekeyMu e) (e_threads e);
  v_ring : ring_inv (p_replayBuffer (e_pub e)) (p_mem (e_pub e)) (held (e_threads e));
  v_cap : capacity (p_replayBuffer (e_pub e)) = 100%nat;
  v_keys : keys_ok e;
  v_curr : forall t th k c, e_threads e !! t = Some th -> curr_of (t_pc th) = Some k ->
    p_cipher (e_pub e) = Some c -> c = mkCipher (Some k) (Some k);
  v_seq : 0 <= p_seqCounter (e_pub e) < 2 ^ 64;
  v_dom : forall n x, I !! n = Some x -> 0 <= n <= p_seqCounter (e_pub e);
  v_abs : Forall (issued I) (abs (p_replayBuffer (e_pub e)) (p_mem (e_pub e)));
  v_claims : forall t th, e_threads e !! t = Some th -> claim I (p_mem (e_pub e)) (t_pc th);
  v_seals : Forall (seal_ok I (p_sessionID (e_pub e))) (e_seals e);
  v_panic : e_panic e = true -> p_closed (e_pub e) = true
}.

(** What the invariant looks at in the engine's fields, keys apart. *)
Definition store (p : PublisherEngine) := (p_sessionID p, p_replayBuffer p, p_mem p, p_seqCounter p).
Definition keys (p : PublisherEngine) := (p_cipher p, p_masterKey p, p_passphrase p, p_pakePeer p, p_sas p, p_closed p).

Lemma key_inv_keys p p' : keys p' = keys p -> key_inv p -> key_inv p'.
Proof. unfold keys. intros [= E1 E2 E3 E4 E5 E6]. unfold key_inv. by rewrite E1, E2, E3, E4, E5, E6. Qed.

Lemma keys_open_keys p p' : keys p' = keys p -> keys_open p -> keys_open p'.
Proof. unfold keys. intros [= E1 E2 E3 E4 E5 E6]. unfold keys_open. by rewrite E1, E2, E3, E5. Qed.

Lemma keys_gone_keys p p' : keys p' = keys p -> keys_gone p -> keys_gone p'.
Proof. unfold keys. intros [= E1 E2 E3 E4 E5 E6]. unfold keys_gone. by rewrite E1, E2, E3, E4. Qed.

(** A step of a goroutine outside [Close] that leaves the keys alone. *)
Lemma keys_ok_other e e' t th th' :
  e_threads e !! t = Some th -> lock_ok holds_mu (e_mu e) (e_threads e) -> holds_mu (t_pc th) = false ->
  e_mu e' = e_mu e -> e_threads e' = <[t := th']> (e_threads e) -> keys (e_pub e') = keys (e_pub e) ->
  keys_ok e -> keys_ok e'.
Proof.
  intros Ht Hl Hh Em Et Ek. unfold keys_ok. rewrite Em, Et. destruct (e_mu e) as [t2|] eqn:E2; [|by apply key_inv_keys].
  assert (t2 <> t). { intros ->. destruct (proj1 (Hl t) eq_refl) as (x & Hx & Hb). congruence. }
  rewrite lookup_insert_ne by done. intros [Hc Hk]. split.
  { unfold keys in Ek. congruence. }
  destruct (t_pc <$> _) as [[]|]; (by eapply keys_open_keys) || (by eapply keys_gone_keys).
Qed.

(** The general step: what has to be checked when [t] goes from [th] to [th']. *)
Lemma einv_step I I' e e' t th th' :
  einv I e -> e_threads e !! t = Some th -> e_threads e' = <[t := th']> (e_threads e) ->
  p_sessionID (e_pub e') = p_sessionID (e_pub e) ->
  lock_step holds_mu t (e_mu e) (e_mu e') (t_pc th) (t_pc th') ->
  lock_step holds_write t (e_writeMu e) (e_writeMu e') (t_pc th) (t_pc th') ->
  lock_step holds_rekey t (e_rekeyMu e) (e_rekeyMu e') (t_pc th) (t_pc th') ->
  ring_inv (p_replayBuffer (e_pub e')) (p_mem (e_pub e')) (held_of (t_pc th') ++ held (delete t (e_threads e))) ->
  capacity (p_replayBuffer (e_pub e')) = 100%nat ->
  same_contents (p_mem (e_pub e)) (p_mem (e_pub e')) (held (delete t (e_threads e))) ->
  keys_ok e' ->
  (forall t2 th2 k c, <[t := th']> (e_threads e) !! t2 = Some th2 -> curr_of (t_pc th2) = Some k ->
     p_cipher (e_pub e') = Some c -> c = mkCipher (Some k) (Some k)) ->
  I ⊆ I' -> 0 <= p_seqCounter (e_pub e') < 2 ^ 64 ->
  (forall n x, I' !! n = Some x -> 0 <= n <= p_seqCounter (e_pub e')) ->
  Forall (issued I') (abs (p_replayBuffer (e_pub e')) (p_mem (e_pub e'))) ->
  claim I' (p_mem (e_pub e')) (t_pc th') ->
  Forall (seal_ok I' (p_sessionID (e_pub e))) (e_seals e') ->
  (e_panic e' = true -> p_closed (e_pub e') = true) ->
  einv I' e'.
Proof.
  intros [] Ht Et Es Lm Lw Lr Hr Hc Hm Hk Hcu HI Hq Hd Ha Hcl Hse Hp. split; rewrite ?Et, ?Es; try done.
  1-3: by eapply lock_ok_step.
  - eapply ring_inv_ext_perm; [|exact Hr]. by rewrite held_replace.
  - intros t2 th2. destruct (decide (t = t2)) as [<-|Hne].
    + rewrite lookup_insert_eq. by intros [= <-].
    + rewrite lookup_insert_ne by done. intros H2. eapply claim_mono; [exact HI| |by eapply v_claims0].
      intros s Hs. apply Hm. rewrite (held_split t2 th2) by (by rewrite lookup_delete_ne). apply elem_of_app. by left.
Qed.

Lemma same_contents_refl m ls : same_contents m m ls.
Proof. by intros s. Qed.

Lemma seal_ok_mono I I' sid us : I ⊆ I' -> Forall (seal_ok I sid) us -> Forall (seal_ok I' sid) us.
Proof.
  intros HI Hf. eapply Forall_impl; [exact Hf|]. intros u (n & Hn & Hi & He). exists n. split; [done|]. split; [|done].
  by eapply lookup_weaken.
Qed.

Lemma issued_mono I I' its : I ⊆ I' -> Forall (issued I) its -> Forall (issued I') its.
Proof. intros HI Hf. eapply Forall_impl; [exact Hf|]. intros it H. by eapply lookup_weaken. Qed.

(** The rekey under way elsewhere is not disturbed by a step that keeps the cipher. *)
Lemma curr_keep I e t th th' p' :
  einv I e -> e_threads e !! t = Some th -> p_cipher p' = p_cipher (e_pub e) ->
  (forall k, curr_of (t_pc th') = Some k -> curr_of (t_pc th) = Some k \/ p_cipher (e_pub e) = Some (mkCipher (Some k) (Some k))) ->
  forall t2 th2 k c, <[t := th']> (e_threads e) !! t2 = Some th2 -> curr_of (t_pc th2) = Some k ->
    p_cipher p' = Some c -> c = mkCipher (Some k) (Some k).
Proof.
  intros HI Ht Ec H t2 th2 k c Hl Hc. rewrite Ec. intros Hp. destruct (decide (t = t2)) as [<-|Hne].
  - rewrite lookup_insert_eq in Hl. injection Hl as <-. destruct (H _ Hc) as [H1|H1]; [|congruence].
    by eapply (v_curr I e HI).
  - rewrite lookup_insert_ne in Hl by done. by eapply (v_curr I e HI).
Qed.

(** A step outside [Close] that changes neither keys nor store. *)
Lemma einv_move I e e' t th th' :
  einv I e -> e_threads e !! t = Some th -> e_threads e' = <[t := th']> (e_threads e) ->
  store (e_pub e') = store (e_pub e) -> keys (e_pub e') = keys (e_pub e) ->
  holds_mu (t_pc th) = false -> holds_mu (t_pc th') = false -> e_mu e' = e_mu e ->
  lock_step holds_write t (e_writeMu e) (e_writeMu e') (t_pc th) (t_pc th') ->
  lock_step holds_rekey t (e_rekeyMu e) (e_rekeyMu e') (t_pc th) (t_pc th') ->
  held_of (t_pc th') = held_of (t_pc th) ->
  (claim I (p_mem (e_pub e)) (t_pc th) -> claim I (p_mem (e_pub e)) (t_pc th')) ->
  (forall k, curr_of (t_pc th') = Some k -> curr_of (t_pc th) = Some k \/ p_cipher (e_pub e) = Some (mkCipher (Some k) (Some k))) ->
  Forall (seal_ok I (p_sessionID (e_pub e))) (e_seals e') -> e_panic e' = e_panic e ->
  einv I e'.
Proof.
  intros HI Ht Et Es Ek Hh Hh' Em Lw Lr Eh Hcl Hcu Hse Hp. pose proof HI as [].
  unfold store in Es. injection Es as E1 E2 E3 E4. pose proof Ek as Ek'. unfold keys in Ek'. injection Ek' as K1 K2 K3 K4 K5 K6.
  apply (einv_step I I e e' t th th'); rewrite ?E1, ?E2, ?E3, ?E4, ?K6, ?Hp; try done.
  - left. by rewrite Em, Hh, Hh'.
  - rewrite Eh. eapply ring_inv_ext_perm; [|exact v_ring0]. by apply held_split.
  - by eapply keys_ok_other.
  - by eapply curr_keep.
  - by apply Hcl, (v_claims0 t).
Qed.

(** ** Every step preserves the invariant *)

Lemma sealFrame_fields `{AEAD} c sid ty n pt env :
  sealFrame c sid ty n pt = Ok env -> env_MsgType env = ty /\ env_Nonce env = ConstructNonceRFC5116 (take 4 sid) n.
Proof. unfold sealFrame. destruct (Encrypt _ _ _ _ _) as [[ct x]|]; [|done]. by intros [= <-]. Qed.

Ltac lock_move := first [by left | right; left; (split_and!; done) | right; right; (split_and!; done)].
Ltac move_step HI Ht :=
  eapply (einv_move _ _ _ _ _ _ HI Ht);
    [reflexivity|reflexivity|reflexivity|reflexivity|reflexivity|reflexivity|lock_move|lock_move|reflexivity|..];
    cbn [t_pc claim curr_of]; try done; try reflexivity; try (by intros ? [=]); try (intros ?; by left); try exact (v_seals _ _ HI).

Section Preservation.
Context {aeadI : AEAD} {kexI : KeyExchange}.
Variable (pool : bytes) (I : issues) (i : input) (t : nat) (todo onerr : list op) (e : Engine).
Hypothesis HI : einv I e.
(** The counter does not wrap around. *)
Abbreviation room := (p_seqCounter (e_pub e) + 1 < 2 ^ 64).

Abbreviation at_pc c := (e_threads e !! t = Some (mkThread c todo onerr)).
Abbreviation th c := (mkThread c todo onerr).

(** A fresh number is recorded for what it will seal. *)
Lemma einv_issue c ty pt c' :
  room -> at_pc c -> holds_mu c = false -> holds_mu c' = false -> holds_write c' = holds_write c -> holds_rekey c' = holds_rekey c ->
  held_of c = [] -> held_of c' = [] ->
  let n := u64_add (p_seqCounter (e_pub e)) 1 in
  (forall I' m, I' !! n = Some (ty, pt) -> claim I' m c') ->
  (forall k, curr_of c' = Some k -> curr_of c = Some k) ->
  exists I', einv I' (goto t (th c) c' (set_pub (set_seq n (e_pub e)) e)).
Proof using HI.
  intros Hroom Ht Hm Hm' Hw Hr Hh Hh' n Hcl Hcu. pose proof HI as [].
  assert (Hn : n = p_seqCounter (e_pub e) + 1).
  { unfold n, u64_add, wrap. apply Z.mod_small. lia. }
  assert (Hf : I !! n = None).
  { destruct (I !! n) as [x|] eqn:E; [|done]. apply v_dom0 in E. lia. }
  assert (Hs : I ⊆ <[n := (ty, pt)]> I) by (by apply insert_subseteq).
  exists (<[n := (ty, pt)]> I).
  apply (einv_step I _ e _ t (th c) (th c')); try done; cbn [t_pc goto set_thread set_pub e_pub e_mu e_writeMu e_rekeyMu].
  - left. by rewrite Hm, Hm'.
  - by left.
  - by left.
  - rewrite Hh'. eapply ring_inv_ext_perm; [|exact v_ring0]. rewrite (held_split t _ _ Ht). cbn. by rewrite Hh.
  - by eapply (keys_ok_other e).
  - eapply curr_keep; [exact HI|exact Ht|done|]. intros k Hk. left. by apply Hcu.
  - cbn. lia.
  - cbn. intros x y. rewrite lookup_insert_Some. intros [[<- _]|[_ Hx]]; [lia|]. apply v_dom0 in Hx. lia.
  - by eapply issued_mono.
  - apply Hcl. apply lookup_insert_eq.
  - by eapply seal_ok_mono.
Qed.

(** Sealing what a number was issued for. *)
Lemma seal_now c ty n pt env :
  at_pc c -> I !! n = Some (ty, pt) ->
  sealFrame (cipherObj (e_pub e)) (p_sessionID (e_pub e)) ty n pt = Ok env ->
  Forall (seal_ok I (p_sessionID (e_pub e))) ((pt, env) :: e_seals e).
Proof using HI.
  intros Ht Hn E. apply sealFrame_fields in E as [<- En]. constructor; [|exact (v_seals _ _ HI)].
  exists n. split; [|done]. pose proof (v_dom _ _ HI _ _ Hn). pose proof (v_seq _ _ HI). lia.
Qed.

(** A step that works on the replay buffer or its memory. *)
Lemma einv_store c rb m c' :
  at_pc c -> holds_mu c = false -> holds_mu c' = false -> holds_write c' = holds_write c -> holds_rekey c' = holds_rekey c ->
  curr_of c' = None ->
  ring_inv rb m (held_of c' ++ held (delete t (e_threads e))) -> capacity rb = 100%nat ->
  same_contents (p_mem (e_pub e)) m (held (delete t (e_threads e))) ->
  Forall (issued I) (abs rb m) -> claim I m c' ->
  einv I (goto t (th c) c' (set_pub (set_ring rb m (e_pub e)) e)).
Proof using HI.
  intros Ht Hm Hm' Hw Hr Hcu Hri Hca Hsa Hab Hcl. pose proof HI as [].
  apply (einv_step I I e _ t (th c) (th c')); try done; cbn [t_pc goto set_thread set_pub e_pub e_mu e_writeMu e_rekeyMu].
  - left. by rewrite Hm, Hm'.
  - by left.
  - by left.
  - by eapply (keys_ok_other e).
  - eapply curr_keep; [exact HI|exact Ht|done|]. cbn. by rewrite Hcu.
Qed.

Lemma ring_at c : at_pc c ->
  ring_inv (p_replayBuffer (e_pub e)) (p_mem (e_pub e)) (held_of c ++ held (delete t (e_threads e))).
Proof using HI. intros Ht. eapply ring_inv_ext_perm; [|exact (v_ring _ _ HI)]. by apply (held_split t (th c)). Qed.

Lemma publishStep_inv c e' :
  room -> at_pc c -> publishStep i t (th c) c e = Some e' -> exists I', einv I' e'.
Proof using HI.
  intros Hroom Ht. pose proof (v_claims _ _ HI _ _ Ht) as Hcl. cbn [t_pc] in Hcl.
  destruct c; try done; cbn [publishStep]; unfold locked.
  - destruct (e_mu e) eqn:Em; [done|]. intros [= <-]. exists I. destruct (shouldRekey _ _); move_step HI Ht.
  - destruct (e_mu e) eqn:Em; [done|]. destruct (p_cipher (e_pub e)); intros [= <-]; exists I; move_step HI Ht.
  - intros [= <-]. by apply (einv_issue _ MsgTypeDataStream (padded payload)).
  - pose proof (Push_spec seqNum payload _ _ _ (ring_at _ Ht)) as HP.
    destruct (Push _ _ _ _) as [rb m]. destruct HP as (H1 & H2 & H3 & H4). intros [= <-]. exists I.
    apply einv_store; try done; [rewrite H2; apply (v_cap _ _ HI)|]. rewrite H4. unfold RingSpec.push.
    apply Forall_app. split; [|by constructor]. pose proof (v_abs _ _ HI) as Ha.
    destruct (_ =? _)%nat; [|done]. by destruct Ha.
  - intros [= <-]. exists I. unfold sealNow. destruct (sealFrame _ _ _ _ _) as [env|] eqn:E; move_step HI Ht.
    by eapply seal_now.
Qed.

Lemma set_pub_same : set_pub (e_pub e) e = e.
Proof. by destruct e. Qed.

Lemma sent_inv c env k r conn :
  at_pc c -> c = SendConn env k \/ c = SendWrite env k ->
  einv I (sent t (th c) k r (set_pub (set_conn conn (e_pub e)) e)).
Proof using HI.
  intros Ht Hc. unfold sent, rekeyDone, return_ok, return_err.
  destruct Hc as [-> | ->]; destruct k as [| |[pl|] ck sa|al re], r; move_step HI Ht.
Qed.

Lemma sendStep_inv c e' : at_pc c -> sendStep pool t (th c) c e = Some e' -> exists I', einv I' e'.
Proof using HI.
  intros Ht Hs. exists I. destruct c; try done; cbn [sendStep] in Hs.
  - destruct (e_writeMu e) eqn:Ew; [done|]. injection Hs as <-. destruct k; move_step HI Ht.
  - unfold locked in Hs. destruct (e_mu e); [done|]. destruct (p_conn (e_pub e)) as [c|] eqn:Ec; injection Hs as <-.
    + destruct k; move_step HI Ht.
    + rewrite <- set_pub_same, <- (set_conn_same (e_pub e)). eapply sent_inv; [exact Ht|by left].
  - destruct (encodeTo_conn pool env (e_pub e)) as [conn Hc]. unfold sendFrame in Hs.
    destruct (encodeTo pool env (e_pub e)) as [r p']. cbn [snd] in Hc. injection Hs as <-. subst p'.
    eapply sent_inv; [exact Ht|by right].
Qed.

(** Where a [TriggerRekey] ends. *)
Lemma rekeyDone_inv c ret ok :
  at_pc c -> holds_rekey c = true -> holds_mu c = false -> holds_write c = false -> held_of c = [] ->
  einv I (rekeyDone t (th c) ret ok e).
Proof using HI.
  intros Ht Hr Hm Hw Hh. unfold rekeyDone, return_ok, return_err.
  destruct ret, ok; (eapply (einv_move I e _ t _ _ HI Ht); cbn;
    [reflexivity|reflexivity|reflexivity|done|done|done|left; by rewrite Hw|by right; right|by rewrite Hh|done|done|
     exact (v_seals _ _ HI)|done]).
Qed.

(** The ratchet: the key just read is replaced, by the only goroutine that may. *)
Lemma rekeyed_inv ret currKey salt nextKey ok :
  at_pc (RekeyUpdate ret currKey salt) -> e_mu e = None -> p_closed (e_pub e) = false -> length nextKey = KeySize ->
  einv I (rekeyDone t (th (RekeyUpdate ret currKey salt)) ret ok
            (set_pub (set_rekeyed nextKey (mkCipher (Some nextKey) (Some nextKey)) (i_now i) (e_pub e)) e)).
Proof using HI.
  intros Ht Em Ho Hl. pose proof HI as []. set (c := RekeyUpdate ret currKey salt) in *.
  assert (Hex : exists th', e_threads (rekeyDone t (th c) ret ok
      (set_pub (set_rekeyed nextKey (mkCipher (Some nextKey) (Some nextKey)) (i_now i) (e_pub e)) e)) = <[t := th']> (e_threads e)
      /\ held_of (t_pc th') = [] /\ curr_of (t_pc th') = None /\ holds_mu (t_pc th') = false /\ holds_write (t_pc th') = false
      /\ holds_rekey (t_pc th') = false /\ (forall m, claim I m (t_pc th'))).
  { unfold rekeyDone, return_ok, return_err. destruct ret, ok; eexists; (split; [reflexivity|]); by split_and!. }
  destruct Hex as (th' & Et & Hh & Hcu & Hm & Hw & Hr & Hcl). revert Et. set (e1 := rekeyDone _ _ _ _ _). intros Et.
  assert (E1 : e_pub e1 = set_rekeyed nextKey (mkCipher (Some nextKey) (Some nextKey)) (i_now i) (e_pub e) /\
    e_mu e1 = e_mu e /\ e_writeMu e1 = e_writeMu e /\ e_rekeyMu e1 = None /\ e_seals e1 = e_seals e /\ e_panic e1 = e_panic e).
  { unfold e1, rekeyDone, return_ok, return_err. by destruct ret, ok. }
  destruct E1 as (Ep & E2 & E3 & E4 & E5 & E6).
  apply (einv_step I I e e1 t (th c) th'); rewrite ?Ep; try done; cbn.
  - left. by rewrite E2, Hm.
  - left. by rewrite E3, Hw.
  - right. right. by split_and!.
  - rewrite Hh. eapply ring_inv_ext_perm; [|exact v_ring0]. by rewrite (held_split t _ _ Ht).
  - unfold keys_ok in *. rewrite E2, Em, Ep in *. unfold key_inv in *. cbn. rewrite Ho in *.
    destruct v_keys0 as (k & _ & _ & _ & _ & Hpp). by exists nextKey.
  - intros t2 th2 k c2 H2 Hk _. exfalso. destruct (decide (t = t2)) as [<-|Hne].
    { rewrite lookup_insert_eq in H2. injection H2 as <-. congruence. }
    rewrite lookup_insert_ne in H2 by done. apply curr_holds in Hk.
    assert (e_rekeyMu e = Some t) by (by eapply lock_ok_holder). assert (e_rekeyMu e = Some t2) by (by eapply lock_ok_holder).
    congruence.
  - by rewrite E5.
  - rewrite E6. by rewrite Ho in *.
Qed.

Lemma rekeyStep_inv c e' : room -> at_pc c -> rekeyStep i t (th c) c e = Some e' -> exists I', einv I' e'.
Proof using HI.
  intros Hroom Ht Hs. pose proof (v_claims _ _ HI _ _ Ht) as Hcl. cbn [t_pc] in Hcl.
  destruct c; try done; cbn [rekeyStep] in Hs; unfold locked in Hs.
  - destruct (e_rekeyMu e) eqn:Er; [done|]. injection Hs as <-. exists I. move_step HI Ht.
  - destruct (e_mu e) eqn:Em; [done|]. injection Hs as <-. exists I.
    destruct (p_cipher (e_pub e)) as [ciph|] eqn:Ec; cbn; [|by apply rekeyDone_inv].
    pose proof (v_keys _ _ HI) as Hk. unfold keys_ok in Hk. rewrite Em in Hk.
    destruct (key_inv_open _ _ Hk Ec) as (_ & k & _ & -> & _). cbn. move_step HI Ht. intros k2 [= <-]. by right.
  - injection Hs as <-. destruct (GenerateNonce _) as [salt|]; [|exists I; by apply rekeyDone_inv].
    by apply (einv_issue _ MsgTypeRekey salt).
  - injection Hs as <-. exists I. unfold sealNow. destruct (sealFrame _ _ _ _ _) as [env|] eqn:E; [|by apply rekeyDone_inv].
    move_step HI Ht. by eapply seal_now.
  - exists I. destruct (RatchetKey currKey salt) as [nextKey|]; [|injection Hs as <-; by apply rekeyDone_inv].
    destruct (e_mu e) eqn:Em; [done|]. injection Hs as <-.
    pose proof (v_keys _ _ HI) as Hk. unfold keys_ok in Hk. rewrite Em in Hk.
    destruct (p_cipher (e_pub e)) as [ciph|] eqn:Ec.
    + destruct (key_inv_open _ _ Hk Ec) as (Ho & _). unfold UpdateKey.
      destruct (Nat.eqb_spec (length nextKey) KeySize) as [Hl|]; cbn [negb]; [by apply rekeyed_inv|by apply rekeyDone_inv].
    + destruct HI. split; try done. intros _. cbn. unfold key_inv in Hk. destruct (p_closed (e_pub e)); [done|].
      destruct Hk as (k & _ & Hc & _). congruence.
Qed.

Lemma idleStep_inv e' : at_pc Idle -> idleStep t (th Idle) e = Some e' -> exists I', einv I' e'.
Proof using HI.
  intros Ht Hs. unfold idleStep in Hs. cbn [t_todo] in Hs. destruct todo as [|o todo'] eqn:Eo; [done|]. injection Hs as <-. exists I.
  rewrite <- Eo in Ht. destruct o; move_step HI Ht.
Qed.

(** The copies of a replay go back to the pool. *)
Lemma replayDone_inv c items :
  at_pc c -> held_of c = snd <$> items -> holds_mu c = false -> holds_write c = false -> holds_rekey c = false ->
  einv I (replayDone t (th c) items e).
Proof using HI.
  intros Ht Hh Hm Hw Hr. unfold replayDone, return_ok. pose proof (ring_at c Ht) as Hri. rewrite Hh in Hri.
  pose proof (inv_owned _ _ _ Hri) as Ho.
  rewrite app_assoc, (Permutation_app_comm (live _)), <- app_assoc in Ho.
  destruct (putBuffers_spec _ _ _ Ho) as [Ho1 Hs1].
  apply einv_store; try done; cbn.
  - by eapply ring_inv_mem.
  - exact (v_cap _ _ HI).
  - intros x Hx. apply Hs1. apply elem_of_app. by right.
  - erewrite abs_same_mem; [exact (v_abs _ _ HI)|exact Hs1|]. intros x Hx. apply elem_of_app. by left.
Qed.

Lemma replay_sealed all n s rest :
  claim I (p_mem (e_pub e)) (SyncSeal all ((n, s) :: rest)) ->
  claim I (p_mem (e_pub e)) (SyncSeal all rest) /\
  I !! n = Some (MsgTypeDataStream, padded (contents (p_mem (e_pub e)) s)).
Proof.
  cbn. intros [[l ->] Hf]. apply Forall_cons in Hf as [Hn Hf]. split; [|exact Hn]. split; [|done].
  exists (l ++ [(n, s)]). by rewrite <- app_assoc.
Qed.

Lemma syncStep_inv c e' : at_pc c -> syncStep i t (th c) c e = Some e' -> exists I', einv I' e'.
Proof using HI.
  intros Ht Hs. exists I. pose proof (v_claims _ _ HI _ _ Ht) as Hcl. cbn [t_pc] in Hcl.
  destruct c; try done; cbn [syncStep] in Hs; unfold locked, return_ok in Hs.
  - pose proof (GetAfter_spec lastSeqNum _ _ _ (ring_at _ Ht)) as HG.
    destruct (GetAfter _ _ _) as [items m]. destruct HG as (H1 & H2 & H3 & H4). injection Hs as <-.
    apply einv_store; try done.
    + exact (v_cap _ _ HI).
    + intros x Hx. apply H2, elem_of_app. by right.
    + rewrite H3. exact (v_abs _ _ HI).
    + cbn. apply (proj1 (Forall_fmap (fun it => (it.1, contents m it.2)) (issued I) items)). rewrite H4. unfold RingSpec.after.
      apply Forall_forall. intros x [_ Hx]%list_elem_of_filter. pose proof (v_abs _ _ HI) as Ha. rewrite Forall_forall in Ha. auto.
  - destruct (e_mu e); [done|]. injection Hs as <-. move_step HI Ht.
  - destruct (e_mu e); [done|]. destruct (ciph && _); injection Hs as <-; [move_step HI Ht|by apply replayDone_inv].
  - destruct rest as [|[n s] rest]; injection Hs as <-; [by apply replayDone_inv|].
    destruct (replay_sealed _ _ _ _ Hcl) as [Hc1 Hc2]. unfold sealNow.
    destruct (sealFrame _ _ _ _ _) as [env|] eqn:E; move_step HI Ht. by eapply seal_now.
  - destruct (e_mu e); [done|]. injection Hs as <-.
    destruct (p_passphrase _) as [pass|]; [destruct (NewPAKEPublisher pass _)|]; move_step HI Ht.
  - destruct (e_mu e); [done|]. injection Hs as <-. case_match; move_step HI Ht.
  - destruct (e_mu e); [done|]. injection Hs as <-. destruct (p_chunkAckChan _); move_step HI Ht.
Qed.

(** A step inside [Close]. *)
Lemma einv_close c c' p' mu' wr' :
  at_pc c -> store p' = store (e_pub e) ->
  lock_step holds_mu t (e_mu e) mu' c c' -> lock_step holds_write t (e_writeMu e) wr' c c' ->
  holds_rekey c = false -> holds_rekey c' = false -> held_of c = [] -> held_of c' = [] -> curr_of c' = None ->
  (forall m, claim I m c') -> p_closed p' = true ->
  p_cipher p' = p_cipher (e_pub e) \/ p_cipher p' = None ->
  keys_ok (goto t (th c) c' (set_writeMu wr' (set_mu mu' (set_pub p' e)))) ->
  einv I (goto t (th c) c' (set_writeMu wr' (set_mu mu' (set_pub p' e)))).
Proof using HI.
  intros Ht Es Lm Lw Hr Hr' Hh Hh' Hcu Hcl Hp Hci Hk. pose proof HI as []. unfold store in Es. injection Es as E1 E2 E3 E4.
  apply (einv_step I I e _ t (th c) (th c')); cbn; rewrite ?E1, ?E2, ?E3, ?E4; try done.
  - left. by rewrite Hr, Hr'.
  - rewrite Hh'. eapply ring_inv_ext_perm; [|exact v_ring0]. rewrite (held_split t _ _ Ht). cbn. by rewrite Hh.
  - destruct Hci as [Hci|Hci]; [|intros; congruence]. eapply curr_keep; [exact HI|exact Ht|done|]. cbn. by rewrite Hcu.
Qed.

Lemma keys_ok_closing c : at_pc c -> e_mu e = Some t ->
  p_closed (e_pub e) = true /\ (match c with CloseWipe => keys_gone | _ => keys_open end) (e_pub e).
Proof using HI. intros Ht Em. pose proof (v_keys _ _ HI) as Hk. unfold keys_ok in Hk. rewrite Em, Ht in Hk. exact Hk. Qed.

(** Bringing the state of a [Close] step into the shape of [einv_close]. *)
Lemma close_form c c' p' :
  goto t (th c) c' (set_pub p' e) = goto t (th c) c' (set_writeMu (e_writeMu e) (set_mu (e_mu e) (set_pub p' e))).
Proof. by destruct e. Qed.

Lemma closeLock_inv c' :
  at_pc CloseLock -> e_mu e = None -> p_closed (e_pub e) = false -> c' = CloseWrite \/ c' = CloseCipher ->
  einv I (goto t (th CloseLock) c' (set_mu (Some t) (set_pub (set_closed (e_pub e)) e))).
Proof using HI.
  intros Ht Em Ecl Hc'. pose proof (v_keys _ _ HI) as Hk. unfold keys_ok, key_inv in Hk. rewrite Em, Ecl in Hk.
  change (set_mu (Some t) (set_pub (set_closed (e_pub e)) e))
    with (set_writeMu (e_writeMu e) (set_mu (Some t) (set_pub (set_closed (e_pub e)) e))).
  apply einv_close; try done; try (by destruct Hc' as [-> | ->]).
  - right. left. by destruct Hc' as [-> | ->].
  - left. by destruct Hc' as [-> | ->].
  - by left.
  - unfold keys_ok. cbn. rewrite lookup_insert_eq. split; [done|]. by destruct Hc' as [-> | ->].
Qed.

Lemma closeWipe_inv :
  at_pc CloseWipe -> e_mu e = Some t ->
  let (rb, m) := Wipe (p_replayBuffer (e_pub e)) (p_mem (e_pub e)) in
  einv I (goto t (th CloseWipe) Idle (set_mu None (set_pub (set_ring rb m (e_pub e)) e))).
Proof using HI.
  intros Ht Hmu. destruct (keys_ok_closing _ Ht Hmu) as [Hcl Hko]. pose proof HI as [].
  pose proof (Wipe_spec _ _ _ (ring_at _ Ht)) as HW. destruct (Wipe _ _) as [rb m] eqn:EW.
  destruct HW as (H1 & H2 & _ & H4 & _).
  apply (einv_step I I e _ t (th CloseWipe) (th Idle)); cbn; try done.
  - by right; right.
  - by left.
  - by left.
  - revert EW. unfold Wipe. destruct (wipe_loop _ _). by intros [= <- _].
  - unfold keys_ok. cbn. unfold key_inv. cbn. by rewrite Hcl.
  - eapply curr_keep; [exact HI|exact Ht|done|done].
  - rewrite H2. constructor.
Qed.

Lemma closeStep_inv c e' : at_pc c -> closeStep pool t (th c) c e = Some e' -> exists I', einv I' e'.
Proof using HI.
  intros Ht Hs. exists I.
  assert (Hmu : holds_mu c = true -> e_mu e = Some t) by (intros H; by eapply lock_ok_holder; [exact (v_mu _ _ HI)|exact Ht|]).
  destruct c; try done; cbn [closeStep] in Hs; try specialize (Hmu eq_refl);
    try (destruct (keys_ok_closing _ Ht Hmu) as [Hcl Hko]); unfold locked, return_ok in Hs.
  - destruct (e_mu e) eqn:Em; [done|]. destruct (p_closed (e_pub e)) eqn:Ecl; injection Hs as <-; [move_step HI Ht|].
    apply closeLock_inv; try done. destruct (p_conn (e_pub e)); auto.
  - destruct (e_writeMu e) eqn:Ew; [done|]. injection Hs as <-.
    replace (set_writeMu (Some t) e) with (set_writeMu (Some t) (set_mu (e_mu e) (set_pub (e_pub e) e))) by (by destruct e).
    apply einv_close; try done; [by left|right; by left|by left|].
    unfold keys_ok. cbn. by rewrite Hmu, lookup_insert_eq.
  - destruct (encodeTo_conn pool (mkEnvelope Version MsgTypeClose (p_sessionID (e_pub e)) zeroNonce []) (e_pub e)) as [conn Hc].
    injection Hs as <-. rewrite Hc.
    replace (set_writeMu None (set_pub (set_conn conn (e_pub e)) e))
      with (set_writeMu None (set_mu (e_mu e) (set_pub (set_conn conn (e_pub e)) e))) by (by destruct e).
    apply einv_close; try done; [by left|by right; right|by left|].
    unfold keys_ok. cbn. by rewrite Hmu, lookup_insert_eq.
  - injection Hs as <-. rewrite close_form. apply einv_close; try done; [by left|by left|by left|].
    unfold keys_ok. cbn. by rewrite Hmu, lookup_insert_eq.
  - injection Hs as <-. rewrite close_form. apply einv_close; try done; [by left|by left|by right|].
    unfold keys_ok. cbn. by rewrite Hmu, lookup_insert_eq.
  - pose proof (closeWipe_inv Ht Hmu) as HW. destruct (Wipe _ _) as [rb m]. by injection Hs as <-.
Qed.
End Preservation.

Section Runs.
Context {aeadI : AEAD} {kexI : KeyExchange}.
Variable pool : bytes.

Lemma pub_next_inv I i t e e' :
  einv I e -> p_seqCounter (e_pub e) + 1 < 2 ^ 64 -> pub_next pool i t e = Some e' -> exists I', einv I' e'.
Proof.
  intros HI Hroom Hs. unfold pub_next in Hs. destruct (e_panic e); [done|].
  destruct (e_threads e !! t) as [[c todo onerr]|] eqn:Ht; [|done].
  destruct c eqn:Ec; cbn [step_thread t_pc] in Hs; subst c;
    (by eapply idleStep_inv) || (by eapply publishStep_inv) || (by eapply rekeyStep_inv) || (by eapply sendStep_inv) ||
    (by eapply syncStep_inv) || (by eapply closeStep_inv).
Qed.

(** The engine's fields as a step can change them. *)
Inductive pub_change (e : Engine) : PublisherEngine -> Prop :=
  | pc_conn c : pub_change e (set_conn c (e_pub e))
  | pc_bytes n : pub_change e (set_bytes n (e_pub e))
  | pc_ack a : pub_change e (set_ack a (e_pub e))
  | pc_seq : pub_change e (set_seq (u64_add (p_seqCounter (e_pub e)) 1) (e_pub e))
  | pc_ring rb m : pub_change e (set_ring rb m (e_pub e))
  | pc_rekeyed t th ret k salt k' c now :
      e_mu e = None -> e_threads e !! t = Some th -> t_pc th = RekeyUpdate ret k salt -> p_cipher (e_pub e) <> None ->
      RatchetKey k salt = Ok k' -> pub_change e (set_rekeyed k' c now (e_pub e))
  | pc_closed t th : e_threads e !! t = Some th -> t_pc th = CloseLock -> pub_change e (set_closed (e_pub e))
  | pc_dropped : pub_change e (drop_keys (e_pub e)).

Lemma pub_change_same e : pub_change e (e_pub e).
Proof. pose proof (pc_conn e (p_conn (e_pub e))) as H. by rewrite set_conn_same in H. Qed.

Lemma rekeyDone_pub t th ret ok e : e_pub (rekeyDone t th ret ok e) = e_pub e.
Proof. by destruct ret, ok. Qed.

Lemma sent_pub t th k r e : e_pub (sent t th k r e) = e_pub e.
Proof. destruct k, r; try done. unfold sent. by rewrite rekeyDone_pub. Qed.

Lemma sealNow_pub ty n pt e k err :
  (forall env e', e_pub (k env e') = e_pub e') -> (forall e', e_pub (err e') = e_pub e') ->
  e_pub (sealNow ty n pt e k err) = e_pub e.
Proof. intros Hk He. unfold sealNow. case_match; [by rewrite Hk|by rewrite He]. Qed.

Lemma pub_next_change i t e e' : pub_next pool i t e = Some e' -> pub_change e (e_pub e').
Proof.
  pose proof (pub_change_same e) as Hsame.
  intros Hs. unfold pub_next in Hs. destruct (e_panic e); [done|].
  destruct (e_threads e !! t) as [[c todo onerr]|] eqn:Ht; [|done].
  destruct c; cbn [step_thread t_pc idleStep publishStep rekeyStep sendStep syncStep closeStep] in Hs; unfold locked, idleStep in Hs; cbn [t_todo] in Hs;
    try (injection Hs as <-; rewrite ?sealNow_pub by (intros; (done || apply rekeyDone_pub)); (exact Hsame || constructor)).
  all: try (repeat case_match; simplify_eq; rewrite ?rekeyDone_pub, ?sent_pub; (exact Hsame || (constructor; fail) || (eapply pc_closed; [exact Ht|done]))).
  - repeat case_match; simplify_eq; rewrite ?rekeyDone_pub; try exact Hsame.
    eapply pc_rekeyed; [done|exact Ht|done|congruence|done].
  - destruct (encodeTo_conn pool env (e_pub e)) as [conn Hc]. unfold sendFrame in Hs.
    destruct (encodeTo pool env (e_pub e)) as [r p']. cbn [snd] in Hc. injection Hs as <-. rewrite sent_pub. cbn. subst p'. constructor.
  - destruct rest as [|[n s] rest]; injection Hs as <-; [constructor|]. by rewrite sealNow_pub.
  - injection Hs as <-. cbn [goto set_thread set_writeMu set_pub e_pub].
    destruct (encodeTo_conn pool (mkEnvelope Version MsgTypeClose (p_sessionID (e_pub e)) zeroNonce []) (e_pub e)) as [conn ->].
    constructor.
Qed.

Lemma pub_next_seq i t e e' :
  pub_next pool i t e = Some e' -> p_seqCounter (e_pub e) + 1 < 2 ^ 64 -> 0 <= p_seqCounter (e_pub e) ->
  p_seqCounter (e_pub e') <= p_seqCounter (e_pub e) + 1.
Proof.
  intros Hs Hr H0. destruct (pub_next_change _ _ _ _ Hs); cbn; try lia. unfold u64_add, wrap. rewrite Z.mod_small; lia.
Qed.

Lemma pub_exec_inv I ls e e' :
  einv I e -> p_seqCounter (e_pub e) + Z.of_nat (length ls) < 2 ^ 64 -> pub_exec pool ls e = Some e' -> exists I', einv I' e'.
Proof.
  revert I e. induction ls as [|[t i] ls IH]; intros I e HI Hr E; cbn in E; [injection E as <-; eauto|].
  destruct (pub_next pool i t e) as [e1|] eqn:E1; [|done]. cbn in E, Hr. pose proof (v_seq _ _ HI).
  destruct (pub_next_inv I i t e e1 HI ltac:(lia) E1) as [I1 HI1].
  eapply (IH I1 e1 HI1); [|exact E]. apply pub_next_seq in E1; lia.
Qed.

Lemma held_idle ths : (forall t th, ths !! t = Some th -> t_pc th = Idle) -> held ths = [].
Proof.
  intros H. unfold held. assert (Hf : Forall (fun tt => t_pc tt.2 = Idle) (map_to_list ths)).
  { apply Forall_forall. intros [t th] Ht%elem_of_map_to_list. by eapply H. }
  induction Hf as [|[t th] l E _ IH]; [done|]. cbn in *. by rewrite E.
Qed.

Lemma start_threads p progs t th :
  e_threads (start p progs) !! t = Some th -> exists pr, progs !! t = Some pr /\ th = mkThread Idle pr.1 pr.2.
Proof. cbn. rewrite lookup_fmap. destruct (progs !! t) as [pr|]; [|done]. intros [= <-]. eauto. Qed.

Lemma start_inv p progs :
  pub_inv p -> abs (p_replayBuffer p) (p_mem p) = [] -> einv ∅ (start p progs).
Proof.
  intros [Hs Hk Hr Hc Hq Hcl] Ha.
  assert (Hi : forall t th, e_threads (start p progs) !! t = Some th -> t_pc th = Idle).
  { intros t th (pr & _ & ->)%start_threads. done. }
  assert (Hl : forall holds, holds Idle = false -> lock_ok holds None (e_threads (start p progs))).
  { intros holds Hh t. split; [done|]. intros (th & Ht & Hb). rewrite (Hi _ _ Ht) in Hb. congruence. }
  split; try done; try (by apply Hl).
  - by rewrite held_idle.
  - intros t th k c Ht. by rewrite (Hi _ _ Ht).
  - cbn. rewrite Ha. constructor.
  - intros t th Ht. by rewrite (Hi _ _ Ht).
Qed.

(** A ratchet replaces the key that is in force. *)
Lemma ratchet_step I i t e e' k k' :
  einv I e -> pub_next pool i t e = Some e' -> p_masterKey (e_pub e) = Some k -> p_masterKey (e_pub e') = Some k' ->
  k' = k \/ exists salt, RatchetKey k salt = Ok k'.
Proof.
  intros HI Hs Hk Hk'. destruct (pub_next_change _ _ _ _ Hs) as [| | | | |t2 th ret k2 salt k3 c now Em Ht Hpc Hci Hra| |];
    cbn in Hk'; try (left; congruence). right. exists salt. injection Hk' as <-.
  destruct (p_cipher (e_pub e)) as [ciph|] eqn:Ec; [|done].
  pose proof (v_curr _ _ HI _ _ k2 ciph Ht ltac:(by rewrite Hpc) Ec) as E.
  pose proof (v_keys _ _ HI) as Hko. unfold keys_ok in Hko. rewrite Em in Hko.
  destruct (key_inv_open _ _ Hko Ec) as (_ & k4 & _ & E4 & Hmk & _). congruence.
Qed.
End Runs.

(** * Properties *)

(** C12: The publisher's goroutines do not get in each other's way.  Any number of
    goroutines make any calls on one engine (publishing, ratchets, heartbeats,
    joining and resynchronising subscribers, closing) and are interleaved in any
    way at the engine's locks.  At every moment: with the mutex free, the key handed
    to joining subscribers, the live cipher key and the SAS badge agree (or all is
    gone, if closed); a key is only ever replaced by its own ratchet; frames sealed
    under one nonce have the same type and plaintext, replays included; the buffers
    of the ring, of the replays under way and of the pool are disjoint; and no nil
    pointer is dereferenced before the engine is closed. *)
Theorem goroutines_safe `{AEAD} `{KeyExchange} pool p progs ls e :
  pub_inv p -> abs (p_replayBuffer p) (p_mem p) = [] ->
  p_seqCounter p + Z.of_nat (length ls) < 2 ^ 64 -> pub_exec pool ls (start p progs) = Some e ->
  (e_mu e = None -> key_inv (e_pub e)) /\
  (forall i t e' k k', pub_next pool i t e = Some e' -> p_masterKey (e_pub e) = Some k -> p_masterKey (e_pub e') = Some k' ->
     k' = k \/ exists salt, RatchetKey k salt = Ok k') /\
  (forall u1 u2, u1 ∈ e_seals e -> u2 ∈ e_seals e -> env_Nonce u1.2 = env_Nonce u2.2 ->
     env_MsgType u1.2 = env_MsgType u2.2 /\ u1.1 = u2.1) /\
  owned (p_mem (e_pub e)) (live (p_replayBuffer (e_pub e)) ++ held (e_threads e)) /\
  (e_panic e = true -> p_closed (e_pub e) = true).
Proof.
  intros Hp Ha Hr E. destruct (pub_exec_inv pool ∅ ls _ e (start_inv p progs Hp Ha) Hr E) as [I HI].
  split_and!.
  - intros Em. pose proof (v_keys _ _ HI) as Hk. unfold keys_ok in Hk. by rewrite Em in Hk.
  - intros i t e' k k' Hs. by eapply ratchet_step.
  - intros u1 u2 H1 H2 En. pose proof (v_seals _ _ HI) as Hf. rewrite Forall_forall in Hf.
    destruct (Hf _ H1) as (n1 & R1 & I1 & N1), (Hf _ H2) as (n2 & R2 & I2 & N2).
    rewrite N1, N2, !ConstructNonce_spec in En by (rewrite length_take, (v_sid _ _ HI); lia).
    apply app_inj_1 in En as [_ En]; [|done]. apply (be_bytes_inj 8) in En; [|done|done]. by simplify_eq.
  - exact (inv_owned _ _ _ (v_ring _ _ HI)).
  - exact (v_panic _ _ HI).
Qed.

(** Two goroutines publish, one of them ratchets the key and a third replays, interleaved. *)
Definition sample_input : input := mkInput 0 (Some (zeros 12)) (mkPakeRand None None [] None) (Some (zeros 12)).
Definition sample_progs : gmap nat (list op * list op) :=
  {[0%nat := ([OpPublish [x01; x41]], []); 1%nat := ([OpPublish [x01; x42]; OpRekey], []); 2%nat := ([OpSync 0], [])]}.
Definition schedule (ts : list nat) : list (nat * input) := (fun t => (t, sample_input)) <$> ts.
Definition sample_sched : list (nat * input) :=
  schedule [0; 1; 0; 1; 2; 1; 0; 2; 1; 1; 0; 0; 0; 1; 2; 0; 2; 0; 2; 0; 1; 1; 1; 1; 1; 1; 1; 1; 1; 1; 1; 1]%nat.
Definition sample_engine : Engine := Eval vm_compute in
  default (start sample_pub sample_progs) (pub_exec [] sample_sched (start sample_pub sample_progs)).

Lemma sample_run : pub_exec [] sample_sched (start sample_pub sample_progs) = Some sample_engine.
Proof. vm_compute. reflexivity. Qed.

Lemma goroutines_safe_witness :
  key_inv (e_pub sample_engine) /\ length (e_seals sample_engine) = 3%nat /\
  (forall u1 u2, u1 ∈ e_seals sample_engine -> u2 ∈ e_seals sample_engine -> env_Nonce u1.2 = env_Nonce u2.2 ->
     env_MsgType u1.2 = env_MsgType u2.2 /\ u1.1 = u2.1) /\
  owned (p_mem (e_pub sample_engine)) (live (p_replayBuffer (e_pub sample_engine)) ++ held (e_threads sample_engine)).
Proof.
  destruct (goroutines_safe [] sample_pub sample_progs sample_sched sample_engine
    (proj1 sample_pub_inv) (proj2 sample_pub_inv)) as (A & _ & B & C & _);
    [vm_compute; reflexivity|exact sample_run|].
  split; [apply A; vm_compute; reflexivity|]. split; [vm_compute; reflexivity|]. by split.
Defined.
