(* ===== verification/PubLocks.v ===== *)
(** * The publisher's locks: deadlock and progress

    The lock order of [pkg/feed/publisher.go] ([mu], [writeMu], [rekeyMu]) under
    the interleavings of PubThreads.v: [Close] against a frame being sent, and
    progress of every other combination of calls. *)

From S2P Require Import Prelude Protocol Memory RingBuffer Hash Aead Cipher Pake Engine Publisher PubThreads.

(** ** Locks and progress *)

Section Progress.
Context {aeadI : AEAD} {kexI : KeyExchange}.
Variable pool : bytes.

Definition locks_ok (e : Engine) : Prop :=
  lock_ok holds_mu (e_mu e) (e_threads e) /\ lock_ok holds_write (e_writeMu e) (e_threads e) /\
  lock_ok holds_rekey (e_rekeyMu e) (e_threads e).

(** What a step of [t] does to the goroutines and the locks. *)
Definition thread_move (t : nat) (th : thread) (e e' : Engine) : Prop :=
  exists th', e_threads e' = <[t := th']> (e_threads e) /\ e_panic e' = e_panic e /\
    lock_step holds_mu t (e_mu e) (e_mu e') (t_pc th) (t_pc th') /\
    lock_step holds_write t (e_writeMu e) (e_writeMu e') (t_pc th) (t_pc th') /\
    lock_step holds_rekey t (e_rekeyMu e) (e_rekeyMu e') (t_pc th) (t_pc th').

Ltac moved := eexists; (split; [reflexivity|]); (split; [reflexivity|]); cbn; split_and!; lock_move.

Lemma rekeyDone_move t c ret ok e e0 todo onerr :
  holds_rekey c = true -> holds_mu c = false -> holds_write c = false ->
  e_threads e0 = e_threads e -> e_panic e0 = e_panic e -> e_mu e0 = e_mu e -> e_writeMu e0 = e_writeMu e ->
  thread_move t (mkThread c todo onerr) e (rekeyDone t (mkThread c todo onerr) ret ok e0).
Proof.
  intros Hr Hm Hw Et Ep Em Ew. unfold rekeyDone, return_ok, return_err.
  destruct ret, ok; eexists; (split; [cbn; rewrite Et; reflexivity|]); (split; [exact Ep|]); cbn;
    unfold lock_step; rewrite Hr, Hm, Hw, ?Em, ?Ew; tauto.
Qed.

Lemma sent_move t c env k r e e0 todo onerr :
  c = SendConn env k \/ c = SendWrite env k ->
  e_threads e0 = e_threads e -> e_panic e0 = e_panic e -> e_mu e0 = e_mu e -> e_rekeyMu e0 = e_rekeyMu e ->
  thread_move t (mkThread c todo onerr) e (sent t (mkThread c todo onerr) k r e0).
Proof.
  intros Hc Et Ep Em Er. unfold sent, rekeyDone, return_ok, return_err.
  destruct Hc as [-> | ->], k as [| |[pl|] ck sa|al re], r; eexists;
    (split; [cbn; rewrite Et; reflexivity|]); (split; [exact Ep|]); cbn; rewrite ?Em, ?Er; split_and!; lock_move.
Qed.

Lemma pub_next_move i t e e' :
  pub_next pool i t e = Some e' ->
  exists th, e_threads e !! t = Some th /\ (e' = panic e \/ thread_move t th e e').
Proof.
  intros Hs. unfold pub_next in Hs. destruct (e_panic e); [done|].
  destruct (e_threads e !! t) as [[c todo onerr]|] eqn:Ht; [|done]. eexists. split; [done|].
  destruct c; cbn [step_thread t_pc idleStep publishStep rekeyStep sendStep syncStep closeStep] in Hs;
    unfold locked, idleStep, sealNow, replayDone, return_ok, return_err in Hs; cbn [t_todo] in Hs.
  all: try (repeat case_match; simplify_eq; (by left) || (right; (by apply rekeyDone_move) || (by moved))).
  - destruct todo as [|o todo]; [done|]. injection Hs as <-. right. destruct o; by moved.
  - right. destruct (e_mu e); [done|]. destruct (p_conn _); injection Hs as <-; [destruct k; by moved|].
    eapply sent_move; [by left|done..].
  - right. destruct (sendFrame _ _ _) as [r p']. injection Hs as <-. eapply sent_move; [by right|done..].
Qed.

Lemma pub_next_locks i t e e' : pub_next pool i t e = Some e' -> locks_ok e -> locks_ok e'.
Proof.
  intros Hs (L1 & L2 & L3). destruct (pub_next_move i t e e' Hs) as (th & Ht & [-> |(th' & Et & _ & M1 & M2 & M3)]); [done|].
  unfold locks_ok. rewrite Et. split_and!; by eapply lock_ok_step.
Qed.

(** ** Deadlock *)

(** [t1] is in [sendFrame], holding [writeMu] and waiting for [mu]; [t2] is in
    [Close], holding [mu] and waiting for [writeMu]. *)
Definition deadlocked (t1 t2 : nat) (e : Engine) : Prop :=
  locks_ok e /\
  (exists env k todo onerr, e_threads e !! t1 = Some (mkThread (SendConn env k) todo onerr)) /\
  (exists todo onerr, e_threads e !! t2 = Some (mkThread CloseWrite todo onerr)).

Lemma deadlocked_locks t1 t2 e : deadlocked t1 t2 e -> e_mu e = Some t2 /\ e_writeMu e = Some t1.
Proof.
  intros ((L1 & L2 & _) & (env & k & to1 & on1 & H1) & (to2 & on2 & H2)).
  split; by eapply lock_ok_holder.
Qed.

Lemma deadlocked_blocked t1 t2 e i :
  deadlocked t1 t2 e -> pub_next pool i t1 e = None /\ pub_next pool i t2 e = None.
Proof.
  intros D. destruct (deadlocked_locks _ _ _ D) as [Em Ew].
  destruct D as (_ & (env & k & to1 & on1 & H1) & (to2 & on2 & H2)). unfold pub_next.
  rewrite H1, H2. cbn. unfold locked. rewrite Em, Ew. by destruct (e_panic e).
Qed.

(** Without the two locks nothing reaches the connection. *)
Lemma conn_needs_locks i t e e' :
  pub_next pool i t e = Some e' -> is_Some (e_mu e) -> is_Some (e_writeMu e) ->
  e_mu e <> Some t -> e_writeMu e <> Some t -> locks_ok e -> p_conn (e_pub e') = p_conn (e_pub e).
Proof.
  intros Hs [m Em] [v Ev] Hm Hw (L1 & L2 & _). unfold pub_next in Hs. destruct (e_panic e); [done|].
  destruct (e_threads e !! t) as [[c todo onerr]|] eqn:Ht; [|done].
  assert (N1 : holds_mu c = false).
  { destruct (holds_mu c) eqn:E; [|done]. by destruct Hm; eapply lock_ok_holder. }
  assert (N2 : holds_write c = false).
  { destruct (holds_write c) eqn:E; [|done]. by destruct Hw; eapply lock_ok_holder. }
  destruct c; try done; cbn [step_thread t_pc idleStep publishStep rekeyStep sendStep syncStep closeStep] in Hs;
    unfold locked, idleStep, sealNow, replayDone, return_ok, return_err in Hs; cbn [t_todo] in Hs; rewrite ?Em, ?Ev in Hs;
    repeat case_match; simplify_eq; rewrite ?rekeyDone_pub; done.
Qed.

Lemma deadlocked_step t1 t2 i t e e' :
  deadlocked t1 t2 e -> pub_next pool i t e = Some e' ->
  deadlocked t1 t2 e' /\ p_conn (e_pub e') = p_conn (e_pub e).
Proof.
  intros D Hs. destruct (deadlocked_locks _ _ _ D) as [Em Ew].
  assert (Hn1 : t <> t1) by (intros ->; pose proof (proj1 (deadlocked_blocked _ _ _ i D)); congruence).
  assert (Hn2 : t <> t2) by (intros ->; pose proof (proj2 (deadlocked_blocked _ _ _ i D)); congruence).
  split; [|eapply conn_needs_locks; [exact Hs|by eexists|by eexists|congruence|congruence|apply D]].
  destruct D as (L & (env & k & to1 & on1 & H1) & (to2 & on2 & H2)).
  split; [by eapply pub_next_locks|].
  destruct (pub_next_move _ _ _ _ Hs) as (th & Ht & [-> |(th' & Et & _)]); [eauto 10|].
  rewrite Et, !lookup_insert_ne by done. eauto 10.
Qed.

Lemma deadlocked_run t1 t2 ls e e' :
  deadlocked t1 t2 e -> pub_exec pool ls e = Some e' -> deadlocked t1 t2 e' /\ p_conn (e_pub e') = p_conn (e_pub e).
Proof.
  revert e. induction ls as [|[t i] ls IH]; intros e D E; cbn in E; [by injection E as <-|].
  destruct (pub_next pool i t e) as [e1|] eqn:E1; [|done]. cbn in E.
  destruct (deadlocked_step _ _ _ _ _ _ D E1) as [D1 C1]. destruct (IH e1 D1 E) as [D2 C2]. split; [done|congruence].
Qed.

Lemma deadlocked_threads t1 t2 ls e e' :
  deadlocked t1 t2 e -> pub_exec pool ls e = Some e' ->
  e_threads e' !! t1 = e_threads e !! t1 /\ e_threads e' !! t2 = e_threads e !! t2.
Proof.
  revert e. induction ls as [|[t i] ls IH]; intros e D E; cbn in E; [by injection E as <-|].
  destruct (pub_next pool i t e) as [e1|] eqn:E1; [|done]. cbn in E.
  destruct (IH e1 (proj1 (deadlocked_step _ _ _ _ _ _ D E1)) E) as [-> ->].
  destruct (deadlocked_blocked _ _ _ i D) as [B1 B2].
  destruct (pub_next_move _ _ _ _ E1) as (th & _ & [-> |(th' & -> & _)]); [done|].
  rewrite !lookup_insert_ne by (intros ->; congruence). done.
Qed.

Lemma pub_exec_locks ls e e' : locks_ok e -> pub_exec pool ls e = Some e' -> locks_ok e'.
Proof.
  revert e. induction ls as [|[t i] ls IH]; intros e L E; cbn in E; [by injection E as <-|].
  destruct (pub_next pool i t e) as [e1|] eqn:E1; [|done]. cbn in E. eapply IH; [|done]. by eapply pub_next_locks.
Qed.

Lemma start_locks p progs : locks_ok (start p progs).
Proof.
  assert (Hl : forall holds, holds Idle = false -> lock_ok holds None (e_threads (start p progs))).
  { intros holds Hh t. split; [done|]. intros (th & (pr & _ & ->)%start_threads & Hb). cbn in Hb. congruence. }
  split_and!; by apply Hl.
Qed.

(** ** Progress without [Close] *)

(** Steps a goroutine still has to make: a bound. *)
Definition ret_work (ret : option bytes) : nat := match ret with Some _ => 7 | None => 0 end.
Definition cont_work (k : cont) : nat :=
  match k with
  | KReturn | KIgnore => 0
  | KRekey ret _ _ => 1 + ret_work ret
  | KReplay _ rest => 1 + 4 * length rest
  end.
Definition pc_work (c : pc) : nat :=
  match c with
  | Idle => 0
  | PubCount _ => 16
  | RekeyLock ret => 8 + ret_work ret
  | RekeyKey ret => 7 + ret_work ret
  | RekeySeq ret _ => 6 + ret_work ret
  | RekeySeal ret _ _ _ => 5 + ret_work ret
  | RekeyUpdate ret _ _ => 1 + ret_work ret
  | SendLock _ k => 3 + cont_work k
  | SendConn _ k => 2 + cont_work k
  | SendWrite _ k => 1 + cont_work k
  | PubCipher _ => 7
  | PubSeq _ => 6
  | PubPush _ _ => 5
  | PubSeal _ _ => 4
  | SyncGet _ => 404
  | SyncCipher items => 3 + 4 * length items
  | SyncConn _ items => 2 + 4 * length items
  | SyncSeal _ rest => 1 + 4 * length rest
  | JoinPass _ => 5
  | JoinKey _ => 4
  | AckSend => 1
  | _ => 0
  end.
Definition op_work (o : op) : nat :=
  match o with
  | OpPublish _ => 17 | OpRekey => 9 | OpHeartbeat => 4 | OpJoin _ => 6 | OpSync _ => 405 | OpAck => 2 | OpClose => 1
  end.
Definition thread_work (th : thread) : nat :=
  pc_work (t_pc th) + sum_list_with op_work (t_todo th) + sum_list_with op_work (t_onerr th).
Definition work (e : Engine) : nat := sum_list_with (fun tt => thread_work tt.2) (map_to_list (e_threads e)).

Lemma sum_list_with_perm {A} (f : A -> nat) l1 l2 : l1 ≡ₚ l2 -> sum_list_with f l1 = sum_list_with f l2.
Proof. induction 1; cbn; lia. Qed.

Lemma work_replace e e' t th th' :
  e_threads e !! t = Some th -> e_threads e' = <[t := th']> (e_threads e) ->
  (work e' + thread_work th = work e + thread_work th')%nat.
Proof.
  intros Ht Et. unfold work. rewrite Et, <- insert_delete_eq.
  rewrite (sum_list_with_perm _ _ _ (map_to_list_insert (delete t (e_threads e)) t th' (lookup_delete_eq _ _))).
  rewrite <- (insert_delete_id _ _ _ Ht) at 2.
  rewrite (sum_list_with_perm _ _ _ (map_to_list_insert (delete t (e_threads e)) t th (lookup_delete_eq _ _))). cbn. lia.
Qed.

(** No goroutine is in [Close] or will call it. *)
Definition is_close (c : pc) : bool :=
  match c with CloseLock | CloseWrite | CloseEncode | CloseConn | CloseCipher | CloseWipe => true | _ => false end.
Definition no_close (th : thread) : Prop :=
  is_close (t_pc th) = false /\ (OpClose ∉ t_todo th) /\ (OpClose ∉ t_onerr th).
Definition streaming (e : Engine) : Prop :=
  p_closed (e_pub e) = false /\ forall t th, e_threads e !! t = Some th -> no_close th.

Definition unfinished (th : thread) : Prop := t_pc th <> Idle \/ t_todo th <> [].
Definition finished (e : Engine) : Prop :=
  forall t th, e_threads e !! t = Some th -> t_pc th = Idle /\ t_todo th = [].

Lemma streaming_free I e : einv I e -> streaming e -> e_mu e = None /\ e_panic e = false.
Proof.
  intros HI [Hc Hn]. split.
  - destruct (e_mu e) as [t|] eqn:Em; [|done]. pose proof (v_mu _ _ HI) as L. rewrite Em in L.
    destruct (proj1 (L t) eq_refl) as (th & Ht & Hh). destruct (Hn _ _ Ht) as [H _]. by destruct (t_pc th).
  - destruct (e_panic e) eqn:Ep; [|done]. pose proof (v_panic _ _ HI Ep). congruence.
Qed.

(** A goroutine is only ever blocked by a held lock it wants. *)
Lemma can_step e i t th :
  e_mu e = None -> e_panic e = false -> e_threads e !! t = Some th -> is_close (t_pc th) = false -> unfinished th ->
  (forall ret, t_pc th = RekeyLock ret -> e_rekeyMu e = None) ->
  (forall env k, t_pc th = SendLock env k -> e_writeMu e = None) ->
  is_Some (pub_next pool i t e).
Proof.
  intros Em Ep Ht Hc Hu Hr Hw. unfold pub_next. rewrite Ep, Ht. destruct th as [c todo onerr]. cbn [t_pc t_todo] in *.
  destruct c; try done; cbn [step_thread t_pc idleStep publishStep rekeyStep sendStep syncStep]; unfold locked, idleStep;
    rewrite ?Em; cbn [t_todo]; try (erewrite ?Hr, ?Hw by done); try (by eexists).
  - destruct Hu as [Hu|Hu]; [done|]. cbn in Hu. destruct todo; [done|by eexists].
  - case_match; by eexists.
  - case_match; by eexists.
  - case_match; by eexists.
  - destruct (GetAfter _ _ _). by eexists.
  - destruct rest as [|[n s] rest]; by eexists.
Qed.

Lemma streaming_progress I e i :
  einv I e -> streaming e -> (exists t th, e_threads e !! t = Some th /\ unfinished th) ->
  exists t, is_Some (pub_next pool i t e).
Proof.
  intros HI Hs (t & th & Ht & Hu). destruct (streaming_free _ _ HI Hs) as [Em Ep]. destruct Hs as [_ Hn].
  assert (Hgo : forall t2 th2, e_threads e !! t2 = Some th2 -> unfinished th2 ->
    (forall ret, t_pc th2 = RekeyLock ret -> e_rekeyMu e = None) ->
    (forall env k, t_pc th2 = SendLock env k -> e_writeMu e = None) -> exists t, is_Some (pub_next pool i t e)).
  { intros t2 th2 H2 U2 R2 W2. exists t2. eapply can_step; try done. by destruct (Hn _ _ H2). }
  destruct (e_writeMu e) as [tw|] eqn:Ew.
  - pose proof (v_write _ _ HI) as L. rewrite Ew in L. destruct (proj1 (L tw) eq_refl) as (x & Hx & Hh).
    apply (Hgo tw x Hx); [left|..]; by destruct (t_pc x).
  - destruct (e_rekeyMu e) as [tr|] eqn:Er; [|by apply (Hgo t th)].
    pose proof (v_rekey _ _ HI) as L. rewrite Er in L. destruct (proj1 (L tr) eq_refl) as (x & Hx & Hh).
    apply (Hgo tr x Hx); [left|..]; by destruct (t_pc x).
Qed.

(** A step of a goroutine outside [Close] brings it closer to its end. *)
Definition advances (t : nat) (th : thread) (e e' : Engine) : Prop :=
  exists th', e_threads e' = <[t := th']> (e_threads e) /\ (thread_work th' < thread_work th)%nat /\ (no_close th -> no_close th').

Ltac advanced := eexists; (split; [reflexivity|]); (split; [unfold thread_work; cbn; lia|]); unfold no_close; cbn; intros (? & ? & ?);
  split_and!; (done || (by apply not_elem_of_nil)).

Lemma rekeyDone_advances t c ret ok e e0 todo onerr :
  is_close c = false -> (ret_work ret < pc_work c)%nat -> e_threads e0 = e_threads e ->
  advances t (mkThread c todo onerr) e (rekeyDone t (mkThread c todo onerr) ret ok e0).
Proof.
  intros Hc Hw Et. unfold rekeyDone, return_ok, return_err.
  destruct ret, ok; eexists; (split; [cbn; rewrite Et; reflexivity|]); (split; [unfold thread_work; cbn in *; lia|]);
    unfold no_close; cbn; intros (? & ? & ?); split_and!; (done || (by apply not_elem_of_nil)).
Qed.

Lemma sent_advances t c env k r e e0 todo onerr :
  c = SendConn env k \/ c = SendWrite env k -> e_threads e0 = e_threads e ->
  advances t (mkThread c todo onerr) e (sent t (mkThread c todo onerr) k r e0).
Proof.
  intros Hc Et. assert (Hw : is_close c = false /\ (cont_work k < pc_work c)%nat) by (destruct Hc as [-> | ->]; cbn [is_close pc_work]; split; (done || lia)).
  destruct Hw as [Hcl Hw]. unfold sent, return_ok, return_err.
  destruct k as [| |ret ck sa|al re], r; cbn in Hw;
    try (by apply rekeyDone_advances; [done|lia|exact Et]);
    (eexists; (split; [cbn; rewrite Et; reflexivity|]); (split; [unfold thread_work; cbn in *; lia|]);
     unfold no_close; cbn; intros (? & ? & ?); split_and!; (done || (by apply not_elem_of_nil))).
Qed.

Lemma pub_next_advances I i t th e e' :
  einv I e -> e_threads e !! t = Some th -> is_close (t_pc th) = false ->
  pub_next pool i t e = Some e' -> e' = panic e \/ advances t th e e'.
Proof.
  intros HI Ht Hc Hs. unfold pub_next in Hs. rewrite Ht in Hs. destruct (e_panic e); [done|].
  destruct th as [c todo onerr].
  destruct c; try done; cbn [step_thread t_pc idleStep publishStep rekeyStep sendStep syncStep] in Hs;
    unfold locked, idleStep, sealNow, replayDone, return_ok, return_err in Hs; cbn [t_todo] in Hs.
  all: try (repeat case_match; simplify_eq; (by left) || (right; (by apply rekeyDone_advances; [done|cbn; lia|]) || (by advanced))).
  - destruct todo as [|o todo]; [done|]. injection Hs as <-. right. eexists. split; [reflexivity|].
    split; [unfold thread_work; destruct o; cbn; lia|]. unfold no_close. cbn. intros (_ & Hn & Hn2).
    apply not_elem_of_cons in Hn as [Ho Hn]. split_and!; [|done|done]. by destruct o.
  - right. destruct (e_mu e); [done|]. destruct (p_conn _); injection Hs as <-; [by advanced|].
    eapply sent_advances; [by left|done].
  - right. destruct (sendFrame _ _ _) as [r p']. injection Hs as <-. eapply sent_advances; [by right|done].
  - right. assert (Hr : ring_inv (p_replayBuffer (e_pub e)) (p_mem (e_pub e)) (held (e_threads e))) by apply (v_ring _ _ HI).
    pose proof (GetAfter_spec lastSeqNum _ _ _ Hr) as HG. destruct (GetAfter _ _ _) as [items m]. destruct HG as (_ & _ & _ & H4).
    apply (f_equal length) in H4. rewrite length_fmap in H4. injection Hs as <-.
    assert (length items <= 100)%nat.
    { rewrite H4. unfold RingSpec.after. etrans; [apply length_filter|]. rewrite length_abs, <- (v_cap _ _ HI). apply (inv_size _ _ _ Hr). }
    by advanced.
Qed.

(** While the engine is open a ratchet finds its cipher. *)
Lemma streaming_no_panic I i t e e' :
  einv I e -> streaming e -> pub_next pool i t e = Some e' -> e' <> panic e.
Proof.
  intros HI Hst Hs ->. pose proof HI as HI0. destruct (streaming_free _ _ HI Hst) as [Em Ep]. destruct Hst as [Hcl Hn].
  assert (Hc : exists c, p_cipher (e_pub e) = Some c).
  { pose proof (v_keys _ _ HI) as Hk. unfold keys_ok, key_inv in Hk. rewrite Em, Hcl in Hk. destruct Hk as (k & _ & Hk & _). eauto. }
  destruct Hc as [ciph Hci].
  assert (Hpan : forall e1, e_panic e1 = e_panic e -> Some e1 <> Some (panic e)).
  { intros e1 E1 [= ->]. cbn in E1. congruence. }
  destruct (e_threads e !! t) as [th|] eqn:Ht; unfold pub_next in Hs; rewrite Ep, Ht in Hs; [|done].
  destruct th as [c todo onerr]. destruct (Hn _ _ Ht) as [Hx _].
  assert (Hrd : forall ret ok e0, e_panic e0 = e_panic e -> e_panic (rekeyDone t (mkThread c todo onerr) ret ok e0) = e_panic e)
    by (intros [] [] ex Ex; exact Ex).
  assert (Hse : forall k r e0, e_panic e0 = e_panic e -> e_panic (sent t (mkThread c todo onerr) k r e0) = e_panic e)
    by (intros [] [] ex Ex; (exact Ex || (by apply Hrd))).
  destruct c; try done; cbn [step_thread t_pc publishStep rekeyStep sendStep syncStep] in Hs;
    unfold locked, idleStep, sealNow, replayDone, return_ok, return_err in Hs; cbn [t_todo] in Hs; rewrite ?Em, ?Hci in Hs.
  all: revert Hs; repeat case_match; try done; apply Hpan; (done || (by apply Hrd) || (by apply Hse)).
Qed.

Lemma streaming_step I i t e e' :
  einv I e -> streaming e -> pub_next pool i t e = Some e' -> streaming e' /\ (work e' < work e)%nat.
Proof.
  intros HI Hst Hs. pose proof (streaming_no_panic _ _ _ _ _ HI Hst Hs) as Hnp.
  destruct (pub_next_move i t e e' Hs) as (th & Ht & _). destruct Hst as [Hcl Hn]. pose proof (Hn _ _ Ht) as Hnc.
  destruct (pub_next_advances I i t th e e' HI Ht (proj1 Hnc) Hs) as [|(th' & Et & Hw & Hk)]; [done|].
  split; [split|].
  - destruct (pub_next_change _ _ _ _ _ Hs) as [| | | | | |t2 th2 H2 E2|]; try done.
    destruct (Hn _ _ H2) as [Hx _]. by rewrite E2 in Hx.
  - rewrite Et. intros t2 th2. destruct (decide (t = t2)) as [<-|Hne].
    + rewrite lookup_insert_eq. intros [= <-]. by apply Hk.
    + rewrite lookup_insert_ne by done. apply Hn.
  - pose proof (work_replace _ _ _ _ _ Ht Et). lia.
Qed.

Lemma streaming_exec I ls e e' :
  einv I e -> streaming e -> p_seqCounter (e_pub e) + Z.of_nat (work e) < 2 ^ 64 -> pub_exec pool ls e = Some e' ->
  (exists I', einv I' e') /\ streaming e' /\ (work e' + length ls <= work e)%nat /\
  p_seqCounter (e_pub e') + Z.of_nat (work e') < 2 ^ 64.
Proof.
  revert I e. induction ls as [|[t i] ls IH]; intros I e HI Hst Hr E; cbn in E.
  { injection E as <-. split_and!; eauto. cbn. lia. }
  destruct (pub_next pool i t e) as [e1|] eqn:E1; [|done]. cbn in E. pose proof (v_seq _ _ HI).
  destruct (streaming_step I i t e e1 HI Hst E1) as [Hst1 Hw1].
  destruct (pub_next_inv pool I i t e e1 HI ltac:(lia) E1) as [I1 HI1].
  pose proof (pub_next_seq _ _ _ _ _ E1 ltac:(lia) ltac:(lia)).
  destruct (IH I1 e1 HI1 Hst1 ltac:(lia) E) as (A & B & C & D). split_and!; try done. cbn. lia.
Qed.

Definition is_done (th : thread) : bool := match t_pc th, t_todo th with Idle, [] => true | _, _ => false end.

Lemma is_done_spec th :
  (is_done th = true -> t_pc th = Idle /\ t_todo th = []) /\ (is_done th = false -> unfinished th).
Proof. unfold is_done, unfinished. destruct (t_pc th), (t_todo th); split; intros; try done; (by left) || (by right). Qed.

(** All goroutines can be run to their end. *)
Lemma streaming_finishes I i e :
  einv I e -> streaming e -> p_seqCounter (e_pub e) + Z.of_nat (work e) < 2 ^ 64 ->
  exists ts e', pub_exec pool ((fun t => (t, i)) <$> ts) e = Some e' /\ finished e'.
Proof.
  remember (work e) as n eqn:Hn. revert I e Hn. induction (lt_wf n) as [n _ IH]. intros I e -> HI Hst Hr.
  destruct (forallb (fun tt => is_done tt.2) (map_to_list (e_threads e))) eqn:Hf.
  { exists [], e. split; [done|]. intros t th Ht%elem_of_map_to_list%list_elem_of_In. rewrite forallb_forall in Hf.
    apply is_done_spec, (Hf (t, th) Ht). }
  destruct (streaming_progress I e i HI Hst) as [t [e1 E1]].
  { assert (Hx : exists tt, tt ∈ map_to_list (e_threads e) /\ is_done tt.2 = false).
    { induction (map_to_list (e_threads e)) as [|tt l IHl]; [done|]. cbn in Hf. apply andb_false_iff in Hf as [Hf|Hf].
      - exists tt. split; [apply list_elem_of_here|done].
      - destruct (IHl Hf) as (x & Hx & Hd). exists x. split; [by apply list_elem_of_further|done]. }
    destruct Hx as ([t th] & Hin%elem_of_map_to_list & Hx). exists t, th. split; [done|]. by apply is_done_spec. }
  pose proof (v_seq _ _ HI). destruct (streaming_step I i t e e1 HI Hst E1) as [Hst1 Hw1].
  destruct (pub_next_inv pool I i t e e1 HI ltac:(lia) E1) as [I1 HI1].
  pose proof (pub_next_seq _ _ _ _ _ E1 ltac:(lia) ltac:(lia)).
  destruct (IH (work e1) Hw1 I1 e1 eq_refl HI1 Hst1 ltac:(lia)) as (ts & e' & E2 & Hfin).
  exists (t :: ts), e'. split; [|done]. cbn. by rewrite E1.
Qed.
End Progress.

(** * Properties *)

(** C15: [Close] can deadlock with a frame being sent.  [sendFrame] takes
    [writeMu] and then [mu], [Close] takes [mu] and then [writeMu].  Whenever one
    goroutine is about to send a frame and another about to close an open, connected
    engine with both mutexes free, two steps lead to a state from which, whatever
    the other goroutines do, both stay blocked for ever: [Close] never returns, no
    secret is wiped, and nothing is written to the connection any more. *)
Theorem close_deadlock `{AEAD} `{KeyExchange} pool p progs ls e t1 t2 env k todo1 onerr1 todo2 onerr2 i1 i2 :
  pub_exec pool ls (start p progs) = Some e -> e_panic e = false -> e_mu e = None -> e_writeMu e = None ->
  p_closed (e_pub e) = false -> p_conn (e_pub e) <> None ->
  e_threads e !! t1 = Some (mkThread (SendLock env k) todo1 onerr1) ->
  e_threads e !! t2 = Some (mkThread CloseLock todo2 onerr2) ->
  exists e1, pub_exec pool [(t1, i1); (t2, i2)] e = Some e1 /\
    forall ls' e2, pub_exec pool ls' e1 = Some e2 ->
      (forall i, pub_next pool i t1 e2 = None /\ pub_next pool i t2 e2 = None) /\
      t_pc <$> e_threads e2 !! t1 = Some (SendConn env k) /\ t_pc <$> e_threads e2 !! t2 = Some CloseWrite /\
      p_conn (e_pub e2) = p_conn (e_pub e1).
Proof.
  intros E Hpa Em Ew Hcl Hco H1 H2.
  assert (Hne : t1 <> t2) by (intros ->; congruence).
  pose proof (pub_exec_locks pool ls _ e (start_locks p progs) E) as L.
  assert (E1 : exists e1, pub_exec pool [(t1, i1); (t2, i2)] e = Some e1 /\
    e_threads e1 !! t1 = Some (mkThread (SendConn env k) todo1 onerr1) /\
    e_threads e1 !! t2 = Some (mkThread CloseWrite todo2 onerr2)).
  { set (th1 := mkThread (SendLock env k) todo1 onerr1) in *. set (th2 := mkThread CloseLock todo2 onerr2) in *.
    assert (Sa : pub_next pool i1 t1 e = Some (goto t1 th1 (SendConn env k) (set_writeMu (Some t1) e))).
    { unfold pub_next. rewrite Hpa, H1. cbn. by rewrite Ew. }
    set (ea := goto _ _ _ _) in Sa.
    assert (Sb : pub_next pool i2 t2 ea = Some (goto t2 th2 CloseWrite (set_mu (Some t2) (set_pub (set_closed (e_pub ea)) ea)))).
    { unfold pub_next, ea. cbn. rewrite Hpa, lookup_insert_ne, H2 by done. cbn. unfold locked. cbn. rewrite Em, Hcl.
      by destruct (p_conn (e_pub e)). }
    eexists. split; [cbn [pub_exec]; rewrite Sa; cbn [mbind option_bind]; rewrite Sb; reflexivity|]. cbn.
    rewrite (lookup_insert_ne _ t2 t1), !lookup_insert_eq by done. done. }
  destruct E1 as (e1 & E1 & T1 & T2). exists e1. split; [done|]. intros ls' e2 E2.
  assert (D : deadlocked t1 t2 e1) by (split; [by eapply pub_exec_locks|eauto 10]).
  destruct (deadlocked_run _ _ _ _ _ _ D E2) as [D2 C2]. split; [intros i; by eapply deadlocked_blocked|].
  destruct (proj2 D2) as [(env2 & k2 & a1 & b1 & S1) (a2 & b2 & S2)].
  destruct (deadlocked_threads pool t1 t2 ls' e1 e2 D E2) as [-> ->]. by rewrite T1, T2.
Qed.

(** C14: Without [Close] the publisher's goroutines never block each other for
    good.  For any goroutines making any calls but [Close], in any interleaving:
    every run is finite, with a bound fixed by the calls; in every state some
    goroutine that is not finished can take a step; and from every state all of them
    can be run to the end of their calls. *)
Theorem streaming_completes `{AEAD} `{KeyExchange} pool p progs ls e i :
  pub_inv p -> abs (p_replayBuffer p) (p_mem p) = [] -> p_closed p = false ->
  (forall t todo onerr, progs !! t = Some (todo, onerr) -> OpClose ∉ todo ++ onerr) ->
  p_seqCounter p + Z.of_nat (work (start p progs)) < 2 ^ 64 ->
  pub_exec pool ls (start p progs) = Some e ->
  (length ls <= work (start p progs))%nat /\
  ((exists t th, e_threads e !! t = Some th /\ unfinished th) -> exists t, is_Some (pub_next pool i t e)) /\
  exists ts e', pub_exec pool ((fun t => (t, i)) <$> ts) e = Some e' /\ finished e'.
Proof.
  intros Hp Ha Hcl Hpr Hr E. pose proof (start_inv p progs Hp Ha) as HI.
  assert (Hst : streaming (start p progs)).
  { split; [done|]. intros t th ([todo onerr] & Ht & ->)%start_threads. apply Hpr in Ht. rewrite elem_of_app in Ht.
    split; [done|]. cbn. tauto. }
  destruct (streaming_exec pool ∅ ls _ e HI Hst Hr E) as ([I' HI'] & Hst' & Hw & Hr').
  split; [lia|]. split; [by eapply streaming_progress|]. by eapply streaming_finishes.
Qed.

(** A goroutine about to send, another about to close. *)
Definition closing_progs : gmap nat (list op * list op) := {[0%nat := ([OpHeartbeat], []); 1%nat := ([OpClose], [])]}.
Definition closing_engine : Engine := Eval vm_compute in
  default (start sample_pub closing_progs) (pub_exec [] (schedule [0; 1]%nat) (start sample_pub closing_progs)).

Lemma close_deadlock_witness :
  exists e1, pub_exec [] (schedule [0; 1]%nat) closing_engine = Some e1 /\
    forall ls' e2, pub_exec [] ls' e1 = Some e2 ->
      forall i, pub_next [] i 0 e2 = None /\ pub_next [] i 1 e2 = None.
Proof.
  destruct (close_deadlock [] sample_pub closing_progs (schedule [0; 1]%nat) closing_engine 0 1 (heartbeat (zeros 16))
    KIgnore [] [] [] [] sample_input sample_input) as (e1 & E & H);
    [vm_compute; (reflexivity || discriminate)..|].
  exists e1. split; [exact E|]. intros ls' e2 E2. by apply H in E2 as [E2 _].
Defined.

(** The sample run of PubThreads.v, stopped after 20 steps. *)
Definition halfway : Engine := Eval vm_compute in
  default (start sample_pub sample_progs) (pub_exec [] (take 20 sample_sched) (start sample_pub sample_progs)).

Lemma streaming_completes_witness :
  (length (take 20 sample_sched) <= work (start sample_pub sample_progs))%nat /\
  exists ts e', pub_exec [] ((fun t => (t, sample_input)) <$> ts) halfway = Some e' /\ finished e'.
Proof.
  destruct (streaming_completes [] sample_pub sample_progs (take 20 sample_sched) halfway sample_input
    (proj1 sample_pub_inv) (proj2 sample_pub_inv)) as (A & _ & B); [done| |vm_compute; reflexivity..|by split].
  intros t todo onerr Ht. unfold sample_progs in Ht.
  repeat (apply lookup_insert_Some in Ht as [[_ [= <- <-]]|[_ Ht]]; [set_solver|]).
  apply lookup_singleton_Some in Ht as [_ [= <- <-]]. set_solver.
Defined.
