(* ===== verification/Progress.v ===== *)
(** * The progress bar: [pkg/feed/progress.go]

    [FormatBytes] and the bar that [SendFile] and the receiving side of
    [SubscribeStream] draw on standard error.  The bar's writer is the text drawn
    so far, the clock is an argument, and [None] is a panic (an index or a repeat
    count out of range). *)

From Stdlib Require Import Floats.SpecFloat.
From S2P Require Import Prelude Strings Float64.

(** ** Byte counts *)

(** The loop of [FormatBytes]; an [int64] needs at most six turns. *)
Fixpoint unitLoop (fuel : nat) (n div : Z) (exp : nat) : option (Z * nat) :=
  match fuel with
  | O => None
  | S fuel' =>
      if n <? 1024 then Some (div, exp) else unitLoop fuel' (n `quot` 1024) (s64 (div * 1024)) (S exp)
  end.

Definition FormatBytes (b : Z) : option bytes :=
  if b <? 1024 then Some (fmt_d b ++ str " B")
  else
    '(div, exp) ← unitLoop 7 (b `quot` 1024) 1024 0;
    u ← str "KMGTPE" !! exp;
    Some (fmt_f 2 (fdiv (f64 b) (f64 div)) ++ [x20; u; x42]).

(** ** The bar *)

Record ProgressBar := mkProgressBar {
  totalBytes : Z;
  currBytes : Z;
  startTime : Z;
  lastRender : option Z;   (** [None] is the zero [time.Time] *)
  pb_w : bytes;
  pb_quiet : bool
}.

Definition NewProgressBar (total : Z) (quiet : bool) (now : Z) : ProgressBar :=
  mkProgressBar total 0 now None [] quiet.

Definition pb_curr (n : Z) (p : ProgressBar) : ProgressBar :=
  mkProgressBar (totalBytes p) n (startTime p) (lastRender p) (pb_w p) (pb_quiet p).
Definition pb_rendered (now : Z) (p : ProgressBar) : ProgressBar :=
  mkProgressBar (totalBytes p) (currBytes p) (startTime p) (Some now) (pb_w p) (pb_quiet p).
Definition pb_print (s : bytes) (p : ProgressBar) : ProgressBar :=
  mkProgressBar (totalBytes p) (currBytes p) (startTime p) (lastRender p) (pb_w p ++ s) (pb_quiet p).

(** [strings.Repeat] panics on a negative count. *)
Definition Repeat (s : bytes) (n : Z) : option bytes :=
  if n <? 0 then None else Some (concat (replicate (Z.to_nat n) s)).

(** The two cells of the bar, U+2588 and U+2591 in UTF-8. *)
Definition FULL : bytes := [xe2; x96; x88].
Definition EMPTY : bytes := [xe2; x96; x91].
Definition barWidth : Z := 25.

(** [Duration.Seconds] *)
Definition Seconds (d : Z) : spec_float :=
  fadd (f64 (d `quot` 10 ^ 9)) (fdiv (f64 (Z.rem d (10 ^ 9))) (f64 (10 ^ 9))).

(** [now.Sub(p.lastRender) >= 100*time.Millisecond] *)
Definition render_due (now : Z) (p : ProgressBar) : bool :=
  match lastRender p with None => true | Some t => 100 * 10 ^ 6 <=? time_sub now t end.

Section Render.
(** What the machine makes of a float that fits no [int64]. *)
Variable oor : spec_float -> Z.

Definition percent (p : ProgressBar) : spec_float :=
  let pct := fmul (fdiv (f64 (currBytes p)) (f64 (totalBytes p))) (f64 100) in
  if fgt pct (f64 100) then f64 100 else pct.

Definition filledCells (pct : spec_float) : Z :=
  let filled := to_int oor (fmul (f64 barWidth) (fdiv pct (f64 100))) in
  let filled := if barWidth <? filled then barWidth else filled in
  if filled <? 0 then 0 else filled.

Definition barText (pct : spec_float) : option bytes :=
  let filled := filledCells pct in
  full ← Repeat FULL filled;
  empty ← Repeat EMPTY (barWidth - filled);
  Some (full ++ empty).

Definition speedBytesSec (now : Z) (p : ProgressBar) : spec_float :=
  let elapsed := Seconds (time_sub now (startTime p)) in
  if fgt elapsed (f64 0) then fdiv (f64 (currBytes p)) elapsed else f64 0.

Definition etaText (speed : spec_float) (p : ProgressBar) : bytes :=
  if fgt speed (f64 0) && (currBytes p <? totalBytes p) then
    let etaSec := to_int oor (fdiv (f64 (s64 (totalBytes p - currBytes p))) speed) in
    fmt_02d (etaSec `quot` 60) ++ x3a :: fmt_02d (Z.rem etaSec 60)
  else str "00:00".

Definition lineText (bar pct curr tot speed eta : bytes) : bytes :=
  x0d :: str " [" ++ bar ++ str "] " ++ pct ++ str "% | " ++ curr ++ str " / " ++ tot ++ str " | " ++
  speed ++ str " | ETA " ++ eta.

Definition render (now : Z) (p : ProgressBar) : option ProgressBar :=
  let pct := percent p in
  bar ← barText pct;
  let speed := speedBytesSec now p in
  let etaStr := etaText speed p in
  currStr ← FormatBytes (currBytes p);
  totStr ← FormatBytes (totalBytes p);
  speedB ← FormatBytes (to_int oor speed);
  let line := lineText bar (pad_left 5 (fmt_f 1 pct)) currStr totStr (speedB ++ str "/s") etaStr in
  Some (pb_print (line ++ if totalBytes p <=? currBytes p then [x0a] else []) p).

(** [Add] and [Finish] on a [*ProgressBar], which may be nil; [now] and [now'] are
    the clock in [Add] and in the [render] it calls. *)
Definition Add (n now now' : Z) (p : option ProgressBar) : option (option ProgressBar) :=
  match p with
  | None => Some None
  | Some p =>
      if pb_quiet p || (totalBytes p <=? 0) then Some (Some p)
      else
        let p := pb_curr (s64 (currBytes p + n)) p in
        if render_due now p || (totalBytes p <=? currBytes p)
        then p' ← render now' p; Some (Some (pb_rendered now p'))
        else Some (Some p)
  end.

Definition Finish (now : Z) (p : option ProgressBar) : option (option ProgressBar) :=
  match p with
  | None => Some None
  | Some p => if pb_quiet p then Some (Some p) else Some <$> render now (pb_curr (totalBytes p) p)
  end.

(** A transfer: an [Add] for each chunk, at the given times. *)
Fixpoint addChunks (chunks : list (Z * Z * Z)) (p : option ProgressBar) : option (option ProgressBar) :=
  match chunks with
  | [] => Some p
  | (n, now, now') :: chunks => Add n now now' p ≫= addChunks chunks
  end.
End Render.

Example FormatBytes_small : FormatBytes 1023 = Some (str "1023 B").
Proof. reflexivity. Qed.
Example FormatBytes_kb : FormatBytes 1536 = Some (str "1.50 KB").
Proof. reflexivity. Qed.
Example FormatBytes_edge : FormatBytes (1024 * 1024 - 1) = Some (str "1024.00 KB").
Proof. reflexivity. Qed.
Example FormatBytes_max : FormatBytes (2 ^ 63 - 1) = Some (str "8.00 EB").
Proof. reflexivity. Qed.
Example FormatBytes_negative : FormatBytes (-5) = Some (str "-5 B").
Proof. reflexivity. Qed.

(** ** Byte counts are formatted *)

Lemma s64_id z : int64 z -> s64 z = z.
Proof. intros [H1 H2]. unfold s64. rewrite Z.mod_small; lia. Qed.

Lemma unitLoop_spec fuel b exp :
  1024 ^ Z.of_nat (S exp) <= b < 2 ^ 63 -> (6 <= fuel + exp)%nat -> (0 < fuel)%nat ->
  exists j, unitLoop fuel (b `div` 1024 ^ Z.of_nat (S exp)) (1024 ^ Z.of_nat (S exp)) exp = Some (1024 ^ Z.of_nat (S j), j) /\
    1024 ^ Z.of_nat (S j) <= b < 1024 ^ Z.of_nat (S (S j)) /\ (j <= 5)%nat.
Proof.
  revert exp. induction fuel as [|fuel IH]; intros exp [Hb Hm] Hf H0; [lia|]. cbn [unitLoop].
  assert (Hx : (exp <= 5)%nat).
  { destruct (Nat.le_gt_cases exp 5); [done|]. exfalso.
    pose proof (Z.pow_le_mono_r 1024 (Z.of_nat 7) (Z.of_nat (S exp)) ltac:(lia) ltac:(lia)). lia. }
  pose proof (Z.pow_pos_nonneg 1024 (Z.of_nat (S exp)) ltac:(lia) ltac:(lia)) as Hp.
  assert (Ep : 1024 ^ Z.of_nat (S (S exp)) = 1024 ^ Z.of_nat (S exp) * 1024)
    by (rewrite (Nat2Z.inj_succ (S exp)), Z.pow_succ_r by lia; lia).
  destruct (Z.ltb_spec (b `div` 1024 ^ Z.of_nat (S exp)) 1024) as [Hlt|Hge].
  - exists exp. split; [done|]. split; [|done]. split; [done|]. rewrite Ep.
    pose proof (Z.div_mod b (1024 ^ Z.of_nat (S exp)) ltac:(lia)). pose proof (Z.mod_pos_bound b (1024 ^ Z.of_nat (S exp)) Hp). nia.
  - assert (Hb2 : 1024 ^ Z.of_nat (S (S exp)) <= b).
    { rewrite Ep. pose proof (Z.mul_div_le b (1024 ^ Z.of_nat (S exp)) Hp). nia. }
    rewrite Z.quot_div_nonneg, Z.div_div, <- Ep, s64_id; [|split; lia|lia..].
    apply IH; [lia..|]. destruct fuel; [|lia]. assert (exp = 5%nat) as -> by lia.
    change (1024 ^ Z.of_nat 7) with (2 ^ 70) in Hb2. lia.
Qed.

Lemma FormatBytes_units b :
  1024 <= b < 2 ^ 63 ->
  exists j u, str "KMGTPE" !! j = Some u /\ 1024 ^ Z.of_nat (S j) <= b < 1024 ^ Z.of_nat (S (S j)) /\ (j <= 5)%nat /\
    FormatBytes b = Some (fmt_f 2 (fdiv (f64 b) (f64 (1024 ^ Z.of_nat (S j)))) ++ [x20; u; x42]).
Proof.
  intros Hb. destruct (unitLoop_spec 7 b 0) as (j & E & Hj & H5); [lia..|].
  destruct (lookup_lt_is_Some_2 (str "KMGTPE") j) as [u Hu]; [cbn; lia|]. exists j, u. split; [done|]. split; [done|]. split; [done|].
  unfold FormatBytes. destruct (Z.ltb_spec b 1024); [lia|].
  change (1024 ^ Z.of_nat 1) with 1024 in E. rewrite Z.quot_div_nonneg by lia.
  rewrite E. cbn [mbind option_bind]. by rewrite Hu.
Qed.

Lemma FormatBytes_total b : int64 b -> is_Some (FormatBytes b).
Proof.
  intros [_ Hb]. destruct (Z.lt_ge_cases b 1024) as [H|H].
  - unfold FormatBytes. destruct (Z.ltb_spec b 1024); [by eexists|lia].
  - destruct (FormatBytes_units b ltac:(lia)) as (j & u & _ & _ & _ & ->). by eexists.
Qed.

(** The quotient by a power of 1024 is exact and printed to the nearest hundredth. *)
Lemma fmt_quotient b j :
  (j <= 4)%nat -> 1024 ^ Z.of_nat (S j) <= b < 2 ^ 53 -> b < 1024 ^ Z.of_nat (S (S j)) ->
  fmt_f 2 (fdiv (f64 b) (f64 (1024 ^ Z.of_nat (S j)))) = decimal 2 (half_even (b * 100) (1024 ^ Z.of_nat (S j))).
Proof.
  intros Hj Hb Hb2. pose proof (Z.pow_pos_nonneg 1024 (Z.of_nat (S j)) ltac:(lia) ltac:(lia)) as Hp.
  destruct (f64_exact b ltac:(lia)) as (m & -> & Em & Hm).
  assert (Hl : Z.log2 b <= 52) by (pose proof (Z.log2_lt_pow2 b 53 ltac:(lia)); lia).
  pose proof (Z.log2_nonneg b) as Hl0.
  set (k := 10 * Z.of_nat (S j)).
  assert (Ek : 1024 ^ Z.of_nat (S j) = 2 ^ k) by (unfold k; rewrite Z.pow_mul_r by lia; done).
  assert (Ed : f64 (1024 ^ Z.of_nat (S j)) = S754_finite false (2 ^ 52) (k - 52)).
  { unfold k. do 5 (destruct j as [|j]; [reflexivity|]). lia. }
  rewrite Ed, fdiv_pow2 by (done || unfold k in *; lia). unfold fmt_f.
  destruct (Z.leb_spec 0 (Z.log2 b - 52 - (k - 52) - 52)); [unfold k in *; lia|]. cbn [app]. f_equal.
  rewrite Em, Ek. replace (- (Z.log2 b - 52 - (k - 52) - 52)) with (k + (52 - Z.log2 b)) by lia.
  rewrite Z.pow_add_r by (unfold k; lia).
  replace (b * 2 ^ (52 - Z.log2 b) * 10 ^ Z.of_nat 2) with (b * 100 * 2 ^ (52 - Z.log2 b)) by lia.
  apply half_even_scale; apply Z.pow_pos_nonneg; unfold k; lia.
Qed.

(** ** Rendering *)

Section Facts.
Variable oor : spec_float -> Z.
Hypothesis oor_int64 : forall x, int64 (oor x).

Lemma to_int_int64 x : int64 (to_int oor x).
Proof using oor_int64.
  unfold to_int. destruct (ftrunc x) as [z|]; [|done].
  destruct (Z.leb_spec (- 2 ^ 63) z), (Z.ltb_spec z (2 ^ 63)); cbn [andb]; (done || by split).
Qed.

Lemma filledCells_range pct : 0 <= filledCells oor pct <= barWidth.
Proof. unfold filledCells, barWidth. repeat case_match; lia. Qed.

Lemma barText_run pct :
  barText oor pct = Some (concat (replicate (Z.to_nat (filledCells oor pct)) FULL) ++
    concat (replicate (Z.to_nat (barWidth - filledCells oor pct)) EMPTY)).
Proof.
  pose proof (filledCells_range pct) as Hr. unfold barText, Repeat.
  destruct (Z.ltb_spec (filledCells oor pct) 0); [lia|]. cbn [mbind option_bind].
  by destruct (Z.ltb_spec (barWidth - filledCells oor pct) 0); [lia|].
Qed.

(** Drawing never panics, and appends one line. *)
Lemma render_run now p :
  int64 (currBytes p) -> int64 (totalBytes p) ->
  exists bar curr tot speed, barText oor (percent p) = Some bar /\ FormatBytes (currBytes p) = Some curr /\
    FormatBytes (totalBytes p) = Some tot /\ FormatBytes (to_int oor (speedBytesSec now p)) = Some speed /\
    render oor now p = Some (pb_print (lineText bar (pad_left 5 (fmt_f 1 (percent p))) curr tot (speed ++ str "/s")
      (etaText oor (speedBytesSec now p) p) ++ if totalBytes p <=? currBytes p then [x0a] else []) p).
Proof using oor_int64.
  intros Hc Ht. destruct (FormatBytes_total _ Hc) as [curr Ec], (FormatBytes_total _ Ht) as [tot Et].
  destruct (FormatBytes_total _ (to_int_int64 (speedBytesSec now p))) as [speed Es].
  eexists _, curr, tot, speed. split; [apply barText_run|]. split_and!; try done.
  unfold render. rewrite barText_run. cbn [mbind option_bind]. rewrite Ec. cbn [option_bind].
  rewrite Et. cbn [option_bind]. by rewrite Es.
Qed.

(** Nothing sent yet: the speed is zero. *)
Lemma speed_zero now p : currBytes p = 0 -> speedBytesSec now p = f64 0.
Proof.
  intros E. unfold speedBytesSec. rewrite E. destruct (Seconds _) as [[]|[]| |[] m e]; reflexivity.
Qed.

(** The line of a finished transfer. *)
Definition done_line (tot speed : bytes) : bytes :=
  lineText (concat (replicate 25 FULL)) (str "100.0") tot tot (speed ++ str "/s") (str "00:00") ++ [x0a].

Lemma percent_done p : currBytes p = totalBytes p -> 0 < totalBytes p < 2 ^ 63 -> percent p = f64 100.
Proof.
  intros Ec Ht. destruct (f64_finite _ Ht) as (m & e & E). unfold percent. by rewrite Ec, E, fdiv_self.
Qed.

Lemma render_done now p :
  currBytes p = totalBytes p -> 0 < totalBytes p < 2 ^ 63 ->
  exists tot speed, FormatBytes (totalBytes p) = Some tot /\ render oor now p = Some (pb_print (done_line tot speed) p).
Proof using oor_int64.
  intros Ec Ht. assert (Hi : int64 (totalBytes p)) by (split; lia).
  destruct (render_run now p) as (bar & curr & tot & speed & Eb & Ecu & Et & _ & E); [by rewrite Ec|done|].
  exists tot, speed. split; [done|]. rewrite E. rewrite Ec in Ecu. rewrite Et in Ecu. injection Ecu as <-.
  rewrite percent_done in Eb |- * by done. vm_compute in Eb. injection Eb as <-.
  unfold etaText, done_line. rewrite Ec, Z.ltb_irrefl, Z.leb_refl, andb_false_r. done.
Qed.

(** A bar in the middle of a transfer of [total] bytes. *)
Definition active (total : Z) (p : ProgressBar) : Prop :=
  pb_quiet p = false /\ totalBytes p = total /\ 0 < total < 2 ^ 63 /\ 0 <= currBytes p <= total.

Lemma Add_run total n now now' p :
  active total p -> 0 < n -> currBytes p + n <= total ->
  exists p' t, Add oor n now now' (Some p) = Some (Some p') /\ active total p' /\ currBytes p' = currBytes p + n /\
    pb_w p' = pb_w p ++ t /\
    (currBytes p' = total -> exists tot speed, FormatBytes total = Some tot /\ t = done_line tot speed).
Proof using oor_int64.
  intros (Hq & <- & Ht & Hc) Hn Hle. unfold Add. rewrite Hq. destruct (Z.leb_spec (totalBytes p) 0); [lia|]. cbn [orb].
  rewrite s64_id by (split; lia). set (p1 := pb_curr (currBytes p + n) p).
  assert (Ha : active (totalBytes p) p1) by (split_and!; try done; cbn; lia).
  destruct (render_due now p1 || (totalBytes p1 <=? currBytes p1)) eqn:Er.
  - destruct (Z.eq_dec (currBytes p1) (totalBytes p1)) as [Eq|Hne].
    + destruct (render_done now' p1 Eq Ht) as (tot & speed & Et & ->). cbn [mbind option_bind].
      eexists _, (done_line tot speed). repeat (split; [done|]). intros _. by exists tot, speed.
    + destruct (render_run now' p1) as (? & ? & ? & ? & _ & _ & _ & _ & ->); [split; cbn; lia|split; cbn; lia|].
      cbn [mbind option_bind]. eexists _, _. repeat (split; [done|]). by intros.
  - exists p1, []. rewrite app_nil_r. repeat (split; [done|]). intros Eq. apply orb_false_iff in Er as [_ Er].
    cbn in Er, Eq. apply Z.leb_gt in Er. lia.
Qed.

Lemma addChunks_run total chunks p :
  active total p -> Forall (fun c => 0 < c.1.1) chunks -> chunks <> [] ->
  currBytes p + foldr (fun c z => c.1.1 + z) 0 chunks = total ->
  exists p' pre tot speed, addChunks oor chunks (Some p) = Some (Some p') /\ active total p' /\
    FormatBytes total = Some tot /\ pb_w p' = pre ++ done_line tot speed.
Proof using oor_int64.
  intros Ha Hc. revert p Ha. induction Hc as [|[[n now] now'] chunks Hn Hc IH]; intros p Ha Hne Hs; [done|]. cbn in Hn, Hs.
  assert (Hsum : 0 <= foldr (fun c z => c.1.1 + z) 0 chunks).
  { clear -Hc. induction Hc as [|c l Hx _ IHl]; cbn; lia. }
  destruct (Add_run total n now now' p Ha Hn ltac:(lia)) as (p1 & t & E1 & Ha1 & Ec1 & Ew1 & Hd1).
  cbn [addChunks]. rewrite E1. cbn [mbind option_bind]. destruct chunks as [|c chunks].
  - cbn in Hs. destruct (Hd1 ltac:(lia)) as (tot & speed & Et & ->). exists p1, (pb_w p), tot, speed. done.
  - apply IH; [done|done|lia].
Qed.
End Facts.

(** * Properties *)

(** C40: Byte counts are formatted correctly.  [FormatBytes] never runs off its
    table of units, for any [int64]; and for counts from 1024 up to 2^53 it prints
    the quotient by the largest power of 1024 that is not larger, rounded exactly to
    the nearest hundredth (a tie to the even one), with that power's unit: the
    floating-point arithmetic loses nothing. *)
Theorem FormatBytes_spec b :
  (int64 b -> is_Some (FormatBytes b)) /\
  (1024 <= b < 2 ^ 53 -> exists j u, let N := half_even (b * 100) (1024 ^ Z.of_nat (S j)) in
     str "KMGTPE" !! j = Some u /\ 1024 ^ Z.of_nat (S j) <= b < 1024 ^ Z.of_nat (S (S j)) /\
     100 <= N <= 102400 /\ FormatBytes b = Some (decimal 2 N ++ [x20; u; x42])).
Proof.
  split; [apply FormatBytes_total|]. intros Hb. destruct (FormatBytes_units b ltac:(lia)) as (j & u & Hu & Hj & H5 & E).
  exists j, u. intros N. split; [done|]. split; [done|].
  pose proof (Z.pow_pos_nonneg 1024 (Z.of_nat (S j)) ltac:(lia) ltac:(lia)) as Hp.
  assert (Hj4 : (j <= 4)%nat).
  { destruct (Nat.le_gt_cases j 4); [done|]. assert (j = 5%nat) as -> by lia. cbn in Hj. lia. }
  split; [|rewrite E, fmt_quotient by (done || lia); done].
  apply half_even_bounds; [done|]. rewrite (Nat2Z.inj_succ (S j)), Z.pow_succ_r in Hj by lia. lia.
Qed.

(** The bar of a whole transfer.  For a file of [total] bytes sent or received
    in any positive chunks at any times, no drawing panics, and the text ends with
    the line of a finished transfer (25 full cells, 100.0%, the total twice, no time
    left) drawn twice: by the last [Add] and by [Finish].  For an empty file [Add]
    is never called and [Finish] divides zero by zero: the line reads NaN%. *)
Theorem progress_complete oor total chunks t0 t1 :
  (forall x, int64 (oor x)) ->
  (0 < total < 2 ^ 63 -> Forall (fun c => 0 < c.1.1) chunks -> foldr (fun c z => c.1.1 + z) 0 chunks = total ->
   exists p pre tot s1 s2, FormatBytes total = Some tot /\
     addChunks oor chunks (Some (NewProgressBar total false t0)) ≫= Finish oor t1 = Some (Some p) /\
     pb_w p = pre ++ done_line tot s1 ++ done_line tot s2) /\
  (exists p bar, Finish oor t1 (Some (NewProgressBar 0 false t0)) = Some (Some p) /\
     pb_w p = lineText bar (str "  NaN") (str "0 B") (str "0 B") (str "0 B/s") (str "00:00") ++ [x0a]).
Proof.
  intros Ho. split.
  - intros Ht Hc Hs. assert (Ha : active total (NewProgressBar total false t0)) by (split_and!; try done; cbn; lia).
    destruct (addChunks_run oor Ho total chunks _ Ha Hc) as (p & pre & tot & s1 & E & (Hq & Et & _ & _) & Ef & Ew);
      [intros ->; cbn in Hs; lia|done|].
    rewrite E. cbn [mbind option_bind Finish]. rewrite Hq.
    destruct (render_done oor Ho t1 (pb_curr (totalBytes p) p) eq_refl ltac:(cbn; by rewrite Et)) as (tot2 & s2 & Ef2 & ->).
    cbn in Ef2. rewrite Et, Ef in Ef2. injection Ef2 as <-.
    eexists _, pre, tot, s1, s2. split; [done|]. split; [done|]. cbn [pb_print pb_w pb_curr]. by rewrite Ew, <- app_assoc.
  - cbn [Finish pb_quiet NewProgressBar]. set (p := pb_curr _ _).
    destruct (render_run oor Ho t1 p) as (bar & curr & tot & speed & _ & Ec & Et & Es & ->); [by split|by split|].
    vm_compute in Ec, Et. simplify_eq. rewrite speed_zero in Es |- * by done. vm_compute in Es. injection Es as <-.
    eexists _, bar. split; reflexivity.
Qed.

Lemma FormatBytes_spec_witness :
  is_Some (FormatBytes 1536) /\
  exists j u, let N := half_even (1536 * 100) (1024 ^ Z.of_nat (S j)) in
     str "KMGTPE" !! j = Some u /\ 1024 ^ Z.of_nat (S j) <= 1536 < 1024 ^ Z.of_nat (S (S j)) /\
     100 <= N <= 102400 /\ FormatBytes 1536 = Some (decimal 2 N ++ [x20; u; x42]).
Proof. split; [apply (FormatBytes_spec 1536); split; lia|apply (FormatBytes_spec 1536); lia]. Defined.

Lemma progress_complete_witness :
  (exists p pre tot s1 s2, FormatBytes 3000 = Some tot /\
     addChunks (fun _ => - 2 ^ 63) [(1000, 5, 6); (2000, 7, 8)] (Some (NewProgressBar 3000 false 0)) ≫=
       Finish (fun _ => - 2 ^ 63) 9 = Some (Some p) /\
     pb_w p = pre ++ done_line tot s1 ++ done_line tot s2) /\
  (exists p bar, Finish (fun _ => - 2 ^ 63) 9 (Some (NewProgressBar 0 false 0)) = Some (Some p) /\
     pb_w p = lineText bar (str "  NaN") (str "0 B") (str "0 B") (str "0 B/s") (str "00:00") ++ [x0a]).
Proof.
  destruct (progress_complete (fun _ => - 2 ^ 63) 3000 [(1000, 5, 6); (2000, 7, 8)] 0 9) as [A B]; [intros x; split; lia|].
  split; [apply A; [lia|by repeat constructor|reflexivity]|exact B].
Defined.
