(* ===== verification/Sanitize.v ===== *)
(** * Terminal output sanitising: [sanitizeTextOutput], subscriber.go:657-688

    The regular expression is the alternation, leftmost-first as in Go's
    [regexp]: CSI sequence, OSC sequence, ESC followed by any character but
    ESC, one control byte.  Matches can only start at an ASCII byte, so the scan
    runs over bytes; only "ESC plus one character" needs the width of a UTF-8
    rune (an invalid byte is one character of width one). *)

From S2P Require Import Prelude.

Definition ESC : byte := x1b.
Definition BEL : byte := x07.

(** ASCII ranges of the character classes. *)
Definition in_range (lo hi : Z) (b : byte) : bool := (lo <=? Z_of_byte b) && (Z_of_byte b <=? hi).

(** [[0-9;]] *)
Definition csi_param (b : byte) : bool := in_range 0x30 0x39 b || bool_decide (b = x3b).
(** [[A-Za-z]] *)
Definition csi_final (b : byte) : bool := in_range 0x41 0x5a b || in_range 0x61 0x7a b.
(** [[\x00-\x08\x0B\x0C\x0E-\x1F\x7F]] *)
Definition c0_control (b : byte) : bool :=
  in_range 0x00 0x08 b || in_range 0x0b 0x0c b || in_range 0x0e 0x1f b || bool_decide (b = x7f).

(** Bytes of the longest prefix satisfying [f], and what follows. *)
Fixpoint span (f : byte -> bool) (l : bytes) : bytes * bytes :=
  match l with
  | b :: l' => if f b then let (p, r) := span f l' in (b :: p, r) else ([], l)
  | [] => ([], [])
  end.

(** [\x1b\[[0-9;]*[A-Za-z]]: what is left after the match. *)
Definition match_csi (l : bytes) : option bytes :=
  match l with
  | e :: o :: r =>
      if bool_decide (e = ESC) && bool_decide (o = x5b) then
        match snd (span csi_param r) with
        | b :: r' => if csi_final b then Some r' else None
        | [] => None
        end
      else None
  | _ => None
  end.

(** [\x1b\][^\x07\x1b]*(?:\x07|\x1b\\)] *)
Definition match_osc (l : bytes) : option bytes :=
  match l with
  | e :: o :: r =>
      if bool_decide (e = ESC) && bool_decide (o = x5d) then
        match snd (span (fun b => negb (bool_decide (b = BEL) || bool_decide (b = ESC))) r) with
        | t :: r' =>
            if bool_decide (t = BEL) then Some r'
            else match r' with
                 | s :: r'' => if bool_decide (s = x5c) then Some r'' else None
                 | [] => None
                 end
        | [] => None
        end
      else None
  | _ => None
  end.

Definition cont (lo hi : Z) (l : bytes) (i : nat) : bool :=
  match l !! i with Some b => in_range lo hi b | None => false end.

(** Width of the first rune, as [utf8.DecodeRune]: 1 for an invalid encoding. *)
Definition rune_width (l : bytes) : nat :=
  match l with
  | [] => 0
  | b :: _ =>
      let ok2 := cont 0x80 0xbf l 2 in
      let ok3 := cont 0x80 0xbf l 3 in
      if in_range 0xc2 0xdf b && cont 0x80 0xbf l 1 then 2
      else if bool_decide (b = xe0) && cont 0xa0 0xbf l 1 && ok2 then 3
      else if (in_range 0xe1 0xec b || in_range 0xee 0xef b) && cont 0x80 0xbf l 1 && ok2 then 3
      else if bool_decide (b = xed) && cont 0x80 0x9f l 1 && ok2 then 3
      else if bool_decide (b = xf0) && cont 0x90 0xbf l 1 && ok2 && ok3 then 4
      else if in_range 0xf1 0xf3 b && cont 0x80 0xbf l 1 && ok2 && ok3 then 4
      else if bool_decide (b = xf4) && cont 0x80 0x8f l 1 && ok2 && ok3 then 4
      else 1
  end%nat.

(** [\x1b[^\x1b]] *)
Definition match_esc_char (l : bytes) : option bytes :=
  match l with
  | e :: b :: r =>
      if bool_decide (e = ESC) && negb (bool_decide (b = ESC))
      then Some (drop (rune_width (b :: r)) (b :: r)) else None
  | _ => None
  end.

Definition match_control (l : bytes) : option bytes :=
  match l with
  | b :: r => if c0_control b then Some r else None
  | [] => None
  end.

(** The first alternative that matches at the head of the input. *)
Definition ansi_match (l : bytes) : option bytes :=
  match match_csi l with
  | Some r => Some r
  | None =>
      match match_osc l with
      | Some r => Some r
      | None => match match_esc_char l with Some r => Some r | None => match_control l end
      end
  end.

(** [ReplaceAll(data, nil)]: every step consumes at least one byte, so
    [length data] steps suffice. *)
Fixpoint sanitize_loop (fuel : nat) (l : bytes) : bytes :=
  match fuel with
  | O => []
  | S fuel' =>
      match l with
      | [] => []
      | b :: l' =>
          match ansi_match l with
          | Some r => sanitize_loop fuel' r
          | None => b :: sanitize_loop fuel' l'
          end
      end
  end.

Definition sanitizeTextOutput (data : bytes) : bytes := sanitize_loop (length data) data.

(** ** Facts *)

Lemma span_suffix f l : exists p, l = p ++ (span f l).2.
Proof.
  induction l as [|b l [p IH]]; simpl; [by exists []|]. destruct (f b); [|by exists []].
  destruct (span f l) as [p' r]. simpl in *. exists (b :: p). simpl. by rewrite <- IH.
Qed.

(** A match removes a non-empty prefix. *)
Lemma ansi_match_suffix l r : ansi_match l = Some r -> exists b p, l = b :: p ++ r.
Proof.
  unfold ansi_match. destruct (match_csi l) as [r1|] eqn:E1.
  { intros [= <-]. unfold match_csi in E1. repeat (case_match; try discriminate); simplify_eq.
    match goal with H : snd (span ?f ?x) = _ |- _ => destruct (span_suffix f x) as [p Hp]; rewrite H in Hp end.
    rewrite Hp. eexists _, (_ :: p ++ [_]). simpl. by rewrite <- app_assoc. }
  destruct (match_osc l) as [r1|] eqn:E2.
  { intros [= <-]. unfold match_osc in E2. repeat (case_match; try discriminate); simplify_eq;
    match goal with H : snd (span ?f ?x) = _ |- _ => destruct (span_suffix f x) as [p Hp]; rewrite H in Hp end;
    rewrite Hp; [eexists _, (_ :: p ++ [_])|eexists _, (_ :: p ++ [_; _])]; simpl; by rewrite <- app_assoc. }
  destruct (match_esc_char l) as [r1|] eqn:E3.
  { intros [= <-]. unfold match_esc_char in E3. repeat (case_match; try discriminate). simplify_eq.
    eexists _, (take _ _). by rewrite take_drop. }
  unfold match_control. repeat (case_match; try discriminate). intros [= <-]. by eexists _, [].
Qed.

Lemma ansi_match_length l r : ansi_match l = Some r -> (length r < length l)%nat.
Proof. intros (b & p & ->)%ansi_match_suffix. simpl. rewrite length_app. lia. Qed.

(** A byte that starts a match is ESC or a control byte, and every such byte
    starts one. *)
Lemma ansi_match_none b l : ansi_match (b :: l) = None <-> c0_control b = false.
Proof.
  split.
  - unfold ansi_match. destruct (match_csi _); [discriminate|]. destruct (match_osc _); [discriminate|].
    destruct (match_esc_char _); [discriminate|]. simpl. by destruct (c0_control b).
  - intros H. assert (bool_decide (b = ESC) = false) as E
      by (apply bool_decide_eq_false; intros ->; discriminate H).
    unfold ansi_match, match_csi, match_osc, match_esc_char, match_control. rewrite H, E. by destruct l.
Qed.

Lemma sanitize_loop_nil fuel : sanitize_loop fuel [] = [].
Proof. by destruct fuel. Qed.
#[local] Arguments ansi_match : simpl never.

(** More fuel than bytes changes nothing. *)
Lemma sanitize_loop_fuel f1 f2 l :
  (length l <= f1)%nat -> (length l <= f2)%nat -> sanitize_loop f1 l = sanitize_loop f2 l.
Proof.
  revert f2 l. induction f1 as [|f1 IH]; intros f2 l H1 H2.
  { destruct l; [by rewrite !sanitize_loop_nil|simpl in H1; lia]. }
  destruct l as [|b l]; [by rewrite !sanitize_loop_nil|]. destruct f2 as [|f2]; [simpl in H2; lia|].
  simpl in *. destruct (ansi_match (b :: l)) as [r|] eqn:E.
  - apply ansi_match_length in E. simpl in E. apply IH; lia.
  - f_equal. apply IH; lia.
Qed.

Lemma sanitize_loop_clean fuel l : Forall (fun b => c0_control b = false) (sanitize_loop fuel l).
Proof.
  revert l. induction fuel as [|fuel IH]; intros l; simpl; [constructor|].
  destruct l as [|b l]; [constructor|]. destruct (ansi_match (b :: l)) eqn:E; [done|].
  constructor; [by apply ansi_match_none in E|done].
Qed.

Lemma sanitize_loop_id fuel l :
  (length l <= fuel)%nat -> Forall (fun b => c0_control b = false) l -> sanitize_loop fuel l = l.
Proof.
  revert l. induction fuel as [|fuel IH]; intros [|b l] Hf Hl; try done; [simpl in Hf; lia|].
  apply Forall_cons in Hl as [Hb Hl]. simpl. rewrite (proj2 (ansi_match_none b l) Hb).
  f_equal. apply IH; [simpl in Hf; lia|done].
Qed.

Lemma sanitize_loop_sublist fuel l : sanitize_loop fuel l `sublist_of` l.
Proof.
  revert l. induction fuel as [|fuel IH]; intros l; simpl; [apply sublist_nil_l|].
  destruct l as [|b l]; [done|]. destruct (ansi_match (b :: l)) as [r|] eqn:E.
  - apply ansi_match_suffix in E as (b' & p & ->). etrans; [apply IH|].
    apply sublist_cons, sublist_inserts_l. done.
  - by apply sublist_skip.
Qed.

(** * Properties *)

(** C37: What reaches the terminal is safe and nothing else is changed: the
    output of [sanitizeTextOutput] is a subsequence of the message without any
    C0 control byte or DEL except tab, newline and carriage return (so no escape
    sequence), text free of such bytes passes unchanged, sanitising twice is
    sanitising once, and the scan always reaches the end of the message. *)
Theorem sanitize_safe data :
  (forall b, b ∈ sanitizeTextOutput data ->
     (0x20 <= Z_of_byte b /\ Z_of_byte b <> 0x7f) \/ b ∈ [x09; x0a; x0d]) /\
  sanitizeTextOutput data `sublist_of` data /\
  (Forall (fun b => c0_control b = false) data -> sanitizeTextOutput data = data) /\
  sanitizeTextOutput (sanitizeTextOutput data) = sanitizeTextOutput data /\
  (forall fuel, (length data <= fuel)%nat -> sanitize_loop fuel data = sanitizeTextOutput data).
Proof.
  split; [|split; [apply sanitize_loop_sublist|split; [by apply sanitize_loop_id|split]]].
  - intros b Hb. apply (proj1 (Forall_forall _ _) (sanitize_loop_clean (length data) data)) in Hb.
    revert Hb. clear data. destruct b; vm_compute; try discriminate; intros _;
      solve [left; split; congruence | right; repeat constructor].
  - apply sanitize_loop_id; [done|]. apply sanitize_loop_clean.
  - intros fuel Hf. by apply sanitize_loop_fuel.
Qed.

(** Escape sequences vanish whole, the text around them stays. *)
Example sanitize_red :
  sanitizeTextOutput [x41; x1b; x5b; x33; x31; x6d; x42; x1b; x5d; x30; x3b; x74; x07; x43; x0a] =
  [x41; x42; x43; x0a].
Proof. reflexivity. Qed.
