(* ===== verification/Files.v ===== *)
(** * Received files: the tag dispatch of [SubscribeStream]

    The part of subscriber.go:449-544 that turns one decrypted payload into
    terminal output, files under [./downloads] and acknowledgements, as a pure
    function on the state it touches.  [json.Unmarshal] on a file header is a
    parameter, and so is what the file system answers. *)

From stdpp Require Import countable.
From S2P Require Import Prelude Strings Protocol Hash Cipher Sanitize.

(** messages.go:36-41 *)
Record FileHeader := mkFileHeader {
  fh_TransferID : bytes;
  fh_Filename : bytes;
  fh_FileSize : Z;
  fh_SHA256 : bytes
}.

(** subscriber.go:23-31; the file handle is the name with the write offset,
    which is [af_received]. *)
Record activeFile := mkActiveFile {
  af_filename : bytes;
  af_size : Z;
  af_received : nat;
  af_chunkCount : Z;
  af_header : FileHeader
}.

(** What the user is told when a transfer ends (subscriber.go:514-530). *)
Inductive verdict := Mismatch | Verified | Saved | NotReadable.

(** The locals and outputs of [SubscribeStream]. *)
Record View := mkView {
  v_output : list bytes;                   (** writes to [outputWriter] / [msgCallback] *)
  v_files : gmap bytes activeFile;         (** [activeFiles] *)
  v_disk : gmap bytes bytes;               (** contents of [./downloads] by name *)
  v_verdicts : list (bytes * verdict)
}.

Definition emptyView : View := mkView [] ∅ ∅ [].

(** ** [filepath.Base] on Unix *)

Definition SLASH : byte := x2f.
Definition is_slash (b : byte) : bool := bool_decide (b = SLASH).

Fixpoint drop_while (f : byte -> bool) (l : bytes) : bytes :=
  match l with b :: l' => if f b then drop_while f l' else l | [] => [] end.
Fixpoint take_while (f : byte -> bool) (l : bytes) : bytes :=
  match l with b :: l' => if f b then b :: take_while f l' else [] | [] => [] end.

Definition Base (path : bytes) : bytes :=
  match path with
  | [] => [x2e]
  | _ =>
      match take_while (fun b => negb (is_slash b)) (drop_while is_slash (reverse path)) with
      | [] => [SLASH]
      | r => reverse r
      end
  end.

(** subscriber.go:466-469 *)
Definition cleanName (filename : bytes) : bytes :=
  let cleanName := Base filename in
  if bool_decide (cleanName = [x2e]) || bool_decide (cleanName = [SLASH])
  then bytes_of_string "received_file" else cleanName.

(** Writing [chunk] at offset [off] of a file. *)
Definition write_at (off : nat) (chunk content : bytes) : bytes :=
  take off (content ++ zeros (off - length content)) ++ chunk ++ drop (off + length chunk) content.

Section Deliver.
(** [json.Unmarshal(data, &header)] *)
Variable unmarshal : bytes -> option FileHeader.
(** Does [os.Create] succeed on a name; how many bytes of a chunk does [Write] take. *)
Variable fs_create : bytes -> bool.
Variable fs_write : bytes -> nat.

(** subscriber.go:463-484 *)
Definition deliverFileStart (data : bytes) (v : View) : View :=
  match unmarshal data with
  | None => v
  | Some header =>
      if bool_decide (fh_TransferID header = []) then v
      else
        let name := cleanName (fh_Filename header) in
        if fs_create name then
          mkView (v_output v)
            (<[fh_TransferID header := mkActiveFile name (fh_FileSize header) 0 0 header]> (v_files v))
            (<[name := []]> (v_disk v)) (v_verdicts v)
        else v
  end.

(** subscriber.go:486-502; the result says whether an acknowledgement is due. *)
Definition deliverFileChunk (data : bytes) (v : View) : View * option bytes :=
  if (16 <? length data)%nat then
    let transferID := take 16 data in
    let chunk := drop 16 data in
    match v_files v !! transferID with
    | None => (v, None)
    | Some af =>
        let n := Nat.min (fs_write chunk) (length chunk) in
        let content := default [] (v_disk v !! af_filename af) in
        let af' := mkActiveFile (af_filename af) (af_size af) (af_received af + n)
                     (af_chunkCount af + 1) (af_header af) in
        (mkView (v_output v) (<[transferID := af']> (v_files v))
           (<[af_filename af := write_at (af_received af) (take n chunk) content]> (v_disk v))
           (v_verdicts v),
         if af_chunkCount af' `mod` 16 =? 0 then Some transferID else None)
    end
  else (v, None).

(** subscriber.go:504-533 *)
Definition fileVerdict (af : activeFile) (v : View) : verdict :=
  if bool_decide (fh_SHA256 (af_header af) = []) then Saved
  else match v_disk v !! af_filename af with
       | None => NotReadable
       | Some content =>
           if bool_decide (EncodeToString (sha256 content) = fh_SHA256 (af_header af))
           then Verified else Mismatch
       end.

Definition deliverFileEnd (data : bytes) (v : View) : View * option bytes :=
  if (16 <=? length data)%nat then
    let transferID := take 16 data in
    match v_files v !! transferID with
    | None => (v, None)
    | Some af =>
        (mkView (v_output v) (delete transferID (v_files v)) (v_disk v)
           (v_verdicts v ++ [(af_filename af, fileVerdict af v)]), Some transferID)
    end
  else (v, None).

Definition output (text : bytes) (v : View) : View :=
  mkView (v_output v ++ [text]) (v_files v) (v_disk v) (v_verdicts v).

(** subscriber.go:449-544 *)
Definition deliver (plaintext : bytes) (v : View) : View * option bytes :=
  match plaintext with
  | [] => (v, None)
  | tag :: data =>
      if bool_decide (tag = TagText) then (output (sanitizeTextOutput data) v, None)
      else if bool_decide (tag = TagFileStart) then (deliverFileStart data v, None)
      else if bool_decide (tag = TagFileChunk) then deliverFileChunk data v
      else if bool_decide (tag = TagFileEnd) then deliverFileEnd data v
      else (output plaintext v, None)
  end.

Definition deliver_all (plaintexts : list bytes) (v : View) : View :=
  foldl (fun v pt => fst (deliver pt v)) v plaintexts.

End Deliver.

(** ** Facts *)

Lemma take_while_all f l : Forall (fun b => f b = true) (take_while f l).
Proof. induction l as [|b l IH]; simpl; [constructor|]. destruct (f b) eqn:E; by constructor. Qed.

(** A cleaned name is a single path component. *)
Lemma cleanName_component filename :
  (SLASH ∉ cleanName filename) /\ cleanName filename <> [] /\ cleanName filename <> [x2e].
Proof.
  unfold cleanName. case_bool_decide as E1; [by split; [apply (bool_decide_unpack _); vm_compute|]|].
  case_bool_decide as E2; simpl; [by split; [apply (bool_decide_unpack _); vm_compute|]|].
  split; [|split; [|done]].
  - unfold Base in *. destruct filename as [|b l]; [done|].
    pose proof (take_while_all (fun b => negb (is_slash b)) (drop_while is_slash (reverse (b :: l)))) as H.
    destruct (take_while _ _) as [|c r]; [done|]. intros Hin. rewrite elem_of_reverse in Hin.
    rewrite Forall_forall in H. apply H in Hin. by vm_compute in Hin.
  - unfold Base. destruct filename; [done|]. destruct (take_while _ _) as [|c r]; [done|].
    intros E. apply (f_equal length) in E. rewrite length_reverse in E. done.
Qed.
