(* ===== verification/Subscriber.v ===== *)
(** * The subscriber engine: [pkg/feed/subscriber.go]

    [SubscriberEngine] is the struct, the memory its ring buffer lives in, and
    the locals of [SubscribeStream] ([backoff], [activeFiles]) with what it has
    put out.  As for the publisher, what comes from outside is an argument. *)

From S2P Require Import Prelude Protocol Memory RingBuffer Hash Aead Cipher Pake Engine Sanitize Files.

(** ** State (subscriber.go:48-63) *)

Record SubscriberEngine := mkSubscriber {
  s_passphrase : option bytes;
  s_sessionID : bytes;
  s_pakePeer : option PAKEPeer;
  s_cipher : option Cipher;
  s_conn : option Conn;
  s_ringBuffer : RingBuffer;
  s_lastSeqNum : Z;
  s_expectedFingerprint : bytes;
  s_transportMode : Mode;
  s_sas : bytes * bytes;
  s_closed : bool;
  s_mem : Mem;
  s_backoff : Z;      (** nanoseconds *)
  s_view : View
}.

Definition sub_conn (c : option Conn) (s : SubscriberEngine) : SubscriberEngine :=
  mkSubscriber (s_passphrase s) (s_sessionID s) (s_pakePeer s) (s_cipher s) c (s_ringBuffer s)
    (s_lastSeqNum s) (s_expectedFingerprint s) (s_transportMode s) (s_sas s) (s_closed s) (s_mem s)
    (s_backoff s) (s_view s).
Definition sub_pake (k : option PAKEPeer) (s : SubscriberEngine) : SubscriberEngine :=
  mkSubscriber (s_passphrase s) (s_sessionID s) k (s_cipher s) (s_conn s) (s_ringBuffer s)
    (s_lastSeqNum s) (s_expectedFingerprint s) (s_transportMode s) (s_sas s) (s_closed s) (s_mem s)
    (s_backoff s) (s_view s).
Definition sub_cipher (c : option Cipher) (sas : bytes * bytes) (s : SubscriberEngine) : SubscriberEngine :=
  mkSubscriber (s_passphrase s) (s_sessionID s) (s_pakePeer s) c (s_conn s) (s_ringBuffer s)
    (s_lastSeqNum s) (s_expectedFingerprint s) (s_transportMode s) sas (s_closed s) (s_mem s)
    (s_backoff s) (s_view s).
Definition sub_last (n : Z) (s : SubscriberEngine) : SubscriberEngine :=
  mkSubscriber (s_passphrase s) (s_sessionID s) (s_pakePeer s) (s_cipher s) (s_conn s) (s_ringBuffer s)
    n (s_expectedFingerprint s) (s_transportMode s) (s_sas s) (s_closed s) (s_mem s)
    (s_backoff s) (s_view s).
Definition sub_ring (rb : RingBuffer) (m : Mem) (s : SubscriberEngine) : SubscriberEngine :=
  mkSubscriber (s_passphrase s) (s_sessionID s) (s_pakePeer s) (s_cipher s) (s_conn s) rb
    (s_lastSeqNum s) (s_expectedFingerprint s) (s_transportMode s) (s_sas s) (s_closed s) m
    (s_backoff s) (s_view s).
Definition sub_backoff (b : Z) (s : SubscriberEngine) : SubscriberEngine :=
  mkSubscriber (s_passphrase s) (s_sessionID s) (s_pakePeer s) (s_cipher s) (s_conn s) (s_ringBuffer s)
    (s_lastSeqNum s) (s_expectedFingerprint s) (s_transportMode s) (s_sas s) (s_closed s) (s_mem s)
    b (s_view s).
Definition sub_view (v : View) (s : SubscriberEngine) : SubscriberEngine :=
  mkSubscriber (s_passphrase s) (s_sessionID s) (s_pakePeer s) (s_cipher s) (s_conn s) (s_ringBuffer s)
    (s_lastSeqNum s) (s_expectedFingerprint s) (s_transportMode s) (s_sas s) (s_closed s) (s_mem s)
    (s_backoff s) v.

(** One reconnection attempt's luck: randomness and dial outcomes. *)
Record Attempt := mkAttempt { at_rnd : PakeRand; at_quic : option Conn; at_tcp : option Conn }.

Definition initialBackoff : Z := 100 * 10 ^ 6.

(** subscriber.go:572-574 *)
Definition nextBackoff (b : Z) : Z := if b <? 5 * 10 ^ 9 then 2 * b else b.

Section Subscriber.
Context {aeadI : AEAD} {kexI : KeyExchange}.
Variable pool : bytes.
Variable unmarshal : bytes -> option FileHeader.
Variable fs_create : bytes -> bool.
Variable fs_write : bytes -> nat.

Abbreviation SM := (M SubscriberEngine feed_error).

(** subscriber.go:73-97 *)
Definition NewSubscriberEngine (passphrase : bytes) (rnd : PakeRand) (m : Mem)
    : result crypto_error SubscriberEngine :=
  let sessionID := DeriveSessionID passphrase in
  let? pakePeer := NewPAKESubscriber passphrase rnd in
  Ok (mkSubscriber (Some passphrase) sessionID (Some pakePeer) None None (NewRingBuffer 100)
        0 [] ModeTCP ([], []) false m initialBackoff emptyView).

Definition subEncode (env : Envelope) : SM unit := fun s =>
  match s_conn s with
  | None => (Err FErrConnNil, s)
  | Some c => let (r, c) := conn_encode (stalePool pool) env c in (r, sub_conn (Some c) s)
  end.

Definition subDecode : SM Envelope := fun s =>
  match s_conn s with
  | None => (Err FErrConnNil, s)
  | Some c =>
      let (r, c) := conn_decode c in
      (match r with Ok env => Ok env | Err e => Err (FErrDecode e) end, sub_conn (Some c) s)
  end.

(** subscriber.go:33-45 *)
Definition sendAckFrame (transferID : bytes) : SM unit :=
  sid ← gets s_sessionID;
  subEncode (mkEnvelope Version MsgTypeChunkAck sid zeroNonce transferID).

(** The relay connection (subscriber.go:117-132). *)
Definition subDial (mode : Mode) (dialQUIC dialTCP : option Conn) : option Conn :=
  match mode with
  | ModeQUIC => match dialQUIC with Some c => Some c | None => dialTCP end
  | ModeTCP => dialTCP
  end.

Definition subCloseConn : SM unit := modify (fun s => sub_conn (conn_close <$> s_conn s) s).

(** Once dialled: a PAKE peer if there is none, and the init frame
    (subscriber.go:140-164). *)
Definition subGreet (rnd : PakeRand) : SM unit :=
  pakePeer ← gets s_pakePeer;
  (match pakePeer with
   | Some _ => mret tt
   | None =>
       pass ← gets s_passphrase;
       peer ← onError (lift FErrCrypto (NewPAKESubscriber (default [] pass) rnd)) subCloseConn;
       modify (sub_pake (Some peer))
   end);;
  pakePeer ← gets s_pakePeer;
  sid ← gets s_sessionID;
  onError (subEncode (mkEnvelope Version MsgTypePAKEInitSub sid zeroNonce
                        (default [] (Bytes pakePeer)))) subCloseConn.

(** subscriber.go:112-165 *)
Definition SubConnect (dialQUIC dialTCP : option Conn) (rnd : PakeRand) : SM unit :=
  tMode ← gets s_transportMode;
  match subDial tMode dialQUIC dialTCP with
  | None => fail FErrDial
  | Some conn => modify (sub_conn (Some conn));; subGreet rnd
  end.

(** [s.pakePeer.Update(pakeBytes)] *)
Definition subPakeUpdate (payload : bytes) (rnd : PakeRand) : SM unit := fun s =>
  match s_pakePeer s with
  | None => (Err FPanic, s)
  | Some peer =>
      let (r, peer) := Update payload rnd peer in
      (match r with Ok _ => Ok tt | Err e => Err (FErrCrypto e) end, sub_pake (Some peer) s)
  end.

(** subscriber.go:174-256 *)
Definition SubCompleteHandshake (rnd : PakeRand) : SM unit :=
  env ← subDecode;
  if bool_decide (env_MsgType env = MsgTypeClose) then fail FErrSessionClosed
  else if Z_of_byte (env_Version env) <? Z_of_byte MinSupportedVersion then fail FErrVersion
  else if (length (env_Payload env) <? UniformWireMsgSize + 60 + 32)%nat then fail FErrResponseSize
  else
    let pakeBytes := take UniformWireMsgSize (env_Payload env) in
    let wrappedKeyPayload := slice UniformWireMsgSize (UniformWireMsgSize + 60) (env_Payload env) in
    let pubConfirmTag := slice (UniformWireMsgSize + 60) (UniformWireMsgSize + 60 + 32) (env_Payload env) in
    subPakeUpdate pakeBytes rnd;;
    peer ← gets s_pakePeer;
    lift FErrCrypto (VerifyPeerConfirm peer pubConfirmTag);;
    subConfirmTag ← lift FErrCrypto (ConfirmTag peer);
    sid ← gets s_sessionID;
    subEncode (mkEnvelope Version MsgTypeKeyConfirm sid zeroNonce subConfirmTag);;
    p2pKey ← lift FErrCrypto (match peer with Some q => SessionKey q | None => Err ErrPAKEFailed end);
    masterSessionKey ← lift FErrCrypto (UnwrapSessionKey p2pKey wrappedKeyPayload);
    ciph ← lift FErrCrypto (NewCipher masterSessionKey);
    modify (sub_cipher (Some ciph) (CalculateSAS masterSessionKey)).

(** subscriber.go:273-295 *)
Definition SendSyncRequest : SM unit :=
  lastSeqNum ← gets s_lastSeqNum;
  sid ← gets s_sessionID;
  subEncode (mkEnvelope Version MsgTypeSyncReq sid zeroNonce (be_bytes 8 lastSeqNum)).

(** subscriber.go:366-403; [Some e]: the method returns. *)
Definition subscribeRekey (env : Envelope) : SM (option (result feed_error unit)) :=
  if (length (env_Payload env) <? 8)%nat then mret None
  else
    oc ← gets s_cipher;
    match oc with
    | None => mret None
    | Some ciph =>
        match openFrame ciph env with
        | Err _ => mret (Some (Err FErrRekeyAuth))
        | Ok salt =>
            match GetKey ciph with
            | None => mret None
            | Some currKey =>
                match RatchetKey currKey salt with
                | Err _ => mret None
                | Ok nextKey =>
                    let ciph' := match UpdateKey ciph nextKey with Ok c => c | Err _ => ciph end in
                    modify (sub_cipher (Some ciph') (CalculateSAS nextKey));; mret None
                end
            end
        end
    end.

(** [UnpadPayload], keeping the plaintext when it is not padded
    (subscriber.go:432-434). *)
Definition unpadOrKeep (plaintext : bytes) : bytes :=
  match UnpadPayload plaintext with Ok unpadded => unpadded | Err _ => plaintext end.

(** Delivery of a payload (subscriber.go:446-546). *)
Definition deliverPayload (seqNum : Z) (plaintext : bytes) : SM unit :=
  modify (fun s => let (rb, m) := Push seqNum plaintext (s_ringBuffer s) (s_mem s) in sub_ring rb m s);;
  v ← gets s_view;
  let (v', ack) := deliver unmarshal fs_create fs_write plaintext v in
  modify (sub_view v');;
  match ack with
  | Some transferID => ignore (sendAckFrame transferID)
  | None => mret tt
  end.

(** subscriber.go:405-546 *)
Definition subscribeData (env : Envelope) : SM (option (result feed_error unit)) :=
  if (length (env_Payload env) <? 8)%nat then mret None
  else
    let seqNum := be_val (slice 0 8 (env_Payload env)) in
    oc ← gets s_cipher;
    match oc with
    | None => mret None
    | Some ciph =>
        match openFrame ciph env with
        | Err _ => mret (Some (Err FErrAuth))
        | Ok plaintext =>
            let plaintext := unpadOrKeep plaintext in
            lastSeqNum ← gets s_lastSeqNum;
            if seqNum <=? lastSeqNum then mret None
            else
              modify (sub_last seqNum);;
              deliverPayload seqNum plaintext;;
              mret None
        end
    end.

(** One decoded frame in [SubscribeStream] (subscriber.go:356-546). *)
Definition subscribeFrame (env : Envelope) : SM (option (result feed_error unit)) :=
  modify (sub_backoff initialBackoff);;
  if bool_decide (env_MsgType env = MsgTypeClose) then mret (Some (Ok tt))
  else if bool_decide (env_MsgType env = MsgTypeHeartbeat) then mret None
  else if bool_decide (env_MsgType env = MsgTypeRekey) then subscribeRekey env
  else if bool_decide (env_MsgType env = MsgTypeDataStream) then subscribeData env
  else mret None.

(** subscriber.go:564-609: at most [retries] attempts; the list of attempts ends
    when the context does.  The attempts left over are returned. *)
Fixpoint reconnectLoop (retries : nat) (atts : list Attempt) : SM (bool * list Attempt) :=
  match retries with
  | O => mret (false, atts)
  | S retries' =>
      match atts with
      | [] => mret (false, [])
      | att :: atts' =>
          modify (fun s => sub_backoff (nextBackoff (s_backoff s)) s);;
          opass ← gets s_passphrase;
          match opass with
          | None => mret (false, atts')
          | Some pass =>
              match NewPAKESubscriber pass (at_rnd att) with
              | Err _ => reconnectLoop retries' atts'
              | Ok pakePeer =>
                  modify (sub_pake (Some pakePeer));;
                  r ← attempt (SubConnect (at_quic att) (at_tcp att) (at_rnd att));
                  match r with
                  | Err _ => reconnectLoop retries' atts'
                  | Ok _ =>
                      r ← attempt (SubCompleteHandshake (at_rnd att));
                      match r with
                      | Err _ => modify (sub_conn None);; reconnectLoop retries' atts'
                      | Ok _ => ignore SendSyncRequest;; mret (true, atts')
                      end
                  end
              end
          end
      end
  end.

(** subscriber.go:326-336: a connection to read from and the attempts left, or
    [Err r] when the method returns [r]. *)
Definition stopWith (r : result feed_error unit) : SM (result (result feed_error unit) (list Attempt)) :=
  mret (Err r).

Definition ensureConn (atts : list Attempt) : SM (result (result feed_error unit) (list Attempt)) :=
  oconn ← gets s_conn;
  match oconn with
  | Some _ => mret (Ok atts)
  | None =>
      closed ← gets s_closed;
      if closed : bool then stopWith (Ok tt)
      else
        '(reconnected, atts) ← reconnectLoop 10 atts;
        if reconnected : bool then mret (Ok atts) else stopWith (Err FErrReconnect)
  end.

(** subscriber.go:298-550: the loop, over at most [fuel] iterations; [None] when
    they run out.  A read error on a closed engine ends the stream quietly. *)
Fixpoint SubscribeStream (fuel : nat) (atts : list Attempt) : SM (option (result feed_error unit)) :=
  match fuel with
  | O => mret None
  | S fuel' =>
      ready ← ensureConn atts;
      match ready with
      | Err r => mret (Some r)
      | Ok atts =>
          r ← attempt subDecode;
          match r with
          | Err e =>
              closed ← gets s_closed;
              if closed : bool then mret (Some (Ok tt))
              else
                '(reconnected, atts) ← reconnectLoop 10 atts;
                if reconnected : bool then SubscribeStream fuel' atts else mret (Some (Err e))
          | Ok env =>
              r ← subscribeFrame env;
              match r with
              | Some r => mret (Some r)
              | None => SubscribeStream fuel' atts
              end
          end
      end
  end.

(** subscriber.go:618-620 *)
Definition BufferContents : SM (list bytes) := fun s =>
  let (items, m) := GetAll (s_ringBuffer s) (s_mem s) in
  (Ok (contents m <$> items), sub_ring (s_ringBuffer s) m s).

(** subscriber.go:623-655 *)
Definition CloseSubscriber : SM unit := fun s =>
  if s_closed s then (Ok tt, s)
  else
    let (rb, m) := Wipe (s_ringBuffer s) (s_mem s) in
    (Ok tt, mkSubscriber None (s_sessionID s) None None None rb (s_lastSeqNum s)
       (s_expectedFingerprint s) (s_transportMode s) (s_sas s) true m (s_backoff s) (s_view s)).


#[local] Arguments conn_encode : simpl never.
#[local] Arguments Push : simpl never.
#[local] Arguments Wipe : simpl never.
#[local] Arguments CalculateSAS : simpl never.
#[local] Arguments RatchetKey : simpl never.
#[local] Arguments deliver : simpl never.

(** ** Runs over decoded frames *)

(** The loop of [SubscribeStream] on a connection that delivers [envs]. *)
Fixpoint subscribeFrames (envs : list Envelope) : SM (option (result feed_error unit)) :=
  match envs with
  | [] => mret None
  | env :: envs' =>
      r ← subscribeFrame env;
      match r with Some r => mret (Some r) | None => subscribeFrames envs' end
  end.

(** The message a frame delivers, if any. *)
Definition accepts (env : Envelope) (s : SubscriberEngine) : option (Z * bytes) :=
  if bool_decide (env_MsgType env = MsgTypeDataStream) && (8 <=? length (env_Payload env))%nat then
    match s_cipher s with
    | None => None
    | Some ciph =>
        match openFrame ciph env with
        | Err _ => None
        | Ok plaintext =>
            let seqNum := be_val (slice 0 8 (env_Payload env)) in
            if seqNum <=? s_lastSeqNum s then None else Some (seqNum, unpadOrKeep plaintext)
        end
    end
  else None.

Fixpoint delivered (envs : list Envelope) (s : SubscriberEngine) : list (Z * bytes) :=
  match envs with
  | [] => []
  | env :: envs' =>
      option_list (accepts env s) ++
      match subscribeFrame env s with
      | (Ok None, s') => delivered envs' s'
      | _ => []
      end
  end.

Abbreviation deliver_to := (deliver unmarshal fs_create fs_write).
Abbreviation deliver_all_to := (deliver_all unmarshal fs_create fs_write).

Definition pushRing (n : Z) (pt : bytes) (s : SubscriberEngine) : SubscriberEngine :=
  let (rb, m) := Push n pt (s_ringBuffer s) (s_mem s) in sub_ring rb m s.

(** A padded payload is delivered as published. *)
Lemma unpad_padded payload :
  zlen payload + 4 <= MaxPlaintext -> unpadOrKeep (PadPayload payload DefaultPaddingTargetSize) = payload.
Proof.
  intros H. unfold MaxPlaintext, MaxPayloadSize in H. unfold unpadOrKeep.
  rewrite PadPayload_spec. unfold wrap. rewrite Z.mod_small by lia.
  by rewrite UnpadPayload_prefix by lia.
Qed.

Lemma sub_conn_same s : sub_conn (s_conn s) s = s.
Proof. by destruct s. Qed.

Lemma subEncode_conn env s : exists c, snd (subEncode env s) = sub_conn c s.
Proof.
  unfold subEncode. destruct (s_conn s) as [c|] eqn:E.
  - destruct (conn_encode _ _ _) as [r c']. by exists (Some c').
  - exists None. simpl. by rewrite <- E, sub_conn_same.
Qed.

Lemma deliverPayload_spec n pt s :
  exists c, deliverPayload n pt s =
    (Ok tt, sub_conn c (sub_view (deliver_to pt (s_view s)).1 (pushRing n pt s))).
Proof.
  unfold deliverPayload, mbind, M_bind, modify, gets. cbn [fst snd]. fold (pushRing n pt s).
  assert (s_view (pushRing n pt s) = s_view s) as ->.
  { unfold pushRing. by destruct (Push _ _ _ _). }
  destruct (deliver_to pt (s_view s)) as [v' ack]. cbn [fst].
  set (s1 := sub_view v' (pushRing n pt s)). destruct ack as [t|].
  - unfold ignore, sendAckFrame, mbind, M_bind, gets.
    destruct (subEncode_conn (mkEnvelope Version MsgTypeChunkAck (s_sessionID s1) zeroNonce t) s1) as [c Hc].
    exists c. by rewrite <- Hc.
  - exists (s_conn s1). by rewrite sub_conn_same.
Qed.

(** A frame either delivers its message and nothing else, or leaves what has been
    received alone. *)
Lemma subscribeFrame_spec env s :
  match accepts env s with
  | Some (n, pt) =>
      s_lastSeqNum s < n /\
      exists c, subscribeFrame env s =
        (Ok None, sub_conn c (sub_view (deliver_to pt (s_view s)).1
           (pushRing n pt (sub_last n (sub_backoff initialBackoff s)))))
  | None =>
      exists r ciph sas, subscribeFrame env s =
        (Ok r, sub_cipher ciph sas (sub_backoff initialBackoff s)) /\
        (env_MsgType env <> MsgTypeRekey -> ciph = s_cipher s /\ sas = s_sas s)
  end.
Proof.
  unfold accepts, subscribeFrame.
  set (s1 := sub_backoff initialBackoff s).
  assert (forall r : option (result feed_error unit), exists r' ciph sas,
    (Ok (E:=feed_error) r, s1) = (Ok r', sub_cipher ciph sas s1) /\
    (env_MsgType env <> MsgTypeRekey -> ciph = s_cipher s /\ sas = s_sas s)) as Hsame.
  { intros r. exists r, (s_cipher s), (s_sas s). by destruct s. }
  unfold mbind, M_bind, modify. cbn [fst snd]. fold s1.
  case_bool_decide as Hd; cbn [andb].
  - rewrite Hd in Hsame. rewrite !Hd, !bool_decide_false by done.
    unfold subscribeData. destruct (Nat.ltb_spec (length (env_Payload env)) 8), (Nat.leb_spec 8 (length (env_Payload env)));
      try lia; [apply Hsame|].
    unfold mbind, M_bind, gets. cbn [fst snd]. change (s_cipher s1) with (s_cipher s).
    destruct (s_cipher s) as [ciph|] eqn:Ec; [|apply Hsame].
    destruct (openFrame ciph env) as [pt|e]; [|apply Hsame].
    change (s_lastSeqNum s1) with (s_lastSeqNum s).
    destruct (Z.leb_spec (be_val (slice 0 8 (env_Payload env))) (s_lastSeqNum s)) as [|Hlt];
      [apply Hsame|].
    split; [done|]. unfold modify. cbn [fst snd].
    destruct (deliverPayload_spec (be_val (slice 0 8 (env_Payload env))) (unpadOrKeep pt)
      (sub_last (be_val (slice 0 8 (env_Payload env))) s1)) as [c ->]. by exists c.
  - case_bool_decide; [apply Hsame|]. case_bool_decide; [apply Hsame|].
    case_bool_decide as Hr; [|apply Hsame].
    unfold subscribeRekey. destruct (_ <? _)%nat; [apply Hsame|].
    unfold mbind, M_bind, gets. cbn [fst snd].
    destruct (s_cipher s1) as [ciph|]; [|apply Hsame].
    destruct (openFrame ciph env) as [salt|]; [|apply Hsame].
    destruct (GetKey ciph) as [k|]; [|apply Hsame].
    destruct (RatchetKey k salt) as [k'|]; [|apply Hsame].
    unfold modify. cbn [fst snd]. eexists _, _, _. split; [done|]. by rewrite Hr.
Qed.

Lemma subscribeFrame_total env s : exists r, fst (subscribeFrame env s) = Ok r.
Proof.
  pose proof (subscribeFrame_spec env s) as H. destruct (accepts env s) as [[n pt]|].
  - destruct H as (_ & c & ->). eauto.
  - destruct H as (r & ciph & sas & -> & _). eauto.
Qed.

Lemma pushRing_fields n pt s :
  s_lastSeqNum (pushRing n pt s) = s_lastSeqNum s /\ s_view (pushRing n pt s) = s_view s /\
  s_cipher (pushRing n pt s) = s_cipher s /\ s_sessionID (pushRing n pt s) = s_sessionID s.
Proof. unfold pushRing. by destruct (Push _ _ _ _). Qed.

Lemma pushRing_spec n pt s :
  ring_inv (s_ringBuffer s) (s_mem s) [] ->
  let s' := pushRing n pt s in
  ring_inv (s_ringBuffer s') (s_mem s') [] /\ capacity (s_ringBuffer s') = capacity (s_ringBuffer s) /\
  abs (s_ringBuffer s') (s_mem s') =
    RingSpec.push (capacity (s_ringBuffer s)) n pt (abs (s_ringBuffer s) (s_mem s)).
Proof.
  intros Hr. unfold pushRing. pose proof (Push_spec n pt _ _ _ Hr) as HP.
  destruct (Push _ _ _ _) as [rb m]. by destruct HP as (H1 & H2 & _ & H4).
Qed.

(** Everything received so far, as the ring keeps it. *)
Definition ring_log (s : SubscriberEngine) : RingSpec.t := abs (s_ringBuffer s) (s_mem s).
Definition ring_push_all (capacity : nat) (msgs : list (Z * bytes)) (q : RingSpec.t) : RingSpec.t :=
  foldl (fun q m => RingSpec.push capacity m.1 m.2 q) q msgs.

(** The state after a frame, as far as delivery is concerned. *)
Lemma subscribeFrame_effect env s :
  let s' := snd (subscribeFrame env s) in
  s_lastSeqNum s <= s_lastSeqNum s' /\
  match accepts env s with
  | Some (n, pt) =>
      fst (subscribeFrame env s) = Ok None /\ s_lastSeqNum s < n /\ s_lastSeqNum s' = n /\
      s_view s' = (deliver_to pt (s_view s)).1 /\ s_cipher s' = s_cipher s /\ s_sas s' = s_sas s /\
      s_sessionID s' = s_sessionID s
  | None => s_lastSeqNum s' = s_lastSeqNum s /\ s_view s' = s_view s /\ s_sessionID s' = s_sessionID s
  end /\
  (ring_inv (s_ringBuffer s) (s_mem s) [] ->
   ring_inv (s_ringBuffer s') (s_mem s') [] /\ capacity (s_ringBuffer s') = capacity (s_ringBuffer s) /\
   ring_log s' = ring_push_all (capacity (s_ringBuffer s)) (option_list (accepts env s)) (ring_log s)).
Proof.
  pose proof (subscribeFrame_spec env s) as H. destruct (accepts env s) as [[n pt]|].
  - destruct H as (Hlt & c & ->). cbn [fst snd]. set (s0 := sub_last n _).
    destruct (pushRing_fields n pt s0) as (E1 & E2 & E3 & E4).
    assert (s_sas (pushRing n pt s0) = s_sas s) as E5 by (unfold pushRing; by destruct (Push _ _ _ _)).
    cbn [sub_conn sub_view s_lastSeqNum s_view s_cipher s_sas s_sessionID s_ringBuffer s_mem].
    rewrite E1, E3, E4, E5. split; [unfold s0; simpl; lia|]. split; [done|].
    intros Hr. by apply (pushRing_spec n pt s0).
  - destruct H as (r & ciph & sas & -> & _). split; [simpl; lia|]. by split.
Qed.

Lemma subscribeFrames_mono envs s : s_lastSeqNum s <= s_lastSeqNum (snd (subscribeFrames envs s)).
Proof.
  revert s. induction envs as [|env envs IH]; intros s; simpl; [lia|].
  unfold mbind, M_bind. pose proof (subscribeFrame_effect env s) as [H _].
  destruct (subscribeFrame env s) as [[[r|]|?] s1]; simpl in *; try lia. specialize (IH s1). lia.
Qed.

Lemma subscribeFrames_spec envs s :
  let ms := delivered envs s in
  let s' := snd (subscribeFrames envs s) in
  StronglySorted Z.lt (s_lastSeqNum s :: ms.*1) /\ Forall (fun m => m.1 <= s_lastSeqNum s') ms /\
  s_view s' = deliver_all_to ms.*2 (s_view s) /\
  (ring_inv (s_ringBuffer s) (s_mem s) [] ->
   ring_inv (s_ringBuffer s') (s_mem s') [] /\
   ring_log s' = ring_push_all (capacity (s_ringBuffer s)) ms (ring_log s)).
Proof.
  revert s. induction envs as [|env envs IH]; intros s.
  { split; [repeat constructor|]. split; [constructor|]. by split. }
  cbn [delivered subscribeFrames]. unfold mbind, M_bind.
  pose proof (subscribeFrame_effect env s) as HE. destruct (subscribeFrame_total env s) as [r Hr].
  destruct (subscribeFrame env s) as [r0 s1]. cbn [fst snd] in *. subst r0.
  destruct HE as (Hle & Heff & Hring).
  destruct r as [r|].
  { destruct (accepts env s) as [[n pt]|]; [naive_solver|]. cbn [option_list app fst snd].
    destruct Heff as (_ & Hv & _). split; [repeat constructor|]. split; [constructor|].
    split; [done|]. intros HR. destruct (Hring HR) as (H1 & _ & H2). by split. }
  specialize (IH s1). destruct (accepts env s) as [[n pt]|]; cbn [option_list app fmap list_fmap].
  - destruct Heff as (_ & Hlt & Hn & Hv & _). destruct IH as (Hs & Hmax & Hview & Hr).
    change ((n, pt).1) with n. change ((n, pt).2) with pt. rewrite Hn in Hs.
    split.
    { constructor; [done|]. constructor; [done|].
      apply StronglySorted_inv in Hs as [_ Hall]. eapply Forall_impl; [exact Hall|]. simpl. lia. }
    split; [constructor; [|done]|].
    { rewrite <- Hn. apply subscribeFrames_mono. }
    split; [by rewrite Hview, Hv|]. intros HR. destruct (Hring HR) as (HR1 & Hc1 & HL1).
    destruct (Hr HR1) as (HR2 & HL2). split; [done|]. rewrite HL2, Hc1, HL1. done.
  - destruct Heff as (Hn & Hv & _). destruct IH as (Hs & Hmax & Hview & Hr).
    rewrite Hn in Hs. split; [done|]. split; [done|]. split; [by rewrite Hview, Hv|].
    intros HR. destruct (Hring HR) as (HR1 & Hc1 & HL1). destruct (Hr HR1) as (HR2 & HL2).
    split; [done|]. rewrite HL2, Hc1, HL1. done.
Qed.

(** A frame is accepted only if its ciphertext is sealed under the current key
    for exactly its header. *)
Definition genuine (k : bytes) (env : Envelope) (pt : bytes) : Prop :=
  drop 8 (env_Payload env) =
    aead_seal k (env_Nonce env) pt (header_bytes (env_Version env) (env_MsgType env)
      (env_SessionID env) (env_Nonce env) (zlen (env_Payload env))).

Lemma openFrame_genuine k k' env :
  Envelope_ok MaxPayloadSize env ->
  match openFrame (mkCipher (Some k) k') env with
  | Ok pt => genuine k env pt
  | Err e => forall pt, ~ genuine k env pt
  end.
Proof.
  intros Hok. destruct (openFrame _ env) as [pt|e] eqn:E; [by eapply openFrame_inv|].
  intros pt Hg. destruct Hok as [[Hs Hn] _ Hl]. unfold MaxPayloadSize in Hl.
  revert E. unfold openFrame, wrap. rewrite Z.mod_small by lia.
  rewrite SerializeHeader_zeros, Decrypt_open by done. rewrite Hg, aead_open_seal. discriminate.
Qed.

(** ** Termination: every iteration uses up input or a connection attempt *)

Definition conn_len (s : SubscriberEngine) : nat :=
  match s_conn s with Some c => length (c_in c) | None => 0 end.
Definition dial_len (c : option Conn) : nat :=
  match c with Some c => length (c_in c) | None => 0 end.
Definition att_len (att : Attempt) : nat := S (dial_len (at_quic att) + dial_len (at_tcp att)).
Definition atts_len (atts : list Attempt) : nat := sum_list (att_len <$> atts).

Lemma atts_len_cons att atts : atts_len (att :: atts) = (att_len att + atts_len atts)%nat.
Proof. done. Qed.

Lemma read_full_from_len st n r : (length (read_full_from st n r).2 <= length r)%nat.
Proof.
  revert st r. induction n as [|n IH]; intros st r; simpl; [done|].
  destruct r as [|[b|e] r]; simpl; [done| |lia]. specialize (IH true r).
  destruct (read_full_from true n r) as [[l|e] r']; simpl in *; lia.
Qed.

Lemma Decode_len r : (length (Decode r).2 <= length r)%nat.
Proof.
  unfold Decode, DecodeWithMax, DecodeFrom, read_full. pose proof (read_full_from_len false HeaderSize r) as H1.
  destruct (read_full_from false HeaderSize r) as [[h|e] r1]; cbn [snd] in *; [|done].
  destruct (negb _); [done|]. destruct (_ <? _); [done|]. destruct (_ <? _); [done|].
  destruct (_ <? _); [|done].
  pose proof (read_full_from_len false (Z.to_nat (be_val (slice 34 38 h))) r1) as H2.
  destruct (read_full_from false _ r1) as [[p|e] r2]; cbn [snd] in *; lia.
Qed.

Lemma subDecode_len s :
  (conn_len (snd (subDecode s)) <= conn_len s)%nat /\
  (forall env, fst (subDecode s) = Ok env -> (conn_len (snd (subDecode s)) < conn_len s)%nat).
Proof.
  unfold subDecode, conn_len. destruct (s_conn s) as [c|] eqn:E; [|simpl; by rewrite E].
  unfold conn_decode. destruct (c_closed c); [done|].
  pose proof (Decode_len (c_in c)) as HL. destruct (Decode (c_in c)) as [[env|e] r] eqn:ED; simpl in *; [|done].
  apply DecodeWithMax_inv in ED as [ED [[Hs Hn] _ _]]. split; [done|]. intros _ _.
  rewrite ED, length_app. unfold reader_of, frame_bytes. rewrite length_fmap, length_app, length_header_bytes by done.
  unfold HeaderSize, MagicSize. lia.
Qed.

(** Frame conditions: the pending input does not grow; the back-off is left alone. *)
Definition shrink_rel (s s' : SubscriberEngine) : Prop := (conn_len s' <= conn_len s)%nat.
Definition backoff_rel (s s' : SubscriberEngine) : Prop := s_backoff s' = s_backoff s.

#[global] Instance shrink_rel_preorder : PreOrder shrink_rel.
Proof. split; unfold shrink_rel; [by intros s|]. intros s1 s2 s3. lia. Qed.
#[global] Instance backoff_rel_preorder : PreOrder backoff_rel.
Proof. split; unfold backoff_rel; [by intros s|]. intros s1 s2 s3. congruence. Qed.

Lemma shrink_encode env : respects shrink_rel (subEncode env).
Proof.
  intros s. unfold subEncode, shrink_rel, conn_len. destruct (s_conn s) as [c|] eqn:E; [|simpl; by rewrite E].
  assert (c_in (snd (conn_encode (stalePool pool) env c)) = c_in c) as Hin.
  { unfold conn_encode. destruct (Encode _ _); [|done]. unfold conn_write.
    destruct (c_closed c); [done|]. by destruct (c_writes c) as [|[k|] ws]. }
  destruct (conn_encode _ _ _) as [r c']. simpl in *. by rewrite Hin.
Qed.

Lemma backoff_encode env : respects backoff_rel (subEncode env).
Proof. intros s. destruct (subEncode_conn env s) as [c ->]. done. Qed.

Lemma shrink_decode : respects shrink_rel subDecode.
Proof. intros s. apply subDecode_len. Qed.

Lemma backoff_decode : respects backoff_rel subDecode.
Proof. intros s. unfold subDecode. destruct (s_conn s); [|done]. by destruct (conn_decode _). Qed.

Lemma shrink_pakeUpdate payload rnd : respects shrink_rel (subPakeUpdate payload rnd).
Proof.
  intros s. unfold shrink_rel, conn_len, subPakeUpdate. destruct (s_pakePeer s); [|done]. by destruct (Update _ _ _).
Qed.

Lemma backoff_pakeUpdate payload rnd : respects backoff_rel (subPakeUpdate payload rnd).
Proof.
  intros s. unfold subPakeUpdate. destruct (s_pakePeer s); [|done]. by destruct (Update _ _ _).
Qed.

Lemma shrink_closeConn : respects shrink_rel subCloseConn.
Proof. intros s. unfold shrink_rel, conn_len. simpl. by destruct (s_conn s). Qed.
Lemma backoff_closeConn : respects backoff_rel subCloseConn.
Proof. by intros s. Qed.
#[local] Hint Resolve backoff_closeConn : zf.
#[local] Hint Resolve shrink_encode backoff_encode shrink_decode backoff_decode
  shrink_pakeUpdate backoff_pakeUpdate shrink_closeConn : zf.
#[local] Hint Extern 1 (respects shrink_rel (modify _)) =>
  (apply respects_modify; unfold shrink_rel; done) : zf.
#[local] Hint Extern 1 (respects backoff_rel (modify _)) => (apply respects_modify; done) : zf.

(** The handshake under any frame condition its parts satisfy. *)
Lemma respects_handshake R `{!PreOrder R} rnd :
  respects R subDecode -> (forall env, respects R (subEncode env)) ->
  (forall payload, respects R (subPakeUpdate payload rnd)) ->
  (forall c sas, respects R (modify (sub_cipher c sas) : SM unit)) -> respects R (SubCompleteHandshake rnd).
Proof.
  intros Hd He Hu Hm. unfold SubCompleteHandshake. respects_bind; [done|]. intros env.
  repeat case_match; eauto with zf.
  do 9 (respects_bind; [eauto with zf|intros ?]). apply Hm.
Qed.

Lemma shrink_deliver n pt : respects shrink_rel (deliverPayload n pt).
Proof.
  unfold deliverPayload. respects_bind; [apply respects_modify; intros s; unfold shrink_rel; by destruct (Push _ _ _ _)|].
  intros _. respects_bind; [eauto with zf|]. intros v. destruct (deliver_to pt v) as [v' ack].
  respects_bind; [eauto with zf|]. intros _. destruct ack; [|eauto with zf].
  apply respects_ignore. unfold sendAckFrame. respects_bind; eauto with zf.
Qed.

Lemma shrink_frame env : respects shrink_rel (subscribeFrame env).
Proof.
  unfold subscribeFrame. respects_bind; [eauto with zf|]. intros _.
  case_match; [eauto with zf|]. case_match; [eauto with zf|]. case_match; [|case_match; [|eauto with zf]].
  - unfold subscribeRekey. case_match; [eauto with zf|]. respects_bind; [eauto with zf|]. intros oc.
    repeat case_match; eauto with zf; (respects_bind; eauto with zf).
  - unfold subscribeData. case_match; [eauto with zf|]. respects_bind; [eauto with zf|]. intros oc.
    repeat case_match; eauto with zf. respects_bind; [eauto with zf|]. intros last.
    case_match; [eauto with zf|]. respects_bind; [eauto with zf|]. intros _.
    respects_bind; [apply shrink_deliver|eauto with zf].
Qed.

(** The greeting under any frame condition its parts satisfy. *)
Lemma respects_greet R `{!PreOrder R} rnd :
  respects R subCloseConn -> (forall env, respects R (subEncode env)) ->
  (forall k, respects R (modify (sub_pake k) : SM unit)) -> respects R (subGreet rnd).
Proof.
  intros Hc He Hm. unfold subGreet. respects_bind; [eauto with zf|]. intros peer. respects_bind.
  - destruct peer; [eauto with zf|]. respects_bind; [eauto with zf|]. intros pass.
    respects_bind; [|intros; apply Hm]. respects_onError; eauto with zf.
  - intros _. do 2 (respects_bind; [eauto with zf|intros ?]). respects_onError; eauto with zf.
Qed.

(** A successful reconnect uses an attempt and leaves at most its input. *)
Lemma SubConnect_len q t rnd s s' :
  SubConnect q t rnd s = (Ok tt, s') -> (conn_len s' <= dial_len q + dial_len t)%nat.
Proof.
  unfold SubConnect. rewrite bind_gets.
  assert (forall c, subDial (s_transportMode s) q t = Some c -> (length (c_in c) <= dial_len q + dial_len t)%nat) as Hd.
  { intros c. unfold subDial, dial_len. destruct (s_transportMode s), q, t; intros [= <-]; lia. }
  destruct (subDial _ q t) as [c|]; [|discriminate]. specialize (Hd c eq_refl). rewrite bind_modify.
  set (s1 := sub_conn (Some c) s). assert (conn_len s1 = length (c_in c)) as H1 by done.
  pose proof (respects_greet shrink_rel rnd shrink_closeConn shrink_encode ltac:(eauto with zf) s1) as Hrest. unfold shrink_rel in Hrest.
  intros E. rewrite E in Hrest. simpl in Hrest. lia.
Qed.

Lemma shrink_handshake rnd : respects shrink_rel (SubCompleteHandshake rnd).
Proof. apply respects_handshake; eauto with zf. typeclasses eauto. Qed.

Lemma backoff_handshake rnd : respects backoff_rel (SubCompleteHandshake rnd).
Proof. apply respects_handshake; eauto with zf. typeclasses eauto. Qed.

Lemma backoff_connect q t rnd : respects backoff_rel (SubConnect q t rnd).
Proof.
  unfold SubConnect. respects_bind; [eauto with zf|]. intros mode.
  destruct (subDial mode q t); [|eauto with zf]. respects_bind; [eauto with zf|]. intros _.
  apply respects_greet; eauto with zf. typeclasses eauto.
Qed.

(** A completed handshake installs a 32-byte key and its badge. *)
Lemma handshake_key rnd s s' :
  SubCompleteHandshake rnd s = (Ok tt, s') ->
  exists k, length k = KeySize /\ s_cipher s' = Some (mkCipher (Some k) (Some k)) /\ s_sas s' = CalculateSAS k.
Proof.
  unfold SubCompleteHandshake. intros (env & s1 & _ & H)%bind_inv. revert H.
  case_match; [discriminate|]. case_match; [discriminate|]. case_match; [discriminate|]. intros H'.
  do 7 (apply bind_inv in H' as (? & ? & _ & H')).
  apply bind_inv in H' as (k & s2 & _ & H'). apply bind_inv in H' as (c & s3 & HC & H').
  unfold lift, NewCipher in HC. destruct (Nat.eqb_spec (length k) KeySize); [|discriminate].
  injection HC as <- <-. injection H' as <-. by exists k.
Qed.

(** [reconnectLoop] always returns, after at most [retries] attempts, each of which
    doubles the back-off as the code says; success means an established session
    on that attempt's connection. *)
Lemma reconnectLoop_spec retries atts s :
  exists ok atts' s', reconnectLoop retries atts s = (Ok (ok, atts'), s') /\
    (exists used, atts = used ++ atts' /\ (length used <= retries)%nat /\
       s_backoff s' = Nat.iter (length used) nextBackoff (s_backoff s)) /\
    (ok = true -> (conn_len s' + atts_len atts' < atts_len atts)%nat /\
       exists k, length k = KeySize /\ s_cipher s' = Some (mkCipher (Some k) (Some k)) /\ s_sas s' = CalculateSAS k).
Proof.
  revert atts s. induction retries as [|retries IH]; intros atts s; cbn [reconnectLoop].
  { exists false, atts, s. split; [done|]. split; [by exists []|done]. }
  destruct atts as [|att atts].
  { exists false, [], s. split; [done|]. split; [by exists []; split; [|split; [simpl; lia|]]|done]. }
  rewrite bind_modify, bind_gets. set (s1 := sub_backoff _ s).
  (* the attempts after this one, from any state with this back-off *)
  assert (forall s2, s_backoff s2 = nextBackoff (s_backoff s) ->
    exists ok atts' s', reconnectLoop retries atts s2 = (Ok (ok, atts'), s') /\
    (exists used, att :: atts = used ++ atts' /\ (length used <= S retries)%nat /\
       s_backoff s' = Nat.iter (length used) nextBackoff (s_backoff s)) /\
    (ok = true -> (conn_len s' + atts_len atts' < atts_len (att :: atts))%nat /\
       exists k, length k = KeySize /\ s_cipher s' = Some (mkCipher (Some k) (Some k)) /\ s_sas s' = CalculateSAS k)) as Hnext.
  { intros s2 Hb. destruct (IH atts s2) as (ok & atts' & s' & E & (used & -> & Hl & Hbk) & Hok).
    exists ok, atts', s'. split; [done|]. split.
    - exists (att :: used). split; [done|]. split; [simpl; lia|]. rewrite Hbk, Hb. cbn [length].
      by rewrite Nat.iter_succ_r.
    - intros Ho. destruct (Hok Ho) as [H1 H2]. split; [|done]. rewrite atts_len_cons. lia. }
  destruct (s_passphrase s1) as [pass|].
  2:{ exists false, atts, s1. split; [done|]. split; [|done]. exists [att]. split; [done|]. split; [simpl; lia|done]. }
  destruct (NewPAKESubscriber pass (at_rnd att)) as [peer|]; [|by apply Hnext].
  rewrite bind_modify. set (s2 := sub_pake (Some peer) s1).
  rewrite bind_attempt.
  pose proof (SubConnect_len (at_quic att) (at_tcp att) (at_rnd att) s2) as HL.
  assert (s_backoff (snd (SubConnect (at_quic att) (at_tcp att) (at_rnd att) s2)) = nextBackoff (s_backoff s)) as Hb3.
  { apply (backoff_connect _ _ _ s2). }
  destruct (SubConnect _ _ _ s2) as [[[]|e] s3]; cbn [fst snd] in *; [|by apply Hnext].
  specialize (HL s3 eq_refl). rewrite bind_attempt.
  pose proof (backoff_handshake (at_rnd att) s3) as Hb4. pose proof (shrink_handshake (at_rnd att) s3) as HL4.
  pose proof (handshake_key (at_rnd att) s3) as Hkey.
  destruct (SubCompleteHandshake (at_rnd att) s3) as [[[]|e] s4]; cbn [fst snd] in *.
  2:{ rewrite bind_modify. apply Hnext. by rewrite <- Hb3. }
  specialize (Hkey s4 eq_refl). exists true, atts. rewrite bind_ignore.
  unfold SendSyncRequest. rewrite !bind_gets.
  set (env := mkEnvelope _ MsgTypeSyncReq _ _ _). pose proof (shrink_encode env s4) as HL5.
  destruct (subEncode_conn env s4) as [c Hc]. eexists. split; [done|]. split; [|intros _; split].
  - exists [att]. split; [done|]. split; [simpl; lia|]. rewrite Hc. simpl. by rewrite <- Hb3.
  - unfold shrink_rel in *. rewrite atts_len_cons. unfold att_len. lia.
  - by rewrite Hc.
Qed.

Lemma ensureConn_spec atts s :
  exists r s', ensureConn atts s = (Ok r, s') /\
    match r with
    | Ok atts' => (conn_len s' + atts_len atts' <= conn_len s + atts_len atts)%nat
    | Err _ => True
    end.
Proof.
  unfold ensureConn. rewrite bind_gets. destruct (s_conn s) as [c|] eqn:Ec; [by exists (Ok atts), s|].
  rewrite bind_gets. destruct (s_closed s); [by exists (Err (Ok tt)), s|].
  destruct (reconnectLoop_spec 10 atts s) as (ok & atts' & s' & E & _ & Hok).
  rewrite (bind_ok _ _ _ _ _ E). destruct ok; [|by exists (Err (Err FErrReconnect)), s'].
  destruct (Hok eq_refl) as [Hl _]. exists (Ok atts'), s'. split; [done|]. lia.
Qed.

(** The stream loop ends once input and attempts are used up. *)
Lemma SubscribeStream_ends fuel atts s :
  (conn_len s + atts_len atts < fuel)%nat ->
  exists r s', SubscribeStream fuel atts s = (Ok (Some r), s').
Proof.
  revert atts s. induction fuel as [|fuel IH]; intros atts s Hf; [lia|]. cbn [SubscribeStream].
  destruct (ensureConn_spec atts s) as (ready & s1 & E1 & Hr). rewrite (bind_ok _ _ _ _ _ E1).
  destruct ready as [atts1|r]; [|by eexists _, s1].
  rewrite bind_attempt. pose proof (subDecode_len s1) as [HL1 HL2].
  destruct (subDecode s1) as [[env|e] s2]; cbn [fst snd] in *.
  - specialize (HL2 env eq_refl). destruct (subscribeFrame_total env s2) as [r Hres].
    pose proof (shrink_frame env s2) as HL3. destruct (subscribeFrame env s2) as [res s3] eqn:EF.
    cbn [fst snd] in *. subst res. rewrite (bind_ok _ _ _ _ _ EF).
    destruct r as [r|]; [by eexists _, s3|]. apply IH. unfold shrink_rel in HL3. lia.
  - rewrite bind_gets. destruct (s_closed s2); [by eexists _, s2|].
    destruct (reconnectLoop_spec 10 atts1 s2) as (ok & atts' & s3 & E3 & _ & Hok).
    rewrite (bind_ok _ _ _ _ _ E3). destruct ok; [|by eexists _, s3].
    destruct (Hok eq_refl) as [Hl _]. apply IH. lia.
Qed.

(** The back-off takes the values 100 ms, 200 ms, ..., 6.4 s. *)
Definition backoff_ok (b : Z) : Prop := exists i, 0 <= i <= 6 /\ b = initialBackoff * 2 ^ i.

Lemma nextBackoff_ok b : backoff_ok b -> backoff_ok (nextBackoff b).
Proof.
  intros (i & Hi & ->). unfold nextBackoff. destruct (Z.ltb_spec (initialBackoff * 2 ^ i) (5 * 10 ^ 9)) as [H|_];
    [|by exists i]. exists (i + 1). split; [|rewrite Z.pow_add_r by lia; lia].
  assert (i <> 6); [|lia]. intros ->. by vm_compute in H.
Qed.

Lemma iter_backoff_ok n b : backoff_ok b -> backoff_ok (Nat.iter n nextBackoff b).
Proof. intros H. induction n as [|n IH]; simpl; auto using nextBackoff_ok. Qed.

Lemma backoff_ok_range b : backoff_ok b -> 100 * 10 ^ 6 <= b <= 6400 * 10 ^ 6.
Proof.
  intros (i & Hi & ->). unfold initialBackoff.
  assert (2 ^ 0 <= 2 ^ i <= 2 ^ 6) by (split; apply Z.pow_le_mono_r; lia). lia.
Qed.
End Subscriber.

(** A subscriber with an all-zero key, for the witnesses. *)
Definition sample_sub : SubscriberEngine :=
  mkSubscriber (Some [x41]) (zeros 16) None (Some (mkCipher (Some (zeros 32)) (Some (zeros 32)))) None
    (NewRingBuffer 100) 0 [] ModeTCP ([], []) false emptyMem initialBackoff emptyView.
Definition sample_frame (n : Z) (payload : bytes) : Envelope :=
  sealed (zeros 32) (zeros 16) MsgTypeDataStream n (PadPayload payload DefaultPaddingTargetSize).

(** * Properties *)

(** C20: Exactly-once, in-order delivery against any relay.  Whatever frames
    arrive, in whatever order and however often (replayed, reordered, forged), the
    sequence numbers delivered are strictly increasing and above the last one seen
    before, the terminal output and files are the messages delivered in that
    order, and the RAM buffer holds the last of exactly those messages. *)
Theorem subscriber_exactly_once `{AEAD} pool unmarshal fs_create fs_write envs s :
  ring_inv (s_ringBuffer s) (s_mem s) [] ->
  let ms := delivered pool unmarshal fs_create fs_write envs s in
  let s' := snd (subscribeFrames pool unmarshal fs_create fs_write envs s) in
  StronglySorted Z.lt (s_lastSeqNum s :: ms.*1) /\ NoDup ms.*1 /\
  s_view s' = deliver_all unmarshal fs_create fs_write ms.*2 (s_view s) /\
  ring_inv (s_ringBuffer s') (s_mem s') [] /\
  ring_log s' = ring_push_all (capacity (s_ringBuffer s)) ms (ring_log s).
Proof.
  intros Hr ms s'. destruct (subscribeFrames_spec pool unmarshal fs_create fs_write envs s) as (Hs & _ & Hv & HR).
  fold ms s' in Hs, Hv, HR. split; [done|]. split; [|by split; [|apply HR]].
  apply StronglySorted_inv in Hs as [Hs _]. clear -Hs. induction Hs as [|n l _ IH Hall]; [constructor|].
  constructor; [|done]. intros Hin. rewrite Forall_forall in Hall. apply Hall in Hin. lia.
Qed.

Lemma subscriber_exactly_once_witness :
  let envs := [sample_frame 2 [x01; x42]; sample_frame 1 [x01; x41]; sample_frame 2 [x01; x42]] in
  let ms := delivered [] (fun _ => None) (fun _ => true) length envs sample_sub in
  NoDup ms.*1.
Proof.
  intros envs ms.
  exact (proj1 (proj2 (subscriber_exactly_once [] (fun _ => None) (fun _ => true) length envs sample_sub
    (proj1 (NewRingBuffer_inv 100 emptyMem [] owned_empty))))).
Defined.

(** C29: Tampering ends the session.  A data or rekey frame whose ciphertext is
    not sealed under the current key for exactly that header makes
    [SubscribeStream] return an authentication error with nothing delivered and
    no state changed but the reset back-off; a data frame that delivers something
    is genuine. *)
Theorem tampered_frame_stops `{AEAD} pool unmarshal fs_create fs_write env s k :
  Envelope_ok MaxPayloadSize env -> (8 <= length (env_Payload env))%nat ->
  s_cipher s = Some (mkCipher (Some k) (Some k)) ->
  env_MsgType env ∈ [MsgTypeDataStream; MsgTypeRekey] ->
  let r := subscribeFrame pool unmarshal fs_create fs_write env s in
  ((forall pt, ~ genuine k env pt) ->
     r = (Ok (Some (Err (if bool_decide (env_MsgType env = MsgTypeRekey) then FErrRekeyAuth else FErrAuth))),
          sub_backoff initialBackoff s)) /\
  (forall n pt, accepts env s = Some (n, pt) ->
     exists plain, genuine k env plain /\ pt = unpadOrKeep plain /\ s_lastSeqNum s < n).
Proof.
  intros Hok Hl Hc Ht r. pose proof (openFrame_genuine k (Some k) env Hok) as Hg. split.
  - intros Hn. destruct (openFrame (mkCipher (Some k) (Some k)) env) as [pt|e] eqn:E; [by apply Hn in Hg|].
    unfold r, subscribeFrame, mbind, M_bind, modify. cbn [fst snd].
    assert (s_cipher (sub_backoff initialBackoff s) = Some (mkCipher (Some k) (Some k))) as Hc1 by done.
    generalize dependent (sub_backoff initialBackoff s). intros s1 Hc1.
    apply elem_of_cons in Ht as [Ht|Ht%list_elem_of_singleton]; rewrite !Ht.
    + rewrite !(bool_decide_false (MsgTypeDataStream = _)) by done. rewrite bool_decide_true by done.
      unfold subscribeData. destruct (Nat.ltb_spec (length (env_Payload env)) 8); [lia|].
      unfold mbind, M_bind, gets. by rewrite Hc1, E.
    + rewrite !(bool_decide_false (MsgTypeRekey = _)) by done. rewrite !bool_decide_true by done.
      unfold subscribeRekey. destruct (Nat.ltb_spec (length (env_Payload env)) 8); [lia|].
      unfold mbind, M_bind, gets. by rewrite Hc1, E.
  - intros n pt. unfold accepts. rewrite Hc. destruct (_ && _); [|discriminate].
    destruct (openFrame _ env) as [plain|]; [|discriminate]. zcase; [discriminate|].
    intros [= <- <-]. by exists plain.
Qed.

(** Eight zero bytes and a ciphertext too short to hold a tag. *)
Definition forged_frame : Envelope := mkEnvelope Version MsgTypeDataStream (zeros 16) (zeros 12) (zeros 8).

Lemma tampered_frame_stops_witness :
  subscribeFrame [] (fun _ => None) (fun _ => true) length forged_frame sample_sub =
    (Ok (Some (Err FErrAuth)), sub_backoff initialBackoff sample_sub).
Proof.
  refine (proj1 (tampered_frame_stops [] (fun _ => None) (fun _ => true) length forged_frame sample_sub
    (zeros 32) _ _ _ _) _).
  - split; [by split|done|]. vm_compute. discriminate.
  - vm_compute. lia.
  - reflexivity.
  - apply list_elem_of_here.
  - intros pt Hg. apply (f_equal length) in Hg. rewrite aead_seal_length in Hg.
    change (0 = length pt + 16)%nat in Hg. lia.
Defined.

(** A relay that overwrites the 8-byte prefix of a genuine data frame with any larger
    number gets the message accepted under that number. *)
Lemma renumbered_accepted `{AEAD} s k sid n n' payload :
  length sid = 16%nat -> zlen payload + 4 <= MaxPlaintext ->
  s_cipher s = Some (mkCipher (Some k) (Some k)) -> s_lastSeqNum s < n' < 2 ^ 64 -> 0 <= n' ->
  let frame := sealed k sid MsgTypeDataStream n (PadPayload payload DefaultPaddingTargetSize) in
  accepts (mkEnvelope (env_Version frame) (env_MsgType frame) sid (env_Nonce frame)
             (be_bytes 8 n' ++ drop 8 (env_Payload frame))) s = Some (n', payload).
Proof.
  intros Hs Hl Hc Hn' Hn0 frame. pose proof (padded_fits payload Hl) as Hp.
  assert (zlen (env_Payload frame) = 8 + zlen (PadPayload payload DefaultPaddingTargetSize) + 16) as HL by apply length_sealed_payload.
  set (env := mkEnvelope _ _ _ _ _).
  assert (length (env_Payload env) = length (env_Payload frame)) as Hlen.
  { cbn [env env_Payload]. rewrite length_app, length_be_bytes, length_drop.
    lia. }
  assert (openFrame (mkCipher (Some k) (Some k)) env = Ok (PadPayload payload DefaultPaddingTargetSize)) as HO.
  { rewrite <- (openFrame_sealed k (Some k) sid MsgTypeDataStream n) by done. fold frame.
    unfold openFrame. rewrite Hlen. unfold env. cbn [env_Payload env_Version env_MsgType env_SessionID env_Nonce].
    by rewrite drop_exact by apply length_be_bytes. }
  assert (unpadOrKeep (PadPayload payload DefaultPaddingTargetSize) = payload) as HU by (by apply unpad_padded).
  unfold accepts. rewrite Hc, HO, HU, Hlen.
  destruct (Nat.leb_spec 8 (length (env_Payload frame))); [|lia]. cbn [andb].
  rewrite bool_decide_true by done. cbn [andb env env_Payload].
  rewrite slice_head by apply length_be_bytes. rewrite be_val_bytes, Z.mod_small by lia.
  destruct (Z.leb_spec n' (s_lastSeqNum s)); [lia|done].
Qed.

(** Reconnection is bounded and sound.  [reconnectLoop] always returns, never
    panics, makes at most ten attempts, and keeps the back-off on the scale 100 ms,
    200 ms, ... 6.4 s; when it reports success the engine holds a 32-byte session
    key with the matching SAS badge, obtained from a completed handshake. *)
Theorem reconnect_bounded `{AEAD} `{KeyExchange} pool atts s :
  backoff_ok (s_backoff s) ->
  exists ok used atts' s', reconnectLoop pool 10 atts s = (Ok (ok, atts'), s') /\
    atts = used ++ atts' /\ (length used <= 10)%nat /\
    backoff_ok (s_backoff s') /\ 100 * 10 ^ 6 <= s_backoff s' <= 6400 * 10 ^ 6 /\
    (ok = true -> exists k, length k = KeySize /\ s_cipher s' = Some (mkCipher (Some k) (Some k)) /\
       s_sas s' = CalculateSAS k).
Proof.
  intros Hb. destruct (reconnectLoop_spec pool 10 atts s) as (ok & atts' & s' & E & (used & Hu & Hl & Hbk) & Hok).
  assert (backoff_ok (s_backoff s')) as Hb' by (rewrite Hbk; by apply iter_backoff_ok).
  exists ok, used, atts', s'. do 4 (split; [done|]). split; [by apply backoff_ok_range|].
  intros Ho. by apply Hok.
Qed.

Lemma reconnect_bounded_witness :
  exists ok used atts' s', reconnectLoop [] 10 [mkAttempt (mkPakeRand None None [] None) None None] sample_sub
      = (Ok (ok, atts'), s') /\
    [mkAttempt (mkPakeRand None None [] None) None None] = used ++ atts' /\ (length used <= 10)%nat /\
    backoff_ok (s_backoff s') /\ 100 * 10 ^ 6 <= s_backoff s' <= 6400 * 10 ^ 6 /\
    (ok = true -> exists k, length k = KeySize /\ s_cipher s' = Some (mkCipher (Some k) (Some k)) /\
       s_sas s' = CalculateSAS k).
Proof. apply reconnect_bounded. exists 0. split; [lia|reflexivity]. Defined.

(** C28: Termination.  [SubscribeStream] returns on every finite amount of input:
    with one iteration more than there are pending bytes and reconnection attempts
    it always ends with a verdict, whatever arrives and however connections fail. *)
Theorem SubscribeStream_terminates `{AEAD} `{KeyExchange} pool unmarshal fs_create fs_write atts s :
  exists r s', SubscribeStream pool unmarshal fs_create fs_write (S (conn_len s + atts_len atts)) atts s
    = (Ok (Some r), s').
Proof. apply SubscribeStream_ends. lia. Qed.
