(* ===== verification/Feed.v ===== *)
(** * End to end: publisher and subscriber

    The two engines against each other: a stretch of published stream is
    delivered exactly (rekeys included), a reconnecting subscriber is brought up
    to date from the replay buffer, and the handshake hands over the live key. *)

From S2P Require Import Prelude Protocol Memory RingBuffer Hash Aead Cipher Pake Engine Sanitize Files Publisher Subscriber.

Section Feed.
Context {aeadI : AEAD} {kexI : KeyExchange}.
Variable pool : bytes.
Variable unmarshal : bytes -> option FileHeader.
Variable fs_create : bytes -> bool.
Variable fs_write : bytes -> nat.

Abbreviation subFrame := (subscribeFrame pool unmarshal fs_create fs_write).
Abbreviation subFrames := (subscribeFrames pool unmarshal fs_create fs_write).
Abbreviation received := (delivered pool unmarshal fs_create fs_write).
Abbreviation deliverAll := (deliver_all unmarshal fs_create fs_write).

(** ** A subscriber holding the publisher's key *)

Definition holds_key (k : bytes) (s : SubscriberEngine) : Prop :=
  s_cipher s = Some (mkCipher (Some k) (Some k)) /\ s_sas s = CalculateSAS k.

Definition data_frame (k sid : bytes) (it : Z * bytes) : Envelope :=
  sealed k sid MsgTypeDataStream it.1 (PadPayload it.2 DefaultPaddingTargetSize).

(** A message that fits a frame and has a 64-bit number. *)
Definition item_ok (it : Z * bytes) : Prop := 0 <= it.1 < 2 ^ 64 /\ zlen it.2 + 4 <= MaxPlaintext.

Lemma accepts_sealed k sid n payload s :
  length sid = 16%nat -> zlen payload + 4 <= MaxPlaintext -> 0 <= n < 2 ^ 64 ->
  holds_key k s ->
  accepts (sealed k sid MsgTypeDataStream n (PadPayload payload DefaultPaddingTargetSize)) s =
    if n <=? s_lastSeqNum s then None else Some (n, payload).
Proof.
  intros Hs Hl Hn [Hk _]. pose proof (padded_fits payload Hl) as Hfit. unfold accepts.
  rewrite bool_decide_true by done.
  pose proof (length_sealed_payload k sid MsgTypeDataStream n (PadPayload payload DefaultPaddingTargetSize)) as HL.
  destruct (Nat.leb_spec 8 (length (env_Payload (sealed k sid MsgTypeDataStream n
    (PadPayload payload DefaultPaddingTargetSize))))); [|lia]. cbn [andb].
  rewrite Hk, openFrame_sealed, unpad_padded by done. unfold sealed. cbn [env_Payload].
  rewrite slice_head by apply length_be_bytes. rewrite be_val_bytes, Z.mod_small by lia. done.
Qed.

(** One new data frame. *)
Lemma subscribe_data k sid n payload s :
  length sid = 16%nat -> item_ok (n, payload) -> s_lastSeqNum s < n -> holds_key k s ->
  exists s1, subFrame (data_frame k sid (n, payload)) s = (Ok None, s1) /\
    accepts (data_frame k sid (n, payload)) s = Some (n, payload) /\ holds_key k s1 /\
    s_lastSeqNum s1 = n /\ s_view s1 = (deliver unmarshal fs_create fs_write payload (s_view s)).1.
Proof.
  intros Hs [Hn Hl] Hlt Hk. unfold data_frame. cbn [fst snd] in *.
  pose proof (accepts_sealed k sid n payload s Hs Hl Hn Hk) as HA.
  destruct (Z.leb_spec n (s_lastSeqNum s)); [lia|]. set (env := sealed _ _ _ _ _) in *.
  pose proof (subscribeFrame_effect pool unmarshal fs_create fs_write env s) as (_ & HE & _).
  rewrite HA in HE. destruct (subFrame env s) as [r s1]. cbn [fst snd] in HE.
  destruct HE as (-> & _ & Hl1 & Hv1 & Hc1 & Hsas1 & _). exists s1. split; [done|]. split; [done|].
  split; [|done]. unfold holds_key. by rewrite Hc1, Hsas1.
Qed.

(** A data frame with a number already passed. *)
Lemma subscribe_old k sid n payload s :
  length sid = 16%nat -> item_ok (n, payload) -> n <= s_lastSeqNum s -> holds_key k s ->
  subFrame (data_frame k sid (n, payload)) s = (Ok None, sub_backoff initialBackoff s) /\
  accepts (data_frame k sid (n, payload)) s = None.
Proof.
  intros Hs [Hn Hl] Hle Hk. cbn [fst snd] in *. split.
  - unfold data_frame, subscribeFrame, mbind, M_bind, modify. cbn [fst snd]. set (env := sealed _ _ _ _ _).
    assert (env_MsgType env = MsgTypeDataStream) as -> by done.
    rewrite !(bool_decide_false (MsgTypeDataStream = _)) by done. rewrite bool_decide_true by done.
    unfold subscribeData. pose proof (length_sealed_payload k sid MsgTypeDataStream n (PadPayload payload DefaultPaddingTargetSize)) as HL.
    fold env in HL. destruct (Nat.ltb_spec (length (env_Payload env)) 8); [lia|].
    unfold mbind, M_bind, gets. cbn [fst snd sub_backoff s_cipher s_lastSeqNum]. rewrite (proj1 Hk). unfold env.
    rewrite openFrame_sealed by (done || by apply padded_fits). unfold sealed. cbn [env_Payload].
    rewrite slice_head by apply length_be_bytes. rewrite be_val_bytes, Z.mod_small by lia.
    cbn [sub_backoff s_lastSeqNum]. by rewrite (proj2 (Z.leb_le _ _) Hle).
  - unfold data_frame. rewrite accepts_sealed by done. cbn [fst snd]. by rewrite (proj2 (Z.leb_le _ _) Hle).
Qed.

Lemma subscribe_rekey k k1 sid n salt s :
  length sid = 16%nat -> length salt = Cipher.NonceSize -> RatchetKey k salt = Ok k1 -> length k1 = KeySize ->
  holds_key k s ->
  subFrame (sealed k sid MsgTypeRekey n salt) s =
    (Ok None, sub_cipher (Some (mkCipher (Some k1) (Some k1))) (CalculateSAS k1) (sub_backoff initialBackoff s)).
Proof.
  intros Hs Hsalt HR Hk1 [Hk _]. unfold subscribeFrame, mbind, M_bind, modify. cbn [fst snd].
  set (env := sealed _ _ _ _ _). assert (env_MsgType env = MsgTypeRekey) as -> by done.
  rewrite !(bool_decide_false (MsgTypeRekey = _)) by done. rewrite bool_decide_true by done.
  unfold subscribeRekey. pose proof (length_sealed_payload k sid MsgTypeRekey n salt) as HL. fold env in HL.
  destruct (Nat.ltb_spec (length (env_Payload env)) 8); [lia|].
  unfold mbind, M_bind, gets. cbn [fst snd]. cbn [sub_backoff s_cipher]. rewrite Hk. unfold env.
  rewrite openFrame_sealed by (done || by rewrite Hsalt). cbn [GetKey c_key]. rewrite HR.
  by rewrite UpdateKey_ok.
Qed.

Lemma RatchetKey_length k salt k1 : RatchetKey k salt = Ok k1 -> length k1 = KeySize.
Proof. intros H. unfold RatchetKey in H. apply HKDF_length in H; unfold KeySize in *; lia. Qed.

Lemma session_grows sid k n items fs k' n' : session_frames sid k n items fs k' n' -> n <= n'.
Proof. induction 1; lia. Qed.

(** The subscriber on the frames of a session: everything new is delivered, the
    key follows the publisher's. *)
Lemma subscribe_session sid k n items fs k' n' :
  session_frames sid k n items fs k' n' -> length sid = 16%nat -> 0 <= n ->
  forall s, holds_key k s -> s_lastSeqNum s <= n ->
  exists s', subFrames fs s = (Ok None, s') /\ received fs s = items /\
    holds_key k' s' /\ s_lastSeqNum s' <= n' /\ s_view s' = deliverAll items.*2 (s_view s).
Proof.
  intros HF Hs. induction HF as [k n|k n payload items fs k' n' Hl Hn _ IH
    |k n salt k1 items fs k' n' Hsalt Hn HR _ IH|k n items fs k' n' _ IH]; intros Hn0 s Hk Hlast.
  - exists s. done.
  - cbn [delivered subscribeFrames]. unfold mbind, M_bind.
    destruct (subscribe_data k sid (n + 1) payload s Hs) as (s1 & Es & Ea & Hk1 & Hl1 & Hv1);
      [split; simpl; (done || lia)|lia|done|].
    unfold data_frame in Es, Ea. cbn [fst snd] in Es, Ea. rewrite Es, Ea.
    destruct (IH ltac:(lia) s1 Hk1 ltac:(lia)) as (s' & -> & -> & Hk' & Hl' & Hv').
    exists s'. split; [done|]. split; [done|]. split; [done|]. split; [done|]. by rewrite Hv', Hv1.
  - cbn [delivered subscribeFrames]. unfold mbind, M_bind.
    rewrite (subscribe_rekey k k1) by (done || by eapply RatchetKey_length).
    unfold accepts at 1. rewrite bool_decide_false by done. cbn [andb option_list app].
    set (s1 := sub_cipher _ _ _). destruct (IH ltac:(lia) s1) as (s' & Hs'); [done|simpl; lia|].
    by exists s'.
  - cbn [delivered subscribeFrames]. unfold mbind, M_bind, subscribeFrame, mbind, M_bind, modify. cbn [fst snd env_MsgType].
    rewrite bool_decide_false, bool_decide_true by done. cbn [mret M_ret].
    unfold accepts at 1. rewrite bool_decide_false by done. cbn [andb option_list app].
    destruct (IH Hn0 (sub_backoff initialBackoff s)) as (s' & Hs'); [done|done|]. by exists s'.
Qed.

(** The same frames to a subscriber whose last number is beyond them: the key follows,
    nothing is delivered. *)
Lemma subscribe_stale sid k n items fs k' n' :
  session_frames sid k n items fs k' n' -> length sid = 16%nat -> 0 <= n ->
  forall s, holds_key k s -> n' <= s_lastSeqNum s ->
  exists s', subFrames fs s = (Ok None, s') /\ received fs s = [] /\
    holds_key k' s' /\ s_lastSeqNum s' = s_lastSeqNum s /\ s_view s' = s_view s.
Proof.
  intros HF Hs. induction HF as [k n|k n payload items fs k' n' Hl Hn HF IH
    |k n salt k1 items fs k' n' Hsalt Hn HR HF IH|k n items fs k' n' _ IH]; intros Hn0 s Hk Hlast.
  - by exists s.
  - cbn [delivered subscribeFrames]. unfold mbind, M_bind. pose proof (session_grows _ _ _ _ _ _ _ HF).
    destruct (subscribe_old k sid (n + 1) payload s Hs) as [Es Ea]; [split; simpl; (done || lia)|lia|done|].
    unfold data_frame in Es, Ea. cbn [fst snd] in Es, Ea. rewrite Es, Ea. cbn [option_list app].
    destruct (IH ltac:(lia) (sub_backoff initialBackoff s)) as (s' & Hs'); [done|done|]. by exists s'.
  - cbn [delivered subscribeFrames]. unfold mbind, M_bind.
    rewrite (subscribe_rekey k k1) by (done || by eapply RatchetKey_length).
    unfold accepts at 1. rewrite bool_decide_false by done. cbn [andb option_list app].
    set (s1 := sub_cipher _ _ _). destruct (IH ltac:(lia) s1) as (s' & Hs'); [done|done|]. by exists s'.
  - cbn [delivered subscribeFrames]. unfold mbind, M_bind, subscribeFrame, mbind, M_bind, modify. cbn [fst snd env_MsgType].
    rewrite bool_decide_false, bool_decide_true by done. cbn [mret M_ret].
    unfold accepts at 1. rewrite bool_decide_false by done. cbn [andb option_list app].
    destruct (IH Hn0 (sub_backoff initialBackoff s)) as (s' & Hs'); [done|done|]. by exists s'.
Qed.

(** Frames, then more frames. *)
Lemma subscribe_more fs gs s s1 :
  subFrames fs s = (Ok None, s1) ->
  subFrames (fs ++ gs) s = subFrames gs s1 /\ received (fs ++ gs) s = received fs s ++ received gs s1.
Proof.
  revert s. induction fs as [|f fs IH]; intros s E; [by injection E as ->|].
  cbn [app subscribeFrames delivered] in *. unfold mbind, M_bind in *.
  destruct (subFrame f s) as [[[r|]|er] s2]; try done. destruct (IH s2 E) as [-> ->]. by rewrite app_assoc.
Qed.

(** ** Replay *)

Lemma Forall_after (P : Z * bytes -> Prop) last l : Forall P l -> Forall P (RingSpec.after last l).
Proof.
  rewrite !Forall_forall. intros H it [_ Hit]%list_elem_of_filter. by apply H.
Qed.

Lemma after_sorted last (l : RingSpec.t) :
  StronglySorted Z.lt l.*1 -> StronglySorted Z.lt (last :: (RingSpec.after last l).*1).
Proof.
  intros Hs. constructor.
  - induction l as [|it l IH]; [constructor|].
    rewrite fmap_cons in Hs. apply StronglySorted_inv in Hs as [Hs Hall]. unfold RingSpec.after in *. rewrite filter_cons. case_decide; [|by apply IH].
    rewrite fmap_cons. constructor; [by apply IH|]. rewrite Forall_fmap in Hall. apply Forall_fmap.
    by apply (Forall_after _ last).
  - apply Forall_fmap, Forall_forall. by intros it [Hlt _]%list_elem_of_filter.
Qed.

Lemma replayItems_run items k p c :
  p_conn p = Some c -> healthy c -> length (p_sessionID p) = 16%nat -> Forall item_ok items ->
  replayItems pool items (mkCipher (Some k) (Some k)) p =
    (Ok tt, set_conn (Some (emit c (data_frame k (p_sessionID p) <$> items))) p).
Proof.
  intros Hc Hh Hs Hi. revert p c Hc Hh Hs. induction Hi as [|[n payload] items [_ Hl] _ IH]; intros p c Hc Hh Hs.
  { simpl. rewrite emit_nil by done. by rewrite <- Hc, set_conn_same. }
  pose proof (padded_fits payload Hl) as Hfit.
  cbn [replayItems]. unfold mbind, M_bind, gets. cbn [fst snd].
  rewrite sealFrame_open by done. unfold ignore.
  rewrite (sendFrame_healthy pool _ p c Hc Hh) by (by apply sealed_ok). cbn [snd].
  set (env := sealed _ _ _ _ _).
  by rewrite (IH (set_conn (Some (emit c [env])) p) (emit c [env])), emit_emit.
Qed.

(** Replaying writes exactly the buffered messages after [last], sealed under the
    current key. *)
Lemma replaySync_run last p k c :
  ready p k c -> Forall item_ok (abs (p_replayBuffer p) (p_mem p)) ->
  exists p', replaySyncForSubscriber pool last p = (Ok tt, p') /\
    p_conn p' = Some (emit c (data_frame k (p_sessionID p) <$>
      RingSpec.after last (abs (p_replayBuffer p) (p_mem p)))).
Proof.
  intros (Hp & Hc & Hconn & Hh) Hi.
  destruct (replaySync_spec pool last p (pi_ring p Hp)) as (m & Hrm & Ham & m0 & E). rewrite Hc, Hconn in E.
  rewrite (replayItems_run _ k (set_ring (p_replayBuffer p) m0 p) c) in E; [|done|done|apply (pi_sid p Hp)|].
  - eexists. split; [exact E|]. done.
  - by apply Forall_after.
Qed.

(** The subscriber delivers a sorted run of new data frames completely. *)
Lemma subscribe_data_frames k sid items s :
  length sid = 16%nat -> Forall item_ok items -> StronglySorted Z.lt (s_lastSeqNum s :: items.*1) ->
  holds_key k s ->
  exists s', subFrames (data_frame k sid <$> items) s = (Ok None, s') /\
    received (data_frame k sid <$> items) s = items /\ holds_key k s' /\
    s_view s' = deliverAll items.*2 (s_view s).
Proof.
  intros Hs Hi. revert s. induction Hi as [|[n payload] items [Hn Hl] _ IH]; intros s Hsort Hk; [by exists s|].
  apply StronglySorted_inv in Hsort as [Hsort Hall]. rewrite fmap_cons in Hsort, Hall. cbn [fst] in *.
  apply Forall_cons in Hall as [Hlt _].
  destruct (subscribe_data k sid n payload s Hs) as (s1 & Es & Ea & Hk1 & Hl1 & Hv1); [done|done|done|].
  rewrite fmap_cons. cbn [delivered subscribeFrames]. unfold mbind, M_bind. rewrite Es, Ea.
  destruct (IH s1) as (s' & -> & -> & Hk' & Hv'); [by rewrite Hl1|done|].
  exists s'. split; [done|]. split; [done|]. split; [done|]. by rewrite Hv', Hv1.
Qed.

(** ** What a session publishes is sorted and fits *)

Lemma session_items sid k n items fs k' n' :
  session_frames sid k n items fs k' n' -> 0 <= n ->
  n <= n' /\ Forall item_ok items /\ StronglySorted Z.lt (n :: items.*1) /\ Forall (fun it => it.1 <= n') items.
Proof.
  induction 1 as [k n|k n payload items fs k' n' Hl Hn _ IH
    |k n salt k1 items fs k' n' Hsalt Hn HR _ IH|k n items fs k' n' _ IH]; intros Hn0.
  - repeat split; try constructor; (constructor || lia).
  - destruct IH as (H1 & H2 & H3 & H4); [lia|]. split; [lia|].
    split; [constructor; [split; simpl; (done || lia)|done]|]. rewrite fmap_cons. cbn [fst].
    split; [|constructor; [simpl; lia|done]]. constructor; [done|].
    apply StronglySorted_inv in H3 as [_ H3]. constructor; [lia|]. eapply Forall_impl; [exact H3|]. simpl. lia.
  - destruct IH as (H1 & H2 & H3 & H4); [lia|]. split; [lia|]. split; [done|]. split; [|done].
    apply StronglySorted_inv in H3 as [H3 H5]. constructor; [done|].
    eapply Forall_impl; [exact H5|]. simpl. lia.
  - by apply IH.
Qed.

Lemma push_items_lastn items done_items :
  push_items items (lastn 100 done_items) = lastn 100 (done_items ++ items).
Proof.
  revert done_items. induction items as [|[n m] items IH]; intros d; [by rewrite app_nil_r|].
  change (push_items ((n, m) :: items) (lastn 100 d)) with (push_items items (RingSpec.push 100 n m (lastn 100 d))).
  rewrite push_lastn, IH, <- app_assoc by lia. done.
Qed.

Lemma sorted_middle (l1 : list Z) x l2 : StronglySorted Z.lt (l1 ++ x :: l2) -> Forall (Z.lt x) l2.
Proof.
  induction l1 as [|y l1 IH]; simpl; intros H; apply StronglySorted_inv in H as [H1 H2]; auto.
Qed.

(** In a sorted log the messages after [last] are a suffix; a window of 100 that
    is long enough contains it. *)
Lemma after_lastn last (l : RingSpec.t) :
  StronglySorted Z.lt l.*1 -> (length (RingSpec.after last l) <= 100)%nat ->
  RingSpec.after last (lastn 100 l) = RingSpec.after last l.
Proof.
  intros Hs Hl. unfold lastn. rewrite <- (take_drop (length l - 100) l) at 3.
  unfold RingSpec.after in *. rewrite filter_app. symmetry. rewrite filter_none; [done|].
  apply Forall_forall. intros x Hx Hlt.
  (* everything from x on is after last: more than 100 messages *)
  apply list_elem_of_lookup in Hx as (j & Hj). apply lookup_take_Some in Hj as [Hj Hjl].
  pose proof (take_drop_middle l j x Hj) as Hsplit.
  assert (filter (fun item : Z * bytes => last < item.1) (x :: drop (S j) l) = x :: drop (S j) l) as Hd.
  { apply filter_all. constructor; [done|]. rewrite <- Hsplit, fmap_app, fmap_cons in Hs.
    apply sorted_middle in Hs. rewrite Forall_fmap in Hs. eapply Forall_impl; [exact Hs|]. simpl. lia. }
  apply lookup_lt_Some in Hj.
  rewrite <- Hsplit, filter_app, length_app, Hd in Hl. cbn [length] in Hl. rewrite length_drop in Hl. lia.
Qed.

(** ** Handshake *)

Lemma decodeFrom_run env rest p c :
  p_conn p = Some c -> c_closed c = false -> Envelope_ok MaxPayloadSize env ->
  c_in c = reader_of (frame_bytes env) ++ rest ->
  decodeFrom p = (Ok env, set_conn (Some (mkConn rest (c_out c) (c_writes c) false)) p).
Proof. intros Hc Ho He Hi. unfold decodeFrom. rewrite Hc. by rewrite (conn_decode_frame env rest). Qed.

Lemma subDecode_run env rest s c :
  s_conn s = Some c -> c_closed c = false -> Envelope_ok MaxPayloadSize env ->
  c_in c = reader_of (frame_bytes env) ++ rest ->
  subDecode s = (Ok env, sub_conn (Some (mkConn rest (c_out c) (c_writes c) false)) s).
Proof. intros Hc Ho He Hi. unfold subDecode. rewrite Hc. by rewrite (conn_decode_frame env rest). Qed.

Lemma subEncode_run env s c :
  s_conn s = Some c -> healthy c -> Envelope_ok MaxPayloadSize env ->
  subEncode pool env s = (Ok tt, sub_conn (Some (emit c [env])) s).
Proof.
  intros Hc Hh He. unfold subEncode. rewrite Hc.
  rewrite conn_encode_healthy by (done || apply length_stalePool).
  by rewrite emit_one.
Qed.

(** Frames that are not confirmations are skipped, up to the bound of eight. *)
Lemma awaitConfirm_run n noise confirm rest p c peer :
  (length noise < n)%nat ->
  Forall (fun e => Envelope_ok MaxPayloadSize e /\ env_MsgType e <> MsgTypeKeyConfirm) noise ->
  Envelope_ok MaxPayloadSize confirm -> env_MsgType confirm = MsgTypeKeyConfirm ->
  p_conn p = Some c -> c_closed c = false -> p_pakePeer p = Some peer ->
  c_in c = reader_of (concat (frame_bytes <$> noise ++ [confirm])) ++ rest ->
  VerifyPeerConfirm (Some peer) (env_Payload confirm) = Ok tt ->
  awaitConfirm n p = (Ok tt, set_conn (Some (mkConn rest (c_out c) (c_writes c) false)) p).
Proof.
  intros Hn Hnoise Hok Ht Hc Ho Hp Hi Hv. revert n p c Hn Hc Ho Hp Hi.
  induction Hnoise as [|e noise [He Hte] _ IH]; intros n p c Hn Hc Ho Hp Hi.
  - destruct n as [|n]; [simpl in Hn; lia|]. cbn [app fmap list_fmap concat] in Hi. rewrite app_nil_r in Hi.
    cbn [awaitConfirm]. rewrite (bind_ok _ _ _ _ _ (decodeFrom_run confirm rest p c Hc Ho Hok Hi)).
    rewrite bool_decide_true by done. unfold mbind, M_bind, gets, lift. cbn [set_conn p_pakePeer].
    by rewrite Hp, Hv.
  - destruct n as [|n]; [simpl in Hn; lia|]. cbn [app fmap list_fmap concat] in Hi.
    rewrite reader_of_app, <- app_assoc in Hi. cbn [awaitConfirm].
    rewrite (bind_ok _ _ _ _ _ (decodeFrom_run e _ p c Hc Ho He Hi)). rewrite bool_decide_false by done.
    rewrite (IH n _ (mkConn (reader_of (concat (frame_bytes <$> noise ++ [confirm])) ++ rest) (c_out c) (c_writes c) false));
      [done|simpl in Hn; lia|done..].
Qed.

(** The three handshake frames of a publisher peer and a subscriber peer. *)
Definition initFrame (sid subMsg : bytes) : Envelope :=
  mkEnvelope Version MsgTypePAKEInitSub sid zeroNonce subMsg.
Definition step2Frame (sid pubMsg nonce p2p k : bytes) : Envelope :=
  mkEnvelope Version MsgTypePAKEStep2 sid zeroNonce
    ((pubMsg ++ wrapped nonce p2p k) ++ hmac_sha256 p2p (confirmLabel ++ [x01])).
Definition confirmFrame (sid p2p : bytes) : Envelope :=
  mkEnvelope Version MsgTypeKeyConfirm sid zeroNonce (hmac_sha256 p2p (confirmLabel ++ [x02])).

Lemma small_frame_ok t sid payload :
  length sid = 16%nat -> (length payload <= 2000)%nat ->
  Envelope_ok MaxPayloadSize (mkEnvelope Version t sid zeroNonce payload).
Proof. intros Hs Hl. split; [by split|done|]. cbn [env_Payload]. unfold MaxPayloadSize. lia. Qed.

Lemma length_step2 sid pubMsg nonce p2p k :
  length pubMsg = UniformWireMsgSize -> length k = KeySize -> length nonce = Cipher.NonceSize ->
  length (env_Payload (step2Frame sid pubMsg nonce p2p k)) = 1372%nat.
Proof.
  intros Hp Hk Hn. cbn [step2Frame env_Payload].
  rewrite !length_app, length_wrapped, length_hmac_sha256, Hp by done. done.
Qed.

(** The publisher's side. *)
Lemma publisher_handshake pub pub' rp nonce sid subMsg pubMsg key k p c noise rest :
  Update subMsg rp pub = (Ok tt, pub') -> pk_pubBytes pub' = Some pubMsg ->
  pk_sharedKey pub' = Some key -> length key = KeySize -> pk_role pub' = 1 ->
  length subMsg = UniformWireMsgSize -> length pubMsg = UniformWireMsgSize ->
  length k = KeySize -> length nonce = Cipher.NonceSize -> length sid = 16%nat ->
  p_pakePeer p = Some pub -> p_masterKey p = Some k -> p_sessionID p = sid -> p_conn p = Some c -> healthy c ->
  (length noise < 8)%nat ->
  Forall (fun e => Envelope_ok MaxPayloadSize e /\ env_MsgType e <> MsgTypeKeyConfirm) noise ->
  c_in c = reader_of (concat (frame_bytes <$> initFrame sid subMsg :: noise ++ [confirmFrame sid key])) ++ rest ->
  exists p', Publisher.CompleteHandshake pool rp (Some nonce) p = (Ok tt, p') /\
    p_conn p' = Some (mkConn rest (c_out c ++ frame_bytes (step2Frame sid pubMsg nonce key k)) [] false) /\
    p_masterKey p' = Some k /\ p_cipher p' = p_cipher p.
Proof.
  intros HU Hpub Hkey Hkl Hrole Hsm Hpm Hk Hn Hsid Hpeer Hmk Hps Hc Hh Hnl Hnoise Hi.
  pose proof Hh as [Hop Hw].
  cbn [fmap list_fmap concat] in Hi. rewrite reader_of_app, <- app_assoc in Hi.
  assert (Envelope_ok MaxPayloadSize (initFrame sid subMsg)) as Hok1
    by (apply small_frame_ok; [done|unfold UniformWireMsgSize in *; lia]).
  pose proof (length_step2 sid pubMsg nonce key k Hpm Hk Hn) as Hl2.
  assert (Envelope_ok MaxPayloadSize (step2Frame sid pubMsg nonce key k)) as Hok2
    by (apply small_frame_ok; [done|cbn [step2Frame env_Payload] in Hl2; lia]).
  unfold CompleteHandshake. rewrite (bind_ok _ _ _ _ _ (decodeFrom_run _ _ p c Hc Hop Hok1 Hi)).
  set (c1 := mkConn _ _ _ false). cbn [initFrame env_MsgType env_Version env_Payload].
  rewrite !(bool_decide_false (MsgTypePAKEInitSub = _)) by done.
  rewrite bool_decide_false by (intros [H _]; done). cbn [Z.ltb].
  change (Z_of_byte Version <? Z_of_byte MinSupportedVersion) with false. cbv iota.
  set (p2 := set_pake (Some pub') (set_conn (Some c1) p)).
  assert (pakeUpdate subMsg rp (set_conn (Some c1) p) = (Ok tt, p2)) as E2.
  { unfold pakeUpdate. cbn [set_conn p_pakePeer]. by rewrite Hpeer, HU. }
  rewrite (bind_ok _ _ _ _ _ E2).
  assert (step2Payload (p_pakePeer p2) (default [] (p_masterKey p2)) (Some nonce) =
    Ok (env_Payload (step2Frame sid pubMsg nonce key k))) as E3.
  { cbn [p2 set_pake set_conn p_pakePeer p_masterKey step2Payload]. rewrite Hmk. unfold SessionKey, ConfirmTag.
    rewrite Hkey. cbn [result_bind default]. rewrite Wrap_run by done. cbn [result_bind Bytes]. by rewrite Hpub, Hrole. }
  rewrite !bind_gets, (bind_lift _ _ _ _ _ E3), bind_gets.
  change (p_sessionID p2) with (p_sessionID p). rewrite Hps.
  assert (encodeTo pool (step2Frame sid pubMsg nonce key k) p2 = (Ok tt,
    set_conn (Some (emit c1 [step2Frame sid pubMsg nonce key k])) p2)) as E4.
  { apply (sendFrame_healthy pool _ p2 c1); [done| |done]. by split. }
  rewrite (bind_ok _ _ _ _ _ E4).
  eexists. split; [eapply (awaitConfirm_run 8 noise (confirmFrame sid key) rest _ _ pub')|]; try done.
  - rewrite (VerifyPeerConfirm_ok pub' key), Hrole by done. done.
  - by rewrite emit_one.
Qed.

(** The subscriber's side. *)
Lemma subscriber_handshake sub sub' rs nonce sid pubMsg key k s c rest :
  (forall rnd, Update pubMsg rnd sub = (Ok tt, sub')) -> pk_sharedKey sub' = Some key ->
  length key = KeySize -> pk_role sub' = 2 -> length pubMsg = UniformWireMsgSize ->
  length k = KeySize -> length nonce = Cipher.NonceSize -> length sid = 16%nat ->
  s_pakePeer s = Some sub -> s_sessionID s = sid -> s_conn s = Some c -> healthy c ->
  c_in c = reader_of (frame_bytes (step2Frame sid pubMsg nonce key k)) ++ rest ->
  exists s', SubCompleteHandshake pool rs s = (Ok tt, s') /\ holds_key k s' /\
    s_conn s' = Some (mkConn rest (c_out c ++ frame_bytes (confirmFrame sid key)) [] false) /\
    s_lastSeqNum s' = s_lastSeqNum s /\ s_view s' = s_view s.
Proof.
  intros HU Hkey Hkl Hrole Hpm Hk Hn Hsid Hpeer Hss Hc Hh Hi. pose proof Hh as [Hop Hw].
  pose proof (length_step2 sid pubMsg nonce key k Hpm Hk Hn) as Hl2.
  assert (Envelope_ok MaxPayloadSize (step2Frame sid pubMsg nonce key k)) as Hok2
    by (apply small_frame_ok; [done|cbn [step2Frame env_Payload] in Hl2; lia]).
  unfold SubCompleteHandshake. rewrite (bind_ok _ _ _ _ _ (subDecode_run _ _ s c Hc Hop Hok2 Hi)).
  set (c1 := mkConn _ _ _ false).
  rewrite bool_decide_false by done.
  change (Z_of_byte (env_Version (step2Frame sid pubMsg nonce key k)) <? Z_of_byte MinSupportedVersion) with false.
  rewrite Hl2. cbv iota. unfold UniformWireMsgSize in *. cbn [Nat.add Nat.ltb Nat.leb].
  set (pl := env_Payload _).
  assert (take 1280 pl = pubMsg) as P1.
  { unfold pl. cbn [step2Frame env_Payload]. rewrite <- app_assoc. by apply take_exact. }
  assert (slice 1280 1340 pl = wrapped nonce key k) as P2.
  { unfold pl. cbn [step2Frame env_Payload]. rewrite <- app_assoc. apply slice_mid; [done|].
    rewrite length_wrapped by done. done. }
  assert (slice 1340 1372 pl = hmac_sha256 key (confirmLabel ++ [x01])) as P3.
  { pose proof (slice_mid 1340 1372 (pubMsg ++ wrapped nonce key k)
      (hmac_sha256 key (confirmLabel ++ [x01])) []) as H. rewrite app_nil_r in H.
    apply H; [by rewrite length_app, length_wrapped, Hpm|by rewrite length_hmac_sha256]. }
  cbn [Nat.leb]. change (1372 <? 1372)%nat with false. cbv iota. rewrite P1, P2, P3.
  set (s2 := sub_pake (Some sub') (sub_conn (Some c1) s)).
  assert (subPakeUpdate pubMsg rs (sub_conn (Some c1) s) = (Ok tt, s2)) as E2.
  { unfold subPakeUpdate. cbn [sub_conn s_pakePeer]. by rewrite Hpeer, HU. }
  rewrite (bind_ok _ _ _ _ _ E2), bind_gets. change (s_pakePeer s2) with (Some sub').
  rewrite (bind_lift _ _ _ tt) by (apply (VerifyPeerConfirm_ok sub' key); by rewrite ?Hrole).
  rewrite (bind_lift _ _ _ (hmac_sha256 key (confirmLabel ++ [x02])))
    by (unfold ConfirmTag; by rewrite Hkey, Hrole).
  rewrite bind_gets. change (s_sessionID s2) with (s_sessionID s). rewrite Hss.
  assert (subEncode pool (confirmFrame sid key) s2 = (Ok tt, sub_conn (Some (emit c1 [confirmFrame sid key])) s2)) as E4.
  { apply subEncode_run; [done|by split|]. apply small_frame_ok; [done|].
    change (env_Payload (confirmFrame sid key)) with (hmac_sha256 key (confirmLabel ++ [x02])).
    rewrite length_hmac_sha256. lia. }
  fold (confirmFrame sid key).
  rewrite (bind_ok _ _ _ _ _ E4), (bind_lift _ _ _ key) by (unfold SessionKey; by rewrite Hkey).
  rewrite (bind_lift _ _ _ k) by (rewrite <- (app_nil_r (wrapped nonce key k)); by apply Unwrap_run).
  rewrite (bind_lift _ _ _ _ _ (NewCipher_ok k Hk)).
  rewrite emit_one. by eexists.
Qed.

(** ** Nonces *)

(** Every sealed frame of a session carries the number it was given. *)
Lemma session_nonces sid k n items fs k' n' :
  session_frames sid k n items fs k' n' ->
  Forall (fun e => env_MsgType e <> MsgTypeHeartbeat ->
    exists m, n < m < 2 ^ 64 /\ env_Nonce e = take 4 sid ++ be_bytes 8 m) fs.
Proof.
  induction 1 as [|k n payload items fs k' n' Hl Hn _ IH|k n salt k1 items fs k' n' Hsalt Hn HR _ IH
    |k n items fs k' n' _ IH]; constructor; try done.
  - intros _. exists (n + 1). split; [lia|done].
  - eapply Forall_impl; [exact IH|]. intros e He Ht. destruct (He Ht) as (m & Hm & E). exists m. split; [lia|done].
  - intros _. exists (n + 1). split; [lia|done].
  - eapply Forall_impl; [exact IH|]. intros e He Ht. destruct (He Ht) as (m & Hm & E). exists m. split; [lia|done].
Qed.

Lemma nonce_eq sid a b :
  0 <= a < 2 ^ 64 -> 0 <= b < 2 ^ 64 -> take 4 sid ++ be_bytes 8 a = take 4 sid ++ be_bytes 8 b -> a = b.
Proof. intros Ha Hb E. apply app_inv_head in E. by apply (be_bytes_inj 8) in E. Qed.

(** A frame numbered [n + 1] has a nonce no later frame has. *)
Lemma session_nonce_fresh sid k n items fs k' n' e :
  session_frames sid k (n + 1) items fs k' n' -> 0 <= n -> n + 1 < 2 ^ 64 ->
  e ∈ fs -> env_MsgType e <> MsgTypeHeartbeat -> env_Nonce e <> take 4 sid ++ be_bytes 8 (n + 1).
Proof.
  intros HF Hn Hn1 Hin Ht E. apply session_nonces in HF. rewrite Forall_forall in HF.
  destruct (HF e Hin Ht) as (m & Hm & Em). rewrite E in Em. apply nonce_eq in Em; lia.
Qed.

(** In a session without replays, frames with equal nonces are equal. *)
Lemma session_nonce_unique sid k n items fs k' n' :
  session_frames sid k n items fs k' n' -> 0 <= n ->
  forall e1 e2, e1 ∈ fs -> e2 ∈ fs -> env_MsgType e1 <> MsgTypeHeartbeat -> env_MsgType e2 <> MsgTypeHeartbeat ->
    env_Nonce e1 = env_Nonce e2 -> e1 = e2.
Proof.
  induction 1 as [|k n payload items fs k' n' Hl Hn HF IH|k n salt k1 items fs k' n' Hsalt Hn HR HF IH
    |k n items fs k' n' HF IH]; intros Hn0 e1 e2; [by intros ?%elem_of_nil| | |].
  3: { intros [->|H1]%elem_of_cons [->|H2]%elem_of_cons T1 T2 E; [done..|by apply IH]. }
  all: pose proof (fun e => session_nonce_fresh _ _ _ _ _ _ _ e HF Hn0 Hn) as Hfresh;
    intros [->|H1]%elem_of_cons [->|H2]%elem_of_cons T1 T2 E; [done| | |by apply IH; try lia];
    [by destruct (Hfresh e2 H2 T2)|by destruct (Hfresh e1 H1 T1)].
Qed.

(** ** Streaming with replays in between *)

Inductive session_op := OpEvents (evs : list stream_event) | OpReplay (lastSeqNum : Z).

Definition runOp (op : session_op) : M PublisherEngine feed_error unit :=
  match op with
  | OpEvents evs => publishEvents pool evs;; mret tt
  | OpReplay last => replaySyncForSubscriber pool last
  end.

Fixpoint runOps (ops : list session_op) : M PublisherEngine feed_error unit :=
  match ops with [] => mret tt | op :: ops => runOp op;; runOps ops end.

Definition op_ok (op : session_op) : Prop := match op with OpEvents evs => Forall event_ok evs | OpReplay _ => True end.
Definition op_events (op : session_op) : nat := match op with OpEvents evs => length evs | OpReplay _ => 0 end.
Definition events_of (ops : list session_op) : nat := sum_list (op_events <$> ops).

(** What has been sealed under each number. *)
Abbreviation sealings := (gmap Z (byte * bytes)).

Definition numbered (A : sealings) (n : Z) : Prop := forall m v, A !! m = Some v -> 0 <= m <= n /\ m < 2 ^ 64.
Definition covered (sid : bytes) (A : sealings) (e : Envelope) : Prop :=
  env_MsgType e <> MsgTypeHeartbeat -> exists k n t pt, e = sealed k sid t n pt /\ A !! n = Some (t, pt).
Definition logged (A : sealings) (it : Z * bytes) : Prop :=
  item_ok it /\ A !! it.1 = Some (MsgTypeDataStream, PadPayload it.2 DefaultPaddingTargetSize).

Lemma covered_mono sid (A B : sealings) e : A ⊆ B -> covered sid A e -> covered sid B e.
Proof.
  intros HAB He T. destruct (He T) as (k & n & t & pt & -> & E). exists k, n, t, pt. split; [done|]. by eapply lookup_weaken.
Qed.

Lemma logged_mono (A B : sealings) it : A ⊆ B -> logged A it -> logged B it.
Proof. intros HAB [H E]. split; [done|]. by eapply lookup_weaken. Qed.

Lemma numbered_insert (A : sealings) n v :
  numbered A n -> 0 <= n -> n + 1 < 2 ^ 64 -> numbered (<[n + 1 := v]> A) (n + 1) /\ A ⊆ <[n + 1 := v]> A.
Proof.
  intros HA Hn Hb. split.
  - intros m w E. destruct (decide (m = n + 1)) as [->|Hne]; [lia|]. rewrite lookup_insert_ne in E by done.
    destruct (HA _ _ E). lia.
  - apply insert_subseteq. destruct (A !! (n + 1)) eqn:E; [|done]. destruct (HA _ _ E). lia.
Qed.

(** The frames of a stream take numbers nothing was sealed under. *)
Lemma session_assigns sid k n items fs k' n' :
  session_frames sid k n items fs k' n' -> 0 <= n -> forall A, numbered A n ->
  exists B, A ⊆ B /\ numbered B n' /\ Forall (covered sid B) fs /\ Forall (logged B) items.
Proof.
  induction 1 as [k n|k n payload items fs k' n' Hl Hn HF IH|k n salt k1 items fs k' n' Hsalt Hn HR HF IH
    |k n items fs k' n' HF IH]; intros Hn0 A HA.
  - by exists A.
  - destruct (numbered_insert A n (MsgTypeDataStream, PadPayload payload DefaultPaddingTargetSize) HA Hn0 Hn) as [HA' Hsub].
    destruct (IH ltac:(lia) _ HA') as (B & HB & Hnum & Hfs & Hit).
    assert (E : B !! (n + 1) = Some (MsgTypeDataStream, PadPayload payload DefaultPaddingTargetSize))
      by (eapply lookup_weaken; [apply lookup_insert_eq|done]).
    exists B. split; [by etrans|]. split; [done|]. split; constructor; try done.
    + intros _. by eexists _, _, _, _.
    + split; [split; simpl; (done || lia)|done].
  - destruct (numbered_insert A n (MsgTypeRekey, salt) HA Hn0 Hn) as [HA' Hsub].
    destruct (IH ltac:(lia) _ HA') as (B & HB & Hnum & Hfs & Hit). exists B. split; [by etrans|]. split; [done|].
    split; [constructor; [|done]|done]. intros _. eexists _, _, _, _. split; [done|].
    eapply lookup_weaken; [apply lookup_insert_eq|done].
  - destruct (IH Hn0 A HA) as (B & HB & Hnum & Hfs & Hit). exists B. split; [done|]. split; [done|]. split; [constructor; [by intros []|done]|done].
Qed.

Lemma push_items_logged A items q : Forall (logged A) items -> Forall (logged A) q -> Forall (logged A) (push_items items q).
Proof.
  intros Hi. revert q. induction Hi as [|[n b] items Hb _ IH]; intros q Hq; [done|]. cbn [push_items foldl]. apply IH.
  unfold RingSpec.push. apply Forall_app. split; [|by apply Forall_singleton]. case_match; [|done].
  destruct Hq; [constructor|done].
Qed.

(** One operation. *)
Lemma runOp_run op A p k c :
  ready p k c -> op_ok op -> p_seqCounter p + 2 * Z.of_nat (op_events op) < 2 ^ 64 ->
  numbered A (p_seqCounter p) /\ Forall (logged A) (abs (p_replayBuffer p) (p_mem p)) ->
  exists B p' k' fs, runOp op p = (Ok tt, p') /\ ready p' k' (emit c fs) /\ A ⊆ B /\ p_sessionID p' = p_sessionID p /\
    p_seqCounter p' <= p_seqCounter p + 2 * Z.of_nat (op_events op) /\
    (numbered B (p_seqCounter p') /\ Forall (logged B) (abs (p_replayBuffer p') (p_mem p'))) /\
    Forall (covered (p_sessionID p) B) fs.
Proof.
  intros Hr Hop Hn [HA Hlog]. destruct op as [evs|last]; cbn [runOp op_events] in *.
  - destruct (publishEvents_run pool evs p k c Hr Hop Hn) as (k' & p' & fs & items & E & Hfs & _ & Hr' & Hsid & Habs).
    pose proof (publishEvents_count pool evs p k c Hr Hop Hn) as Hcnt. rewrite E in Hcnt. cbn [snd] in Hcnt.
    destruct (session_assigns _ _ _ _ _ _ _ Hfs (proj1 (pi_seq p (proj1 Hr))) A HA) as (B & HAB & HB & Hcov & Hit).
    exists B, p', k', fs. unfold mbind, M_bind. rewrite E. split_and!; try done. rewrite Habs. apply push_items_logged; [done|].
    eapply Forall_impl; [exact Hlog|]. intros it. by apply logged_mono.
  - pose proof Hr as (Hp & Hc & Hconn & Hh).
    destruct (replaySync_spec pool last p (pi_ring p Hp)) as (m & Hrm & Ham & m0 & E). rewrite Hc, Hconn in E.
    assert (Hall : Forall (logged A) (RingSpec.after last (abs (p_replayBuffer p) (p_mem p)))) by (by apply Forall_after).
    rewrite (replayItems_run _ k (set_ring (p_replayBuffer p) m0 p) c) in E; [|done|done|apply (pi_sid p Hp)|].
    2: { eapply Forall_impl; [exact Hall|]. by intros it []. }
    eexists A, _, k, _. split; [exact E|].
    pose proof (preserves_replaySync pool last p Hp) as Hp'. rewrite E in Hp'. cbn [snd] in Hp'.
    split; [by split|]. split; [done|]. split; [done|]. cbn [set_ring set_conn p_seqCounter p_replayBuffer p_mem].
    split; [lia|]. split; [by rewrite Ham|]. apply Forall_fmap. eapply Forall_impl; [exact Hall|].
    intros it [Hit EA] _. by eexists _, _, _, _.
Qed.

Lemma runOps_run ops A p k c :
  ready p k c -> Forall op_ok ops -> p_seqCounter p + 2 * Z.of_nat (events_of ops) < 2 ^ 64 ->
  numbered A (p_seqCounter p) /\ Forall (logged A) (abs (p_replayBuffer p) (p_mem p)) ->
  exists B p' fs, runOps ops p = (Ok tt, p') /\ p_conn p' = Some (emit c fs) /\ A ⊆ B /\ numbered B (p_seqCounter p') /\
    Forall (covered (p_sessionID p) B) fs.
Proof.
  intros Hr Hops. revert A p k c Hr. induction Hops as [|op ops Hop _ IH]; intros A p k c Hr Hn HA.
  { exists A, p, []. rewrite emit_nil by apply Hr. split; [done|]. split; [apply Hr|]. split; [done|]. by destruct HA. }
  change (events_of (op :: ops)) with (op_events op + events_of ops)%nat in Hn.
  destruct (runOp_run op A p k c Hr Hop ltac:(lia) HA) as (B & p1 & k1 & f1 & E1 & Hr1 & HAB & Hs1 & Hc1 & HB & Hf1).
  destruct (IH B p1 k1 (emit c f1) Hr1 ltac:(lia) HB) as (D & p2 & f2 & E2 & Hc2 & HBD & HD & Hf2).
  exists D, p2, (f1 ++ f2). cbn [runOps]. unfold mbind, M_bind. rewrite E1, E2. split; [done|]. rewrite Hc2, emit_emit.
  split; [done|]. split; [by etrans|]. split; [done|]. rewrite Hs1 in Hf2. apply Forall_app. split; [|done].
  eapply Forall_impl; [exact Hf1|]. intros e. by apply covered_mono.
Qed.
End Feed.

(** A subscriber that shares the sample publisher's key. *)
Definition synced_sub : SubscriberEngine :=
  sub_cipher (Some (mkCipher (Some (zeros 32)) (Some (zeros 32)))) (CalculateSAS (zeros 32)) sample_sub.

Lemma sample_pub_ready `{AEAD} : ready sample_pub (zeros 32) sample_conn.
Proof. split; [exact (proj1 sample_pub_inv)|done]. Qed.

(** * Properties *)

(** C3: End-to-end delivery.  A publisher and a subscriber share a key.  Whatever
    inputs and heartbeats the publisher's stream sees, with key ratchets wherever
    the byte or time limit triggers them, the bytes it writes decode to frames
    that the subscriber processes without stopping, and the subscriber's output
    and files are exactly the published payloads, each once and in order; at the
    end both sides hold the same key and show the same SAS badge. *)
Theorem end_to_end_delivery `{AEAD} pool unmarshal fs_create fs_write evs p k c s :
  ready p k c -> Forall event_ok evs -> p_seqCounter p + 2 * Z.of_nat (length evs) < 2 ^ 64 ->
  holds_key k s -> s_lastSeqNum s <= p_seqCounter p ->
  exists p' c' out fs s' k',
    publishEvents pool evs p = (Ok None, p') /\ p_conn p' = Some c' /\ c_out c' = c_out c ++ out /\
    decode_stream (S (length fs)) (reader_of out) = (fs, Some (ErrRead EOF)) /\
    subscribeFrames pool unmarshal fs_create fs_write fs s = (Ok None, s') /\
    (delivered pool unmarshal fs_create fs_write fs s).*2 = published (p_untaggedInput p) evs /\
    s_view s' = deliver_all unmarshal fs_create fs_write (published (p_untaggedInput p) evs) (s_view s) /\
    holds_key k' s' /\ p_masterKey p' = Some k' /\ p_sas p' = s_sas s'.
Proof.
  intros Hr Hev Hn Hk Hlast.
  destruct (publishEvents_run pool evs p k c Hr Hev Hn) as (k' & p' & fs & items & E & Hfs & Hit & Hr' & _ & _).
  pose proof Hr' as (Hp' & Hc' & Hconn' & _). pose proof (proj1 Hr) as Hp.
  destruct (subscribe_session pool unmarshal fs_create fs_write _ _ _ _ _ _ _ Hfs (pi_sid p Hp)
    (proj1 (pi_seq p Hp)) s Hk Hlast) as (s' & Es & Er & Hk' & _ & Hv).
  exists p', (emit c fs), (concat (frame_bytes <$> fs)), fs, s', k'.
  split; [done|]. split; [done|]. split; [done|]. split.
  { pose proof (decode_stream_frames fs [] (session_frames_ok _ _ _ _ _ _ _ (pi_sid p Hp) Hfs) 1) as D.
    change (decode_stream 1 []) with (@nil Envelope, Some (ErrRead EOF)) in D.
    by rewrite !app_nil_r, Nat.add_1_r in D. }
  rewrite Hit in Hv. rewrite Er. split; [done|]. split; [done|]. split; [done|]. split; [done|].
  destruct (key_inv_open _ _ (pi_key p' Hp') Hc') as (_ & k2 & _ & E2 & Hm & Hs & _).
  injection E2 as <-. destruct Hk' as [_ Hs']. by rewrite Hm, Hs, Hs'.
Qed.

Lemma end_to_end_delivery_witness :
  let evs := [Input [x68; x69] 0 (Some (zeros 12)); HeartbeatTick; Input [x79; x6f] (10 ^ 13) (Some (zeros 12))] in
  exists p' c' out fs s' k',
    publishEvents [] evs sample_pub = (Ok None, p') /\ p_conn p' = Some c' /\ c_out c' = c_out sample_conn ++ out /\
    decode_stream (S (length fs)) (reader_of out) = (fs, Some (ErrRead EOF)) /\
    subscribeFrames [] (fun _ => None) (fun _ => true) length fs synced_sub = (Ok None, s') /\
    (delivered [] (fun _ => None) (fun _ => true) length fs synced_sub).*2 = published true evs /\
    s_view s' = deliver_all (fun _ => None) (fun _ => true) length (published true evs) emptyView /\
    holds_key k' s' /\ p_masterKey p' = Some k' /\ p_sas p' = s_sas s'.
Proof.
  intros evs. refine (end_to_end_delivery [] (fun _ => None) (fun _ => true) length evs sample_pub
    (zeros 32) sample_conn synced_sub sample_pub_ready _ _ _ _).
  - repeat constructor; cbn; try done; eauto.
  - done.
  - done.
  - done.
Defined.

(** C21: Catch-up after a reconnect.  Let [items] be all messages published so
    far.  A subscriber that has reconnected (it holds the current key, whatever
    ratchets happened meanwhile) and asks for what follows its last sequence
    number gets from [replaySyncForSubscriber] exactly the messages it missed, each
    once and in order, provided at most 100 were missed. *)
Theorem replay_catches_up `{AEAD} pool unmarshal fs_create fs_write p k c s items k0 fs0 :
  ready p k c -> holds_key k s ->
  session_frames (p_sessionID p) k0 0 items fs0 k (p_seqCounter p) ->
  abs (p_replayBuffer p) (p_mem p) = push_items items [] ->
  let missed := RingSpec.after (s_lastSeqNum s) items in
  (length missed <= 100)%nat ->
  exists p' fs s',
    replaySyncForSubscriber pool (s_lastSeqNum s) p = (Ok tt, p') /\ p_conn p' = Some (emit c fs) /\
    subscribeFrames pool unmarshal fs_create fs_write fs s = (Ok None, s') /\
    delivered pool unmarshal fs_create fs_write fs s = missed /\
    s_view s' = deliver_all unmarshal fs_create fs_write missed.*2 (s_view s).
Proof.
  intros Hr Hk Hfs Habs missed Hm. pose proof (proj1 Hr) as Hp.
  destruct (session_items _ _ _ _ _ _ _ Hfs ltac:(lia)) as (_ & Hok & Hsort & _).
  apply StronglySorted_inv in Hsort as [Hsort _].
  assert (abs (p_replayBuffer p) (p_mem p) = lastn 100 items) as Hlog.
  { rewrite Habs. change (@nil (Z * bytes)) with (lastn 100 (@nil (Z * bytes))). apply push_items_lastn. }
  assert (Forall item_ok (lastn 100 items)) as Hok' by (by apply Forall_drop).
  destruct (replaySync_run pool (s_lastSeqNum s) p k c Hr ltac:(by rewrite Hlog)) as (p' & E & Hc).
  rewrite Hlog, after_lastn in Hc by done. fold missed in Hc.
  destruct (subscribe_data_frames pool unmarshal fs_create fs_write k (p_sessionID p) missed s)
    as (s' & Es & Er & _ & Hv); [apply (pi_sid p Hp)| | |done|].
  - by apply Forall_after.
  - by apply after_sorted.
  - by exists p', (data_frame k (p_sessionID p) <$> missed), s'.
Qed.

(** The sample publisher after one message. *)
Definition sample_pub1 : PublisherEngine :=
  let p := set_seq 1 sample_pub in
  let (rb, m) := Push 1 [x01; x41] (p_replayBuffer p) (p_mem p) in set_ring rb m p.

Lemma sample_pub1_ready `{AEAD} : ready sample_pub1 (zeros 32) sample_conn.
Proof.
  split; [|split; [vm_compute; reflexivity|split; [vm_compute; reflexivity|done]]].
  apply (preserves_push 1 [x01; x41] (set_seq 1 sample_pub)); [|done].
  destruct (proj1 sample_pub_ready). by split.
Qed.

Lemma replay_catches_up_witness :
  exists p' fs s',
    replaySyncForSubscriber [] (s_lastSeqNum synced_sub) sample_pub1 = (Ok tt, p') /\
    p_conn p' = Some (emit sample_conn fs) /\
    subscribeFrames [] (fun _ => None) (fun _ => true) length fs synced_sub = (Ok None, s') /\
    delivered [] (fun _ => None) (fun _ => true) length fs synced_sub = [(1, [x01; x41])] /\
    s_view s' = deliver_all (fun _ => None) (fun _ => true) length [[x01; x41]] (s_view synced_sub).
Proof.
  refine (replay_catches_up [] (fun _ => None) (fun _ => true) length sample_pub1 (zeros 32) sample_conn synced_sub
    [(1, [x01; x41])] (zeros 32) _ sample_pub1_ready _ _ _ _).
  - done.
  - change (p_sessionID sample_pub1) with (zeros 16). apply (sf_data (zeros 16) (zeros 32) 0 [x01; x41]).
    + by vm_compute.
    + done.
    + apply sf_nil.
  - vm_compute. reflexivity.
  - vm_compute. lia.
Defined.

(** C5: Handshake.  A publisher and a subscriber with the same passphrase complete
    the handshake whatever randomness they draw: there are a step-2 frame and a
    confirmation frame such that the publisher, reading the subscriber's init
    frame, then up to seven unrelated frames, then the confirmation, succeeds and
    writes the step-2 frame; and the subscriber, reading that step-2 frame,
    succeeds, writes that confirmation, and ends with the publisher's master key
    installed in its cipher and its SAS badge computed from it. *)
Theorem handshake_shares_key `{AEAD} `{KeyExchange} pool pass rp rs pub sub k nonce sid subMsg :
  NewPAKEPublisher pass rp = Ok pub -> NewPAKESubscriber pass rs = Ok sub -> r_pad rp <> None ->
  length k = KeySize -> length nonce = Cipher.NonceSize -> length sid = 16%nat ->
  Bytes (Some sub) = Some subMsg ->
  exists step2 confirm,
  (forall p c noise rest,
     p_pakePeer p = Some pub -> p_masterKey p = Some k -> p_sessionID p = sid ->
     p_conn p = Some c -> healthy c -> (length noise < 8)%nat ->
     Forall (fun e => Envelope_ok MaxPayloadSize e /\ env_MsgType e <> MsgTypeKeyConfirm) noise ->
     c_in c = reader_of (concat (frame_bytes <$> initFrame sid subMsg :: noise ++ [confirm])) ++ rest ->
     exists p', Publisher.CompleteHandshake pool rp (Some nonce) p = (Ok tt, p') /\
       p_conn p' = Some (mkConn rest (c_out c ++ frame_bytes step2) [] false) /\ p_masterKey p' = Some k) /\
  (forall s c rest,
     s_pakePeer s = Some sub -> s_sessionID s = sid -> s_conn s = Some c -> healthy c ->
     c_in c = reader_of (frame_bytes step2) ++ rest ->
     exists s', SubCompleteHandshake pool rs s = (Ok tt, s') /\ holds_key k s' /\
       s_conn s' = Some (mkConn rest (c_out c ++ frame_bytes confirm) [] false)).
Proof.
  intros HP HS Hpad Hk Hn Hsid Hsm.
  destruct (pake_honest pass rp rs pub sub HP HS Hpad) as
    (subMsg' & pubMsg & pub' & sub' & key & H1 & H2 & H3 & H4 & H5 & H6 & Kp & Ks & Hkl & Rp & Rs).
  simpl in Hsm. rewrite Hsm in H1. injection H1 as <-.
  exists (step2Frame sid pubMsg nonce key k), (confirmFrame sid key). split.
  - intros p c noise rest Hpeer Hmk Hps Hc Hh Hnl Hnoise Hi.
    destruct (publisher_handshake pool pub pub' rp nonce sid subMsg pubMsg key k p c noise rest) as (p' & E & E1 & E2 & _);
      try done. by exists p'.
  - intros s c rest Hpeer Hss Hc Hh Hi.
    destruct (subscriber_handshake pool sub sub' rs nonce sid pubMsg key k s c rest) as (s' & E & E1 & E2 & _);
      try done. by exists s'.
Qed.

Lemma handshake_shares_key_witness :
  let rp := mkPakeRand (Some [x05]) None [x07] (Some [x01]) in
  let rs := mkPakeRand (Some [x0b]) (Some [x0d]) [] (Some []) in
  exists pub sub subMsg, NewPAKEPublisher [x41] rp = Ok pub /\ NewPAKESubscriber [x41] rs = Ok sub /\
  Bytes (Some sub) = Some subMsg /\
  exists step2 confirm, forall s c rest,
     s_pakePeer s = Some sub -> s_sessionID s = zeros 16 -> s_conn s = Some c -> healthy c ->
     c_in c = reader_of (frame_bytes step2) ++ rest ->
     exists s', SubCompleteHandshake [] rs s = (Ok tt, s') /\ holds_key (zeros 32) s' /\
       s_conn s' = Some (mkConn rest (c_out c ++ frame_bytes confirm) [] false).
Proof.
  intros rp rs. eexists _, _, _. split; [reflexivity|]. split; [reflexivity|]. split; [reflexivity|].
  destruct (handshake_shares_key [] [x41] rp rs _ _ (zeros 32) (zeros 12) (zeros 16) _ eq_refl eq_refl
    ltac:(done) eq_refl eq_refl eq_refl eq_refl) as (step2 & confirm & _ & H).
  exists step2, confirm. exact H.
Defined.

(** C22: No nonce reuse.  A publisher streams any events and answers any number of
    replay requests in between, in any order, each sealed under whatever key is then
    current.  Of all the data and rekey frames it ever writes in the session, two with the
    same nonce seal the same plaintext as the same kind of message under the same
    number: a replay ([replaySyncForSubscriber]) repeats what was sealed under that
    nonce, and never do two different plaintexts meet one nonce.  Without replays
    no two frames share a nonce at all. *)
Theorem nonce_never_reused `{AEAD} pool p k c :
  ready p k c -> abs (p_replayBuffer p) (p_mem p) = [] ->
  (forall ops, Forall op_ok ops -> p_seqCounter p + 2 * Z.of_nat (events_of ops) < 2 ^ 64 ->
     exists p' fs, runOps pool ops p = (Ok tt, p') /\ p_conn p' = Some (emit c fs) /\
     forall e1 e2, e1 ∈ fs -> e2 ∈ fs -> env_MsgType e1 <> MsgTypeHeartbeat -> env_MsgType e2 <> MsgTypeHeartbeat ->
       env_Nonce e1 = env_Nonce e2 ->
       exists t n pt k1 k2, e1 = sealed k1 (p_sessionID p) t n pt /\ e2 = sealed k2 (p_sessionID p) t n pt) /\
  (forall evs, Forall event_ok evs -> p_seqCounter p + 2 * Z.of_nat (length evs) < 2 ^ 64 ->
     exists p' fs, publishEvents pool evs p = (Ok None, p') /\ p_conn p' = Some (emit c fs) /\
     forall e1 e2, e1 ∈ fs -> e2 ∈ fs -> env_MsgType e1 <> MsgTypeHeartbeat -> env_MsgType e2 <> MsgTypeHeartbeat ->
       env_Nonce e1 = env_Nonce e2 -> e1 = e2).
Proof.
  intros Hr Ha. split.
  - intros ops Hops Hn. destruct (runOps_run pool ops ∅ p k c Hr Hops Hn) as (A & p' & fs & E & Hc & _ & HA & Hfs).
    { split; [by intros m v ?%lookup_empty_Some|]. by rewrite Ha. }
    exists p', fs. split; [done|]. split; [done|]. intros e1 e2 H1 H2 T1 T2 En. rewrite Forall_forall in Hfs.
    destruct (Hfs e1 H1 T1) as (k1 & n1 & t1 & pt1 & -> & A1). destruct (Hfs e2 H2 T2) as (k2 & n2 & t2 & pt2 & -> & A2).
    destruct (HA _ _ A1) as [? ?], (HA _ _ A2) as [? ?]. apply nonce_eq in En; [|lia..]. subst n2. rewrite A1 in A2.
    injection A2 as <- <-. by exists t1, n1, pt1, k1, k2.
  - intros evs Hev Hn.
    destruct (publishEvents_run pool evs p k c Hr Hev Hn) as (k' & p' & fs & items & E & Hfs & Hit & Hr' & _ & _).
    exists p', fs. split; [done|]. split; [by destruct Hr' as (_ & _ & ? & _)|].
    apply (session_nonce_unique _ _ _ _ _ _ _ Hfs). apply (pi_seq p (proj1 Hr)).
Qed.

(** Two messages, and a replay of both after each. *)
Definition nonceOps : list session_op :=
  [OpEvents [Input [x68; x69] 0 (Some (zeros 12))]; OpReplay 0; OpEvents [Input [x79] (10 ^ 13) (Some (zeros 12))]; OpReplay 0].

Lemma nonce_never_reused_witness :
  exists p' fs, runOps [] nonceOps sample_pub = (Ok tt, p') /\ p_conn p' = Some (emit sample_conn fs) /\
    forall e1 e2, e1 ∈ fs -> e2 ∈ fs -> env_MsgType e1 <> MsgTypeHeartbeat -> env_MsgType e2 <> MsgTypeHeartbeat ->
      env_Nonce e1 = env_Nonce e2 ->
      exists t n pt k1 k2, e1 = sealed k1 (zeros 16) t n pt /\ e2 = sealed k2 (zeros 16) t n pt.
Proof.
  destruct (nonce_never_reused [] sample_pub (zeros 32) sample_conn sample_pub_ready) as [H1 _]; [apply sample_pub_inv|].
  apply (H1 nonceOps); [|done]. repeat constructor; cbn; try done; eauto.
Defined.

(** C30: The sequence number is not authenticated.  A relay that overwrites the
    8-byte prefix of a genuine data frame with any larger number [n'] gets the message
    accepted under that number; after that, whatever the publisher goes on to send,
    messages, ratchets and heartbeats of any session up to number [n'], the subscriber
    goes along with every ratchet, reports nothing, and delivers none of the
    messages. *)
Theorem seqnum_unauthenticated `{AEAD} pool unmarshal fs_create fs_write s k sid n n' payload :
  length sid = 16%nat -> zlen payload + 4 <= MaxPlaintext -> holds_key k s -> s_lastSeqNum s < n' < 2 ^ 64 -> 0 <= n' ->
  let frame := sealed k sid MsgTypeDataStream n (PadPayload payload DefaultPaddingTargetSize) in
  let forged := mkEnvelope (env_Version frame) (env_MsgType frame) sid (env_Nonce frame)
                  (be_bytes 8 n' ++ drop 8 (env_Payload frame)) in
  accepts forged s = Some (n', payload) /\
  exists s1, subscribeFrame pool unmarshal fs_create fs_write forged s = (Ok None, s1) /\
  forall m items fs k' m', session_frames sid k m items fs k' m' -> 0 <= m -> m' <= n' ->
  exists s2, subscribeFrames pool unmarshal fs_create fs_write fs s1 = (Ok None, s2) /\
    delivered pool unmarshal fs_create fs_write fs s1 = [] /\ s_view s2 = s_view s1 /\ holds_key k' s2.
Proof.
  intros Hs Hl Hk Hn' Hn0 frame forged. pose proof (renumbered_accepted s k sid n n' payload Hs Hl (proj1 Hk) Hn' Hn0) as HA.
  change (accepts forged s = Some (n', payload)) in HA. split; [done|].
  pose proof (subscribeFrame_effect pool unmarshal fs_create fs_write forged s) as (_ & HE & _). rewrite HA in HE.
  destruct (subscribeFrame _ _ _ _ forged s) as [res s1]. cbn [fst snd] in HE.
  destruct HE as (-> & _ & Hl1 & _ & Hc1 & Hs1 & _). exists s1. split; [done|]. intros m items fs k' m' HF Hm Hm'.
  destruct (subscribe_stale pool unmarshal fs_create fs_write _ _ _ _ _ _ _ HF Hs Hm s1) as (s2 & E1 & E2 & E3 & _ & E4).
  - split; [by rewrite Hc1; apply Hk|by rewrite Hs1; apply Hk].
  - by rewrite Hl1.
  - by exists s2.
Qed.

Lemma seqnum_unauthenticated_witness :
  let frame := sealed (zeros 32) (zeros 16) MsgTypeDataStream 1 (PadPayload [x01; x41] DefaultPaddingTargetSize) in
  let forged := mkEnvelope (env_Version frame) (env_MsgType frame) (zeros 16) (env_Nonce frame)
                  (be_bytes 8 99 ++ drop 8 (env_Payload frame)) in
  exists s1 s2, subscribeFrame [] (fun _ => None) (fun _ => true) length forged synced_sub = (Ok None, s1) /\
    subscribeFrames [] (fun _ => None) (fun _ => true) length [data_frame (zeros 32) (zeros 16) (2, [x01; x42])] s1 = (Ok None, s2) /\
    s_view s2 = s_view s1.
Proof.
  intros frame forged.
  destruct (seqnum_unauthenticated [] (fun _ => None) (fun _ => true) length synced_sub (zeros 32) (zeros 16) 1 99 [x01; x41])
    as (_ & s1 & E1 & H); [reflexivity|vm_compute; discriminate|split; reflexivity|cbn; lia|lia|].
  destruct (H 1 [(2, [x01; x42])] [data_frame (zeros 32) (zeros 16) (2, [x01; x42])] (zeros 32) 2) as (s2 & E2 & _ & E3 & _).
  - apply (sf_data (zeros 16) (zeros 32) 1 [x01; x42]); [vm_compute; discriminate|done|apply sf_nil].
  - lia.
  - lia.
  - exists s1, s2. split; [exact E1|]. split; [exact E2|exact E3].
Defined.

(** Closing.  [Close] on an open publisher writes one CLOSE frame, closes the
    connection, drops every secret and overwrites each replayed message's buffer
    with zeros; closing again does nothing, and nothing can be published after. *)
Theorem publisher_close `{AEAD} pool p c :
  pub_inv p -> p_closed p = false -> p_conn p = Some c -> healthy c ->
  exists p', ClosePublisher pool p =
    (Ok (Some (mkConn (c_in c) (c_out c ++ frame_bytes (mkEnvelope Version MsgTypeClose (p_sessionID p) zeroNonce []))
                 [] true)), p') /\
  p_conn p' = None /\ p_cipher p' = None /\ p_masterKey p' = None /\ p_passphrase p' = None /\ p_pakePeer p' = None /\
  abs (p_replayBuffer p') (p_mem p') = [] /\
  (forall s, s ∈ live (p_replayBuffer p) -> scrubbed (p_mem p') (ptr s)) /\
  ClosePublisher pool p' = (Ok None, p') /\
  forall now payload, fst (PublishPayload pool now None payload p') = Err FErrNoCipher.
Proof.
  intros Hp Hcl Hc Hh. unfold ClosePublisher at 1. rewrite Hcl, Hc. cbn [fmap option_fmap option_map].
  rewrite conn_encode_healthy;
    [|apply length_stalePool|apply small_frame_ok; [apply (pi_sid p Hp)|simpl; lia]|done].
  pose proof (Wipe_spec _ _ _ (pi_ring p Hp)) as HW. destruct (Wipe _ _) as [rb m].
  destruct HW as (_ & Ha & _ & _ & Hscrub). eexists. split; [done|]. do 6 (split; [done|]).
  split; [done|]. split; [done|]. intros now payload.
  unfold PublishPayload. rewrite bind_modify, bind_gets. by destruct (shouldRekey now _).
Qed.

Lemma publisher_close_witness :
  exists p', ClosePublisher [] sample_pub1 =
    (Ok (Some (mkConn [] (frame_bytes (mkEnvelope Version MsgTypeClose (zeros 16) zeroNonce [])) [] true)), p') /\
    forall s, s ∈ live (p_replayBuffer sample_pub1) -> scrubbed (p_mem p') (ptr s).
Proof.
  destruct (publisher_close [] sample_pub1 sample_conn (proj1 sample_pub1_ready) eq_refl
    (proj1 (proj2 (proj2 sample_pub1_ready))) (conj eq_refl eq_refl)) as (p' & E & H).
  exists p'. split; [exact E|]. apply H.
Defined.
