(* ===== verification/PubRaces.v ===== *)
(** * One goroutine, two goroutines

    A publishing goroutine left alone does exactly what the sequential
    [PublishPayload] of Publisher.v does; two of them on one engine need not. *)

From S2P Require Import Prelude Protocol Memory RingBuffer Hash Aead Cipher Pake Engine Publisher Subscriber Feed PubThreads PubLocks.

(** ** One goroutine alone

    Left alone, a goroutine does what the sequential methods of Publisher.v do. *)

Section Alone.
Context {aeadI : AEAD} {kexI : KeyExchange}.
Variable (pool : bytes) (i : input) (t : nat) (todo onerr : list op) (ths : gmap nat thread).

(** The goroutine at [c], nothing locked by others. *)
Definition here (p : PublisherEngine) (c : pc) (w r : option nat) (u : list (bytes * Envelope)) : Engine :=
  mkEngine p None w r (<[t := mkThread c todo onerr]> ths) false u.

(** Left alone, the goroutine gets to an engine in [Q]. *)
Definition leads (Q : Engine -> Prop) (e : Engine) : Prop :=
  exists n e', pub_exec pool (replicate n (t, i)) e = Some e' /\ Q e'.

Lemma leads_refl (Q : Engine -> Prop) e : Q e -> leads Q e.
Proof. by exists 0%nat, e. Qed.

Lemma leads_step Q e e1 : pub_next pool i t e = Some e1 -> leads Q e1 -> leads Q e.
Proof. intros E (n & e' & En & HQ). exists (S n), e'. cbn. by rewrite E. Qed.

Lemma next_here p c w r u :
  pub_next pool i t (here p c w r u) = step_thread pool i t (mkThread c todo onerr) (here p c w r u).
Proof. unfold pub_next, here. cbn [e_panic e_threads]. by rewrite lookup_insert_eq. Qed.

Lemma goto_here p c c' w r u : goto t (mkThread c todo onerr) c' (here p c w r u) = here p c' w r u.
Proof. unfold goto, set_thread, here. cbn. by rewrite insert_insert_eq. Qed.

(** Fields and locks change, the goroutine moves on. *)
Lemma goto_moved e p c c' w r u :
  e = mkEngine p None w r (<[t := mkThread c todo onerr]> ths) false u ->
  goto t (mkThread c todo onerr) c' e = here p c' w r u.
Proof. intros ->. apply goto_here. Qed.

Lemma pub_here p c w r u : e_pub (here p c w r u) = p.
Proof. done. Qed.
Lemma mu_here p c w r u : e_mu (here p c w r u) = None.
Proof. done. Qed.
Lemma write_here p c w r u : e_writeMu (here p c w r u) = w.
Proof. done. Qed.
Lemma rekey_here p c w r u : e_rekeyMu (here p c w r u) = r.
Proof. done. Qed.

Lemma seals_here p c w r u : e_seals (here p c w r u) = u.
Proof. done. Qed.

Ltac fields_here := rewrite ?pub_here, ?mu_here, ?write_here, ?rekey_here, ?seals_here.
Ltac go := fields_here; eapply leads_step;
  [rewrite next_here; cbn [step_thread t_pc publishStep rekeyStep sendStep]; unfold locked; fields_here|].
Ltac arrive := eapply (f_equal Some), goto_moved; reflexivity.
Ltac moved_on := erewrite goto_moved by reflexivity; fields_here.

Lemma sendFrame_alone Q p env k r u :
  leads Q (sent t (mkThread (SendWrite env k) todo onerr) k (sendFrame pool env p).1
          (here (sendFrame pool env p).2 (SendWrite env k) (Some t) r u)) ->
  leads Q (here p (SendLock env k) None r u).
Proof.
  intros Hrun. go; [arrive|]. go; [reflexivity|].
  unfold sendFrame, encodeTo in *. destruct (p_conn p) as [c|] eqn:Ec.
  - moved_on. go; [|exact Hrun]. unfold sendFrame, encodeTo. rewrite Ec. by destruct (conn_encode _ _ c).
  - cbn [fst snd] in Hrun.
    assert (Es : sent t (mkThread (SendConn env k) todo onerr) k (Err FErrConnNil) (here p (SendConn env k) (Some t) r u)
      = sent t (mkThread (SendWrite env k) todo onerr) k (Err FErrConnNil) (here p (SendWrite env k) (Some t) r u)).
    { unfold sent, rekeyDone, return_ok, return_err, goto, set_thread, here. cbn.
      destruct k as [| |[]|]; cbn; by rewrite !insert_insert_eq. }
    fields_here. by rewrite Es.
Qed.

Lemma rekeyDone_here payload ok p c u :
  rekeyDone t (mkThread c todo onerr) (Some payload) ok (here p c None (Some t) u) = here p (PubCipher payload) None None u.
Proof. unfold rekeyDone. by apply goto_moved. Qed.

Lemma sendFrame_cipher env p : p_cipher (sendFrame pool env p).2 = p_cipher p.
Proof. unfold sendFrame. by destruct (encodeTo_conn pool env p) as [conn ->]. Qed.

Lemma TriggerRekey_alone Q p payload u :
  (forall u', leads Q (here (TriggerRekey pool (i_now i) (i_salt i) p).2 (PubCipher payload) None None u')) ->
  leads Q (here p (RekeyLock (Some payload)) None None u).
Proof.
  intros Hrun. go; [arrive|]. go; [reflexivity|].
  unfold TriggerRekey, mbind, M_bind, gets, modify, lift in Hrun.
  destruct (p_cipher p) as [ciph|] eqn:Ec; cbn [mbind option_bind]; [|rewrite rekeyDone_here; apply Hrun].
  destruct (GetKey ciph) as [currKey|]; [|rewrite rekeyDone_here; apply Hrun].
  moved_on. go; [reflexivity|]. destruct (GenerateNonce (i_salt i)) as [salt|]; [|rewrite rekeyDone_here; apply Hrun].
  moved_on. set (p1 := set_seq _ p) in *. go; [reflexivity|]. unfold sealNow. fields_here.
  assert (Eo : cipherObj p1 = ciph) by (unfold cipherObj, p1; cbn; by rewrite Ec).
  rewrite Eo. change (p_seqCounter p1) with (u64_add (p_seqCounter p) 1) in Hrun.
  destruct (sealFrame ciph _ _ _ salt) as [env|]; [|rewrite rekeyDone_here; apply Hrun].
  moved_on. apply sendFrame_alone. pose proof (sendFrame_cipher env p1) as E2.
  destruct (sendFrame pool env p1) as [[[]|er] p2]; cbn [fst snd sent] in *.
  - moved_on. change (p_cipher p1) with (p_cipher p) in E2. rewrite Ec in E2.
    destruct (RatchetKey currKey salt) as [nextKey|] eqn:Er.
    + go; [rewrite Er; reflexivity|]. rewrite E2. destruct (UpdateKey ciph nextKey) as [c'|]; [|rewrite rekeyDone_here; apply Hrun].
      unfold rekeyDone. moved_on. apply Hrun.
    + go; [rewrite Er; reflexivity|]. rewrite rekeyDone_here. apply Hrun.
  - unfold rekeyDone. moved_on. apply Hrun.
Qed.

(** The goroutine after a call that returned [r]. *)
Abbreviation PM := (M PublisherEngine feed_error).

Definition returned (r : result feed_error unit) : thread :=
  match r with Ok _ => mkThread Idle todo onerr | Err _ => mkThread Idle onerr [] end.

(** [PublishPayload] from the point where it has its number, and from the point
    where it has its cipher. *)
Definition publishNumbered (ciph : Cipher) (payload : bytes) (seqNum : Z) : PM unit :=
  modify (fun p => let (rb, m) := Push seqNum payload (p_replayBuffer p) (p_mem p) in set_ring rb m p);;
  sid ← gets p_sessionID;
  env ← lift FErrCrypto (sealFrame ciph sid MsgTypeDataStream seqNum (padded payload));
  sendFrame pool env.

Definition publishRest (ciph : Cipher) (payload : bytes) : PM unit :=
  modify (fun p => set_seq (u64_add (p_seqCounter p) 1) p);;
  seqNum ← gets p_seqCounter;
  publishNumbered ciph payload seqNum.

(** The call is over: the engine is [p], no lock is held, the other goroutines
    are where they were. *)
Definition after (r : result feed_error unit) (p : PublisherEngine) (e : Engine) : Prop :=
  exists u, e = mkEngine p None None None (<[t := returned r]> ths) false u.

Lemma publishNumbered_alone p payload n ciph u :
  p_cipher p = Some ciph ->
  let r := publishNumbered ciph payload n p in
  leads (after r.1 r.2) (here p (PubPush payload n) None None u).
Proof.
  intros Ec r. subst r. unfold publishNumbered, mbind, M_bind, gets, modify, lift. cbn [fst snd].
  destruct (Push _ _ _ _) as [rb m] eqn:EP. go; [rewrite EP; arrive|].
  set (p2 := set_ring rb m p). assert (Eo : cipherObj p2 = ciph) by (unfold cipherObj, p2; cbn; by rewrite Ec).
  go; [reflexivity|]. unfold sealNow. fields_here. rewrite Eo. fold (padded payload).
  destruct (sealFrame ciph _ _ _ (padded payload)) as [env|].
  - moved_on. apply sendFrame_alone. destruct (sendFrame pool env p2) as [[[]|er] p3]; cbn [fst snd sent returned].
    + apply leads_refl. unfold return_ok. moved_on. by eexists.
    + apply leads_refl. unfold return_err, set_thread, here. cbn. rewrite insert_insert_eq. by eexists.
  - apply leads_refl. unfold return_err, set_thread, here. cbn. rewrite insert_insert_eq. by eexists.
Qed.

Lemma publishRest_alone p payload ciph u :
  p_cipher p = Some ciph ->
  leads (after (publishRest ciph payload p).1 (publishRest ciph payload p).2) (here p (PubSeq payload) None None u).
Proof.
  intros Ec. go; [arrive|]. by apply (publishNumbered_alone (set_seq _ p)).
Qed.

(** The first steps, when no ratchet is due. *)
Lemma numbered_alone payload p ciph u :
  p_cipher p = Some ciph ->
  let p0 := set_bytes (u64_add (p_bytesSinceRekey p) (zlen payload)) p in
  let n := u64_add (p_seqCounter p) 1 in
  shouldRekey (i_now i) p0 = false ->
  leads (eq (here (set_seq n p0) (PubPush payload n) None None u)) (here p (PubCount payload) None None u).
Proof.
  intros Ec p0 n Hr. go; [arrive|]. fold p0. rewrite Hr. go; [reflexivity|].
  change (p_cipher p0) with (p_cipher p). rewrite Ec. moved_on. go; [arrive|]. by apply leads_refl.
Qed.

Lemma PublishPayload_rest payload p :
  let p1 := set_bytes (u64_add (p_bytesSinceRekey p) (zlen payload)) p in
  let p2 := if shouldRekey (i_now i) p1 then (TriggerRekey pool (i_now i) (i_salt i) p1).2 else p1 in
  PublishPayload pool (i_now i) (i_salt i) payload p =
  match p_cipher p2 with Some ciph => publishRest ciph payload p2 | None => (Err FErrNoCipher, p2) end.
Proof.
  intros p1 p2. unfold PublishPayload, when, ignore, mbind, M_bind, gets, modify. fold p1. cbn [fst snd].
  destruct (shouldRekey (i_now i) p1); subst p2; [destruct (TriggerRekey pool _ _ p1) as [? p2]|]; cbn [snd].
  - by destruct (p_cipher p2).
  - unfold mret, M_ret. by destruct (p_cipher p1).
Qed.

Lemma PublishPayload_alone p payload u :
  let r := PublishPayload pool (i_now i) (i_salt i) payload p in
  leads (after r.1 r.2) (here p (PubCount payload) None None u).
Proof.
  intros r. subst r. rewrite PublishPayload_rest. set (p1 := set_bytes _ p). go; [arrive|]. fold p1.
  assert (Hgo : forall p2 u', 
    let r := match p_cipher p2 with Some ciph => publishRest ciph payload p2 | None => (Err FErrNoCipher, p2) end in
    leads (after r.1 r.2) (here p2 (PubCipher payload) None None u')).
  { intros p2 u' r. go; [reflexivity|]. subst r. destruct (p_cipher p2) as [ciph|] eqn:Ec.
    - moved_on. by apply publishRest_alone.
    - apply leads_refl. unfold return_err, set_thread, here. cbn. rewrite insert_insert_eq. by eexists. }
  destruct (shouldRekey (i_now i) p1); [apply TriggerRekey_alone; intros u'|]; apply Hgo.
Qed.
End Alone.


(** ** A publishing goroutine overtaken by another *)

Section Race.
Context {aeadI : AEAD} {kexI : KeyExchange}.
Variable (pool : bytes).

Lemma leads_exec i t (Q : Engine -> Prop) e :
  leads pool i t Q e -> exists ls e', pub_exec pool ls e = Some e' /\ Q e'.
Proof. intros (n & e' & E & HQ). eauto. Qed.

(** Two runs, one after the other. *)
Lemma exec_then (Q R : Engine -> Prop) e :
  (exists ls e', pub_exec pool ls e = Some e' /\ Q e') ->
  (forall e', Q e' -> exists ls e'', pub_exec pool ls e' = Some e'' /\ R e'') ->
  exists ls e'', pub_exec pool ls e = Some e'' /\ R e''.
Proof.
  intros (ls & e1 & E1 & HQ) H. destruct (H e1 HQ) as (ls' & e2 & E2 & HR).
  exists (ls ++ ls'), e2. split; [|done]. by rewrite pub_exec_app, E1.
Qed.

(** A goroutine makes its next call. *)
Lemma call_alone i t o todo onerr ths Q p u :
  leads pool i t Q (here t todo onerr ths p (start_pc o (p_sessionID p)) None None u) ->
  leads pool i t Q (here t (o :: todo) onerr ths p Idle None None u).
Proof.
  apply leads_step. rewrite next_here. cbn [step_thread t_pc idleStep t_todo]. unfold set_thread, here. cbn.
  by rewrite insert_insert_eq.
Qed.

(** A numbered message, on a healthy connection. *)
Lemma publishNumbered_run payload n p k c :
  ready p k c -> item_ok (n, payload) ->
  exists p', publishNumbered pool (mkCipher (Some k) (Some k)) payload n p = (Ok tt, p') /\
    p_conn p' = Some (emit c [data_frame k (p_sessionID p) (n, payload)]).
Proof.
  intros (Hp & Hc & Hconn & Hh) [Hn Hl]. unfold publishNumbered, mbind, M_bind, gets, modify, lift. cbn [fst snd].
  destruct (Push _ _ _ _) as [rb m]. change (p_sessionID (set_ring rb m p)) with (p_sessionID p).
  pose proof (padded_fits payload Hl) as Hfit. pose proof (pi_sid p Hp).
  rewrite sealFrame_open by done. eexists. split; [by rewrite (sendFrame_healthy pool _ (set_ring rb m p) c) by (done || by apply sealed_ok)|done].
Qed.

(** The engine with the two goroutines. *)
Definition two_publish (a b : bytes) : gmap nat (list op * list op) :=
  {[0%nat := ([OpPublish a], []); 1%nat := ([OpPublish b], [])]}.

(** Goroutine 0 takes its number, goroutine 1 publishes, goroutine 0 goes on. *)
Lemma overtaken i salt a b p k c :
  ready p k c -> p_seqCounter p + 3 < 2 ^ 64 -> zlen a + 4 <= MaxPlaintext -> zlen b + 4 <= MaxPlaintext ->
  i_salt i = Some salt -> length salt = NonceSize ->
  shouldRekey (i_now i) (set_bytes (u64_add (p_bytesSinceRekey p) (zlen a)) p) = false ->
  exists ls e fs n k', pub_exec pool ls (start p (two_publish a b)) = Some e /\ finished e /\ e_panic e = false /\
    session_frames (p_sessionID p) k (p_seqCounter p + 1) [(n, b)] fs k' n /\ p_seqCounter p + 1 < n /\
    p_conn (e_pub e) = Some (emit c (fs ++ [data_frame k' (p_sessionID p) (p_seqCounter p + 1, a)])).
Proof.
  intros Hr Hn Ha Hb Hsalt Hsl Hrk. pose proof Hr as (Hp & Hc & Hconn & Hh).
  assert (Es : u64_add (p_seqCounter p) 1 = p_seqCounter p + 1) by (apply u64_small; [apply (pi_seq p Hp)|lia]).
  set (p0 := set_bytes _ p) in *. set (p1 := set_seq (p_seqCounter p + 1) p0).
  assert (Hr1 : ready p1 k c).
  { split; [|done]. pose proof (pub_inv_seq p0 (pub_inv_bytes _ p Hp)) as H1. unfold p1. rewrite <- Es. exact H1. }
  destruct (PublishPayload_run pool (i_now i) salt b p1 k c Hr1 Hsl ltac:(cbn; lia) Hb)
    as (k' & p2 & fs & n & E2 & Hfs & Hn2 & Hr2 & Hs2 & Hsid2 & _).
  change (p_sessionID p1) with (p_sessionID p) in *. change (p_seqCounter p1) with (p_seqCounter p + 1) in *.
  destruct (publishNumbered_run a (p_seqCounter p + 1) p2 k' (emit c fs) Hr2) as (p3 & E3 & Hc3).
  { split; [pose proof (pi_seq p Hp); cbn; lia|done]. }
  rewrite Hsid2, emit_emit in Hc3.
  set (th1 := mkThread Idle [OpPublish b] []).
  assert (E0 : start p (two_publish a b) = here 0 [OpPublish a] [] {[1%nat := th1]} p Idle None None []).
  { unfold start, two_publish, here. by rewrite fmap_insert, map_fmap_singleton. }
  rewrite E0.
  assert (Hrun : exists ls e, pub_exec pool ls (here 0 [OpPublish a] [] {[1%nat := th1]} p Idle None None []) = Some e /\
    exists u, e = mkEngine p3 None None None
      (<[0%nat := mkThread Idle [] []]> (<[1%nat := mkThread Idle [] []]> (<[0%nat := mkThread (PubPush a (p_seqCounter p + 1)) [] []]> {[1%nat := th1]}))) false u).
  { eapply exec_then; [apply (leads_exec i 0), call_alone, (numbered_alone _ _ _ _ _ _ _ _ _ _ Hc Hrk)|].
    intros e1 <-. rewrite Es. fold p0. fold p1.
    assert (Em : here 0 [] [] {[1%nat := th1]} p1 (PubPush a (p_seqCounter p + 1)) None None [] =
      here 1 [OpPublish b] [] (<[0%nat := mkThread (PubPush a (p_seqCounter p + 1)) [] []]> {[1%nat := th1]}) p1 Idle None None []).
    { unfold here. fold th1. by rewrite (insert_id (<[0%nat := _]> _) 1%nat th1). }
    rewrite Em. eapply exec_then; [apply (leads_exec i 1), call_alone, PublishPayload_alone|].
    rewrite Hsalt, E2. cbn [fst snd]. intros e2 [u2 ->]. cbn [returned].
    set (ths := <[1%nat := mkThread Idle [] []]> _).
    assert (Em2 : mkEngine p2 None None None ths false u2 =
      here 0 [] [] ths p2 (PubPush a (p_seqCounter p + 1)) None None u2).
    { unfold here. by rewrite (insert_id ths 0%nat). }
    rewrite Em2. apply (leads_exec i 0). pose proof (publishNumbered_alone pool i 0 [] [] ths p2 a
      (p_seqCounter p + 1) _ u2 (proj1 (proj2 Hr2))) as Hlast. cbv zeta in Hlast. by rewrite E3 in Hlast. }
  destruct Hrun as (ls & e & E & u & ->). exists ls. eexists. exists fs, n, k'. split; [exact E|].
  split; [|split; [done|]; split; [exact Hfs|]; split; [lia|exact Hc3]].
  intros t th. cbn [e_threads]. rewrite !lookup_insert_Some, lookup_singleton_Some. naive_solver.
Qed.
End Race.

(** ** Concrete runs *)

(** Goroutine 0 seals a message, goroutine 1 ratchets the key, goroutine 0 writes. *)
Definition late_progs : gmap nat (list op * list op) :=
  {[0%nat := ([OpPublish [x01; x41]], []); 1%nat := ([OpRekey], [])]}.
Definition late_sched : list (nat * input) := schedule [0; 0; 0; 0; 0; 0; 1; 1; 1; 1; 1; 1; 1; 1; 1; 0; 0; 0]%nat.

(** Goroutine 0 is about to update the key, goroutine 1 closes, goroutine 0 goes on. *)
Definition panic_progs : gmap nat (list op * list op) := {[0%nat := ([OpRekey], []); 1%nat := ([OpClose], [])]}.
Definition panic_sched : list (nat * input) := schedule [0; 0; 0; 0; 0; 0; 0; 0; 1; 1; 1; 1; 1; 1; 1; 0]%nat.

(** Goroutine 0 has a number for its message, goroutine 1 closes, goroutine 0 goes on. *)
Definition remains_progs : gmap nat (list op * list op) :=
  {[0%nat := ([OpPublish [x01; x41]], []); 1%nat := ([OpClose], [])]}.
Definition remains_sched : list (nat * input) := schedule [0; 0; 0; 0; 1; 1; 1; 1; 1; 1; 1; 0; 0]%nat.

Definition outcome (progs : gmap nat (list op * list op)) (ls : list (nat * input)) : Engine :=
  default (start sample_pub progs) (pub_exec [] ls (start sample_pub progs)).
Definition late_engine : Engine := Eval vm_compute in outcome late_progs late_sched.
Definition panic_engine : Engine := Eval vm_compute in outcome panic_progs panic_sched.
Definition remains_engine : Engine := Eval vm_compute in outcome remains_progs remains_sched.
Definition all_done (e : Engine) : bool := forallb (fun tt => is_done tt.2) (map_to_list (e_threads e)).

(** * Properties *)

(** C13: A goroutine alone does what the method does.  From any engine with all
    locks free, a goroutine that is left alone with a call of [PublishPayload] (and
    the ratchet it may trigger) reaches exactly the engine and the result the
    sequential method gives, releases every lock and leaves the other goroutines
    where they were. *)
Theorem publish_alone `{AEAD} `{KeyExchange} pool i t payload todo onerr ths p u :
  let r := PublishPayload pool (i_now i) (i_salt i) payload p in
  exists n u', pub_exec pool (replicate n (t, i))
      (mkEngine p None None None (<[t := mkThread Idle (OpPublish payload :: todo) onerr]> ths) false u) =
    Some (mkEngine r.2 None None None
      (<[t := match r.1 with Ok _ => mkThread Idle todo onerr | Err _ => mkThread Idle onerr [] end]> ths) false u').
Proof.
  intros r. pose proof (PublishPayload_alone pool i t todo onerr ths p payload u) as Hl.
  apply (call_alone pool i t (OpPublish payload)) in Hl as (n & e & E & u' & ->). by exists n, u'.
Qed.

(** C34: A message can be overtaken and lost.  [PublishPayload] takes its sequence
    number and writes its frame in separate critical sections.  For any connected
    publisher and any two messages, two goroutines that publish them can be
    interleaved so that both calls succeed and both frames are written, but the
    first message, which has the lower number, second: the subscriber accepts the
    other message only, drops the first as a duplicate and never delivers it. *)
Theorem overtaken_message_lost `{AEAD} `{KeyExchange} pool unmarshal fs_create fs_write i salt a b p k c s :
  ready p k c -> holds_key k s -> s_lastSeqNum s <= p_seqCounter p -> p_seqCounter p + 3 < 2 ^ 64 ->
  zlen a + 4 <= MaxPlaintext -> zlen b + 4 <= MaxPlaintext -> i_salt i = Some salt -> length salt = NonceSize ->
  shouldRekey (i_now i) (set_bytes (u64_add (p_bytesSinceRekey p) (zlen a)) p) = false ->
  exists ls e fs n k' s',
    pub_exec pool ls (start p {[0%nat := ([OpPublish a], []); 1%nat := ([OpPublish b], [])]}) = Some e /\ finished e /\
    p_conn (e_pub e) = Some (emit c fs) /\ data_frame k' (p_sessionID p) (p_seqCounter p + 1, a) ∈ fs /\
    subscribeFrames pool unmarshal fs_create fs_write fs s = (Ok None, s') /\
    delivered pool unmarshal fs_create fs_write fs s = [(n, b)] /\ p_seqCounter p + 1 < n.
Proof.
  intros Hr Hk Hs Hn Ha Hb Hsalt Hsl Hrk. pose proof (pi_sid p (proj1 Hr)) as Hsid. pose proof (pi_seq p (proj1 Hr)) as Hsq.
  destruct (overtaken pool i salt a b p k c Hr Hn Ha Hb Hsalt Hsl Hrk) as (ls & e & fs & n & k' & E & Hf & _ & Hfs & Hlt & Hc).
  destruct (subscribe_session pool unmarshal fs_create fs_write _ _ _ _ _ _ _ Hfs Hsid ltac:(lia) s Hk ltac:(lia))
    as (s1 & E1 & D1 & Hk1 & Hl1 & _).
  pose proof (subscribeFrames_spec pool unmarshal fs_create fs_write fs s) as (_ & Hle & _). cbv zeta in Hle.
  rewrite D1, E1 in Hle. apply Forall_cons in Hle as [Hle _]. cbn [fst snd] in Hle.
  destruct (subscribe_old pool unmarshal fs_create fs_write k' (p_sessionID p) (p_seqCounter p + 1) a s1 Hsid)
    as [E2 D2]; [split; cbn; (lia || done)|lia|done|].
  exists ls, e, (fs ++ [data_frame k' (p_sessionID p) (p_seqCounter p + 1, a)]), n, k', (sub_backoff initialBackoff s1).
  split; [exact E|]. split; [done|]. split; [exact Hc|]. split; [set_solver|].
  destruct (subscribe_more pool unmarshal fs_create fs_write fs
    [data_frame k' (p_sessionID p) (p_seqCounter p + 1, a)] s s1 E1) as [-> ->].
  cbn [subscribeFrames delivered]. unfold mbind, M_bind. by rewrite E2, D1, D2.
Qed.

Lemma overtaken_message_lost_witness :
  exists ls e fs n k' s',
    pub_exec [] ls (start sample_pub {[0%nat := ([OpPublish [x01; x41]], []); 1%nat := ([OpPublish [x01; x42]], [])]}) = Some e /\
    finished e /\ p_conn (e_pub e) = Some (emit sample_conn fs) /\ data_frame k' (zeros 16) (1, [x01; x41]) ∈ fs /\
    subscribeFrames [] (fun _ => None) (fun _ => true) length fs synced_sub = (Ok None, s') /\
    delivered [] (fun _ => None) (fun _ => true) length fs synced_sub = [(n, [x01; x42])] /\ 1 < n.
Proof.
  refine (overtaken_message_lost [] (fun _ => None) (fun _ => true) length sample_input (zeros 12) [x01; x41] [x01; x42]
    sample_pub (zeros 32) sample_conn synced_sub sample_pub_ready _ _ _ _ _ _ _ _); try done.
Defined.


(** A ratchet can strand a frame.  One goroutine seals a message under the
    current key; before it writes the frame, another goroutine ratchets the key and
    writes its rekey frame.  Both calls succeed, but the subscriber, which follows
    the ratchet, cannot open the late frame: it stops its stream with an
    authentication error and the message is not delivered. *)
Theorem late_frame_stops_stream :
  let e := late_engine in
  let fs := [sealed (zeros 32) (zeros 16) MsgTypeRekey 2 (zeros 12); data_frame (zeros 32) (zeros 16) (1, [x01; x41])] in
  pub_exec [] late_sched (start sample_pub late_progs) = Some e /\ all_done e = true /\
  p_conn (e_pub e) = Some (emit sample_conn fs) /\
  (subscribeFrames [] (fun _ => None) (fun _ => true) length fs synced_sub).1 = Ok (Some (Err FErrAuth)) /\
  delivered [] (fun _ => None) (fun _ => true) length fs synced_sub = [].
Proof. vm_compute. repeat split; reflexivity. Qed.

(** Two races with [Close].  A ratchet that has written its rekey frame when
    the engine is closed dereferences the nil cipher, which ends the process; and a
    message that has its number when the engine is closed is pushed into the replay
    buffer after [Close] has wiped it, so that the plaintext stays in memory of a
    closed engine although the call reports an error. *)
Theorem close_races :
  (let e := panic_engine in
   pub_exec [] panic_sched (start sample_pub panic_progs) = Some e /\ e_panic e = true) /\
  (let e := remains_engine in
   pub_exec [] remains_sched (start sample_pub remains_progs) = Some e /\ all_done e = true /\
   p_closed (e_pub e) = true /\ abs (p_replayBuffer (e_pub e)) (p_mem (e_pub e)) = [(1, [x01; x41])]).
Proof. vm_compute. repeat split; reflexivity. Qed.
