(* ===== verification/FileTransfer.v ===== *)
(** * Sending files (publisher.go:597-700) and receiving them whole

    [SendFile] publishes a header, the chunks and an end marker, pausing for
    acknowledgements; the receiver is the tag dispatch of Files.v.  The theorem
    puts the two together over the encrypted stream: the file on the receiver's
    disk is the file that was read, and its checksum verifies.

    What the operating system answers is a value of [file_source]; the JSON
    codec of the header is a parameter. *)

From S2P Require Import Prelude Strings Protocol Memory RingBuffer Hash Aead Cipher Pake Engine Sanitize Files Publisher Subscriber Feed.

(** The [select] of the flow control. *)
Inductive ack_choice := AckCtxDone | AckReceived | AckTimeout.

(** One [f.Read(readBuf)], with the clock and the randomness of its frame. *)
Record chunk_read := mkRead {
  r_data : bytes;
  r_now : Z;
  r_salt : option bytes;
  r_sel : ack_choice
}.

Record file_source := mkSource {
  f_path : bytes;
  f_size : option Z;          (** [Stat]; [None] on an error *)
  f_content : option bytes;   (** what [io.Copy] hashed *)
  f_reads : list chunk_read;  (** the reads that returned no error *)
  f_eof : bool                (** the read that ended the loop returned [io.EOF] *)
}.

Definition chunkSizeFor (size : Z) : Z :=
  if 100 * 1024 * 1024 <=? size then 524288
  else if 10 * 1024 * 1024 <=? size then 131072
  else 32768.

Section SendFile.
Context {aeadI : AEAD} {kexI : KeyExchange}.
Variable pool : bytes.
(** [json.Marshal(header)] *)
Variable marshal : FileHeader -> bytes.

Abbreviation PM := (M PublisherEngine feed_error).

Definition chunkPayload (transferID data : bytes) : bytes := [TagFileChunk] ++ transferID ++ data.

(** The loop over the reads (publisher.go:664-693). *)
Fixpoint sendChunks (transferID : bytes) (unacked : Z) (reads : list chunk_read) (eof : bool) : PM unit :=
  match reads with
  | [] => if eof then mret tt else fail FErrFile
  | r :: reads' =>
      match r_data r with
      | [] => sendChunks transferID unacked reads' eof
      | _ =>
          PublishPayload pool (r_now r) (r_salt r) (chunkPayload transferID (r_data r));;
          let unacked := unacked + 1 in
          if 16 <=? unacked then
            match r_sel r with
            | AckCtxDone => fail FErrContext
            | AckReceived =>
                modify (fun p => set_ack (Nat.pred <$> p_chunkAckChan p) p);;
                sendChunks transferID (unacked - 1) reads' eof
            | AckTimeout => sendChunks transferID 0 reads' eof
            end
          else sendChunks transferID unacked reads' eof
      end
  end.

(** [randomBytes] names the transfer; [t0], [t1] are the clock and randomness of
    the first and the last frame. *)
Definition SendFile (src : option file_source) (randomBytes : bytes) (t0 t1 : Z * option bytes) : PM unit :=
  match src with
  | None => fail FErrFile
  | Some f =>
      match f_size f, f_content f with
      | Some size, Some content =>
          let transferID := EncodeToString randomBytes in
          let header := mkFileHeader transferID (Base (f_path f)) size (EncodeToString (sha256 content)) in
          PublishPayload pool t0.1 t0.2 ([TagFileStart] ++ marshal header);;
          modify (set_ack (Some 0%nat));;
          res ← attempt (sendChunks transferID 0 (f_reads f) (f_eof f);;
                         PublishPayload pool t1.1 t1.2 ([TagFileEnd] ++ transferID));
          modify (set_ack None);;
          lift id res
      | _, _ => fail FErrFile
      end
  end.

(** ** The publisher's side *)

Lemma ready_set_ack a p k c : ready p k c -> ready (set_ack a p) k c.
Proof. intros (Hp & Hc & Hn). split; [|done]. by apply pub_inv_ack. Qed.

(** A run that publishes [payloads] on a healthy connection. *)
Definition publishes (m : PM unit) (payloads : list bytes) (bound : Z) : Prop :=
  forall p k c, ready p k c -> p_seqCounter p + bound < 2 ^ 64 ->
  exists k' p' fs items, m p = (Ok tt, p') /\
    session_frames (p_sessionID p) k (p_seqCounter p) items fs k' (p_seqCounter p') /\ items.*2 = payloads /\
    p_seqCounter p' <= p_seqCounter p + bound /\ ready p' k' (emit c fs) /\ p_sessionID p' = p_sessionID p.

Lemma publishes_ret : publishes (mret tt) [] 0.
Proof.
  intros p k c Hr Hn. exists k, p, [], []. rewrite emit_nil by apply Hr. split; [done|]. split; [constructor|].
  split_and!; [done|lia|done|done].
Qed.

Lemma publishes_bind m1 m2 l1 l2 b1 b2 :
  0 <= b1 -> 0 <= b2 -> publishes m1 l1 b1 -> publishes m2 l2 b2 -> publishes (m1;; m2) (l1 ++ l2) (b1 + b2).
Proof.
  intros Hb1 Hb2 H1 H2 p k c Hr Hn.
  destruct (H1 p k c Hr ltac:(lia)) as (k1 & p1 & f1 & i1 & E1 & Hf1 & Hi1 & Hn1 & Hr1 & Hs1).
  destruct (H2 p1 k1 (emit c f1) Hr1 ltac:(lia)) as (k2 & p2 & f2 & i2 & E2 & Hf2 & Hi2 & Hn2 & Hr2 & Hs2).
  exists k2, p2, (f1 ++ f2), (i1 ++ i2). unfold mbind, M_bind. rewrite E1, E2.
  split; [done|]. rewrite Hs1 in Hf2. split; [by eapply session_frames_app|].
  rewrite fmap_app, Hi1, Hi2, <- emit_emit. split_and!; [done|lia|done|congruence].
Qed.

Lemma publishes_payload now salt payload :
  length salt = NonceSize -> zlen payload + 4 <= MaxPlaintext ->
  publishes (PublishPayload pool now (Some salt) payload) [payload] 2.
Proof.
  intros Hsalt Hl p k c Hr Hn.
  destruct (PublishPayload_run pool now salt payload p k c Hr Hsalt Hn Hl)
    as (k' & p' & fs & n' & E & Hfs & Hn' & Hr' & Hs' & Hsid & _ & _).
  exists k', p', fs, [(n', payload)]. split; [done|]. rewrite Hs'. split_and!; [done|done|lia|done|done].
Qed.

Lemma publishes_ack f : publishes (modify (fun p => set_ack (f p) p)) [] 0.
Proof.
  intros p k c Hr Hn. exists k, (set_ack (f p) p), [], []. rewrite emit_nil by apply Hr.
  split; [done|]. split; [constructor|]. split_and!; [done|cbn; lia|by apply ready_set_ack|done].
Qed.

(** A read that yields a chunk, with fresh randomness, in a live context. *)
Definition read_ok (r : chunk_read) : Prop :=
  r_data r <> [] /\ zlen (r_data r) <= 524288 /\ (exists salt, r_salt r = Some salt /\ length salt = NonceSize) /\
  r_sel r <> AckCtxDone.

Lemma publishes_chunks transferID reads unacked :
  length transferID = 16%nat -> Forall read_ok reads ->
  publishes (sendChunks transferID unacked reads true) ((fun r => chunkPayload transferID (r_data r)) <$> reads)
    (2 * Z.of_nat (length reads)).
Proof.
  intros Ht H. revert unacked. induction H as [|r reads (Hd & Hl & (salt & Hs & Hsl) & Hsel) _ IH]; intros unacked.
  { apply publishes_ret. }
  assert (Ef : forall m, publishes m ((fun r => chunkPayload transferID (r_data r)) <$> reads) (2 * Z.of_nat (length reads)) ->
    publishes (PublishPayload pool (r_now r) (r_salt r) (chunkPayload transferID (r_data r));; m)
      ((fun r => chunkPayload transferID (r_data r)) <$> r :: reads) (2 * Z.of_nat (length (r :: reads)))).
  { intros m Hm. replace (2 * Z.of_nat (length (r :: reads))) with (2 + 2 * Z.of_nat (length reads)) by (cbn [length]; lia).
    apply (publishes_bind _ _ [_]); [lia|lia| |done]. rewrite Hs. apply publishes_payload; [done|].
    unfold chunkPayload, MaxPlaintext, MaxPayloadSize. rewrite !length_app, Ht. cbn [length]. lia. }
  cbn [sendChunks]. destruct (r_data r) as [|b d] eqn:Er; [done|]. apply Ef.
  destruct (16 <=? unacked + 1); [|apply IH]. destruct (r_sel r); [done| |apply IH].
  replace (2 * Z.of_nat (length reads)) with (0 + 2 * Z.of_nat (length reads)) by lia.
  apply (publishes_bind _ _ []); [lia|lia|apply publishes_ack|apply IH].
Qed.

(** The payloads of a whole file. *)
Definition filePayloads (header : FileHeader) (reads : list chunk_read) : list bytes :=
  [[TagFileStart] ++ marshal header] ++
  ((fun r => chunkPayload (fh_TransferID header) (r_data r)) <$> reads) ++
  [[TagFileEnd] ++ fh_TransferID header].

Lemma length_EncodeToString bs : length (EncodeToString bs) = (2 * length bs)%nat.
Proof.
  unfold EncodeToString. induction bs as [|b bs IH]; [done|]. cbn [fmap list_fmap concat].
  rewrite length_app, IH. cbn [length hex_byte]. lia.
Qed.

(** A source all of whose system calls succeed. *)
Record source_ok (f : file_source) (size : Z) (content : bytes) : Prop := {
  so_size : f_size f = Some size;
  so_content : f_content f = Some content;
  so_reads : Forall read_ok (f_reads f);
  so_whole : concat (r_data <$> f_reads f) = content;
  so_eof : f_eof f = true
}.

Lemma publishes_SendFile f size content rnd t0 t1 salt0 salt1 :
  source_ok f size content -> length rnd = 8%nat ->
  t0.2 = Some salt0 -> length salt0 = NonceSize -> t1.2 = Some salt1 -> length salt1 = NonceSize ->
  let header := mkFileHeader (EncodeToString rnd) (Base (f_path f)) size (EncodeToString (sha256 content)) in
  zlen (marshal header) + 5 <= MaxPlaintext ->
  publishes (SendFile (Some f) rnd t0 t1) (filePayloads header (f_reads f)) (2 * Z.of_nat (length (f_reads f)) + 4).
Proof.
  intros [Hsz Hct Hrd _ Heof] Hrnd E0 H0 E1 H1 header Hfit. unfold SendFile. rewrite Hsz, Hct, Heof, E0, E1. fold header.
  assert (Ht : length (EncodeToString rnd) = 16%nat) by (rewrite length_EncodeToString, Hrnd; done).
  unfold filePayloads.
  replace (2 * Z.of_nat (length (f_reads f)) + 4) with (2 + (0 + (2 * Z.of_nat (length (f_reads f)) + 2))) by lia.
  apply publishes_bind; [lia|lia|apply publishes_payload; [done|rewrite length_app; cbn [length]; lia]|].
  apply (publishes_bind _ _ []); [lia|lia|apply (publishes_ack (fun _ => Some 0%nat))|].
  set (body := (sendChunks _ _ _ _;; _)).
  assert (Hbody : publishes body (((fun r => chunkPayload (fh_TransferID header) (r_data r)) <$> f_reads f) ++
    [[TagFileEnd] ++ fh_TransferID header]) (2 * Z.of_nat (length (f_reads f)) + 2)).
  { apply publishes_bind; [lia|lia|by apply publishes_chunks|]. apply publishes_payload; [done|].
    cbn [header fh_TransferID]. rewrite length_app, Ht. cbn [length]. unfold MaxPlaintext, MaxPayloadSize. lia. }
  intros p k c Hr Hn. destruct (Hbody p k c Hr Hn) as (k' & p' & fs & items & E & Hfs & Hi & Hn' & Hr' & Hs').
  exists k', (set_ack None p'), fs, items. unfold mbind, M_bind, attempt. rewrite E. cbn.
  split; [done|]. split_and!; [done|done|lia|by apply ready_set_ack|done].
Qed.

End SendFile.

(** ** The receiver's side *)

Section Receive.
Variable unmarshal : bytes -> option FileHeader.
Variable fs_create : bytes -> bool.
Variable fs_write : bytes -> nat.
(** The disk takes whole chunks. *)
Hypothesis fs_write_all : forall chunk, (length chunk <= fs_write chunk)%nat.

(** A transfer under way: [content] has arrived in [n] chunks. *)
Definition receiving (v : View) (header : FileHeader) (name content : bytes) (n : Z) : Prop :=
  v_files v !! fh_TransferID header =
    Some (mkActiveFile name (fh_FileSize header) (length content) n header) /\
  v_disk v !! name = Some content.

Lemma write_at_end chunk content : write_at (length content) chunk content = content ++ chunk.
Proof.
  unfold write_at. rewrite Nat.sub_diag. cbn [zeros replicate]. rewrite app_nil_r, firstn_all, skipn_all2 by lia.
  by rewrite app_nil_r.
Qed.

Lemma deliver_chunk v header name content n data :
  length (fh_TransferID header) = 16%nat -> data <> [] -> receiving v header name content n ->
  exists v', (deliver unmarshal fs_create fs_write (chunkPayload (fh_TransferID header) data) v).1 = v' /\
    receiving v' header name (content ++ data) (n + 1) /\
    v_output v' = v_output v /\ v_verdicts v' = v_verdicts v /\
    (forall t, t <> fh_TransferID header -> v_files v' !! t = v_files v !! t) /\
    (forall f, f <> name -> v_disk v' !! f = v_disk v !! f).
Proof using fs_write_all.
  intros Ht Hd [Hf Hk]. eexists. split; [reflexivity|]. unfold deliver, chunkPayload. cbn [app].
  rewrite !bool_decide_false, bool_decide_true by done. unfold deliverFileChunk.
  rewrite (proj2 (Nat.ltb_lt _ _)) by (rewrite length_app; destruct data; [done|cbn [length]; lia]).
  rewrite take_app_length' by done. rewrite Hf. rewrite drop_app_length' by done.
  cbn [fst v_output v_verdicts v_files v_disk af_filename af_received af_size af_chunkCount af_header].
  rewrite Hk, Nat.min_r by apply fs_write_all. cbn [default]. rewrite firstn_all, write_at_end.
  split_and!; try done.
  - split; cbn [v_files v_disk]; rewrite lookup_insert_eq; [|done]. by rewrite length_app.
  - intros t Htn. by rewrite lookup_insert_ne.
  - intros f Hfn. by rewrite lookup_insert_ne.
Qed.

(** The view after a completed transfer of [content] as [name]. *)
Definition received_as (v v' : View) (header : FileHeader) (name content : bytes) : Prop :=
  v_disk v' !! name = Some content /\ v_verdicts v' = v_verdicts v ++ [(name, Verified)] /\
  v_files v' !! fh_TransferID header = None /\ v_output v' = v_output v /\
  (forall t, t <> fh_TransferID header -> v_files v' !! t = v_files v !! t) /\
  (forall f, f <> name -> v_disk v' !! f = v_disk v !! f).

Lemma deliver_rest reads v header name content n :
  length (fh_TransferID header) = 16%nat -> Forall (fun r => r_data r <> []) reads ->
  fh_SHA256 header = EncodeToString (sha256 (content ++ concat (r_data <$> reads))) ->
  receiving v header name content n ->
  received_as v (deliver_all unmarshal fs_create fs_write
    (((fun r => chunkPayload (fh_TransferID header) (r_data r)) <$> reads) ++ [[TagFileEnd] ++ fh_TransferID header]) v)
    header name (content ++ concat (r_data <$> reads)).
Proof using fs_write_all.
  intros Ht H. revert v content n. induction H as [|r reads Hr _ IH]; intros v content n Hsum Hrec.
  - cbn [fmap list_fmap concat app] in *. rewrite app_nil_r in *. destruct Hrec as [Hf Hk].
    unfold deliver_all. cbn [foldl]. unfold deliver. rewrite !bool_decide_false, bool_decide_true by done.
    unfold deliverFileEnd. rewrite (proj2 (Nat.leb_le _ _)) by lia. rewrite take_ge by lia. rewrite Hf. cbn [fst].
    assert (fileVerdict (mkActiveFile name (fh_FileSize header) (length content) n header) v = Verified) as Ev.
    { unfold fileVerdict. cbn [af_header af_filename]. rewrite Hk.
      rewrite bool_decide_false by (rewrite Hsum; intros E%(f_equal length); by rewrite length_EncodeToString, length_sha256 in E).
      by rewrite bool_decide_true. }
    unfold received_as. cbn [v_disk v_verdicts v_files v_output af_filename]. rewrite Ev, lookup_delete_eq. split_and!; try done.
    intros t Htn. by rewrite lookup_delete_ne.
  - destruct (deliver_chunk v header name content n (r_data r) Ht Hr Hrec) as (v' & Ev & Hrec' & Ho & Hvd & Hfs & Hds).
    cbn [fmap list_fmap concat] in *. rewrite app_assoc in *.
    destruct (IH v' (content ++ r_data r) (n + 1) Hsum Hrec') as (H1 & H2 & H3 & H4 & H5 & H6).
    unfold deliver_all in *. cbn [app foldl]. rewrite Ev. split_and!; [done|by rewrite <- Hvd|done|by rewrite <- Ho| |].
    + intros t Htn. rewrite H5 by done. by apply Hfs.
    + intros f Hfn. rewrite H6 by done. by apply Hds.
Qed.

Lemma deliver_file marshal reads v header content :
  unmarshal (marshal header) = Some header -> length (fh_TransferID header) = 16%nat ->
  fs_create (cleanName (fh_Filename header)) = true ->
  Forall (fun r => r_data r <> []) reads -> concat (r_data <$> reads) = content ->
  fh_SHA256 header = EncodeToString (sha256 content) ->
  received_as v (deliver_all unmarshal fs_create fs_write (filePayloads marshal header reads) v)
    header (cleanName (fh_Filename header)) content.
Proof using fs_write_all.
  intros Hu Ht Hc Hr Hw Hsum. unfold filePayloads. cbn [app]. unfold deliver_all. cbn [foldl].
  set (v1 := (deliver _ _ _ (TagFileStart :: _) v).1).
  assert (E1 : v1 = mkView (v_output v)
    (<[fh_TransferID header := mkActiveFile (cleanName (fh_Filename header)) (fh_FileSize header) 0 0 header]> (v_files v))
    (<[cleanName (fh_Filename header) := []]> (v_disk v)) (v_verdicts v)).
  { unfold v1, deliver. rewrite bool_decide_false, bool_decide_true by done. cbn [fst]. unfold deliverFileStart.
    rewrite Hu, bool_decide_false by (intros E; by rewrite E in Ht). by rewrite Hc. }
  pose proof (deliver_rest reads v1 header (cleanName (fh_Filename header)) [] 0 Ht Hr) as H.
  cbn [app] in H. rewrite Hw in H. destruct (H Hsum) as (H1 & H2 & H3 & H4 & H5 & H6).
  { rewrite E1. split; cbn [v_files v_disk]; by rewrite lookup_insert_eq. }
  unfold deliver_all in *. unfold received_as. rewrite E1 in H1, H2, H3, H4, H5, H6 |- *.
  cbn [v_output v_verdicts v_files v_disk] in *. split_and!; try done.
  - intros t Htn. rewrite H5 by done. by rewrite lookup_insert_ne.
  - intros f Hfn. rewrite H6 by done. by rewrite lookup_insert_ne.
Qed.

End Receive.

(** * Properties *)

(** C4: A file sent is the file received.  A publisher and a subscriber share a
    key; [SendFile] succeeds on a file it can read, whatever pauses, ratchets and
    acknowledgements happen on the way, and the bytes it writes decode to frames
    from which the subscriber stores under [./downloads] exactly the content that
    was read, under the cleaned base name, and reports its checksum as verified;
    terminal output, other transfers and other files are untouched. *)
Theorem file_transfer `{AEAD} pool marshal unmarshal fs_create fs_write f size content rnd t0 t1 salt0 salt1 p k c s :
  ready p k c -> holds_key k s -> s_lastSeqNum s <= p_seqCounter p ->
  p_seqCounter p + (2 * Z.of_nat (length (f_reads f)) + 4) < 2 ^ 64 ->
  source_ok f size content -> length rnd = 8%nat ->
  t0.2 = Some salt0 -> length salt0 = NonceSize -> t1.2 = Some salt1 -> length salt1 = NonceSize ->
  let header := mkFileHeader (EncodeToString rnd) (Base (f_path f)) size (EncodeToString (sha256 content)) in
  let name := cleanName (Base (f_path f)) in
  zlen (marshal header) + 5 <= MaxPlaintext -> unmarshal (marshal header) = Some header ->
  fs_create name = true -> (forall chunk, (length chunk <= fs_write chunk)%nat) ->
  exists p' c' out fs s',
    SendFile pool marshal (Some f) rnd t0 t1 p = (Ok tt, p') /\ p_conn p' = Some c' /\ c_out c' = c_out c ++ out /\
    decode_stream (S (length fs)) (reader_of out) = (fs, Some (ErrRead EOF)) /\
    subscribeFrames pool unmarshal fs_create fs_write fs s = (Ok None, s') /\
    received_as (s_view s) (s_view s') header name content.
Proof.
  intros Hr Hk Hlast Hn Hsrc Hrnd E0 H0 E1 H1 header name Hfit Hu Hc Hw.
  destruct (publishes_SendFile pool marshal f size content rnd t0 t1 salt0 salt1 Hsrc Hrnd E0 H0 E1 H1 Hfit p k c Hr Hn)
    as (k' & p' & fs & items & E & Hfs & Hi & Hn' & Hr' & _). pose proof (proj1 Hr) as Hp.
  destruct (subscribe_session pool unmarshal fs_create fs_write _ _ _ _ _ _ _ Hfs (pi_sid p Hp)
    (proj1 (pi_seq p Hp)) s Hk Hlast) as (s' & Es & _ & _ & _ & Hv).
  exists p', (emit c fs), (concat (frame_bytes <$> fs)), fs, s'.
  split; [done|]. split; [by destruct Hr' as (_ & _ & ? & _)|]. split; [done|]. split.
  { pose proof (decode_stream_frames fs [] (session_frames_ok _ _ _ _ _ _ _ (pi_sid p Hp) Hfs) 1) as D.
    change (decode_stream 1 []) with (@nil Envelope, Some (ErrRead EOF)) in D.
    by rewrite !app_nil_r, Nat.add_1_r in D. }
  split; [done|]. rewrite Hv, Hi. apply deliver_file; try done.
  - cbn [header fh_TransferID]. rewrite length_EncodeToString, Hrnd. done.
  - eapply Forall_impl; [apply Hsrc|]. by intros r (? & _).
  - apply Hsrc.
Qed.

(** ** The property at work *)

(** A codec for headers: fixed-width fields, then the name. *)
Definition demoMarshal (h : FileHeader) : bytes :=
  fh_TransferID h ++ be_bytes 8 (fh_FileSize h) ++ fh_SHA256 h ++ fh_Filename h.
Definition demoUnmarshal (d : bytes) : option FileHeader :=
  Some (mkFileHeader (take 16 d) (drop 88 d) (be_val (slice 16 24 d)) (slice 24 88 d)).

Definition demoSource : file_source :=
  mkSource (str "/home/me/notes.txt") (Some 5) (Some (str "hello"))
    [mkRead (str "hel") 0 (Some (zeros 12)) AckTimeout; mkRead (str "lo") 0 (Some (zeros 12)) AckReceived] true.

Lemma demoSource_ok : source_ok demoSource 5 (str "hello").
Proof. split; try reflexivity. repeat constructor; try done; cbn; try lia; by eexists. Qed.

Lemma file_transfer_witness :
  let t := (0, Some (zeros 12)) in
  let header := mkFileHeader (EncodeToString (zeros 8)) (Base (str "/home/me/notes.txt")) 5
    (EncodeToString (sha256 (str "hello"))) in
  exists p' c' out fs s',
    SendFile [] demoMarshal (Some demoSource) (zeros 8) t t sample_pub = (Ok tt, p') /\ p_conn p' = Some c' /\
    c_out c' = c_out sample_conn ++ out /\
    decode_stream (S (length fs)) (reader_of out) = (fs, Some (ErrRead EOF)) /\
    subscribeFrames [] demoUnmarshal (fun _ => true) length fs synced_sub = (Ok None, s') /\
    received_as (s_view synced_sub) (s_view s') header (cleanName (Base (str "/home/me/notes.txt"))) (str "hello").
Proof.
  intros t header.
  apply (file_transfer [] demoMarshal demoUnmarshal (fun _ => true) length demoSource 5 (str "hello") (zeros 8) t t
    (zeros 12) (zeros 12) sample_pub (zeros 32) sample_conn synced_sub sample_pub_ready).
  - done.
  - done.
  - vm_compute. reflexivity.
  - exact demoSource_ok.
  - reflexivity.
  - reflexivity.
  - reflexivity.
  - reflexivity.
  - reflexivity.
  - vm_compute. congruence.
  - vm_compute. reflexivity.
  - reflexivity.
  - intros chunk. lia.
Defined.
