(* ===== verification/Wasm.v ===== *)
(** * The browser bridge (cmd/wasm/main.go)

    The functions the WebAssembly build exports to JavaScript: hex strings in,
    hex strings or an error object out, and one PAKE peer kept between
    [pakeInitSub] and [pakeUpdateSub].  The theorems relate them to the native
    subscriber: joining a session and opening frames give the same results. *)

From S2P Require Import Prelude Strings Protocol Memory RingBuffer Hash Aead Cipher Encoding Pake Engine Sanitize Files Publisher Subscriber Feed.

(** The text of an error object, by where it comes from. *)
Inductive js_error :=
  | JsMissingArgument | JsInvalidHex | JsCrypto (e : crypto_error)
  | JsNotInitialized | JsResponseSize | JsConfirmMismatch (e : crypto_error).

Inductive js_value :=
  | JsError (e : js_error)
  | JsString (s : bytes)
  | JsObject (fields : list (string * bytes))
  | JsTrue.

(** [activePAKESub] and the memory [crypto.WipeAll] works on. *)
Record wasm := mkWasm { activePAKESub : option PAKEPeer; w_mem : Mem }.

Definition hexArg (s : bytes) (k : bytes -> js_value) : js_value :=
  match hex_decode s with Some b => k b | None => JsError JsInvalidHex end.

Definition cryptoResult {A} (r : result crypto_error A) (k : A -> js_value) : js_value :=
  match r with Ok a => k a | Err e => JsError (JsCrypto e) end.

Definition sasFields (key : bytes) : list (string * bytes) :=
  [("sasHex"%string, (CalculateSAS key).1); ("sasEmoji"%string, (CalculateSAS key).2)].

Section Wasm.
Context {aeadI : AEAD} {kexI : KeyExchange}.

Definition calculateSAS (args : list bytes) : js_value :=
  match args with
  | [] => JsError JsMissingArgument
  | keyHex :: _ =>
      hexArg keyHex (fun keyBytes =>
        JsObject [("hex"%string, (CalculateSAS keyBytes).1); ("emoji"%string, (CalculateSAS keyBytes).2)])
  end.

(** An argument that may be hex; anything else is taken as text. *)
Definition hexOrText (s : bytes) : bytes := match hex_decode s with Some b => b | None => s end.

Definition deriveKey (args : list bytes) : js_value :=
  match args with
  | secret :: sessionID :: _ =>
      cryptoResult (DeriveKey secret (hexOrText sessionID)) (fun key => JsString (EncodeToString key))
  | _ => JsError JsMissingArgument
  end.

(** [rnd] is the nonce [Encrypt] draws. *)
Definition encryptPayload (rnd : option bytes) (args : list bytes) : js_value :=
  match args with
  | keyHex :: plaintext :: rest =>
      hexArg keyHex (fun keyBytes =>
        let aad := match rest with a :: _ => a | [] => [] end in
        cryptoResult (NewCipher keyBytes) (fun cipher =>
        cryptoResult (Encrypt cipher rnd plaintext None aad) (fun '(ciphertext, nonce) =>
          JsObject [("ciphertextHex"%string, EncodeToString ciphertext); ("nonceHex"%string, EncodeToString nonce)])))
  | _ => JsError JsMissingArgument
  end.

Definition decryptPayload (args : list bytes) : js_value :=
  match args with
  | keyHex :: ciphertextHex :: nonceHex :: rest =>
      hexArg keyHex (fun keyBytes => hexArg ciphertextHex (fun ciphertext => hexArg nonceHex (fun nonce =>
        let aad := match rest with a :: _ => if bool_decide (a = []) then [] else hexOrText a | [] => [] end in
        cryptoResult (NewCipher keyBytes) (fun cipher =>
        cryptoResult (Decrypt cipher ciphertext nonce aad) (fun plaintext =>
          JsString (EncodeToString (unpadOrKeep plaintext)))))))
  | _ => JsError JsMissingArgument
  end.

(** A peer already there is closed and replaced. *)
Definition pakeInitSub (rnd : PakeRand) (args : list bytes) (w : wasm) : js_value * wasm :=
  match args with
  | [] => (JsError JsMissingArgument, w)
  | passphrase :: _ =>
      match NewPAKESubscriber passphrase rnd with
      | Err e => (JsError (JsCrypto e), w)
      | Ok subPeer =>
          (JsObject [("subWireMsgHex"%string, EncodeToString (default [] (Bytes (Some subPeer))))],
           mkWasm (Some subPeer) (w_mem w))
      end
  end.

(** [Update] works on the shared peer, so it stays updated on every later error. *)
Definition pakeUpdateSub (rnd : PakeRand) (args : list bytes) (w : wasm) : js_value * wasm :=
  match activePAKESub w, args with
  | None, _ => (JsError JsNotInitialized, w)
  | Some _, [] => (JsError JsMissingArgument, w)
  | Some subPeer, pubWireMsgHex :: _ =>
      match hex_decode pubWireMsgHex with
      | None => (JsError JsInvalidHex, w)
      | Some pubMsg =>
          if (length pubMsg <? UniformWireMsgSize + 60 + 32)%nat then (JsError JsResponseSize, w)
          else
            let pakeBytes := take UniformWireMsgSize pubMsg in
            let wrappedKeyPayload := slice UniformWireMsgSize (UniformWireMsgSize + 60) pubMsg in
            let pubConfirmTag := slice (UniformWireMsgSize + 60) (UniformWireMsgSize + 60 + 32) pubMsg in
            let (r, subPeer) := Update pakeBytes rnd subPeer in
            let w := mkWasm (Some subPeer) (w_mem w) in
            (cryptoResult r (fun _ =>
               match VerifyPeerConfirm (Some subPeer) pubConfirmTag with
               | Err e => JsError (JsConfirmMismatch e)
               | Ok _ =>
                   cryptoResult (ConfirmTag (Some subPeer)) (fun subConfirmTag =>
                   cryptoResult (SessionKey subPeer) (fun p2pKey =>
                   cryptoResult (UnwrapSessionKey p2pKey wrappedKeyPayload) (fun masterSessionKey =>
                     JsObject ([("sessionKeyHex"%string, EncodeToString masterSessionKey);
                                ("subConfirmTagHex"%string, EncodeToString subConfirmTag)] ++
                               sasFields masterSessionKey))))
               end), w)
      end
  end.

(** [run] is what the registered wipers do. *)
Definition wipeAll (run : nat -> Mem -> Mem) (w : wasm) : js_value * wasm :=
  (JsTrue, mkWasm None (WipeAll run (w_mem w))).

Definition deriveSessionID (args : list bytes) : js_value :=
  match args with
  | [] => JsError JsMissingArgument
  | passphrase :: _ => JsString (EncodeToString (DeriveSessionID passphrase))
  end.

Definition ratchetKey (args : list bytes) : js_value :=
  match args with
  | currentKeyHex :: saltHex :: _ =>
      hexArg currentKeyHex (fun currentKey => hexArg saltHex (fun salt =>
        cryptoResult (RatchetKey currentKey salt) (fun nextKey =>
          JsObject ([("nextKeyHex"%string, EncodeToString nextKey)] ++ sasFields nextKey))))
  | _ => JsError JsMissingArgument
  end.

(** *** The exports of [main] *)

(** What a call takes from outside: the random bytes, and the wipers. *)
Record js_env := mkJsEnv { je_nonce : option bytes; je_pake : PakeRand; je_wipers : nat -> Mem -> Mem }.

Definition js_func : Type := js_env -> list bytes -> wasm -> js_value * wasm.
Definition pureFunc (f : js_env -> list bytes -> js_value) : js_func := fun env args w => (f env args, w).

Definition globals : list (string * js_func) :=
  [("zeroFeedCalculateSAS", pureFunc (fun _ => calculateSAS));
   ("zeroFeedDeriveKey", pureFunc (fun _ => deriveKey));
   ("zeroFeedDeriveSessionID", pureFunc (fun _ => deriveSessionID));
   ("zeroFeedEncrypt", pureFunc (fun env => encryptPayload (je_nonce env)));
   ("zeroFeedDecrypt", pureFunc (fun _ => decryptPayload));
   ("zeroFeedPAKEInitSub", fun env => pakeInitSub (je_pake env));
   ("zeroFeedPAKEUpdateSub", fun env => pakeUpdateSub (je_pake env));
   ("zeroFeedRatchetKey", pureFunc (fun _ => ratchetKey));
   ("zeroFeedWipe", fun env _ => wipeAll (je_wipers env))]%string.

(** A script calls a global function; a name that is not set throws. *)
Definition callGlobal (name : string) (env : js_env) (args : list bytes) (w : wasm) : option (js_value * wasm) :=
  '(_, f) ← List.find (fun p => String.eqb (fst p) name) globals; Some (f env args w).

Definition script : Type := list (string * (js_env * list bytes)).

Fixpoint runScript (calls : script) (w : wasm) : option (list js_value * wasm) :=
  match calls with
  | [] => Some ([], w)
  | (name, (env, args)) :: calls =>
      '(v, w) ← callGlobal name env args w; '(vs, w) ← runScript calls w; Some (v :: vs, w)
  end.

(** ** The two ways of joining agree *)

(** Whether a native join and a browser join of the same reply ended alike. *)
Definition join_agrees (sid : bytes) (c : Conn) (rest : reader)
    (native : result feed_error unit * SubscriberEngine) (browser : js_value * wasm) : Prop :=
  s_pakePeer native.2 = activePAKESub browser.2 /\
  match native.1, browser.1 with
  | Ok _, JsObject fields =>
      exists key tag,
        fields = [("sessionKeyHex"%string, EncodeToString key); ("subConfirmTagHex"%string, EncodeToString tag)] ++ sasFields key /\
        holds_key key native.2 /\
        s_conn native.2 = Some (mkConn rest (c_out c ++
          frame_bytes (mkEnvelope Version MsgTypeKeyConfirm sid zeroNonce tag)) [] false)
  | Err _, JsError _ => True
  | _, _ => False
  end.

(** An unwrapped key always fits the cipher: 48 bytes of ciphertext. *)
Lemma Unwrap_NewCipher p2pKey wrappedData key :
  length wrappedData = (NonceSize + 48)%nat -> UnwrapSessionKey p2pKey wrappedData = Ok key ->
  NewCipher key = Ok (mkCipher (Some key) (Some key)).
Proof.
  intros Hl. unfold UnwrapSessionKey. rewrite Hl, Nat.ltb_irrefl. unfold NewCipher at 1.
  destruct (length p2pKey =? KeySize)%nat; [|done]. cbn [negb result_bind]. unfold Decrypt. cbn [c_aead].
  destruct (negb _); [done|]. destruct (aead_open _ _ _ _) as [p|] eqn:E; [|done]. intros [= <-].
  apply aead_open_inv, (f_equal length) in E. rewrite aead_seal_length, length_drop, Hl in E.
  apply NewCipher_ok. unfold KeySize. unfold NonceSize in E. lia.
Qed.

Lemma join_run pool rnd s c sid peer payload rest :
  s_conn s = Some c -> healthy c -> s_pakePeer s = Some peer -> s_sessionID s = sid -> length sid = 16%nat ->
  zlen payload <= MaxPayloadSize ->
  c_in c = reader_of (frame_bytes (mkEnvelope Version MsgTypePAKEStep2 sid zeroNonce payload)) ++ rest ->
  join_agrees sid c rest (SubCompleteHandshake pool rnd s) (pakeUpdateSub rnd [EncodeToString payload] (mkWasm (Some peer) emptyMem)).
Proof.
  intros Hc Hh Hp Hsid Hs16 Hl Hi. pose proof Hh as [Hop Hw].
  assert (Hok : Envelope_ok MaxPayloadSize (mkEnvelope Version MsgTypePAKEStep2 sid zeroNonce payload)) by (by split).
  unfold SubCompleteHandshake. rewrite (bind_ok _ _ _ _ _ (subDecode_run _ _ s c Hc Hop Hok Hi)).
  set (c1 := mkConn rest (c_out c) (c_writes c) false). cbn [env_MsgType env_Version env_Payload].
  rewrite bool_decide_false by done. change (Z_of_byte Version <? Z_of_byte MinSupportedVersion) with false. cbv iota.
  unfold pakeUpdateSub. cbn [activePAKESub w_mem]. rewrite hex_decode_encode.
  destruct (length payload <? UniformWireMsgSize + 60 + 32)%nat eqn:El; [split; [exact Hp|done]|].
  assert (Hwl : length (slice UniformWireMsgSize (UniformWireMsgSize + 60) payload) = (Cipher.NonceSize + 48)%nat).
  { apply Nat.ltb_ge in El. rewrite length_slice. unfold UniformWireMsgSize, Cipher.NonceSize in *. lia. }
  unfold mbind at 1, M_bind at 1, subPakeUpdate at 1. cbn [sub_conn s_pakePeer]. rewrite Hp.
  destruct (Update _ rnd peer) as [[[]|e] peer'] eqn:EU; [|split; done].
  set (s2 := sub_pake (Some peer') (sub_conn (Some c1) s)).
  unfold mbind at 1, M_bind at 1, gets at 1. change (s_pakePeer s2) with (Some peer').
  unfold cryptoResult. cbn [snd].
  destruct (VerifyPeerConfirm (Some peer') _) as [[]|e] eqn:EV.
  2: { split; done. }
  erewrite bind_lift by reflexivity.
  destruct (ConfirmTag (Some peer')) as [tag|e] eqn:ET.
  2: { split; done. }
  erewrite bind_lift by reflexivity. rewrite bind_gets. change (s_sessionID s2) with (s_sessionID s). rewrite Hsid.
  assert (Htag : length tag = 32%nat).
  { unfold ConfirmTag in ET. destruct (pk_sharedKey peer'); [|done]. injection ET as <-. apply length_hmac_sha256. }
  set (env2 := mkEnvelope Version MsgTypeKeyConfirm sid zeroNonce tag).
  assert (subEncode pool env2 s2 = (Ok tt, sub_conn (Some (emit c1 [env2])) s2)) as E4.
  { apply subEncode_run; [done|by split|]. split; [by split|done|]. cbn [env2 env_Payload]. rewrite Htag. by vm_compute. }
  rewrite (bind_ok _ _ _ _ _ E4).
  destruct (SessionKey peer') as [p2p|e] eqn:ES.
  2: { split; done. }
  erewrite bind_lift by reflexivity.
  destruct (UnwrapSessionKey p2p _) as [key|e] eqn:EK.
  2: { split; done. }
  erewrite bind_lift by reflexivity. rewrite (bind_lift _ _ _ _ _ (Unwrap_NewCipher _ _ _ Hwl EK)).
  split; [done|]. cbn [fst modify snd]. exists key, tag. split; [done|]. split; [done|].
  cbn [sub_cipher s_conn sub_conn]. by rewrite emit_one.
Qed.

End Wasm.

(** ** Scripts *)

Section Scripts.
Context {aeadI : AEAD} {kexI : KeyExchange}.

(** Without a peer, only an initialisation makes one; an update is refused. *)
Lemma call_no_peer name env args w v w' :
  callGlobal name env args w = Some (v, w') -> activePAKESub w = None -> name <> "zeroFeedPAKEInitSub"%string ->
  activePAKESub w' = None /\ (name = "zeroFeedPAKEUpdateSub"%string -> v = JsError JsNotInitialized).
Proof.
  unfold callGlobal. intros E Hw Hn. destruct (List.find _ globals) as [[g f]|] eqn:Ef; [|discriminate E]. injection E as E.
  apply List.find_some in Ef as [Hin Hg]. cbn [fst] in Hg. apply String.eqb_eq in Hg as ->.
  cbn [globals In] in Hin. destruct_or! Hin; try done; injection Hin as <- <-; unfold pureFunc in E.
  7: { unfold pakeUpdateSub in E. rewrite Hw in E. by injection E as <- <-. }
  6: done.
  all: split; [|discriminate]; try by injection E as <- <-.
Qed.

Lemma script_no_peer calls w vs w' :
  runScript calls w = Some (vs, w') -> activePAKESub w = None -> Forall (fun c => c.1 <> "zeroFeedPAKEInitSub"%string) calls ->
  activePAKESub w' = None /\
  Forall2 (fun c v => c.1 = "zeroFeedPAKEUpdateSub"%string -> v = JsError JsNotInitialized) calls vs.
Proof.
  revert w vs. induction calls as [|[name [env args]] calls IH]; intros w vs; cbn [runScript].
  - intros [= <- <-] Hw _. by split.
  - destruct (callGlobal name env args w) as [[v w1]|] eqn:Ec; cbn [mbind option_bind]; [|done].
    destruct (runScript calls w1) as [[vs1 w2]|] eqn:Er; cbn [mbind option_bind]; [|done]. intros [= <- <-] Hw [Hn Hf]%Forall_cons.
    destruct (call_no_peer _ _ _ _ _ _ Ec Hw Hn) as [H1 Hv]. destruct (IH _ _ Er H1 Hf) as [H2 H3]. split; [done|]. by constructor.
Qed.

Lemma runScript_app c1 c2 w :
  runScript (c1 ++ c2) w = '(v1, w1) ← runScript c1 w; '(v2, w2) ← runScript c2 w1; Some (v1 ++ v2, w2).
Proof.
  revert w. induction c1 as [|[name [env args]] c1 IH]; intros w; cbn [runScript app].
  - cbn. by destruct (runScript c2 w) as [[]|].
  - destruct (callGlobal name env args w) as [[v w1]|]; cbn [mbind option_bind]; [|done]. rewrite IH.
    destruct (runScript c1 w1) as [[v1 w2]|]; cbn [mbind option_bind]; [|done]. by destruct (runScript c2 w2) as [[]|].
Qed.
End Scripts.

(** * Properties *)

(** C23: Joining from a browser and joining natively are the same computation:
    for every peer and every reply the publisher or an attacker may send (any
    bytes, any length a frame can carry), [pakeUpdateSub] fails exactly when the
    native [CompleteHandshake] fails; when they succeed they yield the same
    session key, the same confirmation tag (which the native side has sent) and
    the same SAS badge, and both keep the same PAKE state. *)
Theorem wasm_native_join `{AEAD} `{KeyExchange} pool rnd s c sid peer payload rest :
  s_conn s = Some c -> healthy c -> s_pakePeer s = Some peer -> s_sessionID s = sid -> length sid = 16%nat ->
  zlen payload <= MaxPayloadSize ->
  c_in c = reader_of (frame_bytes (mkEnvelope Version MsgTypePAKEStep2 sid zeroNonce payload)) ++ rest ->
  join_agrees sid c rest (SubCompleteHandshake pool rnd s)
    (pakeUpdateSub rnd [EncodeToString payload] (mkWasm (Some peer) emptyMem)).
Proof. apply join_run. Qed.

Lemma hexArg_encode b k : hexArg (EncodeToString b) k = k b.
Proof. unfold hexArg. by rewrite hex_decode_encode. Qed.

(** A browser opens frames as the native subscriber does: on the parts of any
    well-formed frame (ciphertext, nonce and serialised header in hex)
    [decryptPayload] is [openFrame] followed by unpadding, so it accepts exactly
    the frames the native side accepts, and a frame published under the key gives
    back the published payload.  What [encryptPayload] returns, [decryptPayload]
    opens again with the same additional data provided that is not itself a hex
    string (which only the decrypting side would decode). *)
Theorem wasm_opens_frames `{AEAD} k env sid n payload nonce pt aad :
  length k = KeySize -> length (env_Nonce env) = 12%nat -> length sid = 16%nat ->
  zlen payload + 4 <= MaxPlaintext -> length nonce = Cipher.NonceSize -> aad = [] \/ hex_decode aad = None ->
  let ciph := mkCipher (Some k) (Some k) in
  let open env := decryptPayload [EncodeToString k; EncodeToString (drop 8 (env_Payload env)); EncodeToString (env_Nonce env);
    EncodeToString (SerializeHeader (zeros HeaderSize) (env_Version env) (env_MsgType env) (env_SessionID env) (env_Nonce env)
      (wrap 32 (zlen (env_Payload env))))] in
  open env = cryptoResult (openFrame ciph env) (fun pt => JsString (EncodeToString (unpadOrKeep pt))) /\
  open (sealed k sid MsgTypeDataStream n (PadPayload payload DefaultPaddingTargetSize)) = JsString (EncodeToString payload) /\
  exists ct, encryptPayload (Some nonce) [EncodeToString k; pt; aad] =
      JsObject [("ciphertextHex"%string, EncodeToString ct); ("nonceHex"%string, EncodeToString nonce)] /\
    decryptPayload [EncodeToString k; EncodeToString ct; EncodeToString nonce; aad] = JsString (EncodeToString (unpadOrKeep pt)).
Proof.
  intros Hk Hn Hs Hl Hnonce Haad ciph open.
  assert (Hopen : forall env, open env = cryptoResult (openFrame ciph env) (fun pt => JsString (EncodeToString (unpadOrKeep pt)))).
  { intros e. unfold open, decryptPayload. rewrite !hexArg_encode, (NewCipher_ok k Hk). cbn [cryptoResult].
    rewrite bool_decide_false; [unfold hexOrText; by rewrite hex_decode_encode|].
    intros E. apply (f_equal hex_decode) in E. rewrite hex_decode_encode in E. injection E as E.
    unfold SerializeHeader in E. apply (f_equal length) in E. rewrite !length_copy_at in E; rewrite ?length_insert, ?length_copy_at; try done; rewrite ?length_zeros; unfold HeaderSize, MagicSize, SessionIDSize, NonceSize; cbn; lia. }
  split_and!; [apply Hopen| |].
  - rewrite Hopen. pose proof (padded_fits payload Hl) as Hfit. unfold ciph. rewrite openFrame_sealed by done.
    cbn [cryptoResult]. by rewrite unpad_padded.
  - exists (aead_seal k nonce pt aad). unfold encryptPayload, decryptPayload. rewrite !hexArg_encode, (NewCipher_ok k Hk).
    cbn [cryptoResult]. unfold Encrypt, GenerateNonce. cbn [result_bind]. rewrite ?Hnonce. cbn. split; [done|].
    assert ((if bool_decide (aad = []) then [] else hexOrText aad) = aad) as ->.
    { case_bool_decide; [done|]. destruct Haad as [->|Ha]; [done|]. unfold hexOrText. by rewrite Ha. }
    rewrite Decrypt_open by done. by rewrite aead_open_seal.
Qed.

(** ** The properties at work *)

Definition demoRandPub : PakeRand := mkPakeRand (Some [x05]) None [x07] (Some [x01]).
Definition demoRandSub : PakeRand := mkPakeRand (Some [x0b]) (Some [x0d]) [] (Some []).

Definition noPeer : PAKEPeer := mkPAKEPeer [] None None 0 None None [].
Definition demoSub : PAKEPeer := match NewPAKESubscriber [x41] demoRandSub with Ok p => p | Err _ => noPeer end.
Definition demoPub : PAKEPeer :=
  match NewPAKEPublisher [x41] demoRandPub with
  | Ok p => snd (Update (default [] (Bytes (Some demoSub))) demoRandPub p)
  | Err _ => noPeer
  end.
(** An honest reply of a publisher whose master key is all zeros. *)
Definition demoReply : bytes :=
  match step2Payload (Some demoPub) (zeros 32) (Some (zeros 12)) with Ok b => b | Err _ => [] end.

Definition demoJoinConn : Conn :=
  mkConn (reader_of (frame_bytes (mkEnvelope Version MsgTypePAKEStep2 (zeros 16) zeroNonce demoReply)) ++ []) [] [] false.

(** The browser gets the master key. *)
Example wasm_join_key :
  exists tag, fst (pakeUpdateSub demoRandSub [EncodeToString demoReply] (mkWasm (Some demoSub) emptyMem)) =
    JsObject ([("sessionKeyHex"%string, EncodeToString (zeros 32)); ("subConfirmTagHex"%string, tag)] ++ sasFields (zeros 32)).
Proof. eexists. vm_compute. reflexivity. Qed.

Definition demoJoinSub : SubscriberEngine := sub_pake (Some demoSub) (sub_conn (Some demoJoinConn) sample_sub).

Lemma wasm_native_join_witness :
  join_agrees (zeros 16) demoJoinConn [] (SubCompleteHandshake [] demoRandSub demoJoinSub)
    (pakeUpdateSub demoRandSub [EncodeToString demoReply] (mkWasm (Some demoSub) emptyMem)).
Proof.
  apply (wasm_native_join [] demoRandSub demoJoinSub demoJoinConn (zeros 16) demoSub demoReply []).
  - reflexivity.
  - split; reflexivity.
  - reflexivity.
  - vm_compute. reflexivity.
  - reflexivity.
  - vm_compute. congruence.
  - reflexivity.
Defined.

Lemma wasm_opens_frames_witness :
  let k := zeros 32 in
  let ciph := mkCipher (Some k) (Some k) in
  let open env := decryptPayload [EncodeToString k; EncodeToString (drop 8 (env_Payload env)); EncodeToString (env_Nonce env);
    EncodeToString (SerializeHeader (zeros HeaderSize) (env_Version env) (env_MsgType env) (env_SessionID env) (env_Nonce env)
      (wrap 32 (zlen (env_Payload env))))] in
  open sample_env = cryptoResult (openFrame ciph sample_env) (fun pt => JsString (EncodeToString (unpadOrKeep pt))) /\
  open (sealed k (zeros 16) MsgTypeDataStream 7 (PadPayload (str "hi") DefaultPaddingTargetSize)) = JsString (EncodeToString (str "hi")) /\
  exists ct, encryptPayload (Some (zeros 12)) [EncodeToString k; str "x"; str "note"] =
      JsObject [("ciphertextHex"%string, EncodeToString ct); ("nonceHex"%string, EncodeToString (zeros 12))] /\
    decryptPayload [EncodeToString k; EncodeToString ct; EncodeToString (zeros 12); str "note"] =
      JsString (EncodeToString (unpadOrKeep (str "x"))).
Proof.
  apply (wasm_opens_frames (zeros 32) sample_env (zeros 16) 7 (str "hi") (zeros 12) (str "x") (str "note")).
  - reflexivity.
  - reflexivity.
  - reflexivity.
  - vm_compute. congruence.
  - reflexivity.
  - right. vm_compute. reflexivity.
Defined.

(** Additional data that reads as hex is bound as text and checked as bytes. *)
Example wasm_hex_aad_fails :
  match encryptPayload (Some (zeros 12)) [EncodeToString (zeros 32); str "x"; str "ab"] with
  | JsObject [(_, ct); (_, n)] => decryptPayload [EncodeToString (zeros 32); ct; n; str "ab"]
  | r => r
  end = JsError (JsCrypto ErrDecryptionFailed).
Proof. vm_compute. reflexivity. Qed.

(** Wiping forgets the join.  Whatever a page has called before, and whatever it
    calls after [zeroFeedWipe], no peer is kept and [zeroFeedPAKEUpdateSub] hands out
    no key until the page initialises a new exchange. *)
Theorem wasm_wipe_forgets `{AEAD} `{KeyExchange} before env args after w vs w' :
  runScript (before ++ [("zeroFeedWipe"%string, (env, args))] ++ after) w = Some (vs, w') ->
  Forall (fun c => c.1 <> "zeroFeedPAKEInitSub"%string) after ->
  activePAKESub w' = None /\
  exists vs0 vs1, vs = vs0 ++ JsTrue :: vs1 /\
    Forall2 (fun c v => c.1 = "zeroFeedPAKEUpdateSub"%string -> v = JsError JsNotInitialized) after vs1.
Proof.
  rewrite runScript_app. destruct (runScript before w) as [[v0 w0]|]; cbn [mbind option_bind]; [|done].
  cbn [app runScript]. assert (callGlobal "zeroFeedWipe" env args w0 = Some (wipeAll (je_wipers env) w0)) as -> by reflexivity.
  cbn [mbind option_bind wipeAll]. destruct (runScript after _) as [[v1 w2]|] eqn:E; cbn [mbind option_bind]; [|done].
  intros [= <- <-] Hf. destruct (script_no_peer _ _ _ _ E eq_refl Hf) as [H1 H2]. split; [done|]. by exists v0, v1.
Qed.

Example wasm_script_join :
  let env := mkJsEnv None demoRandSub (fun _ m => m) in
  let join := [("zeroFeedPAKEInitSub", (env, [[x41]])); ("zeroFeedPAKEUpdateSub", (env, [EncodeToString demoReply]))]%string in
  let late := [("zeroFeedWipe", (env, [])); ("zeroFeedPAKEUpdateSub", (env, [EncodeToString demoReply]))]%string in
  match fst <$> runScript join (mkWasm None emptyMem) with Some [JsObject _; JsObject _] => True | _ => False end /\
  (forall vs, fst <$> runScript (join ++ late) (mkWasm None emptyMem) = Some vs -> drop 2 vs = [JsTrue; JsError JsNotInitialized]).
Proof. vm_compute. split; [exact I|]. by intros vs [= <-]. Qed.
