(* ===== verification/Invite.v ===== *)
(** * Invitations (pkg/feed/invite.go)

    An invitation travels as a bare code, a [zerofeed://join?...] URI or a link
    to the landing page with the URI in its fragment.  [ToURI] and [ToWebURL]
    print it, [ParseInvite] reads all three.  [net/url]'s parser is written out
    as far as it decides whether an invitation is accepted and what its query
    holds, as it stands in Go 1.25.0 (go.mod). *)

From S2P Require Import Prelude Strings Hash Encoding Cipher.

Definition AMP : byte := x26.
Definition EQUALS : byte := x3d.
Definition SEMICOLON : byte := x3b.
Definition QUESTION : byte := x3f.
Definition SHARP : byte := x23.
Definition SLASH : byte := x2f.
Definition AT : byte := x40.

(** ** Substrings *)

(** [strings.Cut(s, sep)] for a one-byte separator. *)
Definition cut_byte (c : byte) (s : bytes) : bytes * bytes :=
  match index_byte c s with
  | Some i => (take i s, drop (S i) s)
  | None => (s, [])
  end.

(** [strings.Cut] at the first occurrence of a string; [None] if there is none. *)
Fixpoint cut_str (sep s : bytes) : option (bytes * bytes) :=
  if has_prefix sep s then Some ([], drop (length sep) s)
  else match s with
       | [] => None
       | b :: s' => '(l, r) ← cut_str sep s'; Some (b :: l, r)
       end.

(** [strings.Split(s, sep)], [sep] not empty; one part per pass, and a part is
    shorter than the string. *)
Fixpoint split_str_fuel (fuel : nat) (sep s : bytes) : list bytes :=
  match fuel with
  | O => [s]
  | S fuel' =>
      match cut_str sep s with
      | None => [s]
      | Some (l, r) => l :: split_str_fuel fuel' sep r
      end
  end.
Definition split_str (sep s : bytes) : list bytes := split_str_fuel (length s) sep s.

(** [strings.Join(parts, "&")] *)
Fixpoint join_byte (c : byte) (parts : list bytes) : bytes :=
  match parts with
  | [] => []
  | [p] => p
  | p :: ps => p ++ [c] ++ join_byte c ps
  end.

(** ** net/url *)

Inductive escape_mode := ModePath | ModeHost | ModeZone | ModeUser.

(** Bytes a host may hold unescaped. *)
Definition host_byte (b : byte) : bool :=
  unreserved b || bool_decide (b ∈ str "!$&'()*+,;=:[]<>" ++ [x22]).

(** [unescape] succeeds: well-formed escapes, and the restrictions on hosts. *)
Fixpoint escapes_ok (mode : escape_mode) (s : bytes) : bool :=
  match s with
  | [] => true
  | b :: s' =>
      if eqb b PERCENT then
        match s' with
        | h :: l :: s'' =>
            match from_hex h, from_hex l with
            | Some x, Some y =>
                let percent := (x =? 2) && (y =? 5) in
                match mode with
                | ModePath | ModeUser => true
                | ModeHost => negb (x <? 8) || percent
                | ModeZone => percent || eqb (byte_of_Z (16 * x + y)) SPACE || host_byte (byte_of_Z (16 * x + y))
                end && escapes_ok mode s''
            | _, _ => false
            end
        | _ => false
        end
      else
        match mode with
        | ModePath | ModeUser => true
        | ModeHost | ModeZone => negb (Z_of_byte b <? 0x80) || host_byte b
        end && escapes_ok mode s'
  end.

(** [validOptionalPort]: empty, or a colon and digits. *)
Definition optional_port (s : bytes) : bool :=
  match s with
  | [] => true
  | b :: s' => eqb b COLON && forallb (fun d => (0x30 <=? Z_of_byte d) && (Z_of_byte d <=? 0x39)) s'
  end.

(** [parseHost] succeeds. *)
Definition parseHost_ok (host : bytes) : bool :=
  if has_prefix [LBRACKET] host then
    match last_index_byte RBRACKET host with
    | None => false
    | Some i =>
        optional_port (drop (S i) host) &&
        match cut_str (str "%25") (take i host) with
        | Some (h, _) =>
            escapes_ok ModeHost h && escapes_ok ModeZone (slice (length h) i host) &&
            escapes_ok ModeHost (drop i host)
        | None => escapes_ok ModeHost host
        end
    end
  else
    match last_index_byte COLON host with
    | Some i => optional_port (drop i host)
    | None => true
    end && escapes_ok ModeHost host.

(** [validUserinfo] *)
Definition user_byte (b : byte) : bool := unreserved b || bool_decide (b ∈ str ":!$&'()*+,;=%@").

(** [parseAuthority] succeeds. *)
Definition parseAuthority_ok (authority : bytes) : bool :=
  match last_index_byte AT authority with
  | None => parseHost_ok authority
  | Some i =>
      parseHost_ok (drop (S i) authority) && forallb user_byte (take i authority) &&
      escapes_ok ModeUser (take i authority)
  end.

(** [url.Parse] of a string that starts with [zerofeed://]: the raw query. *)
Definition parseURL (raw : bytes) : option bytes :=
  let '(u, frag) := cut_byte SHARP raw in
  if existsb (fun b => (Z_of_byte b <? 0x20) || (Z_of_byte b =? 0x7f)) u then None
  else
    let '(rest, rawQuery) := cut_byte QUESTION (drop (length (str "zerofeed://")) u) in
    let '(authority, path) :=
      match index_byte SLASH rest with Some i => (take i rest, drop i rest) | None => (rest, []) end in
    if parseAuthority_ok authority && escapes_ok ModePath path && escapes_ok ModePath frag
    then Some rawQuery else None.

(** One parameter of [url.ParseQuery]; a malformed one is skipped. *)
Definition query_param (part : bytes) : option (bytes * bytes) :=
  if contains_byte SEMICOLON part then None
  else if bool_decide (part = []) then None
  else let '(k, v) := cut_byte EQUALS part in
       k' ← QueryUnescape k; v' ← QueryUnescape v; Some (k', v').

Definition parseQuery (q : bytes) : list (bytes * bytes) := omap query_param (split_byte AMP q).

(** [Values.Get]: the first value, or empty. *)
Fixpoint get (key : bytes) (m : list (bytes * bytes)) : bytes :=
  match m with
  | [] => []
  | (k, v) :: m' => if bool_decide (k = key) then v else get key m'
  end.

(** ** Invitations *)

Definition DefaultLandingURL : bytes := str "https://nicolainzerillo.github.io/ZeroFeed-Landing/".

Record Invite := mkInvite {
  Code : bytes;
  RelayAddr : bytes;
  TransportMode : bytes;
  SPKIFingerprint : bytes
}.

Inductive invite_error := EmptyInvite | InvalidURI | MissingCode.

Definition GenerateInvite (code relayAddr : bytes) : Invite := mkInvite code relayAddr [] [].

Definition JOIN : bytes := str "#join=".

(** The fragment of a landing-page link, unescaped when that is possible. *)
Definition joinFragment (raw : bytes) : bytes :=
  match split_str JOIN raw with
  | [_; part] => match QueryUnescape part with Some u => u | None => part end
  | _ => raw
  end.

Definition parseCode (raw : bytes) : result invite_error Invite :=
  if has_prefix (str "zerofeed://") raw then
    match parseURL raw with
    | None => Err InvalidURI
    | Some rawQuery =>
        let q := parseQuery rawQuery in
        let code := get (str "code") q in
        if bool_decide (code = []) then Err MissingCode
        else Ok (mkInvite code (get (str "relay") q) (get (str "transport") q) (get (str "fingerprint") q))
    end
  else Ok (mkInvite raw [] [] []).

Definition ParseInvite (raw : bytes) : result invite_error Invite :=
  let raw := trim_space raw in
  if bool_decide (raw = []) then Err EmptyInvite
  else parseCode (joinFragment raw).

(** A parameter of the URI, left out when empty. *)
Definition param (key value printed : bytes) : list bytes :=
  if bool_decide (value = []) then [] else [key ++ [EQUALS] ++ printed].

Definition ToURI (i : Invite) : bytes :=
  str "zerofeed://join?" ++ join_byte AMP
    (param (str "code") (Code i) (QueryEscape (Code i)) ++
     param (str "relay") (RelayAddr i) (RelayAddr i) ++
     param (str "transport") (TransportMode i) (QueryEscape (TransportMode i)) ++
     param (str "fingerprint") (SPKIFingerprint i) (QueryEscape (SPKIFingerprint i))).

Definition ToWebURL (i : Invite) : bytes := DefaultLandingURL ++ JOIN ++ QueryEscape (ToURI i).

Definition NL : byte := x0a.

Definition FormatBanner (i : Invite) : bytes :=
  let '(hexSAS, emojiSAS) := CalculateSAS (Code i) in
  str "====================================================" ++ [NL] ++
  str " [ZeroFeed Client-Generated Stateless Invite]" ++ [NL] ++
  str " Passphrase Code : " ++ Code i ++ [NL] ++
  (if bool_decide (RelayAddr i = []) then [] else str " Target Relay   : " ++ RelayAddr i ++ [NL]) ++
  str " Visual SAS      : " ++ emojiSAS ++ str " [" ++ hexSAS ++ str "]" ++ [NL] ++
  str "----------------------------------------------------" ++ [NL] ++
  str " Native URI      : " ++ ToURI i ++ [NL] ++
  str " Web Link        : " ++ ToWebURL i ++ [NL] ++
  str "====================================================" ++ [NL].

(** ** Facts *)

(** Bytes that print and do not start a fragment: all an invitation URI holds. *)
Definition uri_byte (b : byte) : bool :=
  (0x21 <=? Z_of_byte b) && (Z_of_byte b <=? 0x7e) && negb (eqb b SHARP).

(** Bytes that mean themselves inside a query value. *)
Definition value_byte (b : byte) : bool :=
  uri_byte b && negb (bool_decide (b ∈ [AMP; SEMICOLON; PERCENT; PLUS])).

Abbreviation all p s := (forall b : byte, b ∈ (s : bytes) -> p b = true).

Lemma value_uri b : value_byte b = true -> uri_byte b = true.
Proof. unfold value_byte. by destruct (uri_byte b). Qed.

(** Checking a literal. *)
Lemma all_forallb (p : byte -> bool) s : forallb p s = true -> all p s.
Proof. rewrite forallb_forall. intros H b Hb. by apply H, list_elem_of_In. Qed.

Lemma not_in (p : byte -> bool) c s : all p s -> p c = false -> c ∉ s.
Proof. intros H Hc Hi. apply H in Hi. congruence. Qed.

Lemma escape_uri s : all uri_byte (QueryEscape s).
Proof.
  intros b Hb. apply QueryEscape_chars in Hb as [Hb|[-> | ->]]; [|done..].
  revert Hb. destruct b; vm_compute; congruence.
Qed.

Lemma escape_separators s c : c ∈ [AMP; SEMICOLON; EQUALS] -> c ∉ QueryEscape s.
Proof.
  intros Hc Hb. apply QueryEscape_chars in Hb as [Hb|[-> | ->]];
    repeat (apply elem_of_cons in Hc as [Hc|Hc]; [by subst|]); by apply elem_of_nil in Hc.
Qed.

Lemma QueryUnescape_plain s : all value_byte s -> QueryUnescape s = Some s.
Proof.
  induction s as [|b s IH]; intros H; [done|]. cbn [QueryUnescape].
  assert (value_byte b = true) as Hb by (apply H, list_elem_of_here).
  assert (eqb b PERCENT = false /\ eqb b PLUS = false) as [-> ->].
  { split; apply bool_decide_eq_false; intros ->; done. }
  rewrite IH; [done|]. intros c Hc. by apply H, list_elem_of_further.
Qed.

Lemma index_byte_none c s : c ∉ s -> index_byte c s = None.
Proof.
  induction s as [|b s IH]; intros H; [done|]. apply not_elem_of_cons in H as [H1 H2].
  cbn [index_byte]. unfold eqb. rewrite bool_decide_false by congruence. by rewrite IH.
Qed.

Lemma cut_byte_app c l r : c ∉ l -> cut_byte c (l ++ c :: r) = (l, r).
Proof.
  intros H. unfold cut_byte. rewrite index_byte_app by done.
  rewrite take_app_length. f_equal. rewrite drop_app_ge by lia. by replace (S (length l) - length l)%nat with 1%nat by lia.
Qed.

Lemma cut_byte_none c s : c ∉ s -> cut_byte c s = (s, []).
Proof. intros H. unfold cut_byte. by rewrite index_byte_none. Qed.

Lemma split_join c ps : ps <> [] -> Forall (fun p => c ∉ p) ps -> split_byte c (join_byte c ps) = ps.
Proof.
  intros Hne H. induction H as [|p ps Hp Hps IH]; [done|]. destruct ps as [|p' ps]; [by apply split_byte_none|].
  change (join_byte c (p :: p' :: ps)) with (p ++ c :: join_byte c (p' :: ps)).
  rewrite split_byte_app by done. by rewrite IH.
Qed.

Lemma elem_of_join c ps b : b ∈ join_byte c ps -> b = c \/ exists p, p ∈ ps /\ b ∈ p.
Proof.
  induction ps as [|p [|p' ps] IH]; intros H; [by apply elem_of_nil in H| |].
  - right. exists p. split; [apply list_elem_of_here|done].
  - change (join_byte c (p :: p' :: ps)) with (p ++ c :: join_byte c (p' :: ps)) in H.
    apply elem_of_app in H as [H|H]; [right; exists p; split; [apply list_elem_of_here|done]|].
    apply elem_of_cons in H as [->|H]; [by left|].
    destruct (IH H) as [->|(q & Hq & Hb)]; [by left|]. right. exists q. split; [by apply list_elem_of_further|done].
Qed.

Lemma trim_left_id s : all (fun b => negb (is_space b)) s -> trim_left s = s.
Proof.
  destruct s as [|b s]; intros H; [done|]. cbn [trim_left].
  specialize (H b (list_elem_of_here _ _)). by destruct (is_space b).
Qed.

Lemma trim_space_id s : all (fun b => negb (is_space b)) s -> trim_space s = s.
Proof.
  intros H. unfold trim_space. rewrite (trim_left_id s), trim_left_id, reverse_involutive; [done| |done].
  intros b Hb. apply H. by apply elem_of_reverse.
Qed.

Lemma uri_not_space b : uri_byte b = true -> negb (is_space b) = true.
Proof. destruct b; vm_compute; congruence. Qed.

Lemma has_prefix_head c sep s : c ∉ s -> has_prefix (c :: sep) s = false.
Proof.
  intros H. unfold has_prefix. apply bool_decide_eq_false. destruct s as [|b s]; [done|].
  cbn. intros [= -> _]. apply H, list_elem_of_here.
Qed.

Lemma cut_str_none c sep s : c ∉ s -> cut_str (c :: sep) s = None.
Proof.
  induction s as [|b s IH]; intros H; cbn [cut_str]; rewrite has_prefix_head by done; [done|].
  apply not_elem_of_cons in H as [_ H]. by rewrite IH.
Qed.

Lemma cut_str_app c sep l r : c ∉ l -> cut_str (c :: sep) (l ++ (c :: sep) ++ r) = Some (l, r).
Proof.
  induction l as [|b l IH]; intros H.
  - cbn [app]. assert (has_prefix (c :: sep) (c :: sep ++ r) = true) as E.
    { apply bool_decide_eq_true. cbn [length take]. by rewrite take_app_length. }
    cbn [cut_str]. rewrite E. cbn [length drop]. by rewrite drop_app_length.
  - apply not_elem_of_cons in H as [H1 H2]. cbn [app cut_str].
    assert (has_prefix (c :: sep) (b :: l ++ c :: sep ++ r) = false) as ->.
    { apply bool_decide_eq_false. cbn [length take]. congruence. }
    change (c :: sep ++ r) with ((c :: sep) ++ r). by rewrite IH.
Qed.

(** ** Reading back what was printed *)

(** An address that needs no escaping: every host, port and bracketed IPv6
    address without a zone is one. *)
Definition invite_ok (i : Invite) : Prop := Code i <> [] /\ all value_byte (RelayAddr i).

(** The four parameters of [ToURI] with the value each stands for. *)
Definition fields (i : Invite) : list (bytes * bytes * bytes) :=
  [(str "code", Code i, QueryEscape (Code i)); (str "relay", RelayAddr i, RelayAddr i);
   (str "transport", TransportMode i, QueryEscape (TransportMode i));
   (str "fingerprint", SPKIFingerprint i, QueryEscape (SPKIFingerprint i))].

(** A key, a value and how the value is printed. *)
Definition field_ok (f : bytes * bytes * bytes) : Prop :=
  let '(k, v, p) := f in
  all value_byte k /\ (EQUALS ∉ k) /\ k <> [] /\ all uri_byte p /\ (AMP ∉ p) /\ (SEMICOLON ∉ p) /\ QueryUnescape p = Some v.

Definition printed (fs : list (bytes * bytes * bytes)) : list bytes :=
  concat ((fun '(k, v, p) => param k v p) <$> fs).

Lemma fields_ok i : invite_ok i -> Forall field_ok (fields i).
Proof.
  intros [_ Hr].
  assert (He : forall k v, all value_byte k -> EQUALS ∉ k -> k <> [] -> field_ok (k, v, QueryEscape v)).
  { intros k v H1 H2 H3. unfold field_ok. split_and!; try done; [by apply escape_uri|apply escape_separators; by repeat constructor..|].
    apply QueryUnescape_QueryEscape. }
  assert (Hk : forall k, k ∈ [str "code"; str "relay"; str "transport"; str "fingerprint"] ->
    all value_byte k /\ (EQUALS ∉ k) /\ k <> []).
  { intros k Hk. assert (forallb value_byte k = true /\ contains_byte EQUALS k = false /\ k <> []) as (E1 & E2 & E3).
    { repeat (apply elem_of_cons in Hk as [->|Hk]; [by vm_compute|]). by apply elem_of_nil in Hk. }
    split_and!; [by apply all_forallb|by apply bool_decide_eq_false in E2|done]. }
  unfold fields. rewrite !Forall_cons, Forall_nil. split_and!; try done; try (apply He; apply Hk; by repeat constructor).
  destruct (Hk (str "relay")) as (H1 & H2 & H3); [by repeat constructor|]. unfold field_ok. split_and!; try done.
  - intros b Hb. by apply value_uri, Hr.
  - by apply (not_in value_byte).
  - by apply (not_in value_byte).
  - by apply QueryUnescape_plain.
Qed.

Lemma param_query k v p : field_ok (k, v, p) -> query_param (k ++ [EQUALS] ++ p) = Some (k, v).
Proof.
  intros (H1 & H2 & H3 & H4 & H5 & H6 & H7). unfold query_param.
  assert (contains_byte SEMICOLON (k ++ [EQUALS] ++ p) = false) as ->.
  { apply bool_decide_eq_false. rewrite !elem_of_app, list_elem_of_singleton.
    pose proof (not_in value_byte SEMICOLON k H1 eq_refl). by intros [?|[?|?]]. }
  rewrite bool_decide_false by (by destruct k). cbn [app]. rewrite cut_byte_app by done.
  rewrite (QueryUnescape_plain k) by done. cbn [mbind option_bind]. by rewrite H7.
Qed.

(** The query parses to the parameters that are not empty. *)
Lemma parseQuery_printed fs :
  Forall field_ok fs -> parseQuery (join_byte AMP (printed fs)) =
    (fun '(k, v, _) => (k, v)) <$> filter (fun '(_, v, _) => v <> []) fs.
Proof.
  intros H.
  assert (Hp : omap query_param (printed fs) = (fun '(k, v, _) => (k, v)) <$> filter (fun '(_, v, _) => v <> []) fs
    /\ Forall (fun p => AMP ∉ p) (printed fs)).
  { induction H as [|[[k v] p] fs Hf Hfs [IH1 IH2]]; [done|]. unfold printed in *. cbn [fmap list_fmap concat].
    unfold param at 1 3. rewrite filter_cons. case_bool_decide as Hv; cbn [app].
    - by rewrite decide_False by auto.
    - rewrite decide_True by done. cbn [omap list_omap fmap list_fmap]. pose proof (param_query k v p Hf) as E. cbn [app] in E.
      rewrite E. split; [f_equal; exact IH1|]. constructor; [|done].
      destruct Hf as (H1 & H2 & H3 & H4 & H5 & H6 & H7).
      rewrite elem_of_app, elem_of_cons. pose proof (not_in value_byte AMP k H1 eq_refl). by intros [?|[?|?]]. }
  destruct Hp as [<- Ha]. unfold parseQuery. destruct (printed fs) as [|p ps]; [done|]. by rewrite split_join.
Qed.

Lemma ToURI_printed i : ToURI i = str "zerofeed://join?" ++ join_byte AMP (printed (fields i)).
Proof. unfold ToURI, printed, fields. cbn [fmap list_fmap concat]. by rewrite app_nil_r. Qed.

Lemma printed_uri fs : Forall field_ok fs -> all uri_byte (join_byte AMP (printed fs)).
Proof.
  intros H b Hb. apply elem_of_join in Hb as [->|(p & Hp & Hb)]; [done|].
  unfold printed in Hp. apply list_elem_of_In, in_concat in Hp as (l & Hl & Hp). apply list_elem_of_In in Hl, Hp.
  apply list_elem_of_fmap in Hl as ([[k v] q] & -> & Hl). rewrite Forall_forall in H.
  destruct (H _ Hl) as (H1 & H2 & H3 & H4 & H5 & H6 & H7). unfold param in Hp. case_bool_decide; [by apply elem_of_nil in Hp|].
  apply list_elem_of_singleton in Hp as ->. rewrite !elem_of_app, list_elem_of_singleton in Hb.
  destruct Hb as [Hb|[->|Hb]]; [by apply value_uri, H1|done|by apply H4].
Qed.

Lemma ToURI_uri i : invite_ok i -> all uri_byte (ToURI i).
Proof.
  intros H b. rewrite ToURI_printed, elem_of_app. intros [Hb|Hb]; [|by apply (printed_uri (fields i)); [apply fields_ok|]].
  by apply (all_forallb _ (str "zerofeed://join?")).
Qed.

Lemma parseURL_join q : all uri_byte q -> parseURL (str "zerofeed://join?" ++ q) = Some q.
Proof.
  intros H.
  assert (Hu : all uri_byte (str "zerofeed://join?" ++ q)).
  { intros b. rewrite elem_of_app. intros [Hb|Hb]; [|by apply H].
    by apply (all_forallb _ (str "zerofeed://join?")). }
  unfold parseURL. rewrite cut_byte_none by (by apply (not_in uri_byte)).
  assert (existsb (fun b => (Z_of_byte b <? 32) || (Z_of_byte b =? 127)) (str "zerofeed://join?" ++ q) = false) as ->.
  { apply not_true_is_false. rewrite existsb_exists. intros (b & Hb & E). apply list_elem_of_In, Hu in Hb.
    revert E Hb. clear. destruct b; vm_compute; congruence. }
  change (drop (length (str "zerofeed://")) (str "zerofeed://join?" ++ q)) with (str "join" ++ QUESTION :: q).
  rewrite cut_byte_app; [done|]. apply (bool_decide_eq_false_1 (QUESTION ∈ str "join")). reflexivity.
Qed.

Lemma parseCode_ToURI i : invite_ok i -> parseCode (ToURI i) = Ok i.
Proof.
  intros H. pose proof (fields_ok i H) as Hf. unfold parseCode. rewrite ToURI_printed.
  assert (has_prefix (str "zerofeed://") (str "zerofeed://join?" ++ join_byte AMP (printed (fields i))) = true) as -> by done.
  rewrite parseURL_join, parseQuery_printed by (done || by apply printed_uri).
  destruct i as [c r t f]. destruct H as [Hc _]. unfold fields. cbn [Code RelayAddr TransportMode SPKIFingerprint] in *.
  rewrite !filter_cons, filter_nil, decide_True by done.
  destruct (decide (r <> [])) as [|Hr], (decide (t <> [])) as [|Ht], (decide (f <> [])) as [|Hf'];
    repeat match goal with H : ~ (_ <> []) |- _ => apply dec_stable in H; subst end;
    cbn; by rewrite bool_decide_false by done.
Qed.

Lemma joinFragment_none s : SHARP ∉ s -> joinFragment s = s.
Proof.
  intros H. unfold joinFragment, split_str. destruct (length s); cbn [split_str_fuel]; [done|].
  change JOIN with (SHARP :: str "join="). by rewrite cut_str_none.
Qed.

Lemma joinFragment_link l part :
  SHARP ∉ l -> SHARP ∉ part ->
  joinFragment (l ++ JOIN ++ part) = match QueryUnescape part with Some u => u | None => part end.
Proof.
  intros Hl Hp. unfold joinFragment, split_str. change JOIN with (SHARP :: str "join=").
  destruct (length (l ++ (SHARP :: str "join=") ++ part)) as [|n] eqn:E; [rewrite length_app in E; cbn in E; lia|].
  cbn [split_str_fuel]. rewrite cut_str_app by done. by destruct n; cbn [split_str_fuel]; [|rewrite cut_str_none].
Qed.

Lemma ToURI_no_space i : invite_ok i -> all (fun b => negb (is_space b)) (ToURI i).
Proof. intros H b Hb. by apply uri_not_space, (ToURI_uri i). Qed.

Lemma parse_ToURI i : invite_ok i -> parseCode (joinFragment (ToURI i)) = Ok i.
Proof.
  intros H. rewrite joinFragment_none; [by apply parseCode_ToURI|]. apply (not_in uri_byte); [by apply ToURI_uri|done].
Qed.

Lemma ToURI_nonempty i : ToURI i <> [].
Proof. by rewrite ToURI_printed. Qed.

Lemma ParseInvite_ToURI i : invite_ok i -> ParseInvite (ToURI i) = Ok i /\ ParseInvite (ToWebURL i) = Ok i.
Proof.
  intros H. split; unfold ParseInvite.
  - rewrite trim_space_id, bool_decide_false by (by apply ToURI_no_space || apply ToURI_nonempty). by apply parse_ToURI.
  - assert (Hl : all uri_byte DefaultLandingURL) by (by apply all_forallb).
    unfold ToWebURL. rewrite trim_space_id.
    2: { intros b. rewrite !elem_of_app. intros [Hb|[Hb|Hb]]; [by apply uri_not_space, Hl| |by apply uri_not_space, (escape_uri (ToURI i))].
         by apply (all_forallb (fun b => negb (is_space b)) JOIN). }
    rewrite bool_decide_false by done. rewrite joinFragment_link; [|by apply (not_in uri_byte)|apply (not_in uri_byte); [apply escape_uri|done]].
    rewrite QueryUnescape_QueryEscape. by apply parseCode_ToURI.
Qed.

(** ** Properties *)

(** C35: An invitation whose code is not empty and whose relay address needs no
    escaping is read back exactly, every field included, from its URI and from
    its landing-page link, whatever bytes the code and the other fields hold and
    whatever blanks surround the text. *)
Theorem invite_roundtrip i :
  invite_ok i ->
  (ParseInvite (ToURI i) = Ok i /\ ParseInvite (ToWebURL i) = Ok i) /\
  ParseInvite ([SPACE] ++ ToURI i ++ [NL]) = Ok i.
Proof.
  intros H. split; [by apply ParseInvite_ToURI|]. unfold ParseInvite.
  assert (trim_space ([SPACE] ++ ToURI i ++ [NL]) = ToURI i) as ->;
    [|rewrite bool_decide_false by apply ToURI_nonempty; by apply parse_ToURI].
  unfold trim_space. cbn [app trim_left]. change (is_space SPACE) with true. cbn iota.
  assert (trim_left (ToURI i ++ [NL]) = ToURI i ++ [NL]) as -> by (by rewrite ToURI_printed).
  rewrite reverse_app, reverse_singleton. cbn [app trim_left]. change (is_space NL) with true. cbn iota.
  rewrite trim_left_id, reverse_involutive; [done|]. intros b Hb. apply (ToURI_no_space i H). by apply elem_of_reverse.
Qed.

(** The relay address goes into the URI as it is: one with a percent sign (an
    IPv6 zone) is dropped by the reader, one with an ampersand can override
    nothing before it but adds parameters of its own; and a link with an empty
    fragment is accepted as an invitation with an empty code. *)
Example ToURI_relay_unescaped :
  ParseInvite (ToURI (GenerateInvite (str "a-b") (str "[fe80::1%eth0]:8443"))) = Ok (GenerateInvite (str "a-b") []) /\
  ParseInvite (ToURI (GenerateInvite (str "a-b") (str "h:1&transport=quic"))) =
    Ok (mkInvite (str "a-b") (str "h:1") (str "quic") []) /\
  ParseInvite (DefaultLandingURL ++ JOIN) = Ok (mkInvite [] [] [] []).
Proof. vm_compute. done. Qed.

Definition demoInvite : Invite :=
  mkInvite (str "7-apple river&sun #1") (str "[2001:db8::1]:8443") (str "quic") (str "sha256/ab+c=").

Lemma invite_roundtrip_witness :
  (ParseInvite (ToURI demoInvite) = Ok demoInvite /\ ParseInvite (ToWebURL demoInvite) = Ok demoInvite) /\
  ParseInvite ([SPACE] ++ ToURI demoInvite ++ [NL]) = Ok demoInvite.
Proof.
  apply (invite_roundtrip demoInvite). split; [vm_compute; congruence|].
  apply all_forallb. vm_compute. reflexivity.
Defined.
