(* ===== verification/Dial.v ===== *)
(** * Finding and dialling a relay (pkg/feed/relay_list.go, session_id.go)

    The list of relays a client may use, the first one that answers, and the
    connection itself: TLS with certificate pinning or the system's CAs, plain
    TCP otherwise.  The network is a parameter: what a TLS server at an address
    presents, and whether a TCP connection to it succeeds; deadlines are part of
    those outcomes.  [tls.DialWithDialer] and [net.ParseIP] are written out. *)

From S2P Require Import Prelude Strings Hash Cipher Encoding Invite.

Definition COMMA : byte := x2c.
Definition DOT : byte := x2e.

(** ** Relay lists *)

Definition DefaultRelays : list bytes :=
  [str "relay.zerofeed.app:8443"; str "fallback.relay.zerofeed.app:8443"].
Definition DefaultRelayDNS : bytes := str "relay.zerofeed.app".
Definition DefaultRelayPort : bytes := str "8443".
Definition DefaultPublicRelayIP : bytes := str "92.4.216.150:8443".

Definition ParseRelayList (s : bytes) : list bytes :=
  filter (fun p => p <> []) (trim_space <$> split_byte COMMA s).

Inductive dial_error := RelayListEmpty | AllUnreachable (lastAddr : bytes) | PinnedTLSFailed | TCPFailed.

(** [dial addr] is the outcome of the dialer within its timeout. *)
Fixpoint dial_loop {C} (dial : bytes -> option C) (relays : list bytes) (lastErr : dial_error)
    : result dial_error (C * bytes) :=
  match relays with
  | [] => Err lastErr
  | addr :: relays' =>
      match dial addr with
      | Some conn => Ok (conn, addr)
      | None => dial_loop dial relays' (AllUnreachable addr)
      end
  end.

Definition DialFirstAvailable {C} (dial : bytes -> option C) (relays : list bytes)
    : result dial_error (C * bytes) := dial_loop dial relays RelayListEmpty.

(** The connection is closed again; only the address is kept. *)
Definition ProbeFirstAvailable {C} (dial : bytes -> option C) (relays : list bytes)
    : result dial_error bytes :=
  let? (_, addr) := DialFirstAvailable dial relays in Ok addr.

(** [lookup] is the answer of the resolver, [None] on an error. *)
Definition ResolveDefaultRelays (lookup : bytes -> option (list bytes)) : list bytes :=
  match lookup DefaultRelayDNS with
  | Some (addr :: addrs) =>
      ((fun a => JoinHostPort a DefaultRelayPort) <$> addr :: addrs) ++ [DefaultPublicRelayIP]
  | _ => [DefaultPublicRelayIP]
  end.

(** ** net.ParseIP *)

Definition is_digit (b : byte) : bool := (0x30 <=? Z_of_byte b) && (Z_of_byte b <=? 0x39).

(** One to three digits, no leading zero, at most 255. *)
Definition ipv4_field (s : bytes) : bool :=
  match s with
  | [] => false
  | [b] => is_digit b
  | b :: _ => forallb is_digit s && negb (eqb b x30) && (length s <=? 3)%nat && (dec_val s <=? 255)
  end.

Definition parse_ipv4 (s : bytes) : bool :=
  let fs := split_byte DOT s in (length fs =? 4)%nat && forallb ipv4_field fs.

(** The leading hexadecimal digits. *)
Fixpoint hex_span (s : bytes) : bytes * bytes :=
  match s with
  | b :: s' =>
      match from_hex b with
      | Some _ => let (h, r) := hex_span s' in (b :: h, r)
      | None => ([], s)
      end
  | [] => ([], [])
  end.

(** The loop of [netip.parseIPv6] over the groups: [i] bytes of the address are
    filled and [ellipsis] tells whether [::] was seen. *)
Fixpoint parse_ipv6_loop (fuel : nat) (i : Z) (ellipsis : bool) (s : bytes) : bool :=
  let finish i ellipsis := if i <? 16 then ellipsis else negb ellipsis in
  match fuel with
  | O => match s with [] => finish i ellipsis | _ => false end
  | S fuel' =>
      let (h, r) := hex_span s in
      if (length h =? 0)%nat || (4 <? length h)%nat then false
      else match r with
           | [] => finish (i + 2) ellipsis
           | c :: r' =>
               if eqb c DOT then
                 (ellipsis || (i =? 12)) && (i + 4 <=? 16) && parse_ipv4 s && finish (i + 4) ellipsis
               else if negb (eqb c COLON) then false
               else match r' with
                    | [] => false
                    | c2 :: r'' =>
                        if eqb c2 COLON then
                          if ellipsis then false
                          else match r'' with
                               | [] => finish (i + 2) true
                               | _ => parse_ipv6_loop fuel' (i + 2) true r''
                               end
                        else parse_ipv6_loop fuel' (i + 2) ellipsis r'
                    end
           end
  end.

(** Eight groups at most. *)
Definition parse_ipv6 (s : bytes) : bool :=
  match s with
  | a :: b :: s' =>
      if eqb a COLON && eqb b COLON then
        match s' with [] => true | _ => parse_ipv6_loop 8 0 true s' end
      else parse_ipv6_loop 8 0 false s
  | _ => parse_ipv6_loop 8 0 false s
  end.

(** [net.ParseIP(s) != nil]: the first dot, colon or percent sign decides; a
    zone is refused. *)
Fixpoint ip_kind (s : bytes) : option byte :=
  match s with
  | [] => None
  | b :: s' => if bool_decide (b ∈ [DOT; COLON; PERCENT]) then Some b else ip_kind s'
  end.

Definition ParseIP (s : bytes) : bool :=
  match ip_kind s with
  | Some b =>
      if eqb b DOT then parse_ipv4 s
      else if eqb b COLON then negb (contains_byte PERCENT s) && parse_ipv6 s
      else false
  | None => false
  end.

(** ** Dialling *)

Inductive network := Tcp | Tcp4 | Tcp6.

(** The connection that was made; [TlsConn] with the server's certificates. *)
Inductive relay_conn :=
  | TlsConn (net : network) (addr serverName : bytes) (rawCerts : list bytes)
  | TcpConn (net : network) (addr : bytes)
  | QuicConn (addr : bytes).

Section Dial.

(** [x509.ParseCertificate] and the subject's public key info. *)
Context (parseSPKI : bytes -> option bytes).

(** A TLS server's certificates, and the names the system's CAs vouch for;
    [None] when no TLS handshake comes about. *)
Context (tlsServer : network -> bytes -> option (list bytes * (bytes -> bool))).
Context (tcpServer : network -> bytes -> bool).
Context (quicServer : bytes -> bool).

(** [tls.DialWithDialer]: the CAs unless skipped, then the callback. *)
Definition tlsDial (net : network) (addr serverName : bytes) (insecureSkipVerify : bool)
    (verifyPeerCertificate : list bytes -> bool) : option relay_conn :=
  '(rawCerts, trusted) ← tlsServer net addr;
  if (insecureSkipVerify || trusted serverName) && verifyPeerCertificate rawCerts
  then Some (TlsConn net addr serverName rawCerts) else None.

Definition verifyPin (isPinningRequested : bool) (expectedFingerprint : bytes) (rawCerts : list bytes) : bool :=
  if negb isPinningRequested then true
  else match rawCerts with
       | [] => false
       | cert :: _ => bool_decide (CalculateSPKIFingerprint parseSPKI cert = expectedFingerprint)
       end.

(** [envSNI] is ZEROFEED_TLS_SNI, empty when unset. *)
Definition DialRelayWithPin (envSNI relayAddr expectedFingerprint : bytes) : result dial_error relay_conn :=
  let '(host, port) := match SplitHostPort relayAddr with Some hp => hp | None => (relayAddr, []) end in
  let isRawIP := ParseIP host in
  let serverName :=
    if isRawIP then if bool_decide (envSNI = []) then str "zerofeed.duckdns.org" else envSNI else host in
  let expectedFingerprint := trim_space (to_lower expectedFingerprint) in
  let isIPv6 := isRawIP && contains_byte COLON host in
  let tcpNetwork := if isRawIP then if isIPv6 then Tcp6 else Tcp4 else Tcp in
  let isPinningRequested := negb (bool_decide (expectedFingerprint = [])) in
  let useTLSFirst :=
    (negb isRawIP && (bool_decide (port = str "443") || bool_decide (port = str "8443"))) || isPinningRequested in
  let plain := if tcpServer tcpNetwork relayAddr then Ok (TcpConn tcpNetwork relayAddr) else Err TCPFailed in
  if useTLSFirst then
    match tlsDial tcpNetwork relayAddr serverName isPinningRequested (verifyPin isPinningRequested expectedFingerprint) with
    | Some tlsConn => Ok tlsConn
    | None => if isPinningRequested then Err PinnedTLSFailed else plain
    end
  else plain.

Definition DialRelay (envSNI relayAddr : bytes) : result dial_error relay_conn :=
  DialRelayWithPin envSNI relayAddr [].

(** The dial of both engines' [Connect]: QUIC, with the above as its fallback. *)
Definition connectDial (quic : bool) (envSNI relayAddr expectedFingerprint : bytes) : result dial_error relay_conn :=
  if quic && quicServer relayAddr then Ok (QuicConn relayAddr)
  else DialRelayWithPin envSNI relayAddr expectedFingerprint.

End Dial.

(** ** Facts *)

Example ParseIP_samples :
  ParseIP (str "92.4.216.150") = true /\ ParseIP (str "::1") = true /\ ParseIP (str "2001:db8::8:800:200c:417a") = true /\
  ParseIP (str "::ffff:10.0.0.1") = true /\ ParseIP (str "1:2:3:4:5:6:7:8") = true /\ ParseIP (str "::") = true /\
  ParseIP (str "256.1.1.1") = false /\ ParseIP (str "01.2.3.4") = false /\ ParseIP (str "fe80::1%eth0") = false /\
  ParseIP (str "1::2::3") = false /\ ParseIP (str "1:2:3:4:5:6:7:8:9") = false /\ ParseIP (str "relay.zerofeed.app") = false.
Proof. vm_compute. tauto. Qed.

Lemma split_byte_nin c s p : p ∈ split_byte c s -> c ∉ p.
Proof.
  revert p. induction s as [|b s IH]; intros p; cbn [split_byte].
  - intros ->%list_elem_of_singleton. apply not_elem_of_nil.
  - unfold eqb. case_bool_decide as E.
    + intros [->|H]%elem_of_cons; [apply not_elem_of_nil|by apply IH].
    + destruct (split_byte c s) as [|q qs] eqn:Es.
      * intros ->%list_elem_of_singleton. rewrite list_elem_of_singleton. congruence.
      * intros [->|H]%elem_of_cons; [|by apply IH, list_elem_of_further].
        rewrite elem_of_cons. intros [?|?]; [congruence|]. eapply IH; [apply list_elem_of_here|done].
Qed.

Lemma elem_of_trim_left b s : b ∈ trim_left s -> b ∈ s.
Proof.
  induction s as [|c s IH]; [done|]. cbn [trim_left]. destruct (is_space c); [|done].
  intros H. by apply list_elem_of_further, IH.
Qed.

Lemma elem_of_trim_space b s : b ∈ trim_space s -> b ∈ s.
Proof. unfold trim_space. rewrite elem_of_reverse. intros H%elem_of_trim_left. rewrite elem_of_reverse in H.
  by apply elem_of_trim_left. Qed.

Lemma dial_loop_spec {C} (dial : bytes -> option C) relays e :
  match dial_loop dial relays e with
  | Ok (c, a) => exists before after, relays = before ++ a :: after /\ Forall (fun x => dial x = None) before /\ dial a = Some c
  | Err e' => Forall (fun x => dial x = None) relays /\ (relays = [] -> e' = e) /\ (forall a, last relays = Some a -> e' = AllUnreachable a)
  end.
Proof.
  revert e. induction relays as [|a relays IH]; intros e; cbn [dial_loop]; [done|].
  destruct (dial a) as [c|] eqn:E; [by exists [], relays|].
  specialize (IH (AllUnreachable a)). destruct (dial_loop dial relays (AllUnreachable a)) as [[c b]|e'].
  - destruct IH as (l1 & l2 & -> & H1 & H2). exists (a :: l1), l2. split_and!; [done|by constructor|done].
  - destruct IH as (H1 & H2 & H3). split_and!; [by constructor|done|]. intros b Hb.
    destruct relays as [|r rs]; [|by apply H3]. injection Hb as <-. by apply H2.
Qed.

(** ** Properties *)

(** C33: With a pinned fingerprint (anything but blanks) a TCP-mode connection is
    only ever a TLS connection whose first certificate hashes to that
    fingerprint, whatever the CAs say; every other outcome is an error, never a
    plain connection.  QUIC, when it answers, is taken first and looks at no
    fingerprint. *)
Theorem pinned_dial parseSPKI tls tcp quic envSNI addr fp c :
  trim_space (to_lower fp) <> [] ->
  (DialRelayWithPin parseSPKI tls tcp envSNI addr fp = Ok c ->
   exists net name cert certs, c = TlsConn net addr name (cert :: certs) /\
     CalculateSPKIFingerprint parseSPKI cert = trim_space (to_lower fp)) /\
  (quic addr = false -> connectDial parseSPKI tls tcp quic true envSNI addr fp = DialRelayWithPin parseSPKI tls tcp envSNI addr fp) /\
  (quic addr = true -> connectDial parseSPKI tls tcp quic true envSNI addr fp = Ok (QuicConn addr)).
Proof.
  intros Hfp. split_and!; [|by unfold connectDial; intros ->..].
  unfold DialRelayWithPin. destruct (match SplitHostPort addr with Some hp => hp | None => _ end) as [host port].
  rewrite (bool_decide_false _ Hfp). cbn [negb]. rewrite orb_true_r. unfold tlsDial, verifyPin. cbn [negb orb andb].
  destruct (tls _ addr) as [[rawCerts trusted]|]; cbn [mbind option_bind]; [|done].
  destruct rawCerts as [|cert certs]; [done|]. case_bool_decide as E; [|done].
  intros [= <-]. by eexists _, _, _, _.
Qed.

(** Without a pin, a DNS name on port 443 or 8443 is tried with TLS under
    the system's CAs, and a server the CAs do not vouch for (or no TLS at all)
    still gets a plain TCP connection: the certificate check never makes the
    dial fail, so confidentiality rests on the end-to-end layer alone. *)
Theorem unpinned_dial_downgrades parseSPKI tls tcp envSNI host port :
  SplitHostPort (host ++ COLON :: port) = Some (host, port) -> ParseIP host = false ->
  port = str "443" \/ port = str "8443" ->
  let addr := host ++ COLON :: port in
  DialRelay parseSPKI tls tcp envSNI addr =
    match tls Tcp addr with
    | Some (certs, trusted) =>
        if trusted host then Ok (TlsConn Tcp addr host certs)
        else if tcp Tcp addr then Ok (TcpConn Tcp addr) else Err TCPFailed
    | None => if tcp Tcp addr then Ok (TcpConn Tcp addr) else Err TCPFailed
    end.
Proof.
  intros Hs Hip Hp addr. unfold DialRelay, DialRelayWithPin. fold addr in Hs. rewrite Hs, Hip.
  assert (bool_decide (port = str "443") || bool_decide (port = str "8443") = true) as ->.
  { destruct Hp as [-> | ->]; by vm_compute. }
  change (trim_space (to_lower [])) with (@nil byte). cbn [negb orb andb bool_decide].
  unfold tlsDial. destruct (tls Tcp addr) as [[certs trusted]|]; [|done]. cbn [mbind option_bind].
  change (negb (bool_decide ([] =@{bytes} []))) with false. cbn [orb verifyPin negb].
  rewrite andb_true_r. by destruct (trusted host).
Qed.

(** The relay list: every entry is trimmed, not empty and free of commas;
    the first relay that answers is used, those before it having failed; an
    error means that every relay of the list failed, and names the last one. *)
Theorem relay_list_dial {C} (dial : bytes -> option C) s :
  (forall r, r ∈ ParseRelayList s -> r <> [] /\ (COMMA ∉ r) /\ exists p, p ∈ split_byte COMMA s /\ r = trim_space p) /\
  match DialFirstAvailable dial (ParseRelayList s) with
  | Ok (c, a) => exists before after, ParseRelayList s = before ++ a :: after /\
      Forall (fun x => dial x = None) before /\ dial a = Some c
  | Err e => Forall (fun x => dial x = None) (ParseRelayList s) /\
      (ParseRelayList s = [] -> e = RelayListEmpty) /\
      (forall a, last (ParseRelayList s) = Some a -> e = AllUnreachable a)
  end.
Proof.
  split; [|apply dial_loop_spec]. intros r [Hne H]%list_elem_of_filter.
  apply list_elem_of_fmap in H as (p & -> & Hp). split_and!; [done| |by exists p].
  intros Hc%elem_of_trim_space. by eapply split_byte_nin.
Qed.

(** ** The properties at work *)

Definition demoTls (net : network) (addr : bytes) : option (list bytes * (bytes -> bool)) :=
  Some ([str "certificate"], fun name => bool_decide (name = str "other.example")).

Lemma pinned_dial_witness :
  let fp := EncodeToString (sha256 (str "certificate")) in
  (DialRelayWithPin (fun _ => None) demoTls (fun _ _ => true) [] (str "10.0.0.1:9000") fp =
     Ok (TlsConn Tcp4 (str "10.0.0.1:9000") (str "zerofeed.duckdns.org") [str "certificate"]) ->
   exists net name cert certs,
     TlsConn Tcp4 (str "10.0.0.1:9000") (str "zerofeed.duckdns.org") [str "certificate"] =
       TlsConn net (str "10.0.0.1:9000") name (cert :: certs) /\
     CalculateSPKIFingerprint (fun _ => None) cert = trim_space (to_lower fp)) /\
  (false = false -> connectDial (fun _ => None) demoTls (fun _ _ => true) (fun _ => false) true [] (str "10.0.0.1:9000") fp =
     DialRelayWithPin (fun _ => None) demoTls (fun _ _ => true) [] (str "10.0.0.1:9000") fp) /\
  (false = true -> connectDial (fun _ => None) demoTls (fun _ _ => true) (fun _ => false) true [] (str "10.0.0.1:9000") fp =
     Ok (QuicConn (str "10.0.0.1:9000"))).
Proof.
  intros fp.
  apply (pinned_dial (fun _ => None) demoTls (fun _ _ => true) (fun _ => false) [] (str "10.0.0.1:9000") fp
    (TlsConn Tcp4 (str "10.0.0.1:9000") (str "zerofeed.duckdns.org") [str "certificate"])).
  vm_compute. congruence.
Defined.

(** The pinned server is accepted, a wrong pin is refused. *)
Example pinned_dial_runs :
  DialRelayWithPin (fun _ => None) demoTls (fun _ _ => true) [] (str "10.0.0.1:9000")
    (EncodeToString (sha256 (str "certificate"))) =
    Ok (TlsConn Tcp4 (str "10.0.0.1:9000") (str "zerofeed.duckdns.org") [str "certificate"]) /\
  DialRelayWithPin (fun _ => None) demoTls (fun _ _ => true) [] (str "10.0.0.1:9000") (str "00") = Err PinnedTLSFailed.
Proof. vm_compute. done. Qed.

Lemma unpinned_dial_downgrades_witness :
  DialRelay (fun _ => None) demoTls (fun _ _ => true) [] (str "relay.example" ++ COLON :: str "443") =
    Ok (TcpConn Tcp (str "relay.example" ++ COLON :: str "443")).
Proof.
  refine (eq_trans (unpinned_dial_downgrades (fun _ => None) demoTls (fun _ _ => true) [] (str "relay.example") (str "443") _ _ _) _).
  - vm_compute. reflexivity.
  - vm_compute. reflexivity.
  - by left.
  - vm_compute. reflexivity.
Defined.
