(* ===== verification/Transport.v ===== *)
(** * QUIC transport (pkg/transport)

    [GenerateEphemeralTLSConfig] (tls.go), [DialQUIC] and [QuicStreamWrapper] of
    both builds (quic_enabled.go, quic_disabled.go).  quic-go and the certificate
    functions of the Go library are parameters: [QuicLib] is what the code calls,
    [QuicLaws] what the documentation of quic-go says about connections and
    streams. *)

From S2P Require Import Prelude Strings Float64 Hash Protocol Encoding Cipher Dial.

(** ** TLS (tls.go) *)

Inductive key_usage := KeyUsageKeyEncipherment | KeyUsageDigitalSignature.
Inductive ext_key_usage := ExtKeyUsageServerAuth | ExtKeyUsageClientAuth.

Record x509_template := mkTemplate {
  xt_SerialNumber : Z;
  xt_Organization : list bytes;
  xt_NotBefore : Z;                 (** nanoseconds *)
  xt_NotAfter : Z;
  xt_KeyUsage : list key_usage;
  xt_ExtKeyUsage : list ext_key_usage;
  xt_BasicConstraintsValid : bool
}.

Record tls_config := mkTlsConfig {
  tc_Certificates : list (bytes * bytes);   (** certificate and private key *)
  tc_NextProtos : list bytes;
  tc_InsecureSkipVerify : bool;
  tc_MinVersion : Z
}.

Definition hour : Z := 3600 * 10 ^ 9.
Definition VersionTLS13 : Z := 772.

Definition template (now : Z) : x509_template :=
  mkTemplate 1 [str "ZeroFeed Ephemeral Node"] (now - 1 * hour) (now + 24 * hour)
    [KeyUsageKeyEncipherment; KeyUsageDigitalSignature] [ExtKeyUsageServerAuth; ExtKeyUsageClientAuth] true.

Inductive transport_error := KeyError | CertificateError | DialError | StreamError | ErrQUICDisabled | QuicDisabled.

(** [generateKey] is [ecdsa.GenerateKey] on P-256; [createCertificate template key] is
    [x509.CreateCertificate] with the template as its own parent. *)
Definition GenerateEphemeralTLSConfig (generateKey : option bytes) (createCertificate : x509_template -> bytes -> option bytes)
    (now : Z) : result transport_error tls_config :=
  match generateKey with
  | None => Err KeyError
  | Some key =>
      match createCertificate (template now) key with
      | None => Err CertificateError
      | Some certBytes => Ok (mkTlsConfig [(certBytes, key)] [str "zerofeed-quic-v1"] true VersionTLS13)
      end
  end.

(** ** quic-go *)

Record quic_config := mkQuicConfig { qc_EnableDatagrams : bool; qc_KeepAlivePeriod : Z }.

(** Connections and streams are named by numbers; [N] is the state of the
    library and the network under it. *)
Class QuicLib (N : Type) := {
  DialAddr : bytes -> tls_config -> quic_config -> N -> option nat * N;
  OpenStreamSync : nat -> N -> option nat * N;
  CloseWithError : nat -> Z -> bytes -> N -> N;
  StreamClose : nat -> N -> N;
  SetReadDeadline : nat -> Z -> N -> N;
  SetWriteDeadline : nat -> Z -> N -> option transport_error * N;
  SendDatagram : nat -> bytes -> N -> option transport_error * N;
  ReceiveDatagram : nat -> N -> result transport_error bytes * N;
  LocalAddr : nat -> N -> bytes;
  RemoteAddr : nat -> N -> bytes;
  (** observations: the connections this process opened and has not closed, whether a stream
      may be written and read *)
  live : N -> list nat;
  writable : N -> nat -> bool;
  readable : N -> nat -> bool
}.

(** [Stream.Close] closes the sending direction only: the peer sees the end of the
    stream, while reading from it goes on; a connection is held until
    [CloseWithError]. *)
Class QuicLaws (N : Type) `{QuicLib N} := {
  dial_live addr tls q n c n' : DialAddr addr tls q n = (Some c, n') -> live n' = c :: live n;
  dial_failed addr tls q n n' : DialAddr addr tls q n = (None, n') -> live n' = live n;
  open_live c n : live (snd (OpenStreamSync c n)) = live n;
  open_usable c n s n' : OpenStreamSync c n = (Some s, n') -> writable n' s = true /\ readable n' s = true;
  close_conn c code reason n l : live n = c :: l -> live (CloseWithError c code reason n) = l;
  close_stream s n :
    live (StreamClose s n) = live n /\ writable (StreamClose s n) s = false /\ readable (StreamClose s n) s = readable n s
}.

(** ** The build with QUIC (quic_enabled.go) *)

Record QuicStreamWrapper := mkWrapper { qw_Stream : nat; qw_conn : nat }.

Section Enabled.
Context {N : Type} `{QuicLib N}.

Definition NewQuicStreamWrapper (stream conn : nat) : QuicStreamWrapper := mkWrapper stream conn.

(** [Close] is the one of the embedded [*quic.Stream]. *)
Definition wrapperClose (w : QuicStreamWrapper) (n : N) : N := StreamClose (qw_Stream w) n.

Definition wrapperLocalAddr (w : QuicStreamWrapper) (n : N) : bytes := LocalAddr (qw_conn w) n.
Definition wrapperRemoteAddr (w : QuicStreamWrapper) (n : N) : bytes := RemoteAddr (qw_conn w) n.
Definition wrapperSetDeadline (w : QuicStreamWrapper) (t : Z) (n : N) : option transport_error * N :=
  SetWriteDeadline (qw_Stream w) t (SetReadDeadline (qw_Stream w) t n).
Definition wrapperSendDatagram (w : QuicStreamWrapper) (b : bytes) (n : N) : option transport_error * N :=
  SendDatagram (qw_conn w) b n.
Definition wrapperReceiveDatagram (w : QuicStreamWrapper) (n : N) : result transport_error bytes * N :=
  ReceiveDatagram (qw_conn w) n.

Definition quicConfig : quic_config := mkQuicConfig true (5 * 10 ^ 9).

Definition DialQUIC (tlsConfig : result transport_error tls_config) (addr : bytes) (n : N) :
    result transport_error QuicStreamWrapper * N :=
  match tlsConfig with
  | Err e => (Err e, n)
  | Ok tls =>
      match DialAddr addr tls quicConfig n with
      | (None, n) => (Err DialError, n)
      | (Some conn, n) =>
          match OpenStreamSync conn n with
          | (None, n) => (Err StreamError, CloseWithError conn 0 (str "failed to open stream") n)
          | (Some stream, n) => (Ok (NewQuicStreamWrapper stream conn), n)
          end
      end
  end.
End Enabled.

(** ** The build without QUIC (quic_disabled.go) *)

Definition DialQUIC_disabled (addr : bytes) : result transport_error QuicStreamWrapper := Err ErrQUICDisabled.

(** The methods of its empty wrapper: what [Read] and [Write] return. *)
Definition wrapperIO_disabled : Z * transport_error := (0, QuicDisabled).

(** ** Dialling over QUIC *)

Definition is_ok {E A} (r : result E A) : bool := match r with Ok _ => true | Err _ => false end.

Section Facts.
Context {N : Type} `{QuicLaws N}.

Lemma DialQUIC_live tls addr n :
  match DialQUIC tls addr n with
  | (Ok w, n') => live n' = qw_conn w :: live n /\ writable n' (qw_Stream w) = true /\ readable n' (qw_Stream w) = true
  | (Err _, n') => live n' = live n
  end.
Proof.
  unfold DialQUIC. destruct tls as [cfg|]; [|done]. destruct (DialAddr addr cfg quicConfig n) as [[c|] n1] eqn:Ed; [|by eapply dial_failed].
  pose proof (dial_live _ _ _ _ _ _ Ed) as Hl. pose proof (open_live c n1) as Ho.
  destruct (OpenStreamSync c n1) as [[s|] n2] eqn:Eo; cbn in Ho.
  - cbn [NewQuicStreamWrapper qw_conn qw_Stream]. split; [by rewrite Ho|]. by eapply open_usable.
  - apply close_conn. by rewrite Ho.
Qed.
End Facts.

(** * Properties *)

(** Dialling and closing over QUIC, for any library with quic-go's documented
    behaviour.  A dial that fails leaves no connection behind, at whichever of its
    steps it fails; one that succeeds adds exactly the connection of the wrapper,
    whose stream can be written and read.  Closing the wrapper, the engines' [conn.Close()],
    ends only the sending direction: the connection is kept and its stream can still be
    read.  The TLS settings present one fresh certificate, valid around the present time,
    and never check the peer's.  In the build without QUIC every engine connects over TCP,
    as if QUIC had not been asked for. *)
Theorem quic_dial {N} `{QuicLaws N} genKey createCert now addr (n : N) :
  let tls := GenerateEphemeralTLSConfig genKey createCert now in
  (forall e n', DialQUIC tls addr n = (Err e, n') -> live n' = live n) /\
  (forall w n', DialQUIC tls addr n = (Ok w, n') ->
     live n' = qw_conn w :: live n /\ writable n' (qw_Stream w) = true /\
     live (wrapperClose w n') = live n' /\ writable (wrapperClose w n') (qw_Stream w) = false /\
     readable (wrapperClose w n') (qw_Stream w) = true) /\
  (forall cfg, tls = Ok cfg -> exists cert key, tc_Certificates cfg = [(cert, key)] /\ createCert (template now) key = Some cert /\
     xt_NotBefore (template now) <= now <= xt_NotAfter (template now) /\ tc_InsecureSkipVerify cfg = true) /\
  (forall parseSPKI tlsServer tcpServer quic envSNI relayAddr fp,
     connectDial parseSPKI tlsServer tcpServer (fun a => is_ok (DialQUIC_disabled a)) quic envSNI relayAddr fp =
     DialRelayWithPin parseSPKI tlsServer tcpServer envSNI relayAddr fp).
Proof.
  intros tls. pose proof (DialQUIC_live tls addr n) as Hd. split_and!.
  - intros e n' E. by rewrite E in Hd.
  - intros w n' E. rewrite E in Hd. destruct Hd as (Hl & Hw & Hr).
    destruct (close_stream (qw_Stream w) n') as (H1 & H2 & H3). unfold wrapperClose. by rewrite H3.
  - unfold tls, GenerateEphemeralTLSConfig. intros cfg. destruct genKey as [key|]; [|done].
    destruct (createCert (template now) key) as [cert|] eqn:Ec; [|done]. intros [= <-]. exists cert, key.
    split_and!; try done; cbn; unfold hour; lia.
  - intros. unfold connectDial. cbn [is_ok DialQUIC_disabled]. by rewrite andb_false_r.
Qed.

(** ** A small network *)

(** The open connections, the next number, and the streams with their two
    directions; no address of the empty string answers, and a connection opens one stream
    (its limit can be zero). *)
Record toyNet := mkToy { toy_live : list nat; toy_next : nat; toy_streams : list (nat * (bool * bool)); toy_limit : nat }.
Definition toy_stream (n : toyNet) (s : nat) : bool * bool :=
  default (false, false) (snd <$> List.find (fun p => Nat.eqb (fst p) s) (toy_streams n)).

#[export] Instance toyLib : QuicLib toyNet := {
  DialAddr addr _ _ n :=
    if bool_decide (addr = []) then (None, n)
    else (Some (toy_next n), mkToy (toy_next n :: toy_live n) (S (toy_next n)) (toy_streams n) (toy_limit n));
  OpenStreamSync _ n :=
    match toy_limit n with
    | O => (None, n)
    | S k => (Some (toy_next n), mkToy (toy_live n) (S (toy_next n)) ((toy_next n, (true, true)) :: toy_streams n) k)
    end;
  CloseWithError c _ _ n := mkToy (List.tl (toy_live n)) (toy_next n) (toy_streams n) (toy_limit n);
  StreamClose s n := mkToy (toy_live n) (toy_next n) ((s, (false, snd (toy_stream n s))) :: toy_streams n) (toy_limit n);
  SetReadDeadline _ _ n := n;
  SetWriteDeadline _ _ n := (None, n);
  SendDatagram _ _ n := (None, n);
  ReceiveDatagram _ n := (Err StreamError, n);
  LocalAddr _ _ := [];
  RemoteAddr _ _ := [];
  live := toy_live;
  writable n s := fst (toy_stream n s);
  readable n s := snd (toy_stream n s)
}.

#[export] Instance toyLaws : QuicLaws toyNet.
Proof.
  split; cbn.
  - intros addr _ _ n c n'. case_bool_decide; [done|]. by intros [= <- <-].
  - intros addr _ _ n n'. case_bool_decide; [by intros [= <-]|done].
  - intros _ n. by destruct (toy_limit n).
  - intros _ n s n'. destruct (toy_limit n); [done|]. intros [= <- <-]. unfold toy_stream. cbn. by rewrite Nat.eqb_refl.
  - intros c _ _ n l ->. done.
  - intros s n. split; [done|]. unfold toy_stream. cbn. by rewrite Nat.eqb_refl.
Qed.

Lemma quic_dial_witness :
  let cert (t : x509_template) (key : bytes) := Some (str "certificate") in
  let tls := GenerateEphemeralTLSConfig (Some (str "key")) cert 0 in
  let up := mkToy [] 0 [] 1 in
  let full := mkToy [] 0 [] 0 in
  (exists w n', DialQUIC tls (str "relay:8443") up = (Ok w, n') /\ live (wrapperClose w n') = [qw_conn w] /\
     readable (wrapperClose w n') (qw_Stream w) = true) /\
  (exists n', DialQUIC tls (str "relay:8443") full = (Err StreamError, n') /\ live n' = []).
Proof.
  intros cert tls up full. split.
  - destruct (quic_dial (Some (str "key")) cert 0 (str "relay:8443") up) as (_ & H2 & _).
    eexists _, _. split; [reflexivity|]. destruct (H2 _ _ eq_refl) as (H3 & _ & H4 & _ & H5). by rewrite H4, H3.
  - destruct (quic_dial (Some (str "key")) cert 0 (str "relay:8443") full) as (H1 & _).
    eexists. split; [reflexivity|]. apply (H1 _ _ eq_refl).
Defined.
