(* ===== verification/Cli.v ===== *)
(** * The command line (main.go, pkg/logger)

    What the program makes of its arguments and environment before an engine
    runs: the sub-command, the flags (package [flag] is written out), the code,
    the relay, the invitation, the thresholds, the log settings, what the relay
    sub-command listens on; the generated channel codes; and how standard input
    becomes messages.  The environment is the values of the variables, the
    answers of the resolver and of the dialer, and random bytes;
    [time.ParseDuration] is a parameter. *)

From S2P Require Import Prelude Strings Float64 Protocol Memory Encoding Invite Dial.

Definition DASH : byte := x2d.
Definition STAR : byte := x2a.

(** ** Package flag *)

Inductive flag_kind := FlagString | FlagBool | FlagInt.
Inductive flag_value := VString (s : bytes) | VBool (b : bool) | VInt (n : Z).
Inductive flag_error := FlagSyntax | FlagHelp | FlagUndefined (name : bytes) | FlagNeedsArgument (name : bytes) | FlagInvalid (name : bytes).

Abbreviation flag_set := (list (bytes * flag_kind)).
(** The assignments made, in order. *)
Abbreviation flag_values := (list (bytes * flag_value)).

Definition formal (fs : flag_set) (name : bytes) : option flag_kind :=
  snd <$> List.find (fun d => bool_decide (fst d = name)) fs.

(** [strconv.ParseBool] *)
Definition ParseBool (s : bytes) : option bool :=
  if bool_decide (s ∈ str <$> ["1"; "t"; "T"; "true"; "TRUE"; "True"]%string) then Some true
  else if bool_decide (s ∈ str <$> ["0"; "f"; "F"; "false"; "FALSE"; "False"]%string) then Some false
  else None.

(** [strconv.ParseInt(s, 0, 64)]: an optional sign, a base prefix, digits with
    underscores between them. *)
Definition UNDERSCORE : byte := x5f.
Definition digit_value (b : byte) : option Z :=
  let v := Z_of_byte (lower b) in
  if (0x30 <=? v) && (v <=? 0x39) then Some (v - 0x30)
  else if (0x61 <=? v) && (v <=? 0x7a) then Some (v - 0x61 + 10)
  else None.

Definition split_base (s : bytes) : Z * bytes :=
  match s with
  | x30 :: c :: (_ :: _) as rest =>
      if eqb (lower c) x62 then (2, drop 2 s)
      else if eqb (lower c) x6f then (8, drop 2 s)
      else if eqb (lower c) x78 then (16, drop 2 s)
      else (8, drop 1 s)
  | x30 :: rest => (8, rest)
  | _ => (10, s)
  end.

Fixpoint uint_digits (base acc : Z) (s : bytes) : option Z :=
  match s with
  | [] => Some acc
  | b :: s =>
      if eqb b UNDERSCORE then uint_digits base acc s
      else match digit_value b with
           | Some d => if d <? base then uint_digits base (acc * base + d) s else None
           | None => None
           end
  end.

(** The last byte seen by [underscoreOK]. *)
Inductive saw := SawStart | SawDigit | SawUnderscore | SawOther.

Fixpoint underscores (hex : bool) (last : saw) (s : bytes) : bool :=
  match s with
  | [] => match last with SawUnderscore => false | _ => true end
  | b :: s =>
      let v := Z_of_byte (lower b) in
      if ((0x30 <=? v) && (v <=? 0x39)) || (hex && (0x61 <=? v) && (v <=? 0x66)) then underscores hex SawDigit s
      else if eqb b UNDERSCORE then match last with SawDigit => underscores hex SawUnderscore s | _ => false end
      else match last with SawUnderscore => false | _ => underscores hex SawOther s end
  end.

Definition underscoreOK (s : bytes) : bool :=
  match s with
  | x30 :: c :: rest =>
      if bool_decide (lower c ∈ [x62; x6f; x78]) then underscores (eqb (lower c) x78) SawDigit rest
      else underscores false SawStart s
  | _ => underscores false SawStart s
  end.

Definition ParseUint (s : bytes) : option Z :=
  match s with
  | [] => None
  | _ =>
      let '(base, ds) := split_base s in
      n ← uint_digits base 0 ds;
      if (n <? 2 ^ 64) && (negb (contains_byte UNDERSCORE ds) || underscoreOK s) then Some n else None
  end.

Definition ParseInt (s : bytes) : option Z :=
  let neg := has_prefix [DASH] s in
  let s := if neg || has_prefix [x2b] s then drop 1 s else s in
  n ← ParseUint s;
  if neg then (if n <=? 2 ^ 63 then Some (- n) else None) else (if n <? 2 ^ 63 then Some n else None).

(** [name=value], the equals sign not first. *)
Definition split_value (name : bytes) : bytes * option bytes :=
  match name with
  | [] => ([], None)
  | b :: rest =>
      match index_byte EQUALS rest with
      | Some i => (b :: take i rest, Some (drop (S i) rest))
      | None => (name, None)
      end
  end.

(** [FlagSet.Parse]: assignments and the arguments left over.  Parsing stops at
    the first argument that is no flag, and after [--]. *)
Fixpoint parse_flags (fuel : nat) (fs : flag_set) (args : list bytes) (acc : flag_values)
    : result flag_error (flag_values * list bytes) :=
  match fuel, args with
  | O, _ | _, [] => Ok (acc, args)
  | S fuel', s :: args' =>
      match s with
      | d :: rest =>
          if negb (eqb d DASH) || bool_decide (rest = []) then Ok (acc, args)
          else if bool_decide (rest = [DASH]) then Ok (acc, args')
          else
            let name := if has_prefix [DASH] rest then drop 1 rest else rest in
            if has_prefix [DASH] name || has_prefix [EQUALS] name then Err FlagSyntax
            else
              let '(name, value) := split_value name in
              match formal fs name with
              | None => if bool_decide (name ∈ [str "help"; str "h"]) then Err FlagHelp else Err (FlagUndefined name)
              | Some FlagBool =>
                  match value with
                  | None => parse_flags fuel' fs args' (acc ++ [(name, VBool true)])
                  | Some v =>
                      match ParseBool v with
                      | Some b => parse_flags fuel' fs args' (acc ++ [(name, VBool b)])
                      | None => Err (FlagInvalid name)
                      end
                  end
              | Some FlagString =>
                  match value, args' with
                  | Some v, _ => parse_flags fuel' fs args' (acc ++ [(name, VString v)])
                  | None, v :: args'' => parse_flags fuel' fs args'' (acc ++ [(name, VString v)])
                  | None, [] => Err (FlagNeedsArgument name)
                  end
              | Some FlagInt =>
                  match value, args' with
                  | Some v, _ =>
                      match ParseInt v with
                      | Some n => parse_flags fuel' fs args' (acc ++ [(name, VInt n)])
                      | None => Err (FlagInvalid name)
                      end
                  | None, v :: args'' =>
                      match ParseInt v with
                      | Some n => parse_flags fuel' fs args'' (acc ++ [(name, VInt n)])
                      | None => Err (FlagInvalid name)
                      end
                  | None, [] => Err (FlagNeedsArgument name)
                  end
              end
      | [] => Ok (acc, args)
      end
  end.

Definition Parse (fs : flag_set) (args : list bytes) : result flag_error (flag_values * list bytes) :=
  parse_flags (length args) fs args [].

(** A variable set by any of [names]: the last assignment, or the default. *)
Definition string_flag (names : list bytes) (default : bytes) (vs : flag_values) : bytes :=
  fold_left (fun acc v => match v with
                          | (n, VString s) => if bool_decide (n ∈ names) then s else acc
                          | _ => acc
                          end) vs default.
Definition bool_flag (names : list bytes) (vs : flag_values) : bool :=
  fold_left (fun acc v => match v with
                          | (n, VBool b) => if bool_decide (n ∈ names) then b else acc
                          | _ => acc
                          end) vs false.

Definition int_flag (names : list bytes) (default : Z) (vs : flag_values) : Z :=
  fold_left (fun acc v => match v with
                          | (n, VInt i) => if bool_decide (n ∈ names) then i else acc
                          | _ => acc
                          end) vs default.

(** ** Small helpers *)

(** [values] are the flag aliases in order; [env] is ZEROFEED_PASSPHRASE. *)
Definition parsePassphrase (values : list bytes) (env : bytes) : bytes :=
  match List.find (fun p => negb (bool_decide (p = []))) values with Some p => p | None => env end.

(** The bytes of one rune at the head of a string: how many, or [None] for a
    byte that starts no valid sequence. *)
Definition in_range (lo hi : Z) (b : byte) : bool := (lo <=? Z_of_byte b) && (Z_of_byte b <=? hi).
Definition rune_width (s : bytes) : option nat :=
  let cont := in_range 0x80 0xbf in
  match s with
  | [] => None
  | a :: s' =>
      if in_range 0 0x7f a then Some 1%nat
      else if in_range 0xc2 0xdf a then
        match s' with b :: _ => if cont b then Some 2%nat else None | _ => None end
      else if in_range 0xe0 0xef a then
        let lo := if eqb a xe0 then 0xa0 else 0x80 in
        let hi := if eqb a xed then 0x9f else 0xbf in
        match s' with b :: c :: _ => if in_range lo hi b && cont c then Some 3%nat else None | _ => None end
      else if in_range 0xf0 0xf4 a then
        let lo := if eqb a xf0 then 0x90 else 0x80 in
        let hi := if eqb a xf4 then 0x8f else 0xbf in
        match s' with
        | b :: c :: d :: _ => if in_range lo hi b && cont c && cont d then Some 4%nat else None
        | _ => None
        end
      else None
  end.

(** [[]rune(s)], each rune in its UTF-8 form; an invalid byte is U+FFFD. *)
Fixpoint runes_fuel (fuel : nat) (s : bytes) : list bytes :=
  match fuel, s with
  | O, _ | _, [] => []
  | S fuel', _ =>
      match rune_width s with
      | Some n => take n s :: runes_fuel fuel' (drop n s)
      | None => [xef; xbf; xbd] :: runes_fuel fuel' (drop 1 s)
      end
  end.
Definition runes (s : bytes) : list bytes := runes_fuel (length s) s.

Definition maskSecret (s : bytes) : bytes :=
  if bool_decide (s = []) then []
  else
    let r := runes s in
    if (length r <=? 4)%nat then replicate (length r) STAR
    else concat (take 2 r) ++ replicate (length r - 4) STAR ++ concat (drop (length r - 2) r).

Definition trim_suffix (p s : bytes) : bytes := if has_suffix p s then take (length s - length p) s else s.

(** [fmt.Sscanf(s, "%d", &val)] into a zero [uint64]: leading digits, zero when
    there are none or the number is too large. *)
Fixpoint digits (s : bytes) : bytes :=
  match s with b :: s' => if is_digit b then b :: digits s' else [] | [] => [] end.
Definition sscanf_uint (s : bytes) : Z :=
  let v := dec_val (digits (trim_left s)) in if v <? 2 ^ 64 then v else 0.

Definition parseByteSize (s : bytes) : Z :=
  let s := trim_space (to_upper s) in
  if bool_decide (s = []) || bool_decide (s = str "0") then 0
  else
    let '(mult, s) :=
      if has_suffix (str "G") s || has_suffix (str "GB") s
      then (1024 * 1024 * 1024, trim_suffix (str "G") (trim_suffix (str "GB") s))
      else if has_suffix (str "M") s || has_suffix (str "MB") s
      then (1024 * 1024, trim_suffix (str "M") (trim_suffix (str "MB") s))
      else if has_suffix (str "K") s || has_suffix (str "KB") s
      then (1024, trim_suffix (str "K") (trim_suffix (str "KB") s))
      else (1, s) in
    wrap 64 (sscanf_uint s * mult).

(** ** Channel codes *)

Definition words : list bytes := str <$> [
   "quantum"; "shield"; "cipher"; "falcon"; "orbit"; "phoenix"; "pulse"; "matrix";
   "vector"; "horizon"; "shadow"; "starlight"; "vortex"; "cobalt"; "emerald"; "aurora";
   "hyper"; "nebula"; "zenith"; "vertex"; "nexus"; "prism"; "spectre"; "titan";
   "argon"; "beacon"; "celestial"; "dynasty"; "eclipse"; "frontier"; "glacier"; "helix";
   "impulse"; "jupiter"; "krypton"; "lunar"; "magnet"; "neutron"; "omega"; "polaris";
   "quasar"; "radiant"; "solar"; "tachyon"; "uranium"; "velocity"; "wavelength"; "xray";
   "yield"; "zodiac"; "anchor"; "blaze"; "cascade"; "dragon"; "echo"; "frost";
   "granite"; "haven"; "iron"; "jasper"; "knight"; "lotus"; "mirage"; "nova";
   "onyx"; "phantom"; "quartz"; "raven"; "sapphire"; "thunder"; "umbra"; "valkyrie";
   "whisper"; "xenon"; "yeti"; "zephyr"; "abyss"; "boulder"; "comet"; "dune";
   "element"; "forge"; "gargoyle"; "harbor"; "infinity"; "jungle"; "kinetic"; "lightning";
   "monolith"; "navigator"; "obsidian"; "pyramid"; "quest"; "rift"; "spire"; "tempest";
   "utopia"; "vanguard"; "wildfire"; "zealot"; "asteroid"; "blizzard"; "cosmos"; "dynamo";
   "entropy"; "fissure"; "gravity"; "hurricane"; "impact"; "journey"; "keystone"; "leviathan";
   "maelstrom"; "nadir"; "oasis"; "pulsar"; "quarry"; "resonance"; "solstice"; "typhoon";
   "ultraviolet"; "volcano"; "viper"; "whirlpool"; "xiphos"; "yggdrasil"; "zircon"; "apex";
   "bastion"; "citadel"; "domain"; "empire"; "fortress"; "guardian"; "hyperion"; "isotope";
   "juggernaut"; "kryptonite"; "labyrinth"; "meridian"; "nemesis"; "oracle"; "pathfinder"; "quicksilver";
   "renegade"; "sentinel"; "torpedo"; "universe"; "vulture"; "warlord"; "xenonite"; "yottabyte";
   "zeus"; "avalanche"; "barrier"; "chasm"; "equinox"; "firewall"; "grid"; "hyperdrive";
   "inferno"; "jackhammer"; "kilometer"; "luminary"; "meteor"; "neutrino"; "overload"; "parsec";
   "qubit"; "raytrace"; "singularity"; "thruster"; "unifier"; "veritas"; "warp"; "xanadu";
   "yearling"; "zeropoint"; "arc"; "bolt"; "core"; "disk"; "flux"; "gate";
   "hub"; "ion"; "jet"; "kilobyte"; "link"; "mesh"; "node"; "overdrive";
   "port"; "quad"; "ram"; "sync"; "turboflow"; "unit"; "volt"; "watt";
   "xenith"; "yaw"; "zone"; "alpha"; "beta"; "gamma"; "delta"; "epsilon";
   "zeta"; "eta"; "theta"; "iota"; "kappa"; "lambda"; "mu"; "nu";
   "xi"; "omicron"; "pi"; "rho"; "sigma"; "tau"; "upsilon"; "phi";
   "chi"; "psi"; "omegacore"; "antimatter"; "biome"; "chronos"; "darkmatter"; "exoplanet"]%string.

(** [n] and [maxVal], as unsigned 32-bit numbers. *)
Definition nwords : Z := zlen words.
Definition maxVal : Z := 256 - 256 `mod` nwords.

(** The rejection loop; [draws] are the bytes [rand.Read] will deliver. *)
Fixpoint redraw (draws : bytes) : option (Z * bytes) :=
  match draws with
  | [] => None
  | tb :: draws' => if Z_of_byte tb <? maxVal then Some (Z_of_byte tb, draws') else redraw draws'
  end.

Definition getUnbiasedWord (rawByte : byte) (draws : bytes) : option (bytes * bytes) :=
  '(val, draws) ← (if maxVal <=? Z_of_byte rawByte then redraw draws else Some (Z_of_byte rawByte, draws));
  Some (nth (Z.to_nat (val `mod` nwords)) words [], draws).

(** [b] is the buffer of twelve random bytes; [None] only if the further bytes
    run out. *)
Definition generateChannelCode (b draws : bytes) : option (bytes * bytes) :=
  '(w1, draws) ← getUnbiasedWord (nth 0 b x00) draws;
  '(w2, draws) ← getUnbiasedWord (nth 1 b x00) draws;
  '(w3, draws) ← getUnbiasedWord (nth 2 b x00) draws;
  '(w4, draws) ← getUnbiasedWord (nth 3 b x00) draws;
  '(w5, draws) ← getUnbiasedWord (nth 4 b x00) draws;
  let num := be_val (slice 5 9 b) `mod` 900000 + 100000 in
  Some (w1 ++ [DASH] ++ w2 ++ [DASH] ++ w3 ++ [DASH] ++ w4 ++ [DASH] ++ w5 ++ [DASH] ++ dec num, draws).

(** ** Log settings (pkg/logger) *)

Inductive log_format := FormatText | FormatJSON.
Inductive log_level := LevelDebug | LevelInfo | LevelWarn | LevelError.

Definition parseLevel (levelStr : bytes) : log_level :=
  let l := to_lower (trim_space levelStr) in
  if bool_decide (l = str "debug") then LevelDebug
  else if bool_decide (l ∈ [str "warn"; str "warning"]) then LevelWarn
  else if bool_decide (l = str "error") then LevelError
  else LevelInfo.

(** [discard]: the writer is [io.Discard] instead of standard error. *)
Record log_settings := mkLog { lg_format : log_format; lg_level : log_level; lg_discard : bool }.

Definition InitWithWriter (formatStr levelStr : bytes) (discard : bool) : log_settings :=
  mkLog (if bool_decide (to_lower (trim_space formatStr) = str "json") then FormatJSON else FormatText)
    (parseLevel levelStr) discard.

(** runPublish and runSubscribe: [quiet] overrides the level and drops the output. *)
Definition initLogger (quiet : bool) (formatStr levelStr : bytes) : log_settings :=
  if quiet then InitWithWriter formatStr (str "error") true else InitWithWriter formatStr levelStr false.

(** ** Commands *)

(** The environment variables, the network as the relay lookup sees it, and the
    random bytes of a generated code. *)
Record world := mkWorld {
  w_passphrase : bytes;                  (** ZEROFEED_PASSPHRASE *)
  w_relay : bytes;                       (** ZEROFEED_RELAY *)
  w_lookup : bytes -> option (list bytes);
  w_dial : bytes -> option unit;         (** the probe's TCP connection *)
  w_code : bytes;                        (** what [generateChannelCode] returns *)
  w_parseDuration : bytes -> option Z    (** [time.ParseDuration], in nanoseconds *)
}.

Inductive cli_error :=
  | CliFlag (e : flag_error) | CliNoCode | CliRelay (e : dial_error) | CliBadTTL
  | CliNoSubcommand | CliUnknown (name : bytes) | CliJoinUsage.

(** [r1] is --relay, [r2] is -r. *)
Definition resolveRelayAddr (w : world) (r1 r2 : bytes) : result cli_error bytes :=
  let raw := if bool_decide (r2 = []) then r1 else r2 in
  let raw := if bool_decide (raw = []) then w_relay w else raw in
  let relays := if bool_decide (raw = []) then ResolveDefaultRelays (w_lookup w) else ParseRelayList raw in
  match ProbeFirstAvailable (w_dial w) relays with
  | Ok addr => Ok addr
  | Err e => Err (CliRelay e)
  end.

Definition f_strings (names : list string) : flag_set := (fun n => (str n, FlagString)) <$> names.
Definition f_bools (names : list string) : flag_set := (fun n => (str n, FlagBool)) <$> names.

Definition publishFlags : flag_set :=
  f_strings ["passphrase"; "p"; "c"; "code"; "channel"; "relay"; "r"; "ttl"; "file"; "f"; "fingerprint";
             "rekey-bytes"; "rekey-time"; "log-format"; "log-level"]%string ++
  f_bools ["stream"; "s"; "quiet"; "q"; "quic"]%string.

Definition subscribeFlags : flag_set :=
  f_strings ["passphrase"; "p"; "c"; "code"; "channel"; "relay"; "r"; "fingerprint"; "log-format"; "log-level"]%string ++
  f_bools ["stream"; "s"; "quiet"; "q"; "quic"]%string.

Definition inviteFlags : flag_set :=
  f_strings ["passphrase"; "code"; "relay"; "r"]%string ++ f_bools ["quiet"; "q"]%string.

(** The five aliases of the code, in the order they are looked at. *)
Definition codeFlags (vs : flag_values) : list bytes :=
  (fun n => string_flag [str n] [] vs) <$> ["passphrase"; "p"; "c"; "code"; "channel"]%string.

(** What runPublish hands to the engine (main.go:185-264). *)
Record publish_config := mkPublishConfig {
  pc_code : bytes;
  pc_generated : bool;
  pc_relay : bytes;
  pc_file : bytes;
  pc_ttl : Z;
  pc_rekeyBytes : Z;
  pc_rekeyTime : Z;
  pc_fingerprint : bytes;
  pc_quic : bool;
  pc_stream : bool;
  pc_log : log_settings
}.

Definition publishConfig (w : world) (args : list bytes) : result cli_error publish_config :=
  match Parse publishFlags args with
  | Err e => Err (CliFlag e)
  | Ok (vs, _) =>
      let flag names d := string_flag (str <$> names) d vs in
      let passVal := parsePassphrase (codeFlags vs) (w_passphrase w) in
      let generated := bool_decide (passVal = []) in
      let passVal := if generated then w_code w else passVal in
      let? relayAddr := resolveRelayAddr w (flag ["relay"]%string []) (flag ["r"]%string []) in
      let f2 := flag ["f"]%string [] in
      let fileToSend := if bool_decide (f2 = []) then flag ["file"]%string [] else f2 in
      match w_parseDuration w (flag ["ttl"]%string (str "5m")) with
      | None => Err CliBadTTL
      | Some ttl =>
          Ok (mkPublishConfig passVal generated relayAddr fileToSend ttl
                (parseByteSize (flag ["rekey-bytes"]%string (str "1G")))
                (default 0 (w_parseDuration w (flag ["rekey-time"]%string (str "1h"))))
                (flag ["fingerprint"]%string [])
                (bool_flag [str "quic"] vs) (bool_flag [str "stream"; str "s"] vs)
                (initLogger (bool_flag [str "quiet"; str "q"] vs)
                   (flag ["log-format"]%string (str "text")) (flag ["log-level"]%string (str "info"))))
      end
  end.

(** What runSubscribe hands to the engine (main.go:385-465). *)
Record subscribe_config := mkSubscribeConfig {
  sc_code : bytes;
  sc_relay : bytes;
  sc_quic : bool;
  sc_fingerprint : bytes;
  sc_stream : bool;
  sc_log : log_settings
}.

Definition subscribeConfig (w : world) (args : list bytes) : result cli_error subscribe_config :=
  match Parse subscribeFlags args with
  | Err e => Err (CliFlag e)
  | Ok (vs, rest) =>
      let flag names d := string_flag (str <$> names) d vs in
      let passVal := parsePassphrase (codeFlags vs) (w_passphrase w) in
      let passVal := if bool_decide (passVal = []) then match rest with a :: _ => a | [] => [] end else passVal in
      if bool_decide (passVal = []) then Err CliNoCode
      else
        let r1 := flag ["relay"]%string [] in
        let r2 := flag ["r"]%string [] in
        let quic := bool_flag [str "quic"] vs in
        let fingerprint := flag ["fingerprint"]%string [] in
        let finish code relayAddr quic fingerprint :=
          Ok (mkSubscribeConfig code relayAddr quic fingerprint (bool_flag [str "stream"; str "s"] vs)
                (initLogger (bool_flag [str "quiet"; str "q"] vs)
                   (flag ["log-format"]%string (str "text")) (flag ["log-level"]%string (str "info")))) in
        match ParseInvite passVal with
        | Ok inv =>
            let? relayAddr :=
              if negb (bool_decide (RelayAddr inv = [])) && bool_decide (r1 = []) && bool_decide (r2 = [])
              then Ok (RelayAddr inv) else resolveRelayAddr w r1 r2 in
            finish (Code inv) relayAddr (bool_decide (TransportMode inv = str "quic") || quic)
              (if bool_decide (fingerprint = []) then SPKIFingerprint inv else fingerprint)
        | Err _ => let? relayAddr := resolveRelayAddr w r1 r2 in finish passVal relayAddr quic fingerprint
        end
  end.

(** runInvite (main.go:662-701): what is printed, to standard output when quiet. *)
Definition inviteOutput (w : world) (args : list bytes) : result cli_error (bool * bytes) :=
  match Parse inviteFlags args with
  | Err e => Err (CliFlag e)
  | Ok (vs, rest) =>
      let flag n := string_flag [str n] [] vs in
      let passVal := parsePassphrase [flag "passphrase"%string; flag "code"%string] (w_passphrase w) in
      let passVal := if bool_decide (passVal = []) then match rest with a :: _ => a | [] => [] end else passVal in
      let passVal := if bool_decide (passVal = []) then w_code w else passVal in
      let relayAddr := flag "relay"%string in
      let relayAddr := if bool_decide (relayAddr = []) then flag "r"%string else relayAddr in
      let relayAddr := if bool_decide (relayAddr = []) then w_relay w else relayAddr in
      let relayAddr := if bool_decide (relayAddr = []) then DefaultRelayDNS ++ [COLON] ++ DefaultRelayPort else relayAddr in
      let inv := GenerateInvite passVal relayAddr in
      Ok (if bool_flag [str "quiet"; str "q"] vs then (true, ToURI inv ++ [NL]) else (false, FormatBanner inv ++ [NL]))
  end.

(** The addresses runRelay listens on (main.go:526-551); [None] when the port
    is not positive. *)
Definition relayListen (port wsPort metricsPort : Z) (metricsAddr : bytes) : bytes * option bytes * option bytes :=
  let mAddr := if bool_decide (metricsAddr = []) && (0 <? metricsPort) then str "0.0.0.0:" ++ fmt_d metricsPort else metricsAddr in
  (str "0.0.0.0:" ++ fmt_d port,
   if 0 <? wsPort then Some (str "0.0.0.0:" ++ fmt_d wsPort) else None,
   if bool_decide (mAddr = []) then None else Some mAddr).

Definition relayFlags : flag_set :=
  ((fun n => (str n, FlagInt)) <$> ["port"; "p"; "ws-port"; "metrics-port"]%string) ++
  f_strings ["ws-cert"; "ws-key"; "metrics-addr"; "log-format"; "log-level"]%string ++
  f_bools ["quic"; "no-rate-limit"; "trust-proxy"]%string.

(** What runRelay starts (main.go:505-559). *)
Record relay_config := mkRelayConfig {
  rc_listen : bytes;
  rc_ws : option (bytes * option (bytes * bytes));   (** the address, with certificate and key for TLS *)
  rc_metrics : option bytes;
  rc_rateLimit : bool;
  rc_trustProxy : bool;
  rc_quic : bool;
  rc_log : log_settings
}.

Definition relayConfig (args : list bytes) : result cli_error relay_config :=
  match Parse relayFlags args with
  | Err e => Err (CliFlag e)
  | Ok (vs, _) =>
      let flag n d := string_flag [str n] d vs in
      let '(listen, ws, metrics) :=
        relayListen (int_flag [str "port"; str "p"] 8443 vs) (int_flag [str "ws-port"] 8444 vs)
          (int_flag [str "metrics-port"] 0 vs) (flag "metrics-addr"%string []) in
      let cert := flag "ws-cert"%string [] in
      let key := flag "ws-key"%string [] in
      let tls := if negb (bool_decide (cert = [])) && negb (bool_decide (key = [])) then Some (cert, key) else None in
      Ok (mkRelayConfig listen ((fun addr => (addr, tls)) <$> ws) metrics
            (negb (bool_flag [str "no-rate-limit"] vs)) (bool_flag [str "trust-proxy"] vs) (bool_flag [str "quic"] vs)
            (initLogger false (flag "log-format"%string (str "text")) (flag "log-level"%string (str "info"))))
  end.

Example ParseInt_forms :
  ParseInt <$> [str "8443"; str "0"; str "-17"; str "0x1F"; str "0b101"; str "017"; str "1_000"; str "0x_1"] =
  [Some 8443; Some 0; Some (-17); Some 31; Some 5; Some 15; Some 1000; Some 1].
Proof. vm_compute. reflexivity. Qed.
Example ParseInt_errors :
  ParseInt <$> [str ""; str "12a"; str "_1"; str "1__0"; str "09"; str "9223372036854775808"] =
  [None; None; None; None; None; None].
Proof. vm_compute. reflexivity. Qed.

(** runMain: which command runs, with its arguments ([os.Args] after the program). *)
Inductive command :=
  | RunPublish (args : list bytes) | RunSubscribe (args : list bytes) | RunInvite (args : list bytes)
  | RunRelay (args : list bytes) | RunGen | RunVersion | RunHelp.

Definition runJoin (args : list bytes) : result cli_error command :=
  match args with [] => Err CliJoinUsage | _ => Ok (RunSubscribe args) end.

Definition runMain (args : list bytes) : result cli_error command :=
  match args with
  | [] => Err CliNoSubcommand
  | sub :: args =>
      let among names := bool_decide (sub ∈ str <$> names) in
      if among ["publish"; "pub"]%string then Ok (RunPublish args)
      else if among ["subscribe"; "sub"]%string then Ok (RunSubscribe args)
      else if among ["invite"]%string then Ok (RunInvite args)
      else if among ["join"]%string then runJoin args
      else if among ["relay"]%string then Ok (RunRelay args)
      else if among ["gen"; "generate"]%string then Ok RunGen
      else if among ["version"; "-v"; "--version"]%string then Ok RunVersion
      else if among ["help"; "-h"; "--help"]%string then Ok RunHelp
      else Err (CliUnknown sub)
  end.

(** ** Standard input (main.go:322-363) *)

Inductive stdin_action := SendThisFile (path : bytes) | Message (payload : bytes).

(** A line typed at a terminal; the part after the first blank is the path. *)
Definition stdinLine (line : bytes) : stdin_action :=
  if has_prefix (str "/send ") line || has_prefix (str "/file ") line
  then SendThisFile (trim_space (drop 6 line))
  else Message ([TagText] ++ line ++ [NL]).

(** ** Standard output *)

(** [wipingWriter.Write]: [written] and [err] are the outcome of the underlying
    write ([Some true] for a broken pipe); the buffer is scrubbed either way. *)
Inductive write_error := WriteEOF | WriteOther.

Definition wipingWrite (p : Slice) (n : nat) (err : option bool) (m : Mem) : (nat * option write_error) * Mem :=
  ((n, match err with Some true => Some WriteEOF | Some false => Some WriteOther | None => None end), ZeroBytes p m).

(** ** Facts *)

(** Parsing stops at an argument that does not start with a dash. *)
Lemma Parse_positional fs a rest : has_prefix [DASH] a = false -> Parse fs (a :: rest) = Ok ([], a :: rest).
Proof.
  intros H. unfold Parse. cbn [length parse_flags]. destruct a as [|d a]; [done|].
  assert (eqb d DASH = false) as ->; [|done].
  unfold has_prefix in H. apply bool_decide_eq_false in H. apply bool_decide_eq_false. intros ->. by apply H.
Qed.

(** Reading a printed number. *)
Lemma uint_digits_app base acc l1 l2 :
  uint_digits base acc (l1 ++ l2) = uint_digits base acc l1 ≫= fun a => uint_digits base a l2.
Proof.
  revert acc. induction l1 as [|b l1 IH]; intros acc; [done|]. cbn [app uint_digits].
  destruct (eqb b UNDERSCORE); [apply IH|]. destruct (digit_value b) as [d|]; [|done]. by destruct (d <? base).
Qed.

Lemma printed_digit d : 0 <= d < 10 -> digit_value (digit d) = Some d /\ eqb (digit d) UNDERSCORE = false /\
  digit d <> DASH /\ digit d <> x2b /\ (0 < d -> digit d <> x30).
Proof.
  intros Hd. assert (In d [0; 1; 2; 3; 4; 5; 6; 7; 8; 9]) as Hin by (cbn; lia).
  cbn in Hin. repeat (destruct Hin as [<-|Hin]; [vm_compute; split_and!; congruence|]). done.
Qed.

Lemma uint_digits_dec fuel n : 0 <= n < 10 ^ Z.of_nat fuel -> uint_digits 10 0 (dec_digits fuel n) = Some n.
Proof.
  revert n. induction fuel as [|fuel IH]; intros n Hn; [cbn in *; f_equal; lia|].
  cbn [dec_digits]. rewrite uint_digits_app. pose proof (Z.mod_pos_bound n 10 ltac:(lia)) as Hm.
  assert (E : uint_digits 10 0 (if n <? 10 then [] else dec_digits fuel (n `div` 10)) = Some (n `div` 10)).
  { destruct (Z.ltb_spec n 10); [cbn; f_equal; rewrite Z.div_small; lia|]. apply IH.
    split; [apply Z.div_pos; lia|]. apply Z.div_lt_upper_bound; [lia|]. rewrite Nat2Z.inj_succ, Z.pow_succ_r in Hn; lia. }
  rewrite E. cbn [mbind option_bind uint_digits]. destruct (printed_digit (n `mod` 10) Hm) as (-> & -> & _).
  destruct (Z.ltb_spec (n `mod` 10) 10); [|lia]. f_equal. pose proof (Z.div_mod n 10). lia.
Qed.

Lemma dec_head fuel n :
  0 <= n < 10 ^ Z.of_nat (S fuel) -> exists d l, dec_digits (S fuel) n = digit d :: l /\ 0 <= d < 10 /\ (0 < n -> 0 < d) /\ (n = 0 -> l = []).
Proof.
  revert n. induction fuel as [|fuel IH]; intros n Hn; cbn [dec_digits]; pose proof (Z.mod_pos_bound n 10 ltac:(lia)).
  { exists (n `mod` 10), []. destruct (n <? 10); (split; [done|]; split; [lia|]; split; [|done]); intros;
      change (10 ^ Z.of_nat 1) with 10 in Hn; rewrite Z.mod_small; lia. }
  destruct (Z.ltb_spec n 10).
  { exists (n `mod` 10), []. rewrite Z.mod_small by lia. split; [done|]. split; [lia|]. done. }
  destruct (IH (n `div` 10)) as (d & l & E & Hd & Hpos & _).
  { split; [apply Z.div_pos; lia|]. apply Z.div_lt_upper_bound; [lia|]. rewrite (Nat2Z.inj_succ (S fuel)), Z.pow_succ_r in Hn; lia. }
  exists d, (l ++ [digit (n `mod` 10)]). cbn [dec_digits] in E. rewrite E. split; [done|]. split; [done|].
  split; [|lia]. intros _. apply Hpos. apply Z.div_str_pos. lia.
Qed.

Lemma ParseInt_dec n : 0 <= n < 2 ^ 63 -> ParseInt (dec n) = Some n.
Proof.
  intros Hn. destruct (dec_head 19 n ltac:(lia)) as (d & l & E & Hd & Hpos & Hz). change (dec_digits 20 n) with (dec n) in E.
  destruct (printed_digit d Hd) as (Hv & Hu & Hdash & Hplus & Hzero).
  assert (Hns : contains_byte UNDERSCORE (dec n) = false).
  { apply bool_decide_eq_false. intros Hin. apply (dec_digits_only 20) in Hin; [|lia]. destruct Hin as [_ Hin]. by apply Hin. }
  assert (HU : ParseUint (dec n) = Some n).
  { destruct (Z.eq_dec n 0) as [->|Hne]; [reflexivity|]. unfold ParseUint.
    assert (Eb : split_base (dec n) = (10, dec n)).
    { rewrite E. specialize (Hzero (Hpos ltac:(lia))). unfold split_base. by destruct (digit d). }
    rewrite Eb, Hns. rewrite E at 1. pose proof (uint_digits_dec 20 n ltac:(lia)) as Eu.
    change (dec_digits 20 n) with (dec n) in Eu. rewrite Eu. cbn [mbind option_bind negb orb].
    by rewrite andb_true_r, (proj2 (Z.ltb_lt n (2 ^ 64))) by lia. }
  assert (Hp : forall b, digit d <> b -> has_prefix [b] (dec n) = false).
  { intros b Hb. rewrite E. unfold has_prefix. cbn. apply bool_decide_eq_false. congruence. }
  unfold ParseInt. rewrite !Hp by done. cbn [orb]. rewrite HU. cbn [mbind option_bind].
  by rewrite (proj2 (Z.ltb_lt n (2 ^ 63))) by lia.
Qed.

Lemma trim_suffix_app p s : trim_suffix p (s ++ p) = s.
Proof.
  unfold trim_suffix, has_suffix. rewrite length_app, Nat.add_sub, drop_app_length, bool_decide_true by done.
  rewrite (proj2 (Nat.leb_le _ _)) by lia. cbn [andb]. apply take_app_length.
Qed.

Lemma has_suffix_app p s : has_suffix p (s ++ p) = true.
Proof.
  unfold has_suffix. rewrite length_app, Nat.add_sub, drop_app_length, bool_decide_true by done.
  rewrite (proj2 (Nat.leb_le _ _)) by lia. done.
Qed.

(** The last byte decides a suffix. *)
Lemma has_suffix_last p s b c : b <> c -> has_suffix (p ++ [b]) (s ++ [c]) = false.
Proof.
  intros H. unfold has_suffix. destruct (Nat.leb_spec (length (p ++ [b])) (length (s ++ [c]))) as [Hl|]; [|done].
  cbn [andb]. apply bool_decide_eq_false. intros E. apply (f_equal last) in E.
  rewrite last_snoc in E. rewrite !length_app in *. cbn [length] in *.
  rewrite drop_app_le, last_snoc in E by lia. congruence.
Qed.

(** Text whose bytes are digits. *)
Abbreviation number s := (forall b : byte, b ∈ (s : bytes) -> is_digit b = true).

Lemma dec_number n : 0 <= n -> number (dec n).
Proof. intros Hn b Hb. apply dec_digits_only in Hb; [|done]. unfold is_digit. zcase; lia || done. Qed.

Lemma dec_nonempty n : dec n <> [].
Proof. unfold dec. cbn [dec_digits]. intros E%(f_equal length). rewrite length_app in E. cbn in E. lia. Qed.

Lemma digits_number s r : number s -> digits (s ++ r) = s ++ digits r.
Proof.
  induction s as [|b s IH]; intros H; [done|]. cbn [app digits]. rewrite H by apply list_elem_of_here.
  rewrite IH; [done|]. intros c Hc. by apply H, list_elem_of_further.
Qed.

Lemma digit_facts b : is_digit b = true -> is_space b = false /\ upper b = b /\ b <> x47 /\ b <> x4d /\ b <> x4b /\ b <> x42.
Proof. destruct b; vm_compute; try discriminate; done. Qed.

Lemma upper_number s : number s -> to_upper s = s.
Proof.
  induction s as [|b s IH]; intros H; [done|]. unfold to_upper in *. cbn [fmap list_fmap]. f_equal.
  - apply digit_facts, H, list_elem_of_here.
  - apply IH. intros c Hc. by apply H, list_elem_of_further.
Qed.

Lemma trim_number s : number s -> trim_left s = s.
Proof.
  destruct s as [|b s]; intros H; [done|]. cbn [trim_left].
  by destruct (digit_facts b (H b (list_elem_of_here _ _))) as [-> _].
Qed.

Lemma sscanf_dec n r : 0 <= n < 2 ^ 64 -> digits r = [] -> sscanf_uint (dec n ++ r) = n.
Proof.
  intros Hn Hr. unfold sscanf_uint.
  assert (trim_left (dec n ++ r) = dec n ++ r) as ->.
  { pose proof (dec_number n ltac:(lia)) as Hd. pose proof (dec_nonempty n). destruct (dec n) as [|b l]; [done|].
    cbn [app trim_left]. by destruct (digit_facts b (Hd b (list_elem_of_here _ _))) as [-> _]. }
  rewrite digits_number by (apply dec_number; lia). rewrite Hr, app_nil_r, dec_dec_val by done.
  rewrite (proj2 (Z.ltb_lt _ _)) by lia. done.
Qed.

(** The units, as they are written after upper-casing. *)
Definition units : list (bytes * Z) :=
  [([], 1); (str "K", 1024); (str "KB", 1024); (str "M", 1024 * 1024); (str "MB", 1024 * 1024);
   (str "G", 1024 * 1024 * 1024); (str "GB", 1024 * 1024 * 1024)].

Lemma number_suffix p s b : number s -> s <> [] -> is_digit b = false -> has_suffix (p ++ [b]) s = false.
Proof.
  intros H Hne Hb. destruct (exists_last Hne) as (s' & c & ->). apply has_suffix_last. intros ->.
  rewrite H in Hb; [done|]. apply elem_of_app. right. apply list_elem_of_here.
Qed.

Lemma has_suffix_long p s u : (length p <= length u)%nat -> has_suffix p (s ++ u) = has_suffix p u.
Proof.
  intros H. unfold has_suffix. rewrite length_app, drop_app_ge by lia.
  replace (length s + length u - length p - length s)%nat with (length u - length p)%nat by lia.
  rewrite !(proj2 (Nat.leb_le _ _)) by lia. done.
Qed.

Lemma parseByteSize_upper s : trim_space (to_upper s) = s -> s <> [] -> s <> str "0" ->
  parseByteSize s =
    let '(mult, s) :=
      if has_suffix (str "G") s || has_suffix (str "GB") s
      then (1024 * 1024 * 1024, trim_suffix (str "G") (trim_suffix (str "GB") s))
      else if has_suffix (str "M") s || has_suffix (str "MB") s
      then (1024 * 1024, trim_suffix (str "M") (trim_suffix (str "MB") s))
      else if has_suffix (str "K") s || has_suffix (str "KB") s
      then (1024, trim_suffix (str "K") (trim_suffix (str "KB") s))
      else (1, s) in
    wrap 64 (sscanf_uint s * mult).
Proof. intros Hs H1 H2. unfold parseByteSize. rewrite Hs, !bool_decide_false by done. done. Qed.

Lemma trim_suffix_none p s : has_suffix p s = false -> trim_suffix p s = s.
Proof. unfold trim_suffix. by intros ->. Qed.

(** A number and a unit denote the number times the unit. *)
Lemma parseByteSize_unit d u mult :
  number d -> d <> [] -> (u, mult) ∈ units -> d ++ u <> str "0" ->
  parseByteSize (d ++ u) = wrap 64 (sscanf_uint d * mult).
Proof.
  intros Hd Hne Hu H0.
  assert (Hsfx : forall p b, is_digit b = false -> has_suffix (p ++ [b]) d = false) by (intros; by apply number_suffix).
  assert (Hup : trim_space (to_upper (d ++ u)) = d ++ u).
  { unfold to_upper. rewrite fmap_app. change (upper <$> d) with (to_upper d). rewrite upper_number by done.
    assert (upper <$> u = u /\ all (fun b => negb (is_space b)) u) as [-> Hus].
    { repeat (apply elem_of_cons in Hu as [[= -> ->]|Hu]; [split; [done|by apply all_forallb]|]). by apply elem_of_nil in Hu. }
    apply trim_space_id. intros b [Hb|Hb]%elem_of_app; [|by apply Hus]. by destruct (digit_facts b (Hd b Hb)) as [-> _]. }
  rewrite parseByteSize_upper by (done || by destruct d).
  pose proof (Hsfx [] x47 eq_refl) as SG. pose proof (Hsfx [x47] x42 eq_refl) as SGB.
  pose proof (Hsfx [] x4d eq_refl) as SM. pose proof (Hsfx [x4d] x42 eq_refl) as SMB.
  pose proof (Hsfx [] x4b eq_refl) as SK. pose proof (Hsfx [x4b] x42 eq_refl) as SKB. cbn [app] in *.
  change (str "G") with [x47]. change (str "GB") with [x47; x42]. change (str "M") with [x4d].
  change (str "MB") with [x4d; x42]. change (str "K") with [x4b]. change (str "KB") with [x4b; x42].
  assert (Hlong : forall p b c, b <> c -> has_suffix (p ++ [b]) (d ++ [c]) = false) by (intros; by apply has_suffix_last).
  pose proof (Hlong [x47] x42 x4b ltac:(done)) as LGK. pose proof (Hlong [x4d] x42 x4b ltac:(done)) as LMK.
  pose proof (Hlong [x4b] x42 x4b ltac:(done)) as LKK. pose proof (Hlong [x47] x42 x4d ltac:(done)) as LGM.
  pose proof (Hlong [x4d] x42 x4d ltac:(done)) as LMM. pose proof (Hlong [x47] x42 x47 ltac:(done)) as LGG.
  pose proof (fun p u => has_suffix_long p d u) as Hl. cbn [app] in *.
  assert (Hcases : u = [] /\ mult = 1 \/ u = [x4b] /\ mult = 1024 \/ u = [x4b; x42] /\ mult = 1024 \/
    u = [x4d] /\ mult = 1024 * 1024 \/ u = [x4d; x42] /\ mult = 1024 * 1024 \/
    u = [x47] /\ mult = 1024 * 1024 * 1024 \/ u = [x47; x42] /\ mult = 1024 * 1024 * 1024).
  { repeat (apply elem_of_cons in Hu as [[= -> ->]|Hu]; [tauto|]). by apply elem_of_nil in Hu. }
  clear Hu Hup H0.
  destruct Hcases as [[-> ->]|[[-> ->]|[[-> ->]|[[-> ->]|[[-> ->]|[[-> ->]|[-> ->]]]]]]].
  - rewrite app_nil_r, SG, SGB, SM, SMB, SK, SKB. done.
  - rewrite (Hl [x47]), LGK, (Hl [x4d]), LMK, (Hl [x4b]) by (cbn; lia). cbn [orb].
    change (has_suffix [x47] [x4b]) with false. change (has_suffix [x4d] [x4b]) with false.
    change (has_suffix [x4b] [x4b]) with true. cbn [orb].
    by rewrite (trim_suffix_none [x4b; x42]), (trim_suffix_app [x4b]).
  - rewrite (Hl [x47]), (Hl [x47; x42]), (Hl [x4d]), (Hl [x4d; x42]), (Hl [x4b]), (Hl [x4b; x42]) by (cbn; lia).
    change (has_suffix [x47] [x4b; x42] || has_suffix [x47; x42] [x4b; x42]) with false.
    change (has_suffix [x4d] [x4b; x42] || has_suffix [x4d; x42] [x4b; x42]) with false.
    change (has_suffix [x4b] [x4b; x42] || has_suffix [x4b; x42] [x4b; x42]) with true.
    by rewrite (trim_suffix_app [x4b; x42]), trim_suffix_none.
  - rewrite (Hl [x47]), LGM, (Hl [x4d]) by (cbn; lia). cbn [orb].
    change (has_suffix [x47] [x4d]) with false. change (has_suffix [x4d] [x4d]) with true. cbn [orb].
    by rewrite (trim_suffix_none [x4d; x42]), (trim_suffix_app [x4d]).
  - rewrite (Hl [x47]), (Hl [x47; x42]), (Hl [x4d]), (Hl [x4d; x42]) by (cbn; lia).
    change (has_suffix [x47] [x4d; x42] || has_suffix [x47; x42] [x4d; x42]) with false.
    change (has_suffix [x4d] [x4d; x42] || has_suffix [x4d; x42] [x4d; x42]) with true.
    by rewrite (trim_suffix_app [x4d; x42]), trim_suffix_none.
  - rewrite (Hl [x47]) by (cbn; lia). change (has_suffix [x47] [x47]) with true. cbn [orb].
    by rewrite (trim_suffix_none [x47; x42]), (trim_suffix_app [x47]).
  - rewrite (Hl [x47]), (Hl [x47; x42]) by (cbn; lia).
    change (has_suffix [x47] [x47; x42] || has_suffix [x47; x42] [x47; x42]) with true.
    by rewrite (trim_suffix_app [x47; x42]), trim_suffix_none.
Qed.

Lemma runes_nil s : length (runes s) = 0%nat <-> s = [].
Proof. unfold runes. destruct s as [|b s]; [done|]. cbn [length runes_fuel]. by destruct (rune_width (b :: s)). Qed.

(** ** Generated codes *)

(** The code with index [i]: five words in base 232 and the number. *)
Definition code_of (i : Z) : bytes :=
  let w k := nth (Z.to_nat (((i `div` 900000) `div` nwords ^ k) `mod` nwords)) words [] in
  w 0 ++ [DASH] ++ w 1 ++ [DASH] ++ w 2 ++ [DASH] ++ w 3 ++ [DASH] ++ w 4 ++ [DASH] ++ dec (i `mod` 900000 + 100000).

Lemma nwords_val : nwords = 232.
Proof. reflexivity. Qed.
Lemma maxVal_val : maxVal = 232.
Proof. reflexivity. Qed.

Lemma redraw_spec draws v draws' : redraw draws = Some (v, draws') -> 0 <= v < nwords.
Proof.
  rewrite nwords_val. induction draws as [|tb draws IH]; [done|]. cbn [redraw]. rewrite maxVal_val. pose proof (Z_of_byte_range tb).
  destruct (Z.ltb_spec (Z_of_byte tb) 232); [|done]. intros [= <- <-]. lia.
Qed.

Lemma getUnbiasedWord_spec raw draws w draws' :
  getUnbiasedWord raw draws = Some (w, draws') -> exists v, 0 <= v < nwords /\ w = nth (Z.to_nat v) words [].
Proof.
  unfold getUnbiasedWord.
  destruct (maxVal <=? Z_of_byte raw) eqn:E.
  - destruct (redraw draws) as [[v d]|] eqn:Er; [|done]. cbn [mbind option_bind]. intros [= <- <-].
    exists v. pose proof (redraw_spec _ _ _ Er). split; [done|]. by rewrite Z.mod_small.
  - cbn [mbind option_bind]. intros [= <- <-]. apply Z.leb_gt in E. rewrite maxVal_val in E. rewrite nwords_val.
    pose proof (Z_of_byte_range raw). exists (Z_of_byte raw). split; [lia|]. by rewrite Z.mod_small by lia.
Qed.

Lemma code_of_words v1 v2 v3 v4 v5 m :
  0 <= v1 < 232 -> 0 <= v2 < 232 -> 0 <= v3 < 232 -> 0 <= v4 < 232 -> 0 <= v5 < 232 -> 0 <= m < 900000 ->
  let w v := nth (Z.to_nat v) words [] in
  code_of ((v1 + 232 * (v2 + 232 * (v3 + 232 * (v4 + 232 * v5)))) * 900000 + m) =
    w v1 ++ [DASH] ++ w v2 ++ [DASH] ++ w v3 ++ [DASH] ++ w v4 ++ [DASH] ++ w v5 ++ [DASH] ++ dec (m + 100000).
Proof.
  intros H1 H2 H3 H4 H5 Hm w. unfold code_of. rewrite nwords_val.
  set (q := v1 + 232 * _).
  assert ((q * 900000 + m) `div` 900000 = q) as ->
    by (rewrite Z.div_add_l by lia; rewrite (Z.div_small m) by lia; lia).
  assert ((q * 900000 + m) `mod` 900000 = m) as ->
    by (rewrite Z.add_comm, Z.mod_add by lia; apply Z.mod_small; lia).
  assert ((q `div` 232 ^ 0) `mod` 232 = v1 /\ (q `div` 232 ^ 1) `mod` 232 = v2 /\ (q `div` 232 ^ 2) `mod` 232 = v3 /\
    (q `div` 232 ^ 3) `mod` 232 = v4 /\ (q `div` 232 ^ 4) `mod` 232 = v5) as (-> & -> & -> & -> & ->); [|done].
  unfold q. clear - H1 H2 H3 H4 H5.
  change (232 ^ 0) with 1. change (232 ^ 1) with 232. change (232 ^ 2) with 53824. change (232 ^ 3) with 12487168.
  change (232 ^ 4) with 2897022976.
  split_and!; Z.to_euclidean_division_equations; lia.
Qed.

Lemma redraw_total draws : (exists tb, tb ∈ draws /\ Z_of_byte tb < maxVal) -> redraw draws <> None.
Proof.
  intros (tb & Hin & Hv). induction draws as [|b draws IH]; [by apply elem_of_nil in Hin|]. cbn [redraw].
  destruct (Z.ltb_spec (Z_of_byte b) maxVal); [done|]. apply elem_of_cons in Hin as [->|Hin]; [lia|by apply IH].
Qed.

(** * Properties *)

(** Generated channel codes.  Every code the program can generate is one of
    the 232^5 * 900000 codes [code_of], fewer than 2^60; each byte accepted for a
    word stands for a different word and no word is excluded, so words are drawn
    without bias; and a code is produced as soon as the random bytes contain an
    acceptable one whenever one is needed (here: when no first draw needs to be
    repeated, at once). *)
Theorem channel_code_space b draws :
  (forall code rest, generateChannelCode b draws = Some (code, rest) ->
     exists i, 0 <= i < 232 ^ 5 * 900000 /\ 232 ^ 5 * 900000 < 2 ^ 60 /\ code = code_of i) /\
  NoDup words /\ maxVal = nwords /\
  (Forall (fun raw => Z_of_byte raw < maxVal) (take 5 b) -> length b = 12%nat -> generateChannelCode b draws <> None) /\
  (forall raw, (exists tb, tb ∈ draws /\ Z_of_byte tb < maxVal) -> getUnbiasedWord raw draws <> None).
Proof.
  split_and!.
  - intros code rest. unfold generateChannelCode.
    destruct (getUnbiasedWord (nth 0 b x00) draws) as [[w1 d1]|] eqn:E1; [|done]. cbn [mbind option_bind].
    destruct (getUnbiasedWord (nth 1 b x00) d1) as [[w2 d2]|] eqn:E2; [|done]. cbn [mbind option_bind].
    destruct (getUnbiasedWord (nth 2 b x00) d2) as [[w3 d3]|] eqn:E3; [|done]. cbn [mbind option_bind].
    destruct (getUnbiasedWord (nth 3 b x00) d3) as [[w4 d4]|] eqn:E4; [|done]. cbn [mbind option_bind].
    destruct (getUnbiasedWord (nth 4 b x00) d4) as [[w5 d5]|] eqn:E5; [|done]. cbn [mbind option_bind].
    intros [= <- <-].
    apply getUnbiasedWord_spec in E1 as (v1 & H1 & ->), E2 as (v2 & H2 & ->), E3 as (v3 & H3 & ->),
      E4 as (v4 & H4 & ->), E5 as (v5 & H5 & ->). rewrite nwords_val in *.
    pose proof (Z.mod_pos_bound (be_val (slice 5 9 b)) 900000 ltac:(lia)) as Hm.
    exists ((v1 + 232 * (v2 + 232 * (v3 + 232 * (v4 + 232 * v5)))) * 900000 + be_val (slice 5 9 b) `mod` 900000).
    split; [|split; [done|by rewrite code_of_words]]. change (232 ^ 5) with 672109330432. nia.
  - apply (bool_decide_unpack _). vm_compute. exact I.
  - done.
  - intros Hf Hl. explode_all 12 b. cbn [take] in Hf. rewrite !Forall_cons in Hf.
    destruct Hf as (H1 & H2 & H3 & H4 & H5 & _). unfold generateChannelCode. cbn [nth].
    unfold getUnbiasedWord. rewrite !(proj2 (Z.leb_gt _ _)) by done. done.
  - intros raw Hd. unfold getUnbiasedWord. destruct (maxVal <=? Z_of_byte raw); [|done].
    pose proof (redraw_total draws Hd). by destruct (redraw draws) as [[v d]|].
Qed.

(** Byte sizes.  A decimal number below 2^64 with one of the units (none, K,
    KB, M, MB, G, GB) denotes the number times the unit modulo 2^64: sizes of
    2^64 bytes and more wrap around, so that a large enough threshold becomes
    zero, which switches ratcheting by volume off; and text that starts with no
    digit means zero as well. *)
Theorem parseByteSize_spec n u mult :
  0 <= n < 2 ^ 64 -> (u, mult) ∈ units ->
  parseByteSize (dec n ++ u) = wrap 64 (n * mult) /\
  (n * mult < 2 ^ 64 -> parseByteSize (dec n ++ u) = n * mult) /\
  parseByteSize (str "17179869184G") = 0 /\ parseByteSize (str "lots") = 0.
Proof.
  intros Hn Hu.
  assert (E : parseByteSize (dec n ++ u) = wrap 64 (n * mult)).
  { destruct (decide (dec n ++ u = str "0")) as [E0|E0].
    - assert (u = [] /\ mult = 1 /\ n = 0) as (-> & -> & ->); [|done].
      pose proof (f_equal length E0) as El. rewrite length_app in El. change (length (str "0")) with 1%nat in El.
      pose proof (dec_nonempty n) as Hne. destruct u as [|b u]; [|destruct (dec n); [done|cbn in El; lia]].
      rewrite app_nil_r in E0. split; [done|]. split.
      { repeat (apply elem_of_cons in Hu as [Hu|Hu]; [by injection Hu|]). by apply elem_of_nil in Hu. }
      rewrite <- (dec_dec_val n Hn), E0. done.
    - rewrite (parseByteSize_unit (dec n) u mult); [|apply dec_number; lia|apply dec_nonempty|done|done].
      rewrite <- (app_nil_r (dec n)) at 1. by rewrite sscanf_dec. }
  split_and!; [done| |by vm_compute|by vm_compute]. intros Hlt. rewrite E. apply Z.mod_small. split; [|done].
  assert (0 <= mult); [|nia].
  repeat (apply elem_of_cons in Hu as [[= -> ->]|Hu]; [done|]). by apply elem_of_nil in Hu.
Qed.

Lemma parseByteSize_spec_witness :
  parseByteSize (dec 500 ++ str "M") = wrap 64 (500 * (1024 * 1024)) /\
  (500 * (1024 * 1024) < 2 ^ 64 -> parseByteSize (dec 500 ++ str "M") = 500 * (1024 * 1024)) /\
  parseByteSize (str "17179869184G") = 0 /\ parseByteSize (str "lots") = 0.
Proof.
  apply (parseByteSize_spec 500 (str "M") (1024 * 1024)); [lia|]. do 3 apply list_elem_of_further. apply list_elem_of_here.
Defined.

(** A masked secret shows nothing but its length in characters and, when it
    has more than four, its first two and last two: two secrets that agree on
    these are displayed alike, and a secret of at most four characters is shown
    as stars only. *)
Theorem maskSecret_hides s1 s2 :
  length (runes s1) = length (runes s2) ->
  ((4 < length (runes s1))%nat -> take 2 (runes s1) = take 2 (runes s2) /\
     drop (length (runes s1) - 2) (runes s1) = drop (length (runes s2) - 2) (runes s2)) ->
  maskSecret s1 = maskSecret s2.
Proof.
  intros Hl He. unfold maskSecret. rewrite (bool_decide_ext (s1 = []) (s2 = [])) by (by rewrite <- !runes_nil, Hl).
  case_bool_decide; [done|]. rewrite <- Hl in *. destruct (Nat.leb_spec (length (runes s1)) 4); [done|].
  by destruct He as [-> ->].
Qed.

Lemma maskSecret_hides_witness :
  maskSecret (str "quantum-shield-123456") = maskSecret (str "quaking-shiver-999956") /\
  maskSecret (str "abcdef") = str "ab**ef".
Proof.
  split; [|vm_compute; reflexivity]. apply (maskSecret_hides (str "quantum-shield-123456") (str "quaking-shiver-999956")).
  - vm_compute. reflexivity.
  - intros _. vm_compute. done.
Defined.

(** C36: Following an invitation.  [zerofeed join] with an invitation's URI or
    its link subscribes with exactly the code, relay, transport and pinned
    fingerprint of the invitation, without probing any relay, when the invitation
    names a relay and ZEROFEED_PASSPHRASE is unset; a passphrase in the
    environment takes precedence over the invitation. *)
Theorem join_follows_invite w i text :
  invite_ok i -> RelayAddr i <> [] -> text = ToURI i \/ text = ToWebURL i ->
  runMain [str "join"; text] = Ok (RunSubscribe [text]) /\
  (w_passphrase w = [] ->
   subscribeConfig w [text] = Ok (mkSubscribeConfig (Code i) (RelayAddr i) (bool_decide (TransportMode i = str "quic"))
     (SPKIFingerprint i) false (mkLog FormatText LevelInfo false))) /\
  (w_passphrase w <> [] -> subscribeConfig w [text] = subscribeConfig w []).
Proof.
  intros Hi Hr Ht.
  assert (Hp : ParseInvite text = Ok i).
  { pose proof (ParseInvite_ToURI i Hi) as [E1 E2]. by destruct Ht as [-> | ->]. }
  assert (Hd : has_prefix [DASH] text = false).
  { destruct Ht as [-> | ->]; [by rewrite ToURI_printed|done]. }
  assert (Hne : text <> []).
  { intros ->. destruct Ht as [E|E]; [|done]. by rewrite ToURI_printed in E. }
  split; [done|]. unfold subscribeConfig. rewrite Parse_positional by done. cbn [codeFlags fmap list_fmap].
  change (Parse subscribeFlags []) with (Ok ([], []) : result flag_error (flag_values * list bytes)).
  unfold parsePassphrase. cbn [string_flag fold_left codeFlags fmap list_fmap List.find].
  change (negb (bool_decide ([] =@{bytes} []))) with false. cbn iota. split.
  - intros ->. change (bool_decide ([] =@{bytes} [])) with true. cbn iota.
    rewrite bool_decide_false, Hp by done. rewrite (bool_decide_false (RelayAddr i = [])) by done.
    cbn [negb andb result_bind bool_flag fold_left]. by rewrite orb_false_r.
  - intros Hw. by rewrite !(bool_decide_false (w_passphrase w = [])) by done.
Qed.

Definition demoWorld : world :=
  mkWorld [] [] (fun _ => None) (fun _ => None) (str "generated-code") (fun _ => Some 0).

Lemma join_follows_invite_witness :
  let text := ToWebURL demoInvite in
  runMain [str "join"; text] = Ok (RunSubscribe [text]) /\
  (w_passphrase demoWorld = [] -> subscribeConfig demoWorld [text] = Ok (mkSubscribeConfig (Code demoInvite) (RelayAddr demoInvite)
     (bool_decide (TransportMode demoInvite = str "quic")) (SPKIFingerprint demoInvite) false (mkLog FormatText LevelInfo false))) /\
  (w_passphrase demoWorld <> [] -> subscribeConfig demoWorld [text] = subscribeConfig demoWorld []).
Proof.
  intros text. apply (join_follows_invite demoWorld demoInvite text).
  - split; [vm_compute; congruence|]. apply all_forallb. vm_compute. reflexivity.
  - vm_compute. congruence.
  - by right.
Defined.

(** Flags after the code are not flags.  The usage text of [invite] is
    "invite [code] [--relay <addr>]", but parsing stops at the first argument
    that is no flag: whatever follows the code is ignored, the relay included,
    and the same holds for [subscribe] and [join]. *)
Theorem flags_after_code_ignored w code rest :
  has_prefix [DASH] code = false ->
  inviteOutput w (code :: rest) = inviteOutput w [code] /\
  subscribeConfig w (code :: rest) = subscribeConfig w [code].
Proof. intros Hd. unfold inviteOutput, subscribeConfig. by rewrite !Parse_positional. Qed.

(** The relay of the command line does not reach the invitation. *)
Lemma flags_after_code_ignored_witness :
  (inviteOutput demoWorld [str "my-code"; str "--relay"; str "relay.example:8443"] = inviteOutput demoWorld [str "my-code"] /\
   subscribeConfig demoWorld [str "my-code"; str "--relay"; str "relay.example:8443"] = subscribeConfig demoWorld [str "my-code"]) /\
  inviteOutput demoWorld [str "-q"; str "--relay"; str "relay.example:8443"; str "my-code"] =
    Ok (true, str "zerofeed://join?code=my-code&relay=relay.example:8443" ++ [NL]).
Proof.
  split; [|vm_compute; reflexivity].
  apply (flags_after_code_ignored demoWorld (str "my-code") [str "--relay"; str "relay.example:8443"]).
  vm_compute. reflexivity.
Defined.

(** The relay listens where it is told to.  [zerofeed relay --port n] for any
    port number binds that port on all interfaces, with the WebSocket listener on
    8444, no metrics server, rate limiting on and proxy headers not trusted. *)
Theorem relay_port n :
  0 <= n < 2 ^ 63 ->
  runMain [str "relay"; str "--port"; dec n] = Ok (RunRelay [str "--port"; dec n]) /\
  relayConfig [str "--port"; dec n] = Ok (mkRelayConfig (str "0.0.0.0:" ++ dec n) (Some (str "0.0.0.0:8444", None)) None
    true false false (mkLog FormatText LevelInfo false)).
Proof.
  intros Hn. split; [done|]. unfold relayConfig.
  assert (E : Parse relayFlags [str "--port"; dec n] = Ok ([(str "port", VInt n)], [])).
  { unfold Parse. cbn [length]. cbn -[ParseInt dec]. by rewrite ParseInt_dec. }
  assert (Ef : fmt_d n = dec n) by (unfold fmt_d; destruct (Z.ltb_spec n 0); [lia|done]).
  rewrite E. unfold int_flag, string_flag, bool_flag. cbn [fold_left fst snd].
  rewrite bool_decide_true, !bool_decide_false by (vm_compute; set_solver). unfold relayListen. rewrite Ef. reflexivity.
Qed.

Lemma relay_port_witness :
  relayConfig [str "--port"; dec 9000] = Ok (mkRelayConfig (str "0.0.0.0:9000") (Some (str "0.0.0.0:8444", None)) None
    true false false (mkLog FormatText LevelInfo false)).
Proof. exact (proj2 (relay_port 9000 ltac:(lia))). Defined.
