(* ===== verification/Terminal.v ===== *)
(** * What the program prints (main.go, pkg/logger, pkg/version)

    The banners of the sub-commands, the notice about the code, the usage text,
    the version line, and the log functions of pkg/logger (which records pass;
    their layout is [log/slog]'s).  [time.Duration.String] is written out. *)

From S2P Require Import Prelude Strings Float64 Hash Protocol Encoding Cipher Invite Dial Cli.

(** ** Durations: [time.Duration.String] *)

Fixpoint strip_zeros (rev : bytes) : bytes :=
  match rev with b :: r => if eqb b x30 then strip_zeros r else rev | [] => [] end.

(** The fraction [v / 10^prec] without trailing zeros, with its point. *)
Definition fmtFrac (v : Z) (prec : nat) : bytes :=
  match reverse (strip_zeros (reverse (dec_pad prec (v `mod` 10 ^ Z.of_nat prec)))) with
  | [] => []
  | ds => x2e :: ds
  end.

Definition DurationString (d : Z) : bytes :=
  let u := Z.abs d in
  let sign := if d <? 0 then [x2d] else [] in
  if u =? 0 then str "0s"
  else if u <? 10 ^ 3 then sign ++ dec u ++ str "ns"
  else if u <? 10 ^ 6 then sign ++ dec (u `div` 10 ^ 3) ++ fmtFrac u 3 ++ [xc2; xb5; x73]
  else if u <? 10 ^ 9 then sign ++ dec (u `div` 10 ^ 6) ++ fmtFrac u 6 ++ str "ms"
  else
    let s := u `div` 10 ^ 9 in
    let secs := dec (s `mod` 60) ++ fmtFrac u 9 ++ str "s" in
    let m := s `div` 60 in
    if m =? 0 then sign ++ secs
    else
      let mins := dec (m `mod` 60) ++ str "m" ++ secs in
      let h := m `div` 60 in
      if h =? 0 then sign ++ mins else sign ++ dec h ++ str "h" ++ mins.

Example DurationString_forms :
  DurationString <$> [300 * 10 ^ 9; 3600 * 10 ^ 9; 1500 * 10 ^ 6; 2 * 10 ^ 6 + 500 * 10 ^ 3; -90 * 10 ^ 9; 17] =
  [str "5m0s"; str "1h0m0s"; str "1.5s"; str "2.5ms"; str "-1m30s"; str "17ns"].
Proof. vm_compute. reflexivity. Qed.

(** ** Standard error (main.go:97-102) *)

Definition logStderr (quiet : bool) (text : bytes) : bytes := if quiet then [] else text.

Definition fmt_t (b : bool) : bytes := if b then str "true" else str "false".
Definition RULE : bytes := str "====================================================" ++ [NL].
Definition field (name : string) (value : bytes) : bytes := str name ++ value ++ [NL].
Definition tModeStr (quic : bool) : bytes := if quic then str "QUIC (UDP)" else str "TCP".

Definition quietOf (l : log_settings) : bool := lg_discard l.

(** The notice about the code (main.go:219-228). *)
Definition codeNotice (cfg : publish_config) : bytes :=
  logStderr (quietOf (pc_log cfg))
    (if pc_generated cfg then
       [NL] ++ str "[!] No --channel specified. Generated High-Entropy Channel Code (~80 bits):" ++ [NL] ++
       str "    >>> " ++ pc_code cfg ++ str " <<<" ++ [NL; NL]
     else if (length (pc_code cfg) <? 16)%nat then
       [NL] ++ str "[!] WARNING: Custom passphrase has lower entropy (" ++ dec (zlen (pc_code cfg)) ++ str " chars)." ++ [NL] ++
       str "    For maximum protection against active relay MITM attacks, use default 5-word generated codes." ++ [NL; NL]
     else []).

(** main.go:269-292, line by line. *)
Definition publishLines (cfg : publish_config) (sessionID : bytes) : list bytes :=
  let inv := GenerateInvite (pc_code cfg) (pc_relay cfg) in
  [RULE;
   str " [ZeroFeed Publisher] Active Session" ++ [NL];
   field " Code / Passphrase : "
     (if pc_generated cfg then pc_code cfg else maskSecret (pc_code cfg) ++ str " (supplied)");
   field " Session ID        : " (EncodeToString sessionID);
   field " Relay Server      : " (pc_relay cfg);
   field " Transport Mode    : " (tModeStr (pc_quic cfg));
   field " Web Link          : " (ToWebURL inv);
   field " Native URI        : " (ToURI inv);
   field " Session TTL       : " (DurationString (pc_ttl cfg));
   field " Stream Mode       : " (fmt_t (pc_stream cfg));
   RULE].

Definition publishBanner (cfg : publish_config) (sessionID : bytes) : bytes :=
  logStderr (quietOf (pc_log cfg)) (concat (publishLines cfg sessionID)).

(** main.go:470-484 *)
Definition subscribeBanner (cfg : subscribe_config) (sessionID : bytes) : bytes :=
  logStderr (quietOf (sc_log cfg)) (concat [
    RULE;
    str " [ZeroFeed Subscriber] Active Session" ++ [NL];
    field " Code / Passphrase : " (maskSecret (sc_code cfg));
    field " Session ID        : " (EncodeToString sessionID);
    field " Relay Server      : " (sc_relay cfg);
    field " Transport Mode    : " (tModeStr (sc_quic cfg));
    field " Stream Mode       : " (fmt_t (sc_stream cfg));
    RULE]).

(** main.go:718-729 *)
Definition printUsage : bytes :=
  concat ((fun l => str l ++ [NL]) <$> ["ZeroFeed: Zero-Knowledge Ephemeral Pub/Sub Engine"]%string) ++ [NL] ++
  concat ((fun l => str l ++ [NL]) <$> [
    "Usage:";
    "  zerofeed invite [code] [--relay <addr>]";
    "  zerofeed join <invite|code|uri>";
    "  zerofeed publish [--channel <code|passphrase>] [--ttl 5m] [--stream] [--quic] [--quiet]";
    "  zerofeed subscribe --code <code|passphrase|uri> [--stream] [--quic] [--quiet]";
    "  zerofeed relay [--port 8443] [--quic]";
    "  zerofeed gen";
    "  zerofeed version"]%string) ++ [NL] ++
  str "Run 'zerofeed <subcommand> --help' for details." ++ [NL].

(** version.go; the three variables may be set when the program is built. *)
Record build := mkBuild { b_Version : bytes; b_GitCommit : bytes; b_BuildDate : bytes }.
Definition defaultBuild : build := mkBuild (str "v1.4.0") (str "dev") (str "unknown").
Definition versionInfo (b : build) (goos goarch goVersion : bytes) : bytes :=
  str "ZeroFeed " ++ b_Version b ++ str " (commit " ++ b_GitCommit b ++ str ", built " ++ b_BuildDate b ++ str ", " ++
  goos ++ str "/" ++ goarch ++ str ", " ++ goVersion ++ str ")".

(** ** Logging (pkg/logger) *)

(** slog's levels. *)
Definition levelValue (l : log_level) : Z :=
  match l with LevelDebug => -4 | LevelInfo => 0 | LevelWarn => 4 | LevelError => 8 end.

(** The value of an attribute, as the calls pass it. *)
Inductive attr := AInt (i : Z) | AStr (s : bytes) | ABool (b : bool).

Record log_record := mkRecord { lr_level : log_level; lr_msg : bytes; lr_attrs : list (bytes * attr) }.

(** The record that reaches standard error. *)
Definition logAt (level : log_level) (st : log_settings) (msg : bytes) (args : list (bytes * attr)) : option log_record :=
  if (levelValue level <? levelValue (lg_level st)) || lg_discard st then None else Some (mkRecord level msg args).

Definition Debug := logAt LevelDebug.
Definition Info := logAt LevelInfo.
Definition Warn := logAt LevelWarn.
Definition Error := logAt LevelError.

(** A logger that [With] returns: its attributes come before those of the call. *)
Definition With (attrs : list (bytes * attr)) (level : log_level) (st : log_settings) (msg : bytes) (args : list (bytes * attr)) : option log_record :=
  logAt level st msg (attrs ++ args).

(** The start of the relay (main.go:560-590): one record in JSON, a banner otherwise. *)
Definition relayBanner (cfg : relay_config) (port wsPort : Z) : bytes + option log_record :=
  let modeStr := if rc_quic cfg then str "TCP + QUIC (UDP)" else str "TCP" in
  match lg_format (rc_log cfg) with
  | FormatJSON => inr (Info (rc_log cfg) (str "ZeroFeed Standalone Relay Node starting")
      [(str "port", AInt port); (str "mode", AStr modeStr); (str "ws_port", AInt wsPort);
       (str "metrics_addr", AStr (default [] (rc_metrics cfg))); (str "trust_proxy", ABool (rc_trustProxy cfg));
       (str "rate_limit", ABool (rc_rateLimit cfg))])
  | FormatText => inl (concat [
      RULE;
      str " [ZeroFeed Standalone Relay Node]" ++ [NL];
      str " Listening Port : " ++ fmt_d port ++ str " (" ++ modeStr ++ str ")" ++ [NL];
      (if 0 <? wsPort then str " WebSocket Port : " ++ fmt_d wsPort ++ str " (ws://)" ++ [NL] else []);
      (match rc_metrics cfg with
       | Some addr => str " Metrics Server : http://" ++ addr ++ str "/metrics (Prometheus)" ++ [NL]
       | None => []
       end);
      str " Mode           : Ephemeral RAM-Only Zero-Knowledge Relay" ++ [NL];
      RULE])
  end.

(** ** Quiet runs *)

Lemma initLogger_quiet q fmt lvl : quietOf (initLogger q fmt lvl) = q.
Proof. by destruct q. Qed.

Lemma logAt_quiet level st msg args : quietOf st = true -> logAt level st msg args = None.
Proof. unfold logAt, quietOf. intros ->. by rewrite orb_true_r. Qed.

Lemma publishConfig_quiet w args cfg vs rest :
  Parse publishFlags args = Ok (vs, rest) -> publishConfig w args = Ok cfg ->
  quietOf (pc_log cfg) = bool_flag [str "quiet"; str "q"] vs.
Proof.
  intros EP. unfold publishConfig. rewrite EP. destruct (resolveRelayAddr _ _ _) as [addr|]; [|done]. cbn [result_bind].
  destruct (w_parseDuration _ _); [|done]. intros [= <-]. apply initLogger_quiet.
Qed.

(** * Properties *)

(** What the banners give away.  The subscriber's banner shows of the code only
    what [maskSecret] leaves: two codes with the same mask (and session ID) give the
    same text.  The publisher's banner masks a supplied code on one line and prints
    it on two others, inside the invitation: whoever reads the web link or the URI
    in the banner joins with exactly that code.  With [--quiet] nothing is printed
    and nothing is logged. *)
Theorem banners_reveal :
  (forall c1 c2 sid, maskSecret (sc_code c1) = maskSecret (sc_code c2) -> sc_relay c1 = sc_relay c2 -> sc_quic c1 = sc_quic c2 ->
     sc_stream c1 = sc_stream c2 -> sc_log c1 = sc_log c2 -> subscribeBanner c1 sid = subscribeBanner c2 sid) /\
  (forall cfg sid, pc_generated cfg = false -> quietOf (pc_log cfg) = false ->
     invite_ok (GenerateInvite (pc_code cfg) (pc_relay cfg)) ->
     exists pre link uri post,
       publishLines cfg sid = pre ++ [field " Web Link          : " link; field " Native URI        : " uri] ++ post /\
       publishBanner cfg sid = concat (publishLines cfg sid) /\
       ParseInvite link = Ok (GenerateInvite (pc_code cfg) (pc_relay cfg)) /\
       ParseInvite uri = Ok (GenerateInvite (pc_code cfg) (pc_relay cfg))) /\
  (forall w args cfg sid vs rest level msg attrs, Parse publishFlags args = Ok (vs, rest) -> publishConfig w args = Ok cfg ->
     bool_flag [str "quiet"; str "q"] vs = true ->
     codeNotice cfg = [] /\ publishBanner cfg sid = [] /\ logAt level (pc_log cfg) msg attrs = None).
Proof.
  split; [|split].
  - intros c1 c2 sid E1 E2 E3 E4 E5. unfold subscribeBanner. by rewrite E1, E2, E3, E4, E5.
  - intros cfg sid Hg Hq Hi. destruct (ParseInvite_ToURI _ Hi) as [Hu Hw].
    exists (take 6 (publishLines cfg sid)), (ToWebURL (GenerateInvite (pc_code cfg) (pc_relay cfg))),
      (ToURI (GenerateInvite (pc_code cfg) (pc_relay cfg))), (drop 8 (publishLines cfg sid)).
    split_and!; [reflexivity|unfold publishBanner, logStderr; by rewrite Hq|exact Hw|exact Hu].
  - intros w args cfg sid vs rest level msg attrs EP EC Hq. pose proof (publishConfig_quiet _ _ _ _ _ EP EC) as E. rewrite Hq in E.
    unfold codeNotice, publishBanner, logStderr. rewrite E. split_and!; [done|done|by apply logAt_quiet].
Qed.

(** ** Concrete banners *)

Definition bannerConfig : publish_config :=
  mkPublishConfig (str "correct-horse-battery") false (str "relay.example:8443") [] (300 * 10 ^ 9) 0 0 [] false true
    (initLogger false (str "text") (str "info")).

(** The relay answers. *)
Definition onlineWorld : world :=
  mkWorld [] [] (fun _ => None) (fun _ => Some ()) (str "generated-code") (fun _ => Some 0).

Example publishBanner_lines :
  publishLines bannerConfig [xab; x01] !! 2%nat = Some (str " Code / Passphrase : co*****************ry (supplied)" ++ [NL]) /\
  publishLines bannerConfig [xab; x01] !! 3%nat = Some (str " Session ID        : ab01" ++ [NL]) /\
  publishLines bannerConfig [xab; x01] !! 8%nat = Some (str " Session TTL       : 5m0s" ++ [NL]).
Proof. vm_compute. auto. Qed.

Lemma banners_reveal_witness :
  let quietArgs := [str "--quiet"; str "--relay"; str "relay.example:8443"] in
  subscribeBanner (mkSubscribeConfig (str "quantum-shield-123456") (str "r:1") false [] false (pc_log bannerConfig)) [] =
  subscribeBanner (mkSubscribeConfig (str "quaking-shiver-999956") (str "r:1") false [] false (pc_log bannerConfig)) [] /\
  (exists pre link uri post,
     publishLines bannerConfig [] = pre ++ [field " Web Link          : " link; field " Native URI        : " uri] ++ post /\
     publishBanner bannerConfig [] = concat (publishLines bannerConfig []) /\
     ParseInvite link = Ok (GenerateInvite (str "correct-horse-battery") (str "relay.example:8443")) /\
     ParseInvite uri = Ok (GenerateInvite (str "correct-horse-battery") (str "relay.example:8443"))) /\
  (exists cfg, publishConfig onlineWorld quietArgs = Ok cfg /\ codeNotice cfg = [] /\ publishBanner cfg [] = [] /\
     logAt LevelError (pc_log cfg) (str "message") [] = None).
Proof.
  intros quietArgs. destruct banners_reveal as (H1 & H2 & H3). split_and!.
  - apply H1; vm_compute; reflexivity.
  - apply (H2 bannerConfig []); [vm_compute; reflexivity..|]. split; [vm_compute; discriminate|by apply all_forallb].
  - destruct (Parse publishFlags quietArgs) as [[vs rest]|] eqn:EP; [|vm_compute in EP; discriminate EP].
    destruct (publishConfig onlineWorld quietArgs) as [cfg|] eqn:EC; [|vm_compute in EC; discriminate EC].
    exists cfg. split; [done|]. apply (H3 onlineWorld quietArgs cfg [] vs rest LevelError (str "message") [] EP EC).
    vm_compute in EP. injection EP as <- <-. vm_compute. reflexivity.
Defined.
