(* ===== verification/Session.v ===== *)
(** * The program: [main.go] around the engines

    [runPublish] and [runSubscribe] from their configuration (Cli.v) to their end,
    standard input on one side and standard output on the other, and what [main]
    does when they return.  Sockets, clocks and random bytes are arguments, the
    inputs of a stream are the events its [select] sees (Publisher.v). *)

From S2P Require Import Prelude Strings Protocol Memory RingBuffer Hash Aead Cipher Pake Engine Sanitize Files Publisher Subscriber Feed FileTransfer Encoding Invite Dial Cli.

(** ** Standard input (main.go:322-340) *)

(** A pipe: the bytes of each [Read], and whether it came with an error; every
    non-empty read is a message. *)
Fixpoint pipedInput (reads : list (bytes * bool)) : list bytes :=
  match reads with
  | [] => []
  | (data, err) :: reads => (match data with [] => [] | _ => [data] end) ++ if err : bool then [] else pipedInput reads
  end.

(** What the reads delivered, up to the error that ends them. *)
Fixpoint pipedBytes (reads : list (bytes * bool)) : bytes :=
  match reads with
  | [] => []
  | (data, err) :: reads => data ++ if err : bool then [] else pipedBytes reads
  end.

(** The messages among the events of a stream. *)
Definition inputs (evs : list stream_event) : list bytes :=
  omap (fun ev => match ev with Input payload _ _ => Some payload | _ => None end) evs.

(** ** Runs *)

Inductive main_error :=
  | MainCli (e : cli_error)
  | MainEngine (e : crypto_error)
  | MainConnect (e : feed_error)
  | MainHandshake (e : feed_error)
  | MainFile (e : feed_error).

(** The error of a step, wrapped. *)
Definition wrapError {S E E' A} (f : E -> E') (m : M S E A) : M S E' A := fun s =>
  let (r, s) := m s in (match r with Ok a => Ok a | Err e => Err (f e) end, s).

Section Session.
Context {aeadI : AEAD} {kexI : KeyExchange}.
Variable pool : bytes.
Variable marshal : FileHeader -> bytes.
Variable unmarshal : bytes -> option FileHeader.
Variable fs_create : bytes -> bool.
Variable fs_write : bytes -> nat.

(** What [runPublish] draws from outside besides its sockets. *)
Record publish_io := mkPublishIO {
  io_rnd : PakeRand;
  io_key : option bytes;                (** the master key *)
  io_now : Z;
  io_nonce : option bytes;              (** of the wrapped key *)
  io_source : option file_source;       (** the file to send *)
  io_transfer : bytes;
  io_t0 : Z * option bytes;
  io_t1 : Z * option bytes;
  io_terminal : bool;                   (** [isTerminal(os.Stdin)] *)
  io_events : list stream_event
}.

(** main.go:254-264 *)
Definition setupPublisher (cfg : publish_config) (p : PublisherEngine) : PublisherEngine :=
  let p := SetRekeyThresholds (pc_rekeyBytes cfg) (pc_rekeyTime cfg) p in
  let p := if bool_decide (pc_fingerprint cfg = []) then p else SetSPKIFingerprint (pc_fingerprint cfg) p in
  if pc_quic cfg then SetTransportMode ModeQUIC p else p.

(** main.go:294-368: the engine from [Connect] on.  The result is the connection
    as the stream left it; an error of [PublishStream] is only logged. *)
Definition publishSession (cfg : publish_config) (io : publish_io) (dialQUIC dialTCP : option Conn)
    : M PublisherEngine main_error (option Conn) :=
  wrapError MainConnect (Connect pool dialQUIC dialTCP (io_rnd io));;
  wrapError MainHandshake (Publisher.CompleteHandshake pool (io_rnd io) (io_nonce io));;
  if negb (bool_decide (pc_file cfg = [])) then
    wrapError MainFile (SendFile pool marshal (io_source io) (io_transfer io) (io_t0 io) (io_t1 io));;
    gets p_conn
  else
    modify (SetUntaggedInput (negb (io_terminal io)));;
    r ← wrapError MainConnect (PublishStream pool (io_events io));
    mret (r ≫= snd).

(** main.go:185-369: the result, and the engine when there is one. *)
Definition runPublish (w : world) (args : list bytes) (io : publish_io) (dialQUIC dialTCP : option Conn) (m : Mem)
    : result main_error (option Conn) * option PublisherEngine :=
  match publishConfig w args with
  | Err e => (Err (MainCli e), None)
  | Ok cfg =>
      match NewPublisherEngine (pc_code cfg) (io_rnd io) (io_key io) (io_now io) m with
      | Err e => (Err (MainEngine e), None)
      | Ok p => let (r, p) := publishSession cfg io dialQUIC dialTCP (setupPublisher cfg p) in (r, Some p)
      end
  end.

(** The subscriber's setters (subscriber.go:66-70, 105-109). *)
Definition SubSetSPKIFingerprint (fp : bytes) (s : SubscriberEngine) : SubscriberEngine :=
  mkSubscriber (s_passphrase s) (s_sessionID s) (s_pakePeer s) (s_cipher s) (s_conn s) (s_ringBuffer s) (s_lastSeqNum s)
    fp (s_transportMode s) (s_sas s) (s_closed s) (s_mem s) (s_backoff s) (s_view s).
Definition SubSetTransportMode (mode : Mode) (s : SubscriberEngine) : SubscriberEngine :=
  mkSubscriber (s_passphrase s) (s_sessionID s) (s_pakePeer s) (s_cipher s) (s_conn s) (s_ringBuffer s) (s_lastSeqNum s)
    (s_expectedFingerprint s) mode (s_sas s) (s_closed s) (s_mem s) (s_backoff s) (s_view s).

(** main.go:459-465 *)
Definition setupSubscriber (cfg : subscribe_config) (s : SubscriberEngine) : SubscriberEngine :=
  let s := if bool_decide (sc_fingerprint cfg = []) then s else SubSetSPKIFingerprint (sc_fingerprint cfg) s in
  if sc_quic cfg then SubSetTransportMode ModeQUIC s else s.

(** main.go:486-502: an error of [SubscribeStream] is only logged. *)
Definition subscribeSession (fuel : nat) (rnd : PakeRand) (atts : list Attempt) (dialQUIC dialTCP : option Conn)
    : M SubscriberEngine main_error unit :=
  wrapError MainConnect (SubConnect pool dialQUIC dialTCP rnd);;
  wrapError MainHandshake (SubCompleteHandshake pool rnd);;
  ignore (wrapError MainConnect (SubscribeStream pool unmarshal fs_create fs_write fuel atts)).

(** main.go:385-503 *)
Definition runSubscribe (fuel : nat) (w : world) (args : list bytes) (rnd : PakeRand) (atts : list Attempt)
    (dialQUIC dialTCP : option Conn) (m : Mem) : result main_error unit * option SubscriberEngine :=
  match subscribeConfig w args with
  | Err e => (Err (MainCli e), None)
  | Ok cfg =>
      match NewSubscriberEngine (sc_code cfg) rnd m with
      | Err e => (Err (MainEngine e), None)
      | Ok s => let (r, s) := subscribeSession fuel rnd atts dialQUIC dialTCP (setupSubscriber cfg s) in (r, Some s)
      end
  end.

(** [main] (main.go:51-60): the exit status; [WipeAll] runs the wiper every engine
    registered when it was made, which closes it, whatever [runMain] returned. *)
Definition exitStatus {A} (r : result main_error A) : Z := match r with Ok _ => 0 | Err _ => 1 end.

Definition mainPublish (w : world) (args : list bytes) (io : publish_io) (dialQUIC dialTCP : option Conn) (m : Mem)
    : Z * option PublisherEngine :=
  let (r, p) := runPublish w args io dialQUIC dialTCP m in
  (exitStatus r, (fun p => snd (ClosePublisher pool p)) <$> p).

Definition mainSubscribe (fuel : nat) (w : world) (args : list bytes) (rnd : PakeRand) (atts : list Attempt)
    (dialQUIC dialTCP : option Conn) (m : Mem) : Z * option SubscriberEngine :=
  let (r, s) := runSubscribe fuel w args rnd atts dialQUIC dialTCP m in
  (exitStatus r, (fun s => snd (CloseSubscriber s)) <$> s).

(** ** Every method keeps the publisher's invariant *)

Lemma respects_wrapError {S E E' A} (R : relation S) (f : E -> E') (m : M S E A) :
  respects R m -> respects R (wrapError f m).
Proof. intros Hm s. specialize (Hm s). unfold wrapError. by destruct (m s). Qed.

Lemma preserves_set_ack f : respects inv_rel (modify (fun p => set_ack (f p) p) : M PublisherEngine feed_error ()).
Proof. apply respects_modify. intros p Hp. by apply pub_inv_ack. Qed.

#[local] Hint Resolve preserves_PublishPayload preserves_set_ack : zf.

Lemma preserves_sendChunks transferID unacked reads eof : respects inv_rel (sendChunks pool transferID unacked reads eof).
Proof.
  revert unacked. induction reads as [|r reads IH]; intros unacked; cbn [sendChunks]; [destruct eof; eauto with zf|].
  destruct (r_data r) as [|b data]; [done|]. respects_bind; [eauto with zf|]. intros _.
  case_match; [|done]. destruct (r_sel r); [eauto with zf| |done]. respects_bind; [eauto with zf|done].
Qed.

Lemma preserves_SendFile src transfer t0 t1 : respects inv_rel (SendFile pool marshal src transfer t0 t1).
Proof.
  unfold SendFile. destruct src as [f|]; [|eauto with zf]. destruct (f_size f), (f_content f); eauto with zf.
  respects_bind; [eauto with zf|]. intros _. respects_bind; [apply (preserves_set_ack (fun _ => Some 0%nat))|]. intros _.
  respects_bind; [apply respects_attempt; respects_bind; [apply preserves_sendChunks|eauto with zf]|]. intros res.
  respects_bind; [apply (preserves_set_ack (fun _ => None))|eauto with zf].
Qed.

Lemma preserves_PublishStream evs : respects inv_rel (PublishStream pool evs).
Proof.
  unfold PublishStream. respects_bind.
  - induction evs as [|ev evs IH]; cbn [publishEvents]; [eauto with zf|].
    respects_bind; [apply preserves_publishEvent|]. intros [r|]; [eauto with zf|done].
  - intros [r|]; [|eauto with zf]. respects_bind; [apply preserves_ClosePublisher|eauto with zf].
Qed.

Lemma preserves_publishSession cfg io dq dt : respects inv_rel (publishSession cfg io dq dt).
Proof.
  unfold publishSession. respects_bind; [apply respects_wrapError, preserves_Connect|]. intros _.
  respects_bind; [apply respects_wrapError, preserves_CompleteHandshake|]. intros _. destruct (negb _).
  - respects_bind; [apply respects_wrapError, preserves_SendFile|eauto with zf].
  - respects_bind; [apply respects_modify; by intros p []|]. intros _.
    respects_bind; [apply respects_wrapError, preserves_PublishStream|eauto with zf].
Qed.

Lemma setupPublisher_inv cfg p : pub_inv p -> pub_inv (setupPublisher cfg p).
Proof.
  intros Hp. unfold setupPublisher. destruct (bool_decide _), (pc_quic cfg); by destruct Hp.
Qed.

Lemma runPublish_inv w args io dq dt m p :
  owned m [] -> snd (runPublish w args io dq dt m) = Some p -> pub_inv p.
Proof.
  intros Ho. unfold runPublish. destruct (publishConfig w args) as [cfg|]; [|done].
  destruct (NewPublisherEngine _ _ _ _ m) as [p0|] eqn:E; [|done]. apply NewPublisherEngine_inv in E as [Hp0 _]; [|done].
  pose proof (preserves_publishSession cfg io dq dt (setupPublisher cfg p0) (setupPublisher_inv cfg p0 Hp0)) as Hp.
  destruct (publishSession _ _ _ _ _) as [r p1]. cbn. by intros [= <-].
Qed.

(** ** The subscriber stays open, its ring well-formed *)

Lemma setupSubscriber_same cfg s :
  let s' := setupSubscriber cfg s in
  s_closed s' = s_closed s /\ s_ringBuffer s' = s_ringBuffer s /\ s_mem s' = s_mem s /\ s_sessionID s' = s_sessionID s /\
  s_pakePeer s' = s_pakePeer s /\ s_lastSeqNum s' = s_lastSeqNum s /\ s_view s' = s_view s.
Proof. unfold setupSubscriber. by destruct (bool_decide _), (sc_quic cfg). Qed.

Definition open_rel (s s' : SubscriberEngine) : Prop :=
  s_closed s' = s_closed s /\
  (ring_inv (s_ringBuffer s) (s_mem s) [] -> ring_inv (s_ringBuffer s') (s_mem s') []).

#[local] Instance open_rel_preorder : PreOrder open_rel.
Proof. split; [by split|]. intros s1 s2 s3 [A1 B1] [A2 B2]. split; [congruence|auto]. Qed.

#[local] Hint Extern 1 (respects open_rel (modify _)) => (apply respects_modify; by split) : zf.

Lemma open_encode env : respects open_rel (subEncode pool env).
Proof. intros s. destruct (subEncode_conn pool env s) as [c ->]. by split. Qed.
Lemma open_decode : respects open_rel subDecode.
Proof. intros s. unfold subDecode. destruct (s_conn s); [|by split]. destruct (conn_decode _). by split. Qed.
Lemma open_pakeUpdate payload rnd : respects open_rel (subPakeUpdate payload rnd).
Proof. intros s. unfold subPakeUpdate. destruct (s_pakePeer s); [|by split]. destruct (Update _ _ _). by split. Qed.
#[local] Hint Resolve open_encode open_decode open_pakeUpdate : zf.

Lemma open_connect dq dt rnd : respects open_rel (SubConnect pool dq dt rnd).
Proof.
  unfold SubConnect. respects_bind; [eauto with zf|]. intros mode. destruct (subDial mode dq dt); [|eauto with zf].
  respects_bind; [eauto with zf|]. intros _. apply respects_greet; try typeclasses eauto; unfold subCloseConn; eauto with zf.
Qed.

Lemma open_handshake rnd : respects open_rel (SubCompleteHandshake pool rnd).
Proof. apply respects_handshake; eauto with zf. typeclasses eauto. Qed.
#[local] Hint Resolve open_connect open_handshake : zf.

Lemma open_frame env : respects open_rel (subscribeFrame pool unmarshal fs_create fs_write env).
Proof.
  intros s. pose proof (subscribeFrame_effect pool unmarshal fs_create fs_write env s) as (_ & _ & Hr).
  split; [|by intros H; apply Hr in H as [H _]]. pose proof (subscribeFrame_spec pool unmarshal fs_create fs_write env s) as Hs.
  destruct (accepts env s) as [[n pt]|]; [destruct Hs as (_ & c & ->)|by destruct Hs as (r & ci & sas & -> & _)].
  cbn. unfold pushRing. by destruct (Push _ _ _ _).
Qed.

Lemma open_reconnect retries atts : respects open_rel (reconnectLoop pool retries atts).
Proof.
  revert atts. induction retries as [|retries IH]; intros atts; cbn [reconnectLoop]; [eauto with zf|].
  destruct atts as [|att atts]; [eauto with zf|]. respects_bind; [eauto with zf|]. intros _.
  respects_bind; [eauto with zf|]. intros [pass|]; [|eauto with zf]. destruct (NewPAKESubscriber _ _); [|done].
  respects_bind; [eauto with zf|]. intros _. respects_bind; [eauto with zf|]. intros [?|?]; [|done].
  respects_bind; [eauto with zf|]. intros [?|?]; [|by respects_bind; [eauto with zf|]].
  respects_bind; [|eauto with zf]. apply respects_ignore. unfold SendSyncRequest.
  do 2 (respects_bind; [eauto with zf|intros ?]). eauto with zf.
Qed.
#[local] Hint Resolve open_frame open_reconnect : zf.

Lemma open_stream fuel atts : respects open_rel (SubscribeStream pool unmarshal fs_create fs_write fuel atts).
Proof.
  revert atts. induction fuel as [|fuel IH]; intros atts; cbn [SubscribeStream]; [eauto with zf|]. respects_bind.
  - unfold ensureConn. respects_bind; [eauto with zf|]. intros [c|]; [eauto with zf|]. respects_bind; [eauto with zf|].
    intros []; [unfold stopWith; eauto with zf|]. respects_bind; [eauto with zf|]. intros [[] ?]; unfold stopWith; eauto with zf.
  - intros [atts'|r]; [|eauto with zf]. respects_bind; [eauto with zf|]. intros [env|e].
    + respects_bind; [eauto with zf|]. intros [r|]; [eauto with zf|done].
    + respects_bind; [eauto with zf|]. intros []; [eauto with zf|]. respects_bind; [eauto with zf|].
      intros [[] ?]; [done|eauto with zf].
Qed.

Lemma runSubscribe_open fuel w args rnd atts dq dt m s :
  owned m [] -> snd (runSubscribe fuel w args rnd atts dq dt m) = Some s ->
  s_closed s = false /\ ring_inv (s_ringBuffer s) (s_mem s) [].
Proof.
  intros Ho. unfold runSubscribe. destruct (subscribeConfig w args) as [cfg|]; [|done].
  unfold NewSubscriberEngine. destruct (NewPAKESubscriber _ rnd) as [peer|]; [|done]. cbn [result_bind].
  set (s0 := setupSubscriber cfg _).
  assert (Hs : respects open_rel (subscribeSession fuel rnd atts dq dt)).
  { unfold subscribeSession. do 2 (respects_bind; [apply respects_wrapError; eauto with zf|intros _]).
    apply respects_ignore, respects_wrapError, open_stream. }
  destruct (setupSubscriber_same cfg (mkSubscriber (Some (sc_code cfg)) (DeriveSessionID (sc_code cfg)) (Some peer) None None
    (NewRingBuffer 100) 0 [] ModeTCP ([], []) false m initialBackoff emptyView)) as (E1 & E2 & E3 & _). fold s0 in E1, E2, E3.
  destruct (Hs s0) as [Hc Hr]. destruct (subscribeSession _ _ _ _ _ s0) as [r s1]. cbn in *. intros [= <-].
  rewrite E2, E3 in Hr. split; [congruence|]. apply Hr, (NewRingBuffer_inv 100 m [] Ho).
Qed.

(** ** The subscriber's stream on a connection *)

Abbreviation subFrame := (subscribeFrame pool unmarshal fs_create fs_write).
Abbreviation subFrames := (subscribeFrames pool unmarshal fs_create fs_write).

(** A frame is processed in the same way whatever the connection. *)
Lemma subscribeFrame_conn env c s :
  exists c', subFrame env (sub_conn c s) = (fst (subFrame env s), sub_conn c' (snd (subFrame env s))).
Proof.
  unfold subscribeFrame, mbind, M_bind, modify. cbn [fst snd].
  case_bool_decide; [by exists c|]. case_bool_decide; [by exists c|]. case_bool_decide.
  - unfold subscribeRekey. case_match; [by exists c|]. unfold mbind, M_bind, gets, modify. cbn [fst snd sub_conn sub_backoff s_cipher].
    repeat case_match; by exists c.
  - case_bool_decide; [|by exists c]. unfold subscribeData. case_match; [by exists c|].
    unfold mbind, M_bind, gets, modify. cbn [fst snd sub_conn sub_backoff s_cipher s_lastSeqNum].
    destruct (s_cipher s) as [ciph|]; [|by exists c]. destruct (openFrame ciph env) as [pt|]; [|by exists c].
    change (s_lastSeqNum (sub_conn c s)) with (s_lastSeqNum s). destruct (_ <=? _); [by exists c|].
    set (n := be_val _). set (pt' := unpadOrKeep pt).
    destruct (deliverPayload_spec pool unmarshal fs_create fs_write n pt' (sub_last n (sub_backoff initialBackoff s))) as [c1 E1].
    destruct (deliverPayload_spec pool unmarshal fs_create fs_write n pt'
      (sub_last n (sub_backoff initialBackoff (sub_conn c s)))) as [c2 E2].
    unfold sub_conn, sub_backoff, sub_last in *. cbn in *. rewrite E1, E2. exists c2. cbn. unfold pushRing. cbn.
    by destruct (Push _ _ _ _).
Qed.

Lemma subscribeFrames_conn envs c s :
  exists c', subFrames envs (sub_conn c s) = (fst (subFrames envs s), sub_conn c' (snd (subFrames envs s))).
Proof.
  revert c s. induction envs as [|env envs IH]; intros c s; [by exists c|]. cbn [subscribeFrames]. unfold mbind, M_bind.
  destruct (subscribeFrame_conn env c s) as [c1 ->]. destruct (subFrame env s) as [[[r|]|e] s1]; cbn [fst snd];
    [by exists c1|apply IH|by exists c1].
Qed.

(** It leaves the unread bytes alone, and what was written stays. *)
Definition keep_rel (s s' : SubscriberEngine) : Prop :=
  forall c, s_conn s = Some c -> exists c', s_conn s' = Some c' /\ c_in c' = c_in c /\ c_closed c' = c_closed c /\
    c_out c `prefix_of` c_out c'.

#[local] Instance keep_rel_preorder : PreOrder keep_rel.
Proof.
  split; [intros s c Hc; by exists c|]. intros s1 s2 s3 H1 H2 c Hc. destruct (H1 c Hc) as (c1 & E1 & I1 & C1 & O1).
  destruct (H2 c1 E1) as (c2 & E2 & I2 & C2 & O2). exists c2. split_and!; [done|congruence..|by etrans].
Qed.

#[local] Hint Extern 1 (respects keep_rel (modify _)) => (apply respects_modify; let c := fresh in intros ? c ?; by exists c) : zf.

Lemma keep_encode env : respects keep_rel (subEncode pool env).
Proof.
  intros s c Hc. unfold subEncode. rewrite Hc. unfold conn_encode, conn_write.
  destruct (Encode _ _); [|by exists c]. destruct (c_closed c) eqn:E; [by exists c|].
  destruct (c_writes c) as [|[k|] ws]; eexists; (split; [done|]); split_and!; try done; by apply prefix_app_r.
Qed.
#[local] Hint Resolve keep_encode : zf.

Lemma keep_deliver n pt : respects keep_rel (deliverPayload pool unmarshal fs_create fs_write n pt).
Proof.
  unfold deliverPayload. respects_bind; [apply respects_modify; intros s c Hc; destruct (Push _ _ _ _); by exists c|].
  intros _. respects_bind; [eauto with zf|]. intros v. destruct (deliver _ _ _ pt v) as [v' ack].
  respects_bind; [eauto with zf|]. intros _. destruct ack; [|eauto with zf].
  apply respects_ignore. unfold sendAckFrame. respects_bind; eauto with zf.
Qed.

Lemma keep_frame env : respects keep_rel (subFrame env).
Proof.
  unfold subscribeFrame. respects_bind; [eauto with zf|]. intros _.
  case_match; [eauto with zf|]. case_match; [eauto with zf|]. case_match; [|case_match; [|eauto with zf]].
  - unfold subscribeRekey. case_match; [eauto with zf|]. respects_bind; [eauto with zf|]. intros oc.
    repeat case_match; eauto with zf; (respects_bind; eauto with zf).
  - unfold subscribeData. case_match; [eauto with zf|]. respects_bind; [eauto with zf|]. intros oc.
    repeat case_match; eauto with zf. respects_bind; [eauto with zf|]. intros last.
    case_match; [eauto with zf|]. respects_bind; [eauto with zf|]. intros _.
    respects_bind; [apply keep_deliver|eauto with zf].
Qed.

(** On a connection that delivers [fs] the loop does what [subscribeFrames] does. *)
Lemma SubscribeStream_run fs rest atts r s c s1 fuel :
  s_conn s = Some c -> c_closed c = false -> c_in c = reader_of (concat (frame_bytes <$> fs)) ++ rest ->
  Forall (Envelope_ok MaxPayloadSize) fs -> subFrames fs s = (Ok (Some r), s1) -> (length fs <= fuel)%nat ->
  exists c1, SubscribeStream pool unmarshal fs_create fs_write fuel atts s = (Ok (Some r), sub_conn (Some c1) s1) /\
    c_out c `prefix_of` c_out c1.
Proof.
  revert s c s1 fuel. induction fs as [|f fs IH]; intros s c s1 fuel Hc Ho Hi Hok E Hf; [done|].
  apply Forall_cons in Hok as [Hok1 Hok]. cbn [length] in Hf. destruct fuel as [|fuel]; [lia|].
  cbn [fmap list_fmap concat] in Hi. rewrite reader_of_app, <- app_assoc in Hi.
  cbn [SubscribeStream subscribeFrames] in *. unfold ensureConn.
  rewrite (bind_ok _ _ s (Ok atts) s) by (unfold mbind, M_bind, gets; by rewrite Hc).
  rewrite bind_attempt, (subDecode_run f _ s c Hc Ho Hok1 Hi).
  set (c0 := mkConn _ _ _ _). destruct (subscribeFrame_conn f (Some c0) s) as [c1 E1].
  pose proof (keep_frame f (sub_conn (Some c0) s) c0 eq_refl) as (c2 & E2 & I2 & C2 & O2).
  rewrite E1 in E2. unfold mbind, M_bind in *. cbn [fst snd]. rewrite E1.
  destruct (subFrame f s) as [[[r'|]|e] s2]; cbn [fst snd] in *; [|..|done].
  - cbn [sub_conn s_conn] in E2. subst c1. exists c2. unfold mret, M_ret in *. by simplify_eq.
  - cbn [sub_conn s_conn] in E2. subst c1.
    destruct (subscribeFrames_conn fs (Some c2) s2) as [c' E']. rewrite E in E'. cbn [fst snd] in E'.
    destruct (IH (sub_conn (Some c2) s2) c2 (sub_conn c' s1) fuel eq_refl) as (c3 & E3 & O3); [by rewrite C2|by rewrite I2|done|exact E'|lia|].
    exists c3. rewrite E3. split; [done|]. by etrans.
Qed.

(** ** One session *)

Definition initPubFrame (sid : bytes) : Envelope := mkEnvelope Version MsgTypePAKEInitPub sid zeroNonce [].
Definition closeFrame (sid : bytes) : Envelope := mkEnvelope Version MsgTypeClose sid zeroNonce [].

Lemma Connect_run rnd p peer c :
  p_pakePeer p = Some peer -> pk_pubBytes peer = None -> length (p_sessionID p) = 16%nat -> healthy c ->
  Connect pool None (Some c) rnd p = (Ok tt, set_conn (Some (emit c [initPubFrame (p_sessionID p)])) p).
Proof.
  intros Hpeer Hb Hs Hh. unfold Connect. rewrite bind_gets.
  assert (Hd : dialMode (p_transportMode p) None (Some c) = Some c) by (by destruct (p_transportMode p)).
  rewrite Hd, bind_modify, bind_gets. cbn [set_conn p_pakePeer]. rewrite Hpeer. unfold mbind, M_bind, gets, mret, M_ret.
  cbn [fst snd set_conn p_pakePeer p_sessionID]. rewrite Hpeer. cbn [Bytes]. rewrite Hb. cbn [default].
  unfold onError. fold (initPubFrame (p_sessionID p)).
  pose proof (sendFrame_healthy pool (initPubFrame (p_sessionID p)) (set_conn (Some c) p) c eq_refl Hh) as E.
  unfold sendFrame in E. rewrite E; [done|]. apply small_frame_ok; [done|cbn; lia].
Qed.

Lemma SubConnect_run rnd s sub subMsg c :
  s_pakePeer s = Some sub -> pk_pubBytes sub = Some subMsg -> length subMsg = UniformWireMsgSize ->
  length (s_sessionID s) = 16%nat -> healthy c ->
  SubConnect pool None (Some c) rnd s = (Ok tt, sub_conn (Some (emit c [initFrame (s_sessionID s) subMsg])) s).
Proof.
  intros Hpeer Hb Hl Hs Hh. unfold SubConnect. rewrite bind_gets.
  assert (Hd : subDial (s_transportMode s) None (Some c) = Some c) by (by destruct (s_transportMode s)).
  rewrite Hd, bind_modify. unfold subGreet. rewrite bind_gets. cbn [sub_conn s_pakePeer]. rewrite Hpeer.
  unfold mbind, M_bind, gets, mret, M_ret. cbn [fst snd sub_conn s_pakePeer s_sessionID]. rewrite Hpeer. cbn [Bytes].
  rewrite Hb. cbn [default]. unfold onError. fold (initFrame (s_sessionID s) subMsg).
  rewrite (subEncode_run pool _ (sub_conn (Some c) s) c); [done|done|done|]. apply small_frame_ok; [done|].
  unfold id. rewrite Hl. unfold UniformWireMsgSize. lia.
Qed.

(** The handshake leaves the session and the counter alone. *)
Definition same_session (p p' : PublisherEngine) : Prop :=
  p_sessionID p' = p_sessionID p /\ p_seqCounter p' = p_seqCounter p /\ p_untaggedInput p' = p_untaggedInput p.

#[local] Instance same_session_preorder : PreOrder same_session.
Proof. split; [by split|]. intros p1 p2 p3 (A1 & B1 & C1) (A2 & B2 & C2). split_and!; congruence. Qed.

Lemma same_session_conn {A} (m : M PublisherEngine feed_error A) : respects conn_rel m -> respects same_session m.
Proof. intros Hm p. destruct (Hm p) as [c ->]. by split. Qed.
#[local] Hint Resolve same_session_conn encodeTo_conn decodeFrom_conn awaitConfirm_conn : zf.

Lemma same_session_handshake rnd nonce : respects same_session (Publisher.CompleteHandshake pool rnd nonce).
Proof.
  unfold Publisher.CompleteHandshake. respects_bind; [eauto with zf|]. intros env. repeat case_match; [eauto with zf..|].
  respects_bind; [intros p; unfold pakeUpdate; destruct (p_pakePeer p); [destruct (Update _ _ _)|]; by split|]. intros _.
  do 5 (respects_bind; [eauto with zf|intros ?]). eauto with zf.
Qed.

(** The stream of a pipe: the inputs, then the end. *)
Lemma publishEvents_end evs p p' :
  publishEvents pool evs p = (Ok None, p') -> publishEvents pool (evs ++ [InputClosed]) p = (Ok (Some (Ok tt)), p').
Proof.
  revert p. induction evs as [|ev evs IH]; intros p E; [by injection E as ->|].
  cbn [app publishEvents] in *. unfold mbind, M_bind in *. destruct (publishEvent pool ev p) as [[[r|]|e] p1]; try done. by apply IH.
Qed.

Lemma PublishStream_run evs p k c :
  ready p k c -> Forall event_ok evs -> p_seqCounter p + 2 * Z.of_nat (length evs) < 2 ^ 64 ->
  exists k' p' fs items n', PublishStream pool (evs ++ [InputClosed]) p =
      (Ok (Some (Ok tt, Some (conn_close (emit c (fs ++ [closeFrame (p_sessionID p)]))))), p') /\
    session_frames (p_sessionID p) k (p_seqCounter p) items fs k' n' /\
    items.*2 = published (p_untaggedInput p) evs.
Proof.
  intros Hr Hev Hn. destruct (publishEvents_run pool evs p k c Hr Hev Hn) as (k' & p1 & fs & items & E & Hfs & Hit & Hr1 & Hsid & _).
  destruct (ready_key _ _ _ Hr1) as [_ Hop]. pose proof Hr1 as (Hp1 & _ & Hc1 & Hh1).
  unfold PublishStream. rewrite (bind_ok _ _ _ _ _ (publishEvents_end evs p p1 E)).
  destruct (Wipe (p_replayBuffer p1) (p_mem p1)) as [rb m] eqn:EW.
  eexists k', _, fs, items, _. split; [|split; [exact Hfs|exact Hit]].
  unfold mbind, M_bind, ClosePublisher. rewrite Hop, Hc1. cbn [fmap option_fmap option_map].
  rewrite conn_encode_healthy; [|apply length_stalePool|apply small_frame_ok; [apply (pi_sid p1 Hp1)|cbn; lia]|done].
  rewrite EW, Hsid. fold (closeFrame (p_sessionID p)). cbn [snd]. rewrite <- emit_one, emit_emit. reflexivity.
Qed.

(** What the publisher's process does in a piped session. *)
Lemma publishSession_run cfg io evs pub pub' subMsg pubMsg key k nonce p rest :
  pub_inv p -> p_cipher p = Some (mkCipher (Some k) (Some k)) -> p_seqCounter p = 0 -> p_masterKey p = Some k ->
  p_pakePeer p = Some pub -> pk_pubBytes pub = None -> length k = KeySize ->
  Update subMsg (io_rnd io) pub = (Ok tt, pub') -> pk_pubBytes pub' = Some pubMsg -> pk_sharedKey pub' = Some key ->
  length key = KeySize -> pk_role pub' = 1 -> length subMsg = UniformWireMsgSize -> length pubMsg = UniformWireMsgSize ->
  io_nonce io = Some nonce -> length nonce = Cipher.NonceSize ->
  pc_file cfg = [] -> io_terminal io = false -> io_events io = evs ++ [InputClosed] ->
  Forall event_ok evs -> 2 * Z.of_nat (length evs) < 2 ^ 64 ->
  let sid := p_sessionID p in
  let c := mkConn (reader_of (frame_bytes (initFrame sid subMsg) ++ frame_bytes (confirmFrame sid key)) ++ rest) [] [] false in
  exists k' fs items n' p' conn, publishSession cfg io None (Some c) p = (Ok (Some conn), p') /\
    c_out conn = frame_bytes (initPubFrame sid) ++ concat (frame_bytes <$> step2Frame sid pubMsg nonce key k :: fs ++ [closeFrame sid]) /\
    session_frames sid k 0 items fs k' n' /\ items.*2 = published true evs.
Proof.
  intros Hp Hci Hsq Hmk Hpeer Hpb Hk HU Hpm Hkey Hkl Hrole Hls Hlp Hno Hln Hfile Hterm Hevs Hev Hn sid c.
  pose proof (pi_sid p Hp) as Hs16. fold sid in Hs16.
  unfold publishSession. rewrite (bind_ok _ _ p tt (set_conn (Some (emit c [initPubFrame sid])) p))
    by (unfold wrapError; by rewrite (Connect_run (io_rnd io) p pub c)).
  set (p1 := set_conn _ p). set (c1 := emit c [initPubFrame sid]) in *.
  destruct (publisher_handshake pool pub pub' (io_rnd io) nonce sid subMsg pubMsg key k p1 c1 [] rest)
    as (p2 & E2 & Hc2 & Hm2 & Hci2); try done.
  { cbn. lia. }
  { cbn [c1 emit c_in c app fmap list_fmap concat]. by rewrite app_nil_r. }
  rewrite (bind_ok _ _ p1 tt p2) by (unfold wrapError; rewrite Hno; by rewrite E2).
  rewrite Hfile, bool_decide_true by done. cbn [negb]. rewrite bind_modify, Hterm. cbn [negb].
  set (p3 := SetUntaggedInput true p2). set (c2 := mkConn rest _ [] false) in Hc2.
  pose proof (same_session_handshake (io_rnd io) (Some nonce) p1) as (Hsid2 & Hsq2 & _).
  pose proof (preserves_CompleteHandshake pool (io_rnd io) (Some nonce) p1 (pub_inv_conn _ p Hp)) as Hp2.
  rewrite E2 in Hsid2, Hsq2, Hp2. cbn [snd p1 set_conn p_sessionID p_seqCounter] in Hsid2, Hsq2, Hp2.
  assert (Hr3 : ready p3 k c2).
  { split; [by destruct Hp2|]. cbn [p3 SetUntaggedInput p_cipher p_conn]. by rewrite Hci2. }
  destruct (PublishStream_run evs p3 k c2 Hr3 Hev) as (k' & p4 & fs & items & n' & E4 & Hfs & Hit).
  { cbn [p3 SetUntaggedInput p_seqCounter]. rewrite Hsq2, Hsq. lia. }
  cbn [p3 SetUntaggedInput p_sessionID p_seqCounter p_untaggedInput] in E4, Hfs, Hit. rewrite Hsid2 in E4, Hfs.
  rewrite Hsq2, Hsq in Hfs. fold sid in E4, Hfs.
  eexists k', fs, items, n', p4, _. split; [|split; [|split; [exact Hfs|exact Hit]]].
  - rewrite Hevs. unfold mbind, M_bind, wrapError. fold p3. rewrite E4. reflexivity.
  - cbn [conn_close emit c_out c2 c1 c app]. rewrite fmap_cons. cbn [concat fmap list_fmap]. by rewrite app_nil_r, <- app_assoc.
Qed.

(** What the subscriber's process does. *)
Lemma subscribeSession_run fuel rs atts sub sub' subMsg pubMsg nonce key k fs items k' n' s rest :
  s_pakePeer s = Some sub -> pk_pubBytes sub = Some subMsg -> length subMsg = UniformWireMsgSize ->
  (forall rnd, Update pubMsg rnd sub = (Ok tt, sub')) -> pk_sharedKey sub' = Some key ->
  length key = KeySize -> pk_role sub' = 2 -> length pubMsg = UniformWireMsgSize ->
  length k = KeySize -> length nonce = Cipher.NonceSize -> s_lastSeqNum s = 0 ->
  let sid := s_sessionID s in
  length sid = 16%nat -> session_frames sid k 0 items fs k' n' -> (length fs < fuel)%nat ->
  let c := mkConn (reader_of (concat (frame_bytes <$> step2Frame sid pubMsg nonce key k :: fs ++ [closeFrame sid])) ++ rest) [] [] false in
  exists s' c', subscribeSession fuel rs atts None (Some c) s = (Ok tt, s') /\ s_conn s' = Some c' /\
    (frame_bytes (initFrame sid subMsg) ++ frame_bytes (confirmFrame sid key)) `prefix_of` c_out c' /\
    s_view s' = deliver_all unmarshal fs_create fs_write items.*2 (s_view s).
Proof.
  intros Hpeer Hpb Hls HU Hkey Hkl Hrole Hlp Hk Hln Hlast sid Hs16 Hfs Hf c.
  unfold subscribeSession. rewrite (bind_ok _ _ s tt (sub_conn (Some (emit c [initFrame sid subMsg])) s))
    by (unfold wrapError; by rewrite (SubConnect_run rs s sub subMsg c)).
  set (s1 := sub_conn _ s). set (c1 := emit c [initFrame sid subMsg]) in *.
  destruct (subscriber_handshake pool sub sub' rs nonce sid pubMsg key k s1 c1
    (reader_of (concat (frame_bytes <$> fs ++ [closeFrame sid])) ++ rest)) as (s2 & E2 & Hk2 & Hc2 & Hl2 & Hv2); try done.
  { cbn [c1 emit c_in c]. rewrite fmap_cons. cbn [concat]. by rewrite reader_of_app, <- app_assoc. }
  rewrite (bind_ok _ _ s1 tt s2) by (unfold wrapError; by rewrite E2).
  destruct (subscribe_session pool unmarshal fs_create fs_write _ _ _ _ _ _ _ Hfs Hs16 ltac:(lia) s2 Hk2 ltac:(rewrite Hl2; cbn; lia))
    as (s3 & E3 & Hrec & Hk3 & Hl3 & Hv3).
  destruct (subscribe_more pool unmarshal fs_create fs_write fs [closeFrame sid] s2 s3 E3) as [E4 _].
  assert (Ec : subFrames [closeFrame sid] s3 = (Ok (Some (Ok tt)), sub_backoff initialBackoff s3)) by done.
  rewrite Ec in E4.
  destruct (SubscribeStream_run (fs ++ [closeFrame sid]) rest atts (Ok tt) s2 _
    (sub_backoff initialBackoff s3) fuel Hc2 eq_refl eq_refl) as (c5 & E5 & Hpre);
    [|exact E4|rewrite length_app; cbn; lia|].
  { apply Forall_app. split; [by eapply session_frames_ok|]. constructor; [|constructor]. apply small_frame_ok; [done|cbn; lia]. }
  exists (sub_conn (Some c5) (sub_backoff initialBackoff s3)), c5. split; [unfold ignore, wrapError; by rewrite E5|].
  split; [done|]. split; [|by rewrite Hv2 in Hv3]. cbn [c1 emit c_out c app fmap list_fmap concat] in Hpre.
  by rewrite app_nil_r in Hpre.
Qed.

(** Text messages reach the output sanitised, one write each. *)
Lemma deliver_all_text l v :
  v_output (deliver_all unmarshal fs_create fs_write ((TagText ::.) <$> l) v) = v_output v ++ (sanitizeTextOutput <$> l).
Proof.
  revert v. induction l as [|x l IH]; intros v; [by rewrite app_nil_r|].
  rewrite !fmap_cons. unfold deliver_all in *. cbn [foldl]. rewrite IH.
  change (fst (deliver unmarshal fs_create fs_write (TagText :: x) v)) with (output (sanitizeTextOutput x) v).
  unfold output. cbn [v_output]. by rewrite <- app_assoc.
Qed.

Lemma pipedInput_chunks reads : Forall (fun x => x <> []) (pipedInput reads) /\ concat (pipedInput reads) = pipedBytes reads.
Proof.
  induction reads as [|[[|b data] []] reads [IH1 IH2]]; cbn [pipedInput pipedBytes]; [by split|by split|by split| |].
  - split; [by constructor|]. by rewrite app_nil_r.
  - split; [by constructor|]. cbn [app concat]. by rewrite IH2.
Qed.

Lemma published_inputs evs : Forall (fun x => x <> []) (inputs evs) -> published true evs = (TagText ::.) <$> inputs evs.
Proof.
  induction evs as [|[| | |[|b l] now rnd] evs IH]; [done|exact IH..| |].
  - by intros [? _]%Forall_cons.
  - intros [_ Hf]%Forall_cons. change (inputs (Input (b :: l) now rnd :: evs)) with ((b :: l) :: inputs evs).
    change (published true (Input (b :: l) now rnd :: evs)) with ((TagText :: b :: l) :: published true evs).
    by rewrite (IH Hf).
Qed.

Lemma concat_sanitized l :
  Forall (fun b => c0_control b = false) (concat l) -> concat (sanitizeTextOutput <$> l) = concat l.
Proof.
  induction l as [|x l IH]; [done|]. cbn. intros [Hx Hl]%Forall_app. rewrite IH by done.
  f_equal. by apply sanitize_loop_id.
Qed.
End Session.

(** * Properties *)

(** C16: A run that no signal interrupts leaves no secret behind.  Whatever the
    arguments, the environment, the files, the sockets and the randomness, and
    wherever [runPublish] and [runSubscribe] return (flag errors, failed dials and
    handshakes, stream errors included): when [main] exits, a publisher or
    subscriber engine that was created is closed and holds no passphrase, no key, no
    PAKE state and no buffered message, the subscriber no connection either.  A
    signal runs [Close] beside the stream; what holds then is in PubThreads.v and
    SubThreads.v. *)
Theorem exit_wipes `{AEAD} `{KeyExchange} pool marshal unmarshal fs_create fs_write fuel w args io rnd atts dq dt m :
  owned m [] ->
  (forall p, snd (mainPublish pool marshal w args io dq dt m) = Some p ->
     p_closed p = true /\ p_passphrase p = None /\ p_masterKey p = None /\ p_cipher p = None /\ p_pakePeer p = None /\
     abs (p_replayBuffer p) (p_mem p) = []) /\
  (forall s, snd (mainSubscribe pool unmarshal fs_create fs_write fuel w args rnd atts dq dt m) = Some s ->
     s_closed s = true /\ s_passphrase s = None /\ s_pakePeer s = None /\ s_cipher s = None /\ s_conn s = None /\
     abs (s_ringBuffer s) (s_mem s) = []).
Proof.
  intros Ho. split.
  - intros p. unfold mainPublish. pose proof (runPublish_inv pool marshal w args io dq dt m) as Hinv.
    destruct (runPublish _ _ _ _ _ _ _ _) as [r [p0|]]; [|done]. cbn. intros [= <-].
    specialize (Hinv p0 Ho eq_refl). pose proof (preserves_ClosePublisher pool p0 Hinv) as [_ Hk _ _ _ Hcl].
    assert (Hc : p_closed (snd (ClosePublisher pool p0)) = true).
    { unfold ClosePublisher. destruct (p_closed p0) eqn:E; [done|]. by destruct (Wipe _ _). }
    unfold key_inv in Hk. rewrite Hc in Hk. naive_solver.
  - intros s. unfold mainSubscribe. pose proof (runSubscribe_open pool unmarshal fs_create fs_write fuel w args rnd atts dq dt m) as Hinv.
    destruct (runSubscribe _ _ _ _ _ _ _ _ _ _ _ _) as [r [s0|]]; [|done]. cbn. intros [= <-].
    destruct (Hinv s0 Ho eq_refl) as [Hc Hr]. unfold CloseSubscriber. rewrite Hc.
    pose proof (Wipe_spec _ _ _ Hr) as HW. destruct (Wipe _ _) as [rb m']. cbn. naive_solver.
Qed.

(** C2: From standard input to standard output.  A publisher process and a
    subscriber process are started with any arguments that give them the same code,
    the publisher with its input piped in.  Whatever randomness they draw, whatever
    sizes the reads of the pipe have and wherever heartbeats and key ratchets fall:
    the publisher, reading what the subscriber writes (and then anything), exits
    without an error, and the subscriber, reading what the publisher writes after its
    init frame (and then anything), exits without an error.  What the subscriber prints are the chunks of the pipe in order, each sanitised; a pipe
    free of control characters comes out byte for byte. *)
Theorem piped_session `{AEAD} `{KeyExchange} pool marshal unmarshal fs_create fs_write
    w1 args1 pcfg io k nonce evs m1 w2 args2 scfg rs m2 pub sub reads :
  publishConfig w1 args1 = Ok pcfg -> subscribeConfig w2 args2 = Ok scfg ->
  sc_code scfg = pc_code pcfg -> pc_file pcfg = [] ->
  NewPAKEPublisher (pc_code pcfg) (io_rnd io) = Ok pub -> NewPAKESubscriber (sc_code scfg) rs = Ok sub ->
  r_pad (io_rnd io) <> None -> owned m1 [] ->
  io_key io = Some k -> length k = KeySize -> io_nonce io = Some nonce -> length nonce = Cipher.NonceSize ->
  io_terminal io = false -> io_events io = evs ++ [InputClosed] -> inputs evs = pipedInput reads ->
  Forall event_ok evs -> 2 * Z.of_nat (length evs) < 2 ^ 64 ->
  exists toPub, forall restP, exists toSub,
    (exists p conn,
       runPublish pool marshal w1 args1 io None (Some (mkConn (reader_of toPub ++ restP) [] [] false)) m1 = (Ok (Some conn), Some p) /\
       c_out conn = frame_bytes (initPubFrame (DeriveSessionID (pc_code pcfg))) ++ toSub) /\
    (exists fuel0, forall restS atts fuel, (fuel0 <= fuel)%nat -> exists s conn,
       runSubscribe pool unmarshal fs_create fs_write fuel w2 args2 rs atts None
         (Some (mkConn (reader_of toSub ++ restS) [] [] false)) m2 = (Ok tt, Some s) /\
       s_conn s = Some conn /\ toPub `prefix_of` c_out conn /\
       v_output (s_view s) = sanitizeTextOutput <$> pipedInput reads /\
       (Forall (fun b => c0_control b = false) (pipedBytes reads) -> concat (v_output (s_view s)) = pipedBytes reads)).
Proof.
  intros EC1 EC2 Ecode Hfile HP HS Hpad Ho Ekey Hk Eno Hno Hterm Hevs Hin Hev Hn.
  rewrite Ecode in HS. destruct (pake_honest _ _ _ _ _ HP HS Hpad) as
    (subMsg & pubMsg & pub' & sub' & key & H1 & H2 & H3 & H4 & H5 & H6 & Kp & Ks & Hkl & Rp & Rs).
  set (sid := DeriveSessionID (pc_code pcfg)). pose proof (length_DeriveSessionID (pc_code pcfg)) as Hs16. fold sid in Hs16.
  assert (EN : NewPublisherEngine (pc_code pcfg) (io_rnd io) (io_key io) (io_now io) m1 = Ok
    (mkPublisher (Some (pc_code pcfg)) (Some k) sid (Some pub) (Some (mkCipher (Some k) (Some k))) None
      0 (NewRingBuffer 100) None [] ModeTCP (CalculateSAS k) 0 (io_now io)
      DefaultRekeyByteThreshold DefaultRekeyTimeThreshold false false m1)).
  { unfold NewPublisherEngine. rewrite HP, Ekey. cbn [result_bind]. by rewrite NewCipher_ok. }
  pose proof (NewPublisherEngine_inv _ _ _ _ _ _ Ho EN) as [Hp _]. set (p0 := mkPublisher _ _ _ _ _ _ _ _ _ _ _ _ _ _ _ _ _ _ _) in *.
  pose proof (NewPAKEPublisher_inv _ _ _ HP) as [sk Epub].
  assert (Hpb : pk_pubBytes pub = None) by (by rewrite Epub).
  set (p1 := setupPublisher pcfg p0).
  assert (Hset : p_sessionID p1 = sid /\ p_cipher p1 = Some (mkCipher (Some k) (Some k)) /\ p_seqCounter p1 = 0 /\
    p_masterKey p1 = Some k /\ p_pakePeer p1 = Some pub).
  { unfold p1, setupPublisher. by destruct (bool_decide _), (pc_quic pcfg). }
  destruct Hset as (Es1 & Ec1 & Eq1 & Em1 & Ep1).
  pose proof (fun rest => publishSession_run pool marshal pcfg io evs pub pub' subMsg pubMsg key k nonce p1 rest
    (setupPublisher_inv pcfg p0 Hp) Ec1 Eq1 Em1 Ep1 Hpb Hk H2 H3 Kp Hkl Rp H5 H6 Eno Hno Hfile Hterm Hevs Hev Hn) as Hpub.
  cbv zeta in Hpub. rewrite Es1 in Hpub.
  exists (frame_bytes (initFrame sid subMsg) ++ frame_bytes (confirmFrame sid key)). intros restP.
  destruct (Hpub restP) as (k' & fs & items & n' & p' & conn & E & Eo & Hfs & Hit).
  exists (concat (frame_bytes <$> step2Frame sid pubMsg nonce key k :: fs ++ [closeFrame sid])). split.
  { exists p', conn. split; [|exact Eo]. unfold runPublish. rewrite EC1, EN. fold p1. by rewrite E. }
  exists (S (length fs)). intros restS atts fuel Hf.
  assert (ES : NewSubscriberEngine (sc_code scfg) rs m2 = Ok (mkSubscriber (Some (pc_code pcfg)) sid (Some sub) None None
    (NewRingBuffer 100) 0 [] ModeTCP ([], []) false m2 initialBackoff emptyView)).
  { unfold NewSubscriberEngine. by rewrite Ecode, HS. }
  set (s0 := mkSubscriber _ _ _ _ _ _ _ _ _ _ _ _ _ _) in ES.
  destruct (setupSubscriber_same scfg s0) as (_ & _ & _ & Sid & Speer & Slast & Sview).
  destruct (subscribeSession_run pool unmarshal fs_create fs_write fuel rs atts sub sub' subMsg pubMsg nonce key k fs items k' n'
    (setupSubscriber scfg s0) restS) as (s' & c' & Es & Ec' & Hpre & Hv); try done; [by rewrite Sid..|].
  rewrite Sid in Es, Hpre. rewrite Sview in Hv. change (s_sessionID s0) with sid in *.
  exists s', c'. split; [unfold runSubscribe; rewrite EC2, ES; by rewrite Es|]. split; [done|]. split; [exact Hpre|].
  destruct (pipedInput_chunks reads) as [Hne Hcat].
  assert (Hout : v_output (s_view s') = sanitizeTextOutput <$> pipedInput reads).
  { rewrite Hv, Hit, published_inputs, Hin by (by rewrite Hin). by rewrite deliver_all_text. }
  split; [done|]. intros Hcl. rewrite Hout, concat_sanitized by (by rewrite Hcat). done.
Qed.

(** ** A concrete session *)

Definition pipeWorld : world :=
  mkWorld [] [] (fun _ => None) (fun _ => Some tt) (str "generated-code") (fun _ => Some 0).
Definition pipeArgs : list bytes := [str "-c"; str "amber-code"; str "-r"; str "relay.example:8443"].
Definition pipeIO (events : list stream_event) : publish_io :=
  mkPublishIO (mkPakeRand (Some [x05]) None [x07] (Some [x01])) (Some (zeros 32)) 0 (Some (zeros 12)) None [] (0, None) (0, None)
    false events.
Definition pipeEvents : list stream_event := [Input (str "hello ") 0 (Some (zeros 12)); HeartbeatTick; Input (str "world") 0 (Some (zeros 12))].
Definition pipeReads : list (bytes * bool) := [(str "hello ", false); ([], false); (str "world", true)].
Definition pipePub : publish_config :=
  mkPublishConfig (str "amber-code") false (str "relay.example:8443") [] 0 (2 ^ 30) 0 [] false false (mkLog FormatText LevelInfo false).
Definition pipeSubCfg : subscribe_config :=
  mkSubscribeConfig (str "amber-code") (str "relay.example:8443") false [] false (mkLog FormatText LevelInfo false).
Definition pipeSub : PakeRand := mkPakeRand (Some [x0b]) (Some [x0d]) [] (Some []).

(** No relay answers: exit status 1, and nothing is left. *)
Lemma exit_wipes_witness :
  fst (mainPublish [] demoMarshal pipeWorld pipeArgs (pipeIO []) None None emptyMem) = 1 /\
  exists p, snd (mainPublish [] demoMarshal pipeWorld pipeArgs (pipeIO []) None None emptyMem) = Some p /\
    p_closed p = true /\ p_passphrase p = None /\ p_masterKey p = None /\ p_cipher p = None /\ p_pakePeer p = None /\
    abs (p_replayBuffer p) (p_mem p) = [].
Proof.
  split; [vm_compute; reflexivity|].
  destruct (snd (mainPublish [] demoMarshal pipeWorld pipeArgs (pipeIO []) None None emptyMem)) as [p|] eqn:E.
  - exists p. split; [done|].
    exact (proj1 (exit_wipes [] demoMarshal (fun _ => None) (fun _ => true) length 0 pipeWorld pipeArgs (pipeIO []) pipeSub []
      None None emptyMem owned_empty) p E).
  - exfalso. vm_compute in E. discriminate E.
Defined.

Lemma piped_session_witness :
  (exists toPub, forall restP, exists toSub,
    (exists p conn,
       runPublish [] demoMarshal pipeWorld pipeArgs (pipeIO (pipeEvents ++ [InputClosed])) None
         (Some (mkConn (reader_of toPub ++ restP) [] [] false)) emptyMem = (Ok (Some conn), Some p) /\
       c_out conn = frame_bytes (initPubFrame (DeriveSessionID (pc_code pipePub))) ++ toSub) /\
    (exists fuel0, forall restS atts fuel, (fuel0 <= fuel)%nat -> exists s conn,
       runSubscribe [] (fun _ => None) (fun _ => true) length fuel pipeWorld pipeArgs pipeSub atts None
         (Some (mkConn (reader_of toSub ++ restS) [] [] false)) emptyMem = (Ok tt, Some s) /\
       s_conn s = Some conn /\ toPub `prefix_of` c_out conn /\
       v_output (s_view s) = sanitizeTextOutput <$> pipedInput pipeReads /\
       (Forall (fun b => c0_control b = false) (pipedBytes pipeReads) -> concat (v_output (s_view s)) = pipedBytes pipeReads))) /\
  pipedBytes pipeReads = str "hello world".
Proof.
  split; [|reflexivity].
  destruct (NewPAKEPublisher (pc_code pipePub) (io_rnd (pipeIO (pipeEvents ++ [InputClosed])))) as [pub|] eqn:EP;
    [|vm_compute in EP; discriminate EP].
  destruct (NewPAKESubscriber (sc_code pipeSubCfg) pipeSub) as [sub|] eqn:ES; [|vm_compute in ES; discriminate ES].
  refine (piped_session [] demoMarshal (fun _ => None) (fun _ => true) length pipeWorld pipeArgs pipePub
    (pipeIO (pipeEvents ++ [InputClosed])) (zeros 32) (zeros 12) pipeEvents emptyMem pipeWorld pipeArgs pipeSubCfg pipeSub emptyMem
    pub sub pipeReads _ _ _ _ EP ES _ owned_empty _ _ _ _ _ _ _ _ _).
  1-4, 6-12, 14: (vm_compute; reflexivity).
  { discriminate. }
  repeat constructor; try (vm_compute; congruence); eexists; (split; [reflexivity|done]).
Defined.
