(* ===== verification/SubThreads.v ===== *)
(** * The subscriber's stream against [Close]: [pkg/feed/subscriber.go] under interleaving

    While [SubscribeStream] runs, other goroutines may call [Close] on the same
    engine: the one it starts for the end of its context, the signal handler's
    [WipeAll], the exit wipe.  [Close] holds [mu] from beginning to end, so it falls
    between two steps of the stream, which are cut wherever the code takes [mu],
    reads a shared field without it, or enters the connection, the cipher, the PAKE
    peer or the ring buffer.  (Where a step needs no lock, [Close] may be half done;
    the order in which it closes things makes that the same as [Close] entirely
    before or after the step.)

    The stream is a [prog]: a tree of steps over the engine of Subscriber.v.
    [exec] runs it with [Close] coming at any of the places between steps. *)

From S2P Require Import Prelude Protocol Memory RingBuffer Hash Aead Cipher Pake Engine Sanitize Files Publisher Subscriber Feed Invite Dial Cli FileTransfer Session.

(** ** Programs of steps *)

Inductive prog (A : Type) : Type :=
  | Ret (a : A)
  | Panic                       (** nil dereference: the process is gone *)
  | Act {B : Type} (f : SubscriberEngine -> B * SubscriberEngine) (k : B -> prog A).
Arguments Ret {A} a.
Arguments Panic {A}.
Arguments Act {A B} f k.

Fixpoint pbind {A B} (m : prog A) (k : A -> prog B) : prog B :=
  match m with
  | Ret a => k a
  | Panic => Panic
  | Act f k' => Act f (fun b => pbind (k' b) k)
  end.

(** Programs that may return an error. *)
Definition T (A : Type) : Type := prog (result feed_error A).

#[global] Instance T_ret : MRet T := fun A a => Ret (Ok a).
#[global] Instance T_bind : MBind T := fun A B k m =>
  pbind m (fun r => match r with Ok a => k a | Err e => Ret (Err e) end).

Definition tfail {A} (e : feed_error) : T A := Ret (Err e).
Definition tlift {E A} (wrapErr : E -> feed_error) (r : result E A) : T A :=
  Ret (match r with Ok a => Ok a | Err e => Err (wrapErr e) end).
Definition tattempt {A} (m : T A) : T (result feed_error A) := pbind m (fun r => Ret (Ok r)).
Definition tignore {A} (m : T A) : T unit := pbind m (fun _ => Ret (Ok tt)).
Definition tonError {A} (m : T A) (cleanup : T unit) : T A :=
  pbind m (fun r => match r with Ok a => Ret (Ok a) | Err e => pbind cleanup (fun _ => Ret (Err e)) end).

(** One step; [FPanic] ends the process. *)
Definition stepped {A} (r : result feed_error A) : T A := match r with Err FPanic => Panic | r => Ret r end.
Definition step {A} (m : M SubscriberEngine feed_error A) : T A := Act m stepped.

(** ** The stream, step by step *)

(** What is behind pointers obtained earlier: the engine's connection and cipher, or
    closed ones once [Close] has dropped them. *)
Definition closedConn : Conn := mkConn [] [] [] true.
Definition cipherNow (s : SubscriberEngine) : Cipher := default (mkCipher None None) (s_cipher s).

Section Stream.
Context {aeadI : AEAD} {kexI : KeyExchange}.
Variable pool : bytes.
Variable unmarshal : bytes -> option FileHeader.
Variable fs_create : bytes -> bool.
Variable fs_write : bytes -> nat.

Abbreviation SM := (M SubscriberEngine feed_error).

(** [protocol.Decode(conn)] and [protocol.Encode(conn, env)] on a connection
    obtained earlier. *)
Definition decodeHeld : SM Envelope := fun s =>
  match s_conn s with
  | Some _ => subDecode s
  | None => (match fst (conn_decode closedConn) with Ok env => Ok env | Err e => Err (FErrDecode e) end, s)
  end.
Definition encodeHeld (env : Envelope) : SM unit := fun s =>
  match s_conn s with
  | Some _ => subEncode pool env s
  | None => (fst (conn_encode (stalePool pool) env closedConn), s)
  end.

(** subscriber.go:138-150: one section of [mu]. *)
Definition connSection (conn : Conn) (rnd : PakeRand) : SM unit :=
  modify (sub_conn (Some conn));;
  pakePeer ← gets s_pakePeer;
  match pakePeer with
  | Some _ => mret tt
  | None =>
      pass ← gets s_passphrase;
      peer ← lift FErrCrypto (NewPAKESubscriber (default [] pass) rnd);
      modify (sub_pake (Some peer))
  end.

(** subscriber.go:112-165 *)
Definition tConnect (dialQUIC dialTCP : option Conn) (rnd : PakeRand) : T unit :=
  tMode ← step (gets s_transportMode);
  match subDial tMode dialQUIC dialTCP with
  | None => tfail FErrDial
  | Some conn =>
      tonError (step (connSection conn rnd)) (step subCloseConn);;
      env ← step (gets (fun s => mkEnvelope Version MsgTypePAKEInitSub (s_sessionID s) zeroNonce
                                   (default [] (Bytes (s_pakePeer s)))));
      tonError (step (encodeHeld env)) (step subCloseConn)
  end.

(** [s.pakePeer.SessionKey()]; the receiver must not be nil. *)
Definition sessionKeyNow : SM bytes := fun s =>
  match s_pakePeer s with
  | None => (Err FPanic, s)
  | Some peer => lift FErrCrypto (SessionKey peer) s
  end.

(** subscriber.go:174-256 *)
Definition tCompleteHandshake (rnd : PakeRand) : T unit :=
  conn ← step (gets s_conn);
  match conn with
  | None => tfail FErrConnNil
  | Some _ =>
      env ← step decodeHeld;
      if bool_decide (env_MsgType env = MsgTypeClose) then tfail FErrSessionClosed
      else if Z_of_byte (env_Version env) <? Z_of_byte MinSupportedVersion then tfail FErrVersion
      else if (length (env_Payload env) <? UniformWireMsgSize + 60 + 32)%nat then tfail FErrResponseSize
      else
        let pakeBytes := take UniformWireMsgSize (env_Payload env) in
        let wrappedKeyPayload := slice UniformWireMsgSize (UniformWireMsgSize + 60) (env_Payload env) in
        let pubConfirmTag := slice (UniformWireMsgSize + 60) (UniformWireMsgSize + 60 + 32) (env_Payload env) in
        step (subPakeUpdate pakeBytes rnd);;
        step (peer ← gets s_pakePeer; lift FErrCrypto (VerifyPeerConfirm peer pubConfirmTag));;
        subConfirmTag ← step (peer ← gets s_pakePeer; lift FErrCrypto (ConfirmTag peer));
        sid ← step (gets s_sessionID);
        step (encodeHeld (mkEnvelope Version MsgTypeKeyConfirm sid zeroNonce subConfirmTag));;
        p2pKey ← step sessionKeyNow;
        masterSessionKey ← tlift FErrCrypto (UnwrapSessionKey p2pKey wrappedKeyPayload);
        ciph ← tlift FErrCrypto (NewCipher masterSessionKey);
        step (modify (sub_cipher (Some ciph) (CalculateSAS masterSessionKey)))
  end.

(** A frame on the engine's connection, if there is one: [sendAckFrame] and
    [SendSyncRequest] (subscriber.go:33-45, 273-295). *)
Definition tSend (mk : SubscriberEngine -> Envelope) : T unit :=
  r ← step (gets (fun s => (s_conn s, mk s)));
  match r with
  | (None, _) => tfail FErrConnNil
  | (Some _, env) => step (encodeHeld env)
  end.

Definition tSendAckFrame (transferID : bytes) : T unit :=
  tSend (fun s => mkEnvelope Version MsgTypeChunkAck (s_sessionID s) zeroNonce transferID).
Definition tSendSyncRequest : T unit :=
  tSend (fun s => mkEnvelope Version MsgTypeSyncReq (s_sessionID s) zeroNonce (be_bytes 8 (s_lastSeqNum s))).

(** subscriber.go:564-609: as [reconnectLoop], at most [retries] attempts; the list of
    attempts ends where the context does, which ends the Go loop. *)
Fixpoint tReconnectLoop (retries : nat) (atts : list Attempt) : T (bool * list Attempt) :=
  match retries with
  | O => mret (false, atts)
  | S retries' =>
      match atts with
      | [] => mret (false, [])
      | att :: atts' =>
          step (modify (fun s => sub_backoff (nextBackoff (s_backoff s)) s));;
          opass ← step (gets s_passphrase);
          match opass with
          | None => mret (false, atts')
          | Some pass =>
              match NewPAKESubscriber pass (at_rnd att) with
              | Err _ => tReconnectLoop retries' atts'
              | Ok pakePeer =>
                  step (modify (sub_pake (Some pakePeer)));;
                  r ← tattempt (tConnect (at_quic att) (at_tcp att) (at_rnd att));
                  match r with
                  | Err _ => tReconnectLoop retries' atts'
                  | Ok _ =>
                      r ← tattempt (tCompleteHandshake (at_rnd att));
                      match r with
                      | Err _ => step (modify (sub_conn None));; tReconnectLoop retries' atts'
                      | Ok _ => tignore tSendSyncRequest;; mret (true, atts')
                      end
                  end
              end
          end
      end
  end.

(** subscriber.go:366-403 *)
Definition updateSection (nextKey : bytes) : SM unit := fun s =>
  match s_cipher s with
  | None => (Err FPanic, s)
  | Some ciph =>
      (Ok tt, sub_cipher (Some (match UpdateKey ciph nextKey with Ok c => c | Err _ => ciph end)) (CalculateSAS nextKey) s)
  end.

Definition tRekey (env : Envelope) : T (option (result feed_error unit)) :=
  if (length (env_Payload env) <? 8)%nat then mret None
  else
    oc ← step (gets s_cipher);
    match oc with
    | None => mret None
    | Some _ =>
        r ← step (gets (fun s => openFrame (cipherNow s) env));
        match r with
        | Err _ => mret (Some (Err FErrRekeyAuth))
        | Ok salt =>
            currKey ← step (gets (fun s => GetKey (cipherNow s)));
            match currKey with
            | None => mret None
            | Some currKey =>
                match RatchetKey currKey salt with
                | Err _ => mret None
                | Ok nextKey => step (updateSection nextKey);; mret None
                end
            end
        end
    end.

(** subscriber.go:405-546 *)
Definition seqSection (seqNum : Z) : SM bool := fun s =>
  if seqNum <=? s_lastSeqNum s then (Ok false, s) else (Ok true, sub_last seqNum s).

Definition tDeliver (seqNum : Z) (plaintext : bytes) : T unit :=
  step (modify (pushRing seqNum plaintext));;
  ack ← step (fun s => let (v, ack) := deliver unmarshal fs_create fs_write plaintext (s_view s) in (Ok ack, sub_view v s));
  match ack with
  | Some transferID => tignore (tSendAckFrame transferID)
  | None => mret tt
  end.

Definition tData (env : Envelope) : T (option (result feed_error unit)) :=
  if (length (env_Payload env) <? 8)%nat then mret None
  else
    let seqNum := be_val (slice 0 8 (env_Payload env)) in
    oc ← step (gets s_cipher);
    match oc with
    | None => mret None
    | Some _ =>
        r ← step (gets (fun s => openFrame (cipherNow s) env));
        match r with
        | Err _ => mret (Some (Err FErrAuth))
        | Ok plaintext =>
            fresh ← step (seqSection seqNum);
            if fresh : bool then tDeliver seqNum (unpadOrKeep plaintext);; mret None else mret None
        end
    end.

(** subscriber.go:356-546 *)
Definition tFrame (env : Envelope) : T (option (result feed_error unit)) :=
  step (modify (sub_backoff initialBackoff));;
  if bool_decide (env_MsgType env = MsgTypeClose) then mret (Some (Ok tt))
  else if bool_decide (env_MsgType env = MsgTypeHeartbeat) then mret None
  else if bool_decide (env_MsgType env = MsgTypeRekey) then tRekey env
  else if bool_decide (env_MsgType env = MsgTypeDataStream) then tData env
  else mret None.

(** subscriber.go:326-336; the connection read after a reconnection is used
    without a check. *)
Definition tEnsureConn (atts : list Attempt) : T (result (result feed_error unit) (list Attempt)) :=
  oconn ← step (gets s_conn);
  match oconn with
  | Some _ => mret (Ok atts)
  | None =>
      closed ← step (gets s_closed);
      if closed : bool then mret (Err (Ok tt))
      else
        '(reconnected, atts) ← tReconnectLoop 10 atts;
        if reconnected : bool then
          oconn ← step (gets s_conn);
          match oconn with Some _ => mret (Ok atts) | None => Panic end
        else mret (Err (Err FErrReconnect))
  end.

(** subscriber.go:298-550: [fuel] rounds of the loop, until the context ends. *)
Fixpoint tSubscribeStream (fuel : nat) (atts : list Attempt) : T (option (result feed_error unit)) :=
  match fuel with
  | O => mret None
  | S fuel' =>
      ready ← tEnsureConn atts;
      match ready with
      | Err r => mret (Some r)
      | Ok atts =>
          r ← tattempt (step decodeHeld);
          match r with
          | Err e =>
              closed ← step (gets s_closed);
              if closed : bool then mret (Some (Ok tt))
              else
                '(reconnected, atts) ← tReconnectLoop 10 atts;
                if reconnected : bool then tSubscribeStream fuel' atts else mret (Some (Err e))
          | Ok env =>
              r ← tFrame env;
              match r with
              | Some r => mret (Some r)
              | None => tSubscribeStream fuel' atts
              end
          end
      end
  end.
End Stream.

(** ** Runs *)

(** Before each step [Close] comes ([true]) or does not; when the list is used up it
    comes no more. *)
Fixpoint exec {A} (cs : list bool) (p : prog A) (s : SubscriberEngine) : option A * SubscriberEngine :=
  match p with
  | Ret a => (Some a, s)
  | Panic => (None, s)
  | Act f k =>
      let s := match cs with true :: _ => snd (CloseSubscriber s) | _ => s end in
      let (b, s) := f s in
      exec (List.tl cs) (k b) s
  end.

(** ** Without [Close] *)

Section Alone.
Context {aeadI : AEAD} {kexI : KeyExchange}.
Variable pool : bytes.
Variable unmarshal : bytes -> option FileHeader.
Variable fs_create : bytes -> bool.
Variable fs_write : bytes -> nat.

(** Left alone from [s], the program does what the computation does. *)
Definition alone {A} (p : T A) (m : M SubscriberEngine feed_error A) (s : SubscriberEngine) : Prop :=
  exec [] p s = (Some (m s).1, (m s).2).

Lemma exec_pbind {A B} (p : prog A) (k : A -> prog B) s :
  exec [] (pbind p k) s = match exec [] p s with (Some a, s') => exec [] (k a) s' | (None, s') => (None, s') end.
Proof. revert s. induction p as [a| |C f k' IH]; intros s; [done..|]. cbn. destruct (f s) as [b s']. apply IH. Qed.

Lemma alone_bind {A B} (p : T A) (k : A -> T B) m (l : A -> M SubscriberEngine feed_error B) s :
  alone p m s -> (forall a s', m s = (Ok a, s') -> alone (k a) (l a) s') -> alone (p ≫= k) (m ≫= l) s.
Proof.
  unfold alone. intros Hp Hk. unfold mbind, T_bind, M_bind. rewrite exec_pbind, Hp.
  destruct (m s) as [[a|e] s'] eqn:E; cbn [fst snd]; [by apply Hk|done].
Qed.

Lemma alone_step {A} (m : M SubscriberEngine feed_error A) s : (m s).1 <> Err FPanic -> alone (step m) m s.
Proof. unfold alone, step. cbn. destruct (m s) as [[a|[]] s']; done. Qed.

Lemma alone_ret {A} (a : A) s : alone (mret a) (mret a) s.
Proof. done. Qed.
Lemma alone_fail {A} e s : alone (tfail e : T A) (fail e) s.
Proof. done. Qed.
Lemma alone_lift {E A} (w : E -> feed_error) (r : result E A) s : alone (tlift w r) (lift w r) s.
Proof. unfold alone. by destruct r. Qed.
Lemma alone_attempt {A} (p : T A) m s : alone p m s -> alone (tattempt p) (attempt m) s.
Proof. unfold alone, tattempt, attempt. intros Hp. rewrite exec_pbind, Hp. by destruct (m s). Qed.
Lemma alone_ignore {A} (p : T A) m s : alone p m s -> alone (tignore p) (ignore m) s.
Proof. unfold alone, tignore, ignore. intros Hp. by rewrite exec_pbind, Hp. Qed.
Lemma alone_onError {A} (p : T A) c m d s :
  alone p m s -> (forall s', alone c d s') -> alone (tonError p c) (onError m d) s.
Proof.
  unfold alone, tonError, onError. intros Hp Hc. rewrite exec_pbind, Hp. destruct (m s) as [[a|e] s']; cbn; [done|].
  by rewrite exec_pbind, Hc.
Qed.
(** A computation with the same outcome. *)
Lemma alone_eq {A} (p : T A) m m' s : m s = m' s -> alone p m s -> alone p m' s.
Proof. unfold alone. by intros ->. Qed.

#[local] Hint Resolve alone_ret alone_fail alone_lift alone_attempt alone_ignore : zf.
#[local] Hint Extern 1 (alone (step _) _ _) => (apply alone_step; done) : zf.
Ltac alone_bind := refine (alone_bind _ _ _ _ _ _ _); [eauto with zf|intros ? ?].

(** The engine's connection and PAKE peer are there. *)
Definition connected (s : SubscriberEngine) : Prop := is_Some (s_conn s) /\ is_Some (s_pakePeer s).

Lemma decodeHeld_alone s : is_Some (s_conn s) -> alone (step decodeHeld) subDecode s.
Proof.
  intros [c Hc]. apply (alone_eq _ decodeHeld); [unfold decodeHeld; by rewrite Hc|]. apply alone_step.
  unfold decodeHeld. rewrite Hc. unfold subDecode. rewrite Hc. by destruct (conn_decode c) as [[]].
Qed.

Lemma encode_no_panic env s : (subEncode pool env s).1 <> Err FPanic.
Proof.
  unfold subEncode. destruct (s_conn s) as [c|]; [|done]. unfold conn_encode, conn_write.
  repeat case_match; simplify_eq; done.
Qed.

Lemma encodeHeld_alone env s : is_Some (s_conn s) -> alone (step (encodeHeld pool env)) (subEncode pool env) s.
Proof.
  intros [c Hc]. assert (E : encodeHeld pool env s = subEncode pool env s) by (unfold encodeHeld; by rewrite Hc).
  apply (alone_eq _ (encodeHeld pool env)); [done|]. apply alone_step. rewrite E. apply encode_no_panic.
Qed.

Lemma send_alone mk s :
  alone (tSend pool mk) (fun s => subEncode pool (mk s) s) s.
Proof.
  unfold tSend, alone, mbind, T_bind. cbn. destruct (s_conn s) as [c|] eqn:Hc.
  - change (alone (step (encodeHeld pool (mk s))) (subEncode pool (mk s)) s). by apply encodeHeld_alone; eexists.
  - unfold subEncode. by rewrite Hc.
Qed.

Definition greeting (s : SubscriberEngine) : Envelope :=
  mkEnvelope Version MsgTypePAKEInitSub (s_sessionID s) zeroNonce (default [] (Bytes (s_pakePeer s))).

Lemma SubConnect_steps dq dt rnd s :
  SubConnect pool dq dt rnd s =
  (tMode ← gets s_transportMode;
   match subDial tMode dq dt with
   | None => fail FErrDial
   | Some conn =>
       onError (connSection conn rnd) subCloseConn;;
       env ← gets greeting;
       onError (subEncode pool env) subCloseConn
   end) s.
Proof.
  unfold SubConnect. rewrite !bind_gets. destruct (subDial _ dq dt) as [conn|]; [|done].
  unfold connSection, subGreet, mbind, M_bind, modify, gets, mret, M_ret, onError, lift. cbn [fst snd].
  destruct (s_pakePeer _) as [peer|]; [done|]. by destruct (NewPAKESubscriber _ rnd).
Qed.

Lemma connSection_connected conn rnd s s1 : connSection conn rnd s = (Ok tt, s1) -> connected s1.
Proof.
  unfold connSection. rewrite bind_modify, bind_gets. destruct (s_pakePeer _) as [peer|] eqn:Hp.
  - intros [= <-]. split; [by eexists|]. rewrite Hp. by eexists.
  - unfold mbind, M_bind, gets, lift. destruct (NewPAKESubscriber _ rnd); [|done]. intros [= <-]. split; by eexists.
Qed.

Lemma encode_connected env s r s' : connected s -> subEncode pool env s = (r, s') -> connected s'.
Proof.
  intros [[c Hc] Hp] E. unfold subEncode in E. rewrite Hc in E. destruct (conn_encode _ _ _). simplify_eq. by split; [eexists|].
Qed.

(** A greeting leaves the engine connected, with a PAKE peer. *)
Lemma connect_alone dq dt rnd s : alone (tConnect pool dq dt rnd) (SubConnect pool dq dt rnd) s.
Proof.
  eapply alone_eq; [symmetry; apply SubConnect_steps|]. alone_bind. intros _. destruct (subDial _ dq dt) as [conn|]; [|done].
  refine (alone_bind _ _ _ _ _ _ _).
  - apply alone_onError; [|eauto with zf]. apply alone_step.
    unfold connSection, mbind, M_bind, modify, gets, lift, mret, M_ret. cbn. repeat case_match; by simplify_eq.
  - intros [] s1 E. unfold onError in E. destruct (connSection conn rnd _) as [[[]|] s2] eqn:Es; simplify_eq.
    apply connSection_connected in Es as [Hc _]. alone_bind. intros [= <- <-].
    apply alone_onError; [by apply encodeHeld_alone|eauto with zf].
Qed.

Lemma SubConnect_connected dq dt rnd s s' : SubConnect pool dq dt rnd s = (Ok tt, s') -> connected s'.
Proof.
  rewrite SubConnect_steps, bind_gets. destruct (subDial _ dq dt) as [conn|]; [|done].
  intros ([] & s1 & E1 & E2)%bind_inv. unfold onError in E1.
  destruct (connSection conn rnd s) as [[[]|] s2] eqn:Es; simplify_eq. apply connSection_connected in Es.
  rewrite bind_gets in E2. unfold onError in E2.
  destruct (subEncode pool _ _) as [[[]|] s2] eqn:Ee in E2; simplify_eq. by eapply encode_connected.
Qed.

Lemma pakeUpdate_connected payload rnd s r s' : connected s -> subPakeUpdate payload rnd s = (r, s') -> connected s'.
Proof.
  intros [Hc [peer Hp]] E. unfold subPakeUpdate in E. rewrite Hp in E. destruct (Update _ _ _). simplify_eq.
  by split; [|eexists].
Qed.

Lemma decode_connected s r s' : connected s -> subDecode s = (r, s') -> connected s'.
Proof.
  intros [[c Hc] Hp] E. unfold subDecode in E. rewrite Hc in E. destruct (conn_decode c). simplify_eq. by split; [eexists|].
Qed.

(** The second half of the handshake, reading the engine's PAKE peer each time. *)
Definition confirm_steps (wrappedKeyPayload pubConfirmTag : bytes) : M SubscriberEngine feed_error unit :=
  (peer ← gets s_pakePeer; lift FErrCrypto (VerifyPeerConfirm peer pubConfirmTag));;
  subConfirmTag ← (peer ← gets s_pakePeer; lift FErrCrypto (ConfirmTag peer));
  sid ← gets s_sessionID;
  subEncode pool (mkEnvelope Version MsgTypeKeyConfirm sid zeroNonce subConfirmTag);;
  p2pKey ← sessionKeyNow;
  masterSessionKey ← lift FErrCrypto (UnwrapSessionKey p2pKey wrappedKeyPayload);
  ciph ← lift FErrCrypto (NewCipher masterSessionKey);
  modify (sub_cipher (Some ciph) (CalculateSAS masterSessionKey)).

Lemma confirm_steps_eq wrappedKeyPayload pubConfirmTag s peer :
  s_pakePeer s = Some peer ->
  confirm_steps wrappedKeyPayload pubConfirmTag s =
  (peer ← gets s_pakePeer;
   lift FErrCrypto (VerifyPeerConfirm peer pubConfirmTag);;
   subConfirmTag ← lift FErrCrypto (ConfirmTag peer);
   sid ← gets s_sessionID;
   subEncode pool (mkEnvelope Version MsgTypeKeyConfirm sid zeroNonce subConfirmTag);;
   p2pKey ← lift FErrCrypto (match peer with Some q => SessionKey q | None => Err ErrPAKEFailed end);
   masterSessionKey ← lift FErrCrypto (UnwrapSessionKey p2pKey wrappedKeyPayload);
   ciph ← lift FErrCrypto (NewCipher masterSessionKey);
   modify (sub_cipher (Some ciph) (CalculateSAS masterSessionKey))) s.
Proof.
  intros Hp. unfold confirm_steps, mbind, M_bind, gets, lift. rewrite Hp.
  destruct (VerifyPeerConfirm _ _); [|done]. rewrite Hp. destruct (ConfirmTag _); [|done].
  destruct (subEncode_conn pool (mkEnvelope Version MsgTypeKeyConfirm (s_sessionID s) zeroNonce a0) s) as [c Ec].
  destruct (subEncode pool _ s) as [[[]|] s1]; [|done]. cbn [snd] in Ec. subst s1. unfold sessionKeyNow. cbn [sub_conn s_pakePeer].
  rewrite Hp. by destruct (SessionKey peer).
Qed.

Lemma alone_crypto {A} (f : option PAKEPeer -> result crypto_error A) s :
  let m := (peer ← gets s_pakePeer; lift FErrCrypto (f peer)) : M SubscriberEngine feed_error A in alone (step m) m s.
Proof. apply alone_step. unfold mbind, M_bind, gets, lift. by destruct (f _). Qed.

Lemma crypto_same {A} (f : option PAKEPeer -> result crypto_error A) s a s' :
  ((peer ← gets s_pakePeer; lift FErrCrypto (f peer)) : M SubscriberEngine feed_error A) s = (Ok a, s') -> s' = s.
Proof. unfold mbind, M_bind, gets, lift. destruct (f _); by intros [= -> ->]. Qed.

Lemma handshake_alone rnd s :
  connected s -> alone (tCompleteHandshake pool rnd) (SubCompleteHandshake pool rnd) s.
Proof.
  intros Hs. pose proof Hs as [[c Hc] _].
  apply (alone_eq _ (conn ← gets s_conn; match conn with None => fail FErrConnNil | Some _ => SubCompleteHandshake pool rnd end));
    [by rewrite bind_gets, Hc|].
  alone_bind. intros [= <- <-]. rewrite Hc. refine (alone_bind _ _ _ _ _ _ _); [by apply decodeHeld_alone; eexists|].
  intros env s1 E1. pose proof (decode_connected _ _ _ Hs E1) as H1. repeat (case_match; [done|]).
  refine (alone_bind _ _ _ _ _ _ _).
  { apply alone_step. unfold subPakeUpdate. destruct (proj2 H1) as [peer ->]. by destruct (Update _ _ _) as [[]]. }
  intros [] s2 E2. pose proof (pakeUpdate_connected _ _ _ _ _ H1 E2) as C2. destruct (proj2 C2) as [peer Hp].
  eapply (alone_eq _ (confirm_steps _ _)); [by apply confirm_steps_eq with peer|]. unfold confirm_steps.
  refine (alone_bind _ _ _ _ _ (alone_crypto _ _) _). intros [] s3 ->%crypto_same.
  refine (alone_bind _ _ _ _ _ (alone_crypto _ _) _). intros tag s4 ->%crypto_same.
  alone_bind. intros [= <- <-]. refine (alone_bind _ _ _ _ _ _ _); [by apply encodeHeld_alone, C2|].
  intros [] s5 E5. pose proof (encode_connected _ _ _ _ C2 E5) as [_ [peer5 H5]].
  refine (alone_bind _ _ _ _ _ _ _).
  { apply alone_step. unfold sessionKeyNow. rewrite H5. unfold lift. by destruct (SessionKey peer5). }
  intros key s6 _. alone_bind. intros _. alone_bind. intros _. eauto with zf.
Qed.

Lemma handshake_connected rnd s s' : connected s -> SubCompleteHandshake pool rnd s = (Ok tt, s') -> connected s'.
Proof.
  assert (Hm : respects (fun s s' => connected s -> connected s') (SubCompleteHandshake pool rnd)).
  { apply respects_handshake.
    - split; [by intros ?|by intros ??? H1 H2 H%H1%H2].
    - intros t Ht. by eapply decode_connected; [|apply surjective_pairing].
    - intros env t Ht. by eapply encode_connected; [|apply surjective_pairing].
    - intros payload t Ht. by eapply pakeUpdate_connected; [|apply surjective_pairing].
    - intros c sas. by apply respects_modify. }
  intros Hs E. specialize (Hm s Hs). by rewrite E in Hm.
Qed.

(** An attempt, from the point where its PAKE peer is installed. *)
Lemma attempt_alone (A : Type) att (again : T A) (again' : M SubscriberEngine feed_error A) a s :
  (forall s, alone again again' s) ->
  alone (r ← tattempt (tConnect pool (at_quic att) (at_tcp att) (at_rnd att));
         match r with
         | Err _ => again
         | Ok _ =>
             r ← tattempt (tCompleteHandshake pool (at_rnd att));
             match r with
             | Err _ => step (modify (sub_conn None));; again
             | Ok _ => tignore (tSendSyncRequest pool);; mret a
             end
         end)
        (r ← attempt (SubConnect pool (at_quic att) (at_tcp att) (at_rnd att));
         match r with
         | Err _ => again'
         | Ok _ =>
             r ← attempt (SubCompleteHandshake pool (at_rnd att));
             match r with
             | Err _ => modify (sub_conn None);; again'
             | Ok _ => ignore (SendSyncRequest pool);; mret a
             end
         end) s.
Proof.
  intros IH. refine (alone_bind _ _ _ _ _ (alone_attempt _ _ _ (connect_alone _ _ _ _)) _). intros [[]|e] s1 E1; [|apply IH].
  assert (H1 : connected s1).
  { unfold attempt in E1. destruct (SubConnect _ _ _ _ _) as [[[]|] s2] eqn:Es in E1; simplify_eq. by eapply SubConnect_connected. }
  refine (alone_bind _ _ _ _ _ (alone_attempt _ _ _ (handshake_alone _ _ H1)) _).
  intros [[]|e] s2 E2; [|alone_bind; intros [= <- <-]; apply IH].
  refine (alone_bind _ _ _ _ _ (alone_ignore _ _ _ (send_alone _ _)) _). done.
Qed.

Lemma reconnect_alone retries atts s :
  alone (tReconnectLoop pool retries atts) (reconnectLoop pool retries atts) s /\
  (forall atts' s', reconnectLoop pool retries atts s = (Ok (true, atts'), s') -> is_Some (s_conn s')).
Proof.
  revert atts s. induction retries as [|retries IH]; intros atts s; cbn [tReconnectLoop reconnectLoop]; [done|].
  destruct atts as [|att atts]; [done|]. split.
  - alone_bind. intros [= <- <-]. alone_bind. intros [= <- <-]. destruct (s_passphrase _) as [pass|]; [|done].
    destruct (NewPAKESubscriber _ _) as [peer|]; [|apply IH]. alone_bind. intros [= <- <-].
    apply attempt_alone. intros s'. apply IH.
  - intros atts' s'. rewrite bind_modify, bind_gets. destruct (s_passphrase _) as [pass|]; [|done].
    destruct (NewPAKESubscriber _ _) as [peer|]; [|apply IH]. rewrite bind_modify, bind_attempt.
    destruct (SubConnect _ _ _ _ _) as [[[]|] s1] eqn:E1; cbn [fst snd]; [|apply IH]. apply SubConnect_connected in E1.
    rewrite bind_attempt. destruct (SubCompleteHandshake _ _ s1) as [[[]|] s2] eqn:E2; cbn [fst snd]; [|rewrite bind_modify; apply IH].
    pose proof (handshake_connected _ _ _ E1 E2) as H2. rewrite bind_ignore. intros [= _ <-].
    unfold SendSyncRequest. rewrite !bind_gets. eapply encode_connected; [exact H2|apply surjective_pairing].
Qed.

Lemma cipherNow_some s ciph : s_cipher s = Some ciph -> cipherNow s = ciph.
Proof. unfold cipherNow. by intros ->. Qed.

Lemma rekey_alone env s : alone (tRekey env) (subscribeRekey env) s.
Proof.
  unfold tRekey, subscribeRekey. case_match; [done|]. alone_bind. intros [= <- <-].
  destruct (s_cipher s) as [ciph|] eqn:Hc; [|done]. unfold alone, mbind, T_bind. cbn. rewrite (cipherNow_some _ _ Hc).
  destruct (openFrame ciph env) as [salt|]; [|done]. cbn. rewrite (cipherNow_some _ _ Hc).
  destruct (GetKey ciph) as [currKey|]; [|done]. destruct (RatchetKey currKey salt) as [nextKey|]; [|done].
  cbn. unfold updateSection. by rewrite Hc.
Qed.

Lemma deliver_alone n pt s :
  alone (tDeliver pool unmarshal fs_create fs_write n pt) (deliverPayload pool unmarshal fs_create fs_write n pt) s.
Proof.
  unfold tDeliver, deliverPayload. alone_bind. intros [= <- <-]. fold (pushRing n pt s). set (s1 := pushRing n pt s).
  set (d := (fun s => let (v, ack) := deliver unmarshal fs_create fs_write pt (s_view s) in (Ok ack, sub_view v s)) :
    M SubscriberEngine feed_error (option bytes)).
  apply (alone_eq _ (ack ← d; match ack with Some tid => ignore (sendAckFrame pool tid) | None => mret tt end)).
  { unfold mbind, M_bind, gets, d. by destruct (deliver _ _ _ pt (s_view s1)). }
  refine (alone_bind _ _ _ _ _ _ _); [apply alone_step; unfold d; by destruct (deliver _ _ _ pt (s_view s1))|].
  intros [tid|] s2 _; [|done]. apply alone_ignore, send_alone.
Qed.

Lemma data_alone env s :
  alone (tData pool unmarshal fs_create fs_write env) (subscribeData pool unmarshal fs_create fs_write env) s.
Proof.
  unfold tData, subscribeData. case_match; [done|]. alone_bind. intros [= <- <-].
  destruct (s_cipher s) as [ciph|] eqn:Hc; [|done].
  set (n := be_val _). pose proof (cipherNow_some _ _ Hc) as En.
  apply (alone_eq _ (r ← gets (fun s => openFrame (cipherNow s) env);
    match r with
    | Err _ => mret (Some (Err FErrAuth))
    | Ok pt =>
        fresh ← seqSection n;
        if fresh : bool then deliverPayload pool unmarshal fs_create fs_write n (unpadOrKeep pt);; mret None else mret None
    end)).
  { rewrite bind_gets, En. destruct (openFrame ciph env); [|done]. rewrite bind_gets. unfold seqSection, mbind at 1, M_bind.
    by destruct (n <=? s_lastSeqNum s). }
  alone_bind. intros [= <- <-]. rewrite En. destruct (openFrame ciph env) as [pt|]; [|done].
  refine (alone_bind _ _ _ _ _ _ _); [apply alone_step; unfold seqSection; by case_match|]. intros [] s1 _; [|done].
  refine (alone_bind _ _ _ _ _ (deliver_alone _ _ _) _). done.
Qed.

Lemma frame_alone env s :
  alone (tFrame pool unmarshal fs_create fs_write env) (subscribeFrame pool unmarshal fs_create fs_write env) s.
Proof.
  unfold tFrame, subscribeFrame. alone_bind. intros [= <- <-].
  repeat case_match; first [apply rekey_alone|apply data_alone|done].
Qed.

Lemma ensureConn_alone atts s : alone (tEnsureConn pool atts) (ensureConn pool atts) s.
Proof.
  unfold tEnsureConn, ensureConn. alone_bind. intros [= <- <-]. destruct (s_conn s) as [c|]; [done|].
  alone_bind. intros [= <- <-]. destruct (s_closed s); [done|]. destruct (reconnect_alone 10 atts s) as [Ha Hc].
  refine (alone_bind _ _ _ _ _ Ha _). intros [[] atts'] s' E; [|done]. apply Hc in E as [c Hc'].
  unfold alone, mbind, T_bind. cbn. by rewrite Hc'.
Qed.

Lemma ensureConn_connected atts atts' s s' : ensureConn pool atts s = (Ok (Ok atts'), s') -> is_Some (s_conn s').
Proof.
  unfold ensureConn. rewrite bind_gets. destruct (s_conn s) as [c|] eqn:Hc; [intros [= _ <-]; by rewrite Hc|].
  rewrite bind_gets. destruct (s_closed s); [done|]. intros ([[] atts1] & s1 & E1 & E2)%bind_inv; [|done].
  injection E2 as _ <-. by eapply reconnect_alone.
Qed.

Lemma stream_alone_run fuel atts s :
  alone (tSubscribeStream pool unmarshal fs_create fs_write fuel atts) (SubscribeStream pool unmarshal fs_create fs_write fuel atts) s.
Proof.
  revert atts s. induction fuel as [|fuel IH]; intros atts s; cbn [tSubscribeStream SubscribeStream]; [done|].
  refine (alone_bind _ _ _ _ _ (ensureConn_alone _ _) _). intros [atts1|r] s1 E1; [|done]. apply ensureConn_connected in E1.
  refine (alone_bind _ _ _ _ _ (alone_attempt _ _ _ (decodeHeld_alone _ E1)) _). intros [env|e] s2 _.
  - refine (alone_bind _ _ _ _ _ (frame_alone _ _) _). intros [r|] s3 _; [done|apply IH].
  - alone_bind. intros [= <- <-]. destruct (s_closed s2); [done|].
    refine (alone_bind _ _ _ _ _ (proj1 (reconnect_alone _ _ _)) _). intros [[] atts2] s3 _; [apply IH|done].
Qed.
End Alone.

(** ** Every place for [Close]

    [wp p Q s]: whenever [Close] comes, running [p] from [s] ends in [Q] ([None] is a
    panic). *)

Fixpoint wp {A} (p : prog A) (Q : option A -> SubscriberEngine -> Prop) (s : SubscriberEngine) : Prop :=
  match p with
  | Ret a => Q (Some a) s
  | Panic => Q None s
  | Act f k => let go s := wp (k (f s).1) Q (f s).2 in go s /\ go (CloseSubscriber s).2
  end.

Lemma wp_exec {A} (p : prog A) Q s cs : wp p Q s -> Q (exec cs p s).1 (exec cs p s).2.
Proof.
  revert s cs. induction p as [a| |B f k IH]; intros s cs; [done..|]. cbn. intros [H1 H2].
  destruct cs as [|[] cs]; cbn.
  - specialize (IH _ _ [] H1). by destruct (f s).
  - specialize (IH _ _ cs H2). by destruct (f _).
  - specialize (IH _ _ cs H1). by destruct (f s).
Qed.

Lemma wp_mono {A} (p : prog A) (Q R : option A -> SubscriberEngine -> Prop) s :
  wp p Q s -> (forall r s', Q r s' -> R r s') -> wp p R s.
Proof. intros Hp HQ. revert s Hp. induction p as [a| |B f k IH]; intros s; [apply HQ..|]. cbn. intros [H1 H2]. auto. Qed.

Lemma wp_pbind {A B} (p : prog A) (k : A -> prog B) Q s :
  wp p (fun r s' => match r with Some a => wp (k a) Q s' | None => Q None s' end) s -> wp (pbind p k) Q s.
Proof. revert s. induction p as [a| |C f k' IH]; intros s; [done..|]. cbn. intros [H1 H2]. auto. Qed.

(** An assertion that [Close] respects. *)
Definition stable (I : SubscriberEngine -> Prop) : Prop := forall s, I s -> I (CloseSubscriber s).2.

(** Programs with errors: on success [Q], on an error or a panic [E]. *)
Definition hoare {A} (I : SubscriberEngine -> Prop) (p : T A) (Q : A -> SubscriberEngine -> Prop)
    (E : bool -> SubscriberEngine -> Prop) : Prop :=
  forall s, I s -> wp p (fun r s' => match r with Some (Ok a) => Q a s' | Some (Err _) => E false s' | None => E true s' end) s.

Lemma hoare_bind {A B} I (p : T A) (k : A -> T B) R Q E :
  hoare I p R E -> (forall a, hoare (R a) (k a) Q E) -> hoare I (p ≫= k) Q E.
Proof.
  intros Hp Hk s Hs. apply wp_pbind. eapply wp_mono; [by apply Hp|]. intros [[a|e]|] s' H; [by apply Hk|done|done].
Qed.

Lemma hoare_step {A} I (m : M SubscriberEngine feed_error A) Q E :
  stable I ->
  (forall s, I s -> match m s with (Ok a, s') => Q a s' | (Err FPanic, s') => E true s' | (Err _, s') => E false s' end) ->
  hoare I (step m) Q E.
Proof.
  intros HI Hm. assert (Hg : forall s, I s -> wp (stepped (m s).1)
    (fun r s' => match r with Some (Ok a) => Q a s' | Some (Err _) => E false s' | None => E true s' end) (m s).2).
  { intros s Hs. specialize (Hm s Hs). by destruct (m s) as [[a|[]] s']. }
  intros s Hs. split; [by apply Hg|]. by apply Hg, HI.
Qed.

Lemma hoare_ret {A} (I : SubscriberEngine -> Prop) (a : A) Q E : (forall s, I s -> Q a s) -> hoare I (mret a) Q E.
Proof. intros H s Hs. by apply H. Qed.

Lemma hoare_conseq {A} (I J : SubscriberEngine -> Prop) (p : T A) Q E :
  hoare J p Q E -> (forall s, I s -> J s) -> hoare I p Q E.
Proof. intros Hp HI s Hs. by apply Hp, HI. Qed.

Lemma hoare_ignore {A} I (p : T A) Q E :
  hoare I p (fun _ => Q tt) (fun b s => if b : bool then E true s else Q tt s) -> hoare I (tignore p) Q E.
Proof. intros Hp s Hs. apply wp_pbind. eapply wp_mono; [by apply Hp|]. by intros [[]|]. Qed.

Lemma hoare_attempt {A} I (p : T A) Q E :
  hoare I p (fun a => Q (Ok a)) (fun b s => if b : bool then E true s else forall e, Q (Err e) s) -> hoare I (tattempt p) Q E.
Proof. intros Hp s Hs. apply wp_pbind. eapply wp_mono; [by apply Hp|]. intros [[]|] s'; cbn; auto. Qed.

(** ** Closing a stream that does not reconnect *)

Section Closing.
Context {aeadI : AEAD} {kexI : KeyExchange}.
Variable pool : bytes.
Variable unmarshal : bytes -> option FileHeader.
Variable fs_create : bytes -> bool.
Variable fs_write : bytes -> nat.

Definition gone (s : SubscriberEngine) : Prop :=
  s_passphrase s = None /\ s_pakePeer s = None /\ s_cipher s = None /\ s_conn s = None.

(** Once closed, no secret is held and at most [n] messages are buffered. *)
Definition closing (n : nat) (s : SubscriberEngine) : Prop :=
  ring_inv (s_ringBuffer s) (s_mem s) [] /\
  (s_closed s = true -> gone s /\ (length (abs (s_ringBuffer s) (s_mem s)) <= n)%nat).

Lemma closing_stable n : stable (closing n).
Proof.
  intros s [Hr Hc]. unfold CloseSubscriber. destruct (s_closed s) eqn:E; [by split; [|intros _; apply Hc]|].
  pose proof (Wipe_spec _ _ _ Hr) as HW. destruct (Wipe _ _) as [rb m]. destruct HW as (Hr' & Ha & _).
  split; [done|]. intros _. cbn [snd s_ringBuffer s_mem]. rewrite Ha. split; [done|cbn; lia].
Qed.

(** What a step may change without touching secrets or buffer. *)
Lemma closing_same n s s' :
  closing n s -> s_ringBuffer s' = s_ringBuffer s -> s_mem s' = s_mem s -> s_closed s' = s_closed s ->
  (gone s -> gone s') -> closing n s'.
Proof. intros [Hr Hc] E1 E2 Ecl Hg. unfold closing. rewrite E1, E2. split; [done|]. rewrite Ecl. intros H. destruct (Hc H). auto. Qed.

Lemma closing_le n m s : (n <= m)%nat -> closing n s -> closing m s.
Proof. intros Hn [Hr Hc]. split; [done|]. intros H. destruct (Hc H). split; [done|lia]. Qed.

(** An open engine has nothing left to wipe. *)
Lemma closing_open n s : closing n s -> s_closed s = false -> closing 0 s.
Proof. intros [Hr _] H. split; [done|congruence]. Qed.

Lemma closing_conn n s c : closing n s -> s_conn s = Some c -> s_closed s = false.
Proof. intros [_ Hc] E. destruct (s_closed s); [|done]. destruct (Hc eq_refl) as [(_ & _ & _ & ?) _]. congruence. Qed.

(** A panic only happens once the engine is closed. *)
Definition stopped (b : bool) (s : SubscriberEngine) : Prop := closing 1 s /\ (b = true -> s_closed s = true).

Lemma closing_gets {A} n (f : SubscriberEngine -> A) :
  hoare (closing n) (step (gets f)) (fun _ => closing n) stopped.
Proof. apply hoare_step; [apply closing_stable|]. done. Qed.

Lemma closing_encodeHeld env : hoare (closing 1) (step (encodeHeld pool env)) (fun _ => closing 1) stopped.
Proof.
  apply hoare_step; [apply closing_stable|]. intros s Hs. unfold encodeHeld. destruct (s_conn s) as [c|] eqn:Hc.
  - pose proof (encode_no_panic pool env s) as Hp. pose proof (closing_conn _ _ _ Hs Hc) as Ho.
    destruct (subEncode_conn pool env s) as [c' E]. destruct (subEncode pool env s) as [r s']. cbn [fst snd] in *. subst s'.
    assert (closing 1 (sub_conn c' s)) by (split; [apply Hs|cbn; congruence]).
    destruct r as [|[]]; try done; by split.
  - assert (H : (conn_encode (stalePool pool) env closedConn).1 <> Err FPanic).
    { unfold conn_encode, conn_write. by repeat case_match; simplify_eq. }
    destruct (conn_encode _ _ _).1 as [|[]]; try done; by split.
Qed.

Lemma closing_send mk : hoare (closing 1) (tSend pool mk) (fun _ => closing 1) stopped.
Proof.
  unfold tSend. eapply hoare_bind; [apply closing_gets|]. intros [[c|] env]; [apply closing_encodeHeld|].
  intros s Hs. by split.
Qed.

Lemma closing_modify n (f : SubscriberEngine -> SubscriberEngine) :
  (forall s, s_ringBuffer (f s) = s_ringBuffer s /\ s_mem (f s) = s_mem s /\ s_closed (f s) = s_closed s /\ (gone s -> gone (f s))) ->
  hoare (closing n) (step (modify f)) (fun _ => closing n) stopped.
Proof.
  intros Hf. apply hoare_step; [apply closing_stable|]. intros s Hs. cbn. destruct (Hf s) as (E1 & E2 & E3 & E4).
  by eapply closing_same.
Qed.

(** A message is pushed, possibly into a closed engine. *)
Lemma closing_push seqNum pt : hoare (closing 0) (step (modify (pushRing seqNum pt))) (fun _ => closing 1) stopped.
Proof.
  apply hoare_step; [apply closing_stable|]. intros s [Hr Hc]. cbn [modify]. unfold pushRing.
  pose proof (Push_spec seqNum pt _ _ _ Hr) as HP. destruct (Push _ _ _ _) as [rb m]. destruct HP as (Hr' & _ & _ & Ha).
  split; [done|]. cbn [sub_ring s_closed s_ringBuffer s_mem]. intros H. destruct (Hc H) as [Hg Hl]. split; [done|].
  rewrite Ha. destruct (abs (s_ringBuffer s) (s_mem s)); [|cbn in Hl; lia]. unfold RingSpec.push. cbn.
  by repeat case_match; cbn; lia.
Qed.

Lemma closing_deliver seqNum pt :
  hoare (closing 0) (tDeliver pool unmarshal fs_create fs_write seqNum pt) (fun _ => closing 1) stopped.
Proof.
  unfold tDeliver. eapply hoare_bind; [apply closing_push|]. intros [].
  eapply (hoare_bind _ _ _ (fun _ => closing 1)).
  - apply hoare_step; [apply closing_stable|]. intros s Hs. destruct (deliver _ _ _ pt (s_view s)) as [v ack].
    by eapply closing_same.
  - intros [tid|]; [|by apply hoare_ret]. apply hoare_ignore.
    intros s Hs. eapply wp_mono; [by apply closing_send|]. intros [[]|] s' H; [done|apply H|done].
Qed.

Lemma closing_data env :
  hoare (closing 0) (tData pool unmarshal fs_create fs_write env) (fun _ => closing 1) stopped.
Proof.
  assert (Hle : forall s, closing 0 s -> closing 1 s) by (intros; eapply closing_le; [|done]; lia).
  unfold tData. case_match; [by apply hoare_ret|]. eapply hoare_bind; [apply closing_gets|].
  intros [ciph|]; [|by apply hoare_ret]. eapply hoare_bind; [apply closing_gets|]. intros [pt|]; [|by apply hoare_ret].
  eapply (hoare_bind _ _ _ (fun _ => closing 0)).
  - apply hoare_step; [apply closing_stable|]. intros s Hs. unfold seqSection. destruct (_ <=? _); [done|]. by eapply closing_same.
  - intros []; [|by apply hoare_ret]. eapply hoare_bind; [apply closing_deliver|]. intros []. by apply hoare_ret.
Qed.

(** The cipher is only missing once the engine is closed. *)
Definition keyed (s : SubscriberEngine) : Prop := closing 0 s /\ (s_closed s = true \/ is_Some (s_cipher s)).

Lemma keyed_stable : stable keyed.
Proof.
  intros s [Hs _]. split; [by apply closing_stable|]. left. unfold CloseSubscriber. destruct (s_closed s) eqn:E; [done|].
  by destruct (Wipe _ _).
Qed.

Lemma closing_rekey env : hoare (closing 0) (tRekey env) (fun _ => closing 1) stopped.
Proof.
  assert (Hle : forall s, closing 0 s -> closing 1 s) by (intros; eapply closing_le; [|done]; lia).
  assert (Hk : forall s, keyed s -> closing 1 s) by (intros s [H _]; auto).
  unfold tRekey. case_match; [by apply hoare_ret|].
  eapply (hoare_bind _ _ _ (fun oc s => match oc with Some _ => keyed s | None => closing 0 s end)).
  - apply hoare_step; [apply closing_stable|]. intros s Hs. cbn [gets]. destruct (s_cipher s) eqn:E; [|done].
    split; [done|]. right. rewrite E. by eexists.
  - intros [ciph|]; [|by apply hoare_ret]. eapply (hoare_bind _ _ _ (fun _ => keyed)); [by apply hoare_step; [apply keyed_stable|]|].
    intros [salt|]; [|by apply hoare_ret]. eapply (hoare_bind _ _ _ (fun _ => keyed)); [by apply hoare_step; [apply keyed_stable|]|].
    intros [currKey|]; [|by apply hoare_ret]. destruct (RatchetKey _ _) as [nextKey|]; [|by apply hoare_ret].
    eapply (hoare_bind _ _ _ (fun _ => closing 1)); [|intros []; by apply hoare_ret].
    apply hoare_step; [apply keyed_stable|]. intros s [Hs Hc]. unfold updateSection. destruct (s_cipher s) as [c|] eqn:E.
    + split; [apply Hs|]. cbn [sub_cipher s_closed]. intros Hcl. destruct (proj2 Hs Hcl) as [(_ & _ & ? & _) _]. congruence.
    + split; [auto|]. intros _. destruct Hc as [?|[? ?]]; [done|congruence].
Qed.

Lemma closing_frame env :
  hoare (closing 0) (tFrame pool unmarshal fs_create fs_write env) (fun _ => closing 1) stopped.
Proof.
  assert (Hle : forall s, closing 0 s -> closing 1 s) by (intros; eapply closing_le; [|done]; lia).
  unfold tFrame. eapply hoare_bind; [by apply closing_modify|]. intros [].
  repeat case_match; first [apply closing_rekey|apply closing_data|by apply hoare_ret].
Qed.

Lemma closing_ensure :
  hoare (closing 1) (tEnsureConn pool []) (fun r s => match r with Ok atts => atts = [] /\ closing 0 s | Err _ => closing 1 s end) stopped.
Proof.
  unfold tEnsureConn.
  eapply (hoare_bind _ _ _ (fun oc s => match oc with Some _ => closing 0 s | None => closing 1 s end)).
  - apply hoare_step; [apply closing_stable|]. intros s Hs. cbn [gets]. destruct (s_conn s) eqn:E; [|done].
    eapply closing_open; [done|]. by eapply closing_conn.
  - intros [c|]; [by apply hoare_ret|]. eapply hoare_bind; [apply closing_gets|]. intros []; [by apply hoare_ret|].
    cbn [tReconnectLoop]. eapply (hoare_bind _ _ _ (fun r s => r = (false, []) /\ closing 1 s)); [by apply hoare_ret|].
    intros [[] atts]; [by intros s [? _]|]. apply hoare_ret. by intros s [_ ?].
Qed.

Lemma closing_decode :
  hoare (closing 0) (tattempt (step decodeHeld)) (fun _ => closing 0) stopped.
Proof.
  apply hoare_attempt. apply hoare_step; [apply closing_stable|]. intros s Hs. unfold decodeHeld.
  destruct (s_conn s) as [c|] eqn:Hc; [|by intros e].
  pose proof (closing_conn _ _ _ Hs Hc) as Ho. unfold subDecode. rewrite Hc. destruct (conn_decode c) as [[env|e] c'].
  - split; [apply Hs|cbn; congruence].
  - intros _. split; [apply Hs|cbn; congruence].
Qed.

Lemma closing_stream fuel :
  hoare (closing 1) (tSubscribeStream pool unmarshal fs_create fs_write fuel []) (fun _ => closing 1) stopped.
Proof.
  assert (Hle : forall s, closing 0 s -> closing 1 s) by (intros; eapply closing_le; [|done]; lia).
  induction fuel as [|fuel IH]; cbn [tSubscribeStream]; [by apply hoare_ret|].
  eapply hoare_bind; [apply closing_ensure|]. intros [atts|r]; [|by apply hoare_ret]. cbn beta iota.
  intros s [-> Hs]. revert s Hs. apply (hoare_bind (closing 0) _ _ (fun _ => closing 0)); [apply closing_decode|]. intros [env|e].
  - eapply hoare_bind; [apply closing_frame|]. intros [r|]; [by apply hoare_ret|exact IH].
  - eapply hoare_bind; [apply closing_gets|]. intros []; [by apply hoare_ret|]. cbn [tReconnectLoop].
    eapply (hoare_bind _ _ _ (fun r s => r = (false, []) /\ closing 1 s)); [by apply hoare_ret; auto|].
    intros [[] atts]; [by intros t [? _]|]. apply hoare_ret. by intros t [_ ?].
Qed.
End Closing.

(** ** A reconnection under way when [Close] comes *)

Lemma exec_step {A B} b cs (m : M SubscriberEngine feed_error A) (k : A -> T B) s a s' :
  m (if b : bool then (CloseSubscriber s).2 else s) = (Ok a, s') -> exec (b :: cs) (step m ≫= k) s = exec cs (k a) s'.
Proof. intros E. cbn. by destruct b; rewrite E. Qed.

Lemma CloseSubscriber_open s :
  s_closed s = false -> ring_inv (s_ringBuffer s) (s_mem s) [] ->
  let s' := (CloseSubscriber s).2 in
  s_closed s' = true /\ gone s' /\ s_sessionID s' = s_sessionID s /\ abs (s_ringBuffer s') (s_mem s') = [].
Proof.
  intros Hc Hr. unfold CloseSubscriber. rewrite Hc. pose proof (Wipe_spec _ _ _ Hr) as HW. destruct (Wipe _ _) as [rb m]. destruct HW as (_ & Ha & _). cbn. by split_and!.
Qed.

Section Reconnecting.
Context {aeadI : AEAD} {kexI : KeyExchange}.
Variable pool : bytes.

Lemma handshake_sid rnd : respects (fun s s' => s_sessionID s' = s_sessionID s) (SubCompleteHandshake pool rnd).
Proof.
  apply respects_handshake; [split; [by intros ?|intros ??? H1 H2; congruence]|..].
  - intros s. unfold subDecode. destruct (s_conn s); [|done]. by destruct (conn_decode _).
  - intros env s. by destruct (subEncode_conn pool env s) as [c ->].
  - intros payload s. unfold subPakeUpdate. destruct (s_pakePeer s); [|done]. by destruct (Update _ _ _).
  - intros c sas. by apply respects_modify.
Qed.

(** One attempt against a publisher that answers, on an engine with a new PAKE peer. *)
Lemma attempt_run rs sub sub' subMsg pubMsg nonce key k rest a s again :
  s_pakePeer s = Some sub -> pk_pubBytes sub = Some subMsg -> length subMsg = UniformWireMsgSize ->
  (forall rnd, Update pubMsg rnd sub = (Ok tt, sub')) -> pk_sharedKey sub' = Some key ->
  length key = KeySize -> pk_role sub' = 2 -> length pubMsg = UniformWireMsgSize ->
  length k = KeySize -> length nonce = Cipher.NonceSize -> length (s_sessionID s) = 16%nat ->
  let c := mkConn (reader_of (frame_bytes (step2Frame (s_sessionID s) pubMsg nonce key k)) ++ rest) [] [] false in
  exists s', (r ← attempt (SubConnect pool None (Some c) rs);
     match r with
     | Err _ => again
     | Ok _ =>
         r ← attempt (SubCompleteHandshake pool rs);
         match r with
         | Err _ => modify (sub_conn None);; again
         | Ok _ => ignore (SendSyncRequest pool);; mret (a : bool * list Attempt)
         end
     end) s = (Ok a, s') /\
    holds_key k s' /\ (exists c', s_conn s' = Some c' /\ c_in c' = rest /\ healthy c') /\ s_closed s' = s_closed s /\
    s_sessionID s' = s_sessionID s /\ s_lastSeqNum s' = s_lastSeqNum s.
Proof.
  intros Hpeer Hpb Hls HU Hkey Hkl Hrole Hlp Hk Hln Hs16 c. set (sid := s_sessionID s) in *.
  rewrite bind_attempt. pose proof (SubConnect_run pool rs s sub subMsg c Hpeer Hpb Hls Hs16 ltac:(by split)) as E1.
  rewrite E1. cbn [fst snd]. set (s1 := sub_conn _ s).
  destruct (subscriber_handshake pool sub sub' rs nonce sid pubMsg key k s1 (emit c [initFrame sid subMsg]) rest)
    as (s2 & E2 & Hk2 & Hc2 & Hl2 & Hv2); try done.
  pose proof (open_handshake pool rs s1) as [Ho _]. pose proof (handshake_sid rs s1) as Hsid.
  rewrite bind_attempt, E2. rewrite E2 in Ho, Hsid. cbn [fst snd] in *. rewrite bind_ignore. unfold SendSyncRequest. rewrite !bind_gets.
  set (c2 := mkConn rest _ _ _) in Hc2.
  rewrite (subEncode_run pool _ s2 c2 Hc2 ltac:(by split)) by (apply small_frame_ok; [by rewrite Hsid|cbn; lia]).
  eexists. split; [reflexivity|]. cbn [snd sub_conn s_conn s_closed s_sessionID s_lastSeqNum]. split_and!; try done.
  eexists. split; [reflexivity|by split].
Qed.
End Reconnecting.

(** * Properties *)

(** C19: Cut into steps, the stream is the same.  When [Close] never comes, the
    program of steps ends with exactly the result and the engine of the sequential
    [SubscribeStream], whatever arrives and however often it reconnects; in
    particular it does not panic. *)
Theorem stream_refines `{AEAD} `{KeyExchange} pool unmarshal fs_create fs_write fuel atts s :
  let r := SubscribeStream pool unmarshal fs_create fs_write fuel atts s in
  exec [] (tSubscribeStream pool unmarshal fs_create fs_write fuel atts) s = (Some r.1, r.2).
Proof. apply stream_alone_run. Qed.

(** C17: Closing stops a stream.  [Close] comes any number of times, anywhere between
    the steps of a stream with no reconnection left.  After the exit wipe the engine
    is closed and holds no passphrase, no PAKE state, no key and no connection, and
    at most one message, the one in hand when [Close] came, is in its buffer; if
    [Close] did not come during the stream there is none and the stream returned. *)
Theorem close_stops_stream `{AEAD} `{KeyExchange} pool unmarshal fs_create fs_write fuel cs s :
  ring_inv (s_ringBuffer s) (s_mem s) [] -> s_closed s = false ->
  let (r, s1) := exec cs (tSubscribeStream pool unmarshal fs_create fs_write fuel []) s in
  let s2 := (CloseSubscriber s1).2 in
  s_closed s2 = true /\ gone s2 /\ (length (abs (s_ringBuffer s2) (s_mem s2)) <= 1)%nat /\
  (s_closed s1 = false -> r <> None /\ abs (s_ringBuffer s2) (s_mem s2) = []).
Proof.
  intros Hr Hc. assert (Hs : closing 1 s) by (split; [done|congruence]).
  pose proof (wp_exec _ _ _ cs (closing_stream pool unmarshal fs_create fs_write fuel s Hs)) as HW.
  destruct (exec cs _ s) as [r s1]. cbn [fst snd] in HW.
  assert (H1 : closing 1 s1 /\ (s_closed s1 = false -> r <> None)).
  { destruct r as [[a|e]|]; [by split|by destruct HW|]. destruct HW as [HW Hp]. split; [done|]. rewrite Hp; done. }
  destruct H1 as [[Hr1 Hg1] Hn]. destruct (s_closed s1) eqn:E1.
  - unfold CloseSubscriber. rewrite E1. cbn [snd]. destruct (Hg1 eq_refl). by split_and!.
  - destruct (CloseSubscriber_open s1 E1 Hr1) as (A & B & _ & D). cbv zeta in *. rewrite D. split_and!; auto; cbn; lia.
Qed.

(** C18: A reconnection can undo [Close].  [reconnectLoop] copies the passphrase and
    then works on without looking at [closed].  For any engine, any publisher with
    the passphrase and any randomness: when [Close] comes right after the copy, the
    reconnection still succeeds and installs a connection and the session key in the
    closed engine; the publisher's messages are accepted again; and since the engine
    is marked closed, the exit wipe does nothing: the key stays in memory. *)
Theorem close_misses_reconnection `{AEAD} `{KeyExchange} pool pass rp rs pub sub (k nonce : bytes) s :
  s_passphrase s = Some pass -> s_closed s = false -> ring_inv (s_ringBuffer s) (s_mem s) [] ->
  length (s_sessionID s) = 16%nat -> 0 <= s_lastSeqNum s ->
  NewPAKEPublisher pass rp = Ok pub -> NewPAKESubscriber pass rs = Ok sub -> r_pad rp <> None ->
  length k = KeySize -> length nonce = Cipher.NonceSize ->
  exists reply, forall rest,
    let c := mkConn (reader_of reply ++ rest) [] [] false in
    exists s', exec [false; false; true] (tReconnectLoop pool 10 [mkAttempt rs None (Some c)]) s = (Some (Ok (true, [])), s') /\
      s_closed s' = true /\ holds_key k s' /\ s_conn s' <> None /\ (CloseSubscriber s').2 = s' /\
      (forall n payload, item_ok (n, payload) -> s_lastSeqNum s < n ->
         accepts (data_frame k (s_sessionID s) (n, payload)) s' = Some (n, payload)).
Proof.
  intros Hpass Hc Hr Hs16 Hlast HP HS Hpad Hk Hno.
  destruct (pake_honest _ _ _ _ _ HP HS Hpad) as
    (subMsg & pubMsg & pub' & sub' & key & H1 & H2 & H3 & H4 & H5 & H6 & Kp & Ks & Hkl & Rp & Rs).
  exists (frame_bytes (step2Frame (s_sessionID s) pubMsg nonce key k)). intros rest c. set (att := mkAttempt rs None (Some c)).
  cbn [tReconnectLoop]. set (s1 := sub_backoff (nextBackoff (s_backoff s)) s).
  rewrite (exec_step false _ _ _ s tt s1) by done. rewrite (exec_step false _ _ _ s1 (Some pass) s1) by (unfold gets; by rewrite <- Hpass).
  cbv iota. change (at_rnd att) with rs. rewrite HS. set (s2 := sub_pake (Some sub) (CloseSubscriber s1).2).
  rewrite (exec_step true _ _ _ s1 tt s2) by done.
  destruct (CloseSubscriber_open s1 Hc Hr) as (A & B & C & D).
  assert (Hlast2 : s_lastSeqNum s2 = s_lastSeqNum s).
  { unfold s2, CloseSubscriber. change (s_closed s1) with (s_closed s). rewrite Hc. by destruct (Wipe _ _). }
  pose proof (attempt_alone pool _ att (tReconnectLoop pool 9 []) (reconnectLoop pool 9 []) (true, []) s2
    ltac:(intros; done)) as Ha. unfold alone in Ha.
  destruct (attempt_run pool rs sub sub' subMsg pubMsg nonce key k rest (true, []) s2 (reconnectLoop pool 9 []))
    as (s' & E & Hk' & (c' & Hc' & _) & Hcl & Hsid & Hl); try done; [by change (s_sessionID s2) with (s_sessionID (CloseSubscriber s1).2); rewrite C|].
  change (s_sessionID s2) with (s_sessionID (CloseSubscriber s1).2) in E. rewrite C in E. change (s_sessionID s1) with (s_sessionID s) in E.
  fold c in E. cbv beta zeta in Ha. change (at_quic att) with (@None Conn) in Ha. change (at_tcp att) with (Some c) in Ha.
  change (at_rnd att) with rs in Ha. rewrite E in Ha. exists s'. split; [exact Ha|].
  assert (Hcl' : s_closed s' = true) by (by rewrite Hcl). split; [done|]. split; [done|]. split; [congruence|].
  split; [unfold CloseSubscriber; by rewrite Hcl'|]. intros n payload [Hn1 Hn2] Hn.
  unfold data_frame. cbn [fst snd] in *. rewrite accepts_sealed, Hl, Hlast2 by done.
  by destruct (Z.leb_spec n (s_lastSeqNum s)); [lia|].
Qed.

(** A rekey frame in hand when [Close] comes ends the process.  The key is
    ratcheted outside the lock and then stored through [s.cipher], which [Close] has
    set to nil. *)
Theorem close_during_rekey `{AEAD} `{KeyExchange} pool unmarshal fs_create fs_write k sid n (salt : bytes) s :
  length sid = 16%nat -> length salt = Cipher.NonceSize -> length k = KeySize -> holds_key k s -> s_closed s = false ->
  ring_inv (s_ringBuffer s) (s_mem s) [] ->
  fst (exec [false; false; false; false; true] (tFrame pool unmarshal fs_create fs_write (sealed k sid MsgTypeRekey n salt)) s) = None.
Proof.
  intros Hs Hsl Hkl [Hk _] Hc Hr. set (env := sealed _ _ _ _ _). set (s1 := sub_backoff initialBackoff s).
  assert (Ek : cipherNow s1 = mkCipher (Some k) (Some k)) by (unfold cipherNow, s1; cbn; by rewrite Hk).
  assert (Eo : openFrame (cipherNow s1) env = Ok salt).
  { rewrite Ek. apply openFrame_sealed; [done|]. unfold zlen. rewrite Hsl. vm_compute. congruence. }
  unfold tFrame. rewrite (exec_step false _ _ _ s tt s1) by done.
  change (env_MsgType env) with MsgTypeRekey. rewrite !(bool_decide_false (MsgTypeRekey = _)), bool_decide_true by done.
  unfold tRekey. pose proof (length_sealed_payload k sid MsgTypeRekey n salt) as HL. fold env in HL.
  destruct (Nat.ltb_spec (length (env_Payload env)) 8); [clearbody env; lia|].
  rewrite (exec_step false _ _ _ s1 (s_cipher s) s1) by done. rewrite Hk. cbv iota.
  rewrite (exec_step false _ _ _ s1 (Ok salt) s1) by (unfold gets; by rewrite <- Eo). cbv iota.
  rewrite (exec_step false _ _ _ s1 (Some k) s1) by (unfold gets; by rewrite Ek). cbv iota.
  destruct (RatchetKey_total k salt Hkl) as (k1 & -> & _).
  destruct (CloseSubscriber_open s1 Hc Hr) as (_ & (_ & _ & Hn & _) & _). unfold mbind, T_bind, step. cbn [pbind exec].
  unfold updateSection. by rewrite Hn.
Qed.

(** ** Concrete runs *)

Lemma close_stops_stream_witness :
  let (r, s1) := exec [false; true; false; true]
    (tSubscribeStream [] (fun _ => None) (fun _ => true) length 5 []) (sub_conn (Some sample_conn) synced_sub) in
  let s2 := (CloseSubscriber s1).2 in
  s_closed s2 = true /\ gone s2 /\ (length (abs (s_ringBuffer s2) (s_mem s2)) <= 1)%nat /\
  (s_closed s1 = false -> r <> None /\ abs (s_ringBuffer s2) (s_mem s2) = []).
Proof.
  apply (close_stops_stream [] (fun _ => None) (fun _ => true) length 5 [false; true; false; true]
    (sub_conn (Some sample_conn) synced_sub)); [|reflexivity].
  apply (NewRingBuffer_inv 100 emptyMem [] owned_empty).
Defined.

Lemma close_misses_reconnection_witness :
  exists reply, forall rest,
    let c := mkConn (reader_of reply ++ rest) [] [] false in
    exists s', exec [false; false; true] (tReconnectLoop [] 10 [mkAttempt pipeSub None (Some c)]) synced_sub = (Some (Ok (true, [])), s') /\
      s_closed s' = true /\ holds_key (zeros 32) s' /\ s_conn s' <> None /\ (CloseSubscriber s').2 = s' /\
      (forall n payload, item_ok (n, payload) -> s_lastSeqNum synced_sub < n ->
         accepts (data_frame (zeros 32) (s_sessionID synced_sub) (n, payload)) s' = Some (n, payload)).
Proof.
  destruct (NewPAKEPublisher [x41] (io_rnd (pipeIO []))) as [pub|] eqn:EP; [|vm_compute in EP; discriminate EP].
  destruct (NewPAKESubscriber [x41] pipeSub) as [sub|] eqn:ES; [|vm_compute in ES; discriminate ES].
  apply (close_misses_reconnection [] [x41] (io_rnd (pipeIO [])) pipeSub pub sub (zeros 32) (zeros 12) synced_sub);
    [reflexivity|reflexivity|apply (NewRingBuffer_inv 100 emptyMem [] owned_empty)|reflexivity|cbn; lia|exact EP|exact ES
    |discriminate|reflexivity|reflexivity].
Defined.
