(* ===== verification/RateLimit.v ===== *)
(** * The relay's rate limiter: [pkg/relay/ratelimit.go]

    Failed handshakes are counted per host; the third one bans the host for
    five minutes.  A [time.Time] is the number of nanoseconds since Go's zero
    time, so that the zero value of [bannedUntil] is 0 and lies before every
    reading of the clock.  Every method reads the clock at most once, under the
    mutex; the reading is the argument [now].  The records are pointers in the
    source, but none leaves the limiter, so the map holds their values. *)

From S2P Require Import Prelude Strings.

Definition MaxFailedAttempts : Z := 3.
Definition Second : Z := 1000000000.
Definition Minute : Z := 60 * Second.
Definition BanDuration : Z := 5 * Minute.

Record ipRecord := mkIpRecord {
  attempts : Z;
  bannedUntil : Z;
  lastActivity : Z
}.

Record RateLimiter := mkRateLimiter {
  records : gmap bytes ipRecord;
  enabled : bool
}.

Definition NewRateLimiter : RateLimiter := mkRateLimiter ∅ true.

Definition SetEnabled (b : bool) (r : RateLimiter) : RateLimiter := mkRateLimiter (records r) b.

Definition IsBanned (remoteAddr : bytes) (now : Z) (r : RateLimiter) : bool * RateLimiter :=
  if negb (enabled r) then (false, r)
  else
    let ip := host_of remoteAddr in
    match records r !! ip with
    | None => (false, r)
    | Some rec =>
        let rec := mkIpRecord (attempts rec) (bannedUntil rec) now in
        let touched := <[ip := rec]> (records r) in
        if now <? bannedUntil rec then (true, mkRateLimiter touched (enabled r))
        else if (bannedUntil rec <? now) && (MaxFailedAttempts <=? attempts rec)
        then (false, mkRateLimiter (delete ip touched) (enabled r))
        else (false, mkRateLimiter touched (enabled r))
    end.

Definition RecordFailure (remoteAddr : bytes) (now : Z) (r : RateLimiter) : RateLimiter :=
  if negb (enabled r) then r
  else
    let ip := host_of remoteAddr in
    let rec := default (mkIpRecord 0 0 0) (records r !! ip) in
    let att := attempts rec + 1 in
    let until := if MaxFailedAttempts <=? att then now + BanDuration else bannedUntil rec in
    mkRateLimiter (<[ip := mkIpRecord att until now]> (records r)) (enabled r).

Definition RecordSuccess (remoteAddr : bytes) (r : RateLimiter) : RateLimiter :=
  mkRateLimiter (delete (host_of remoteAddr) (records r)) (enabled r).

(** The deletions during the range are independent of its order. *)
Definition CleanupStale (maxAge now : Z) (r : RateLimiter) : RateLimiter :=
  mkRateLimiter
    (filter (fun kv => negb ((bannedUntil kv.2 <? now) && (maxAge <? time_sub now (lastActivity kv.2))) = true)
       (records r))
    (enabled r).

Definition Count (r : RateLimiter) : Z := Z.of_nat (size (records r)).

(** ** Histories *)

(** The calls the relay makes on its limiter, each at its time. *)
Inductive rl_op :=
  | OpCheck (addr : bytes)
  | OpFail (addr : bytes)
  | OpCleanup (maxAge : Z).

Definition rl_step (op : rl_op) (now : Z) (r : RateLimiter) : RateLimiter :=
  match op with
  | OpCheck addr => snd (IsBanned addr now r)
  | OpFail addr => RecordFailure addr now r
  | OpCleanup maxAge => CleanupStale maxAge now r
  end.

Definition rl_run (h : list (rl_op * Z)) (r : RateLimiter) : RateLimiter :=
  fold_left (fun r '(op, now) => rl_step op now r) h r.

(** Number of failures of a host in a history. *)
Definition fails (ip : bytes) (h : list (rl_op * Z)) : Z :=
  zlen (filter (fun '(op, _) => match op with OpFail a => bool_decide (host_of a = ip) | _ => false end = true) h).

(** ** Facts *)

Lemma rl_step_enabled op now r : enabled (rl_step op now r) = enabled r.
Proof.
  destruct op; simpl; unfold IsBanned, RecordFailure; destruct (enabled r) eqn:E; simpl; auto.
  destruct (_ !! _); [|done]. by repeat case_match.
Qed.

(** The record of [ip] after a call about another host is the one before it. *)
Lemma rl_step_other addr now r ip :
  host_of addr <> ip ->
  records (snd (IsBanned addr now r)) !! ip = records r !! ip /\
  records (RecordFailure addr now r) !! ip = records r !! ip /\
  records (RecordSuccess addr r) !! ip = records r !! ip.
Proof.
  intros Hne. unfold IsBanned, RecordFailure, RecordSuccess. split_and!.
  - destruct (enabled r); [|done]. cbn [negb]. destruct (_ !! host_of addr); [|done].
    repeat case_match; cbn [snd records]; rewrite ?lookup_delete_ne, ?lookup_insert_ne by done; done.
  - destruct (enabled r); [|done]. cbn [negb records]. by rewrite lookup_insert_ne.
  - cbn [records]. by rewrite lookup_delete_ne.
Qed.

Lemma CleanupStale_keeps maxAge now r ip rec :
  records r !! ip = Some rec -> now <= bannedUntil rec ->
  records (CleanupStale maxAge now r) !! ip = Some rec.
Proof.
  intros H Hb. cbn [CleanupStale records]. apply map_lookup_filter_Some. split; [done|].
  cbn [snd]. destruct (Z.ltb_spec (bannedUntil rec) now); [lia|done].
Qed.

Lemma CleanupStale_shrinks maxAge now r : records (CleanupStale maxAge now r) ⊆ records r.
Proof. apply map_filter_subseteq. Qed.

(** A host is under ban until [u] and its counter is at the limit. *)
Definition banned_until (ip : bytes) (u : Z) (r : RateLimiter) : Prop :=
  enabled r = true /\
  exists rec, records r !! ip = Some rec /\ u <= bannedUntil rec /\ MaxFailedAttempts <= attempts rec.

Lemma banned_step ip u op now r :
  u - BanDuration <= now < u -> banned_until ip u r -> banned_until ip u (rl_step op now r).
Proof.
  intros Hn [He (rec & Hr & Hu & Ha)]. split; [by rewrite rl_step_enabled|].
  destruct op as [a|a|maxAge]; cbn [rl_step].
  - destruct (decide (host_of a = ip)) as [E|E].
    + unfold IsBanned. rewrite He, E, Hr. cbn [negb bannedUntil].
      destruct (Z.ltb_spec now (bannedUntil rec)); [|lia]. cbn [snd records].
      rewrite lookup_insert_eq. eexists; done.
    + exists rec. by rewrite (proj1 (rl_step_other a now r ip E)).
  - destruct (decide (host_of a = ip)) as [E|E].
    + unfold RecordFailure. rewrite He, E, Hr. cbn [negb default bannedUntil attempts from_option id].
      rewrite (proj2 (Z.leb_le _ _)) by lia. cbn [records]. rewrite lookup_insert_eq.
      eexists; split; [done|]. cbn [bannedUntil attempts]. lia.
    + exists rec. by rewrite (proj1 (proj2 (rl_step_other a now r ip E))).
  - exists rec. by rewrite (CleanupStale_keeps _ _ _ _ rec) by (done || lia).
Qed.

Lemma banned_run ip u h r :
  Forall (fun '(_, now) => u - BanDuration <= now < u) h -> banned_until ip u r ->
  banned_until ip u (rl_run h r).
Proof.
  intros Hh. revert r. induction Hh as [|[op now] h Hn _ IH]; intros r Hb; [done|].
  apply IH, banned_step; done.
Qed.

Lemma banned_check addr now u r :
  banned_until (host_of addr) u r -> now < u -> fst (IsBanned addr now r) = true.
Proof.
  intros [He (rec & Hr & Hu & _)] Hn. unfold IsBanned. rewrite He, Hr. cbn [negb bannedUntil].
  by destruct (Z.ltb_spec now (bannedUntil rec)); [|lia].
Qed.

(** What a history with few failures of [ip] can leave behind: a counter below
    the limit and no ban. *)
Definition below_limit (ip : bytes) (n : Z) (r : RateLimiter) : Prop :=
  forall rec, records r !! ip = Some rec -> attempts rec <= n /\ bannedUntil rec = 0.

Lemma below_step ip n op now r :
  0 <= n -> n + fails ip [(op, now)] < MaxFailedAttempts -> below_limit ip n r ->
  below_limit ip (n + fails ip [(op, now)]) (rl_step op now r).
Proof.
  intros H0 Hn Hb rec'. unfold fails in *. destruct op as [a|a|maxAge]; cbn [rl_step].
  - rewrite filter_cons_False, filter_nil in * by done. cbn [length] in *.
    destruct (decide (host_of a = ip)) as [E|E].
    + unfold IsBanned. destruct (enabled r); cbn [negb]; [|intros H; apply Hb in H; cbn; lia].
      rewrite E. destruct (records r !! ip) as [rec|] eqn:Hr; [|cbn [snd]; rewrite Hr; done].
      destruct (Hb _ Hr) as [H1 H2]. cbn [bannedUntil attempts].
      repeat case_match; cbn [snd records]; rewrite ?lookup_delete_eq, ?lookup_insert_eq; intros [= <-];
        cbn [attempts bannedUntil]; lia.
    + rewrite (proj1 (rl_step_other a now r ip E)). intros H. apply Hb in H. cbn. lia.
  - destruct (decide (host_of a = ip)) as [E|E].
    + rewrite filter_cons_True, filter_nil in * by (by apply bool_decide_eq_true). cbn [length] in *.
      unfold RecordFailure. destruct (enabled r); cbn [negb]; [|intros H; apply Hb in H; cbn; lia].
      rewrite E. cbn [records]. rewrite lookup_insert_eq. intros [= <-]. cbn [attempts bannedUntil].
      destruct (records r !! ip) as [rec|] eqn:Hr; cbn [default from_option id attempts bannedUntil].
      * destruct (Hb _ Hr) as [H1 H2]. destruct (Z.leb_spec MaxFailedAttempts (attempts rec + 1)); [lia|].
        split; [lia|done].
      * split; [lia|]. by destruct (Z.leb_spec MaxFailedAttempts (0 + 1)).
    + rewrite filter_cons_False, filter_nil in * by (by rewrite bool_decide_false). cbn [length] in *.
      rewrite (proj1 (proj2 (rl_step_other a now r ip E))). intros H. apply Hb in H. cbn. lia.
  - rewrite filter_cons_False, filter_nil in * by done. cbn [length] in *. intros H.
    apply lookup_weaken with (m2 := records r), Hb in H; [lia|apply CleanupStale_shrinks].
Qed.

Lemma fails_cons ip x h : fails ip (x :: h) = fails ip [x] + fails ip h.
Proof. unfold fails. change (x :: h) with ([x] ++ h). rewrite filter_app, length_app. lia. Qed.

Lemma fails_nonneg ip h : 0 <= fails ip h.
Proof. unfold fails. lia. Qed.

Lemma below_run ip n h r :
  0 <= n -> n + fails ip h < MaxFailedAttempts -> below_limit ip n r ->
  below_limit ip (n + fails ip h) (rl_run h r).
Proof.
  revert n r. induction h as [|[op now] h IH]; intros n r H0 Hn Hb.
  - by replace (n + fails ip []) with n by (unfold fails; cbn; lia).
  - rewrite fails_cons in *. pose proof (fails_nonneg ip h). pose proof (fails_nonneg ip [(op, now)]).
    rewrite Z.add_assoc in *. apply IH; [lia|done|]. apply below_step; [done|lia|done].
Qed.

(** No ban of [ip] reaches beyond [u]. *)
Definition free_after (ip : bytes) (u : Z) (r : RateLimiter) : Prop :=
  forall rec, records r !! ip = Some rec -> bannedUntil rec <= u.

(** Only a failure of the host itself sets its ban. *)
Lemma free_step ip u op now r :
  0 <= u -> (fails ip [(op, now)] = 0 \/ now + BanDuration <= u) -> free_after ip u r -> free_after ip u (rl_step op now r).
Proof.
  intros H0 Hf Hb rec'. destruct op as [a|a|maxAge]; cbn [rl_step].
  - destruct (decide (host_of a = ip)) as [E|E]; [|rewrite (proj1 (rl_step_other a now r ip E)); apply Hb].
    unfold IsBanned. destruct (enabled r); cbn [negb]; [|apply Hb].
    rewrite E. destruct (records r !! ip) as [rec|] eqn:Hr; [|cbn [snd]; by rewrite Hr].
    specialize (Hb _ Hr). cbn [bannedUntil attempts].
    repeat case_match; cbn [snd records]; rewrite ?lookup_delete_eq, ?lookup_insert_eq; intros [= <-]; done.
  - destruct (decide (host_of a = ip)) as [E|E]; [|rewrite (proj1 (proj2 (rl_step_other a now r ip E))); apply Hb].
    destruct Hf as [Hf|Hf].
    { unfold fails in Hf. by rewrite filter_cons_True, filter_nil in Hf by (by apply bool_decide_eq_true). }
    unfold RecordFailure. destruct (enabled r); cbn [negb]; [|apply Hb].
    rewrite E. cbn [records]. rewrite lookup_insert_eq. intros [= <-]. cbn [bannedUntil].
    destruct (_ <=? _); [done|]. destruct (records r !! ip) as [rec|] eqn:Hr; [by apply Hb|done].
  - intros H. apply lookup_weaken with (m2 := records r), Hb in H; [done|apply CleanupStale_shrinks].
Qed.

Lemma free_run ip u h r :
  0 <= u -> (fails ip h = 0 \/ Forall (fun '(_, now) => now + BanDuration <= u) h) -> free_after ip u r ->
  free_after ip u (rl_run h r).
Proof.
  intros H0. revert r. induction h as [|[op now] h IH]; intros r Hh Hb; [done|].
  apply IH; [|apply free_step; [done| |done]].
  - destruct Hh as [Hh|Hh]; [left|right; by inversion Hh]. rewrite fails_cons in Hh.
    pose proof (fails_nonneg ip h). pose proof (fails_nonneg ip [(op, now)]). lia.
  - destruct Hh as [Hh|Hh]; [left|right; by inversion Hh]. rewrite fails_cons in Hh.
    pose proof (fails_nonneg ip h). pose proof (fails_nonneg ip [(op, now)]). lia.
Qed.

(** ** Properties *)

(** every ban ends.  After any history of calls up to time [t], a host
    that fails no more is let in again by every check later than five minutes
    after [t], whatever other calls (checks of the host, failures of others,
    clean-ups) come in between. *)
Theorem ban_ends addr h1 h2 t now :
  0 <= t -> Forall (fun '(_, t') => t' <= t) h1 -> fails (host_of addr) h2 = 0 -> t + BanDuration < now ->
  fst (IsBanned addr now (rl_run (h1 ++ h2) NewRateLimiter)) = false.
Proof.
  intros Ht H1 H2 Hnow. unfold rl_run. rewrite fold_left_app. fold (rl_run h1 NewRateLimiter). fold (rl_run h2 (rl_run h1 NewRateLimiter)).
  assert (Hb : free_after (host_of addr) (t + BanDuration) (rl_run h2 (rl_run h1 NewRateLimiter))).
  { unfold BanDuration, Minute, Second in *. apply free_run; [lia|by left|]. apply free_run; [lia| |].
    - right. eapply Forall_impl; [exact H1|]. intros [_ t'] Hx. unfold BanDuration, Minute, Second. lia.
    - intros rec H. cbn [NewRateLimiter records] in H. by rewrite lookup_empty in H. }
  unfold IsBanned. destruct (enabled _); [|done]. cbn [negb].
  destruct (records _ !! _) as [rec|] eqn:E; [|done]. apply Hb in E. cbn [bannedUntil].
  destruct (Z.ltb_spec now (bannedUntil rec)); [lia|]. by repeat case_match.
Qed.

(** C31: the third failure of a host bans it for five minutes: from any
    enabled limiter in which the host's counter stands at two or more, after a
    failure at [t] every check at a time in [t, t + 5 min) answers that the host
    is banned, whatever checks (of any address), further failures (of any
    address) and clean-ups happen in between, and whichever port the host uses. *)
Theorem ban_lasts r addr addr' t h now :
  enabled r = true ->
  MaxFailedAttempts <= attempts (default (mkIpRecord 0 0 0) (records r !! host_of addr)) + 1 ->
  host_of addr' = host_of addr ->
  Forall (fun '(_, t') => t <= t' < t + BanDuration) h -> t <= now < t + BanDuration ->
  fst (IsBanned addr' now (rl_run h (RecordFailure addr t r))) = true.
Proof.
  intros He Ha Haddr Hh Hnow. apply banned_check with (t + BanDuration); [|lia]. rewrite Haddr.
  apply banned_run.
  - eapply Forall_impl; [exact Hh|]. intros [_ t'] Ht. lia.
  - split; [by unfold RecordFailure; rewrite He|]. unfold RecordFailure. rewrite He. cbn [negb records].
    rewrite lookup_insert_eq. eexists; split; [done|]. cbn [bannedUntil attempts].
    rewrite (proj2 (Z.leb_le _ _)) by done. lia.
Qed.

(** No host is banned for what others do, or early: starting from a new
    limiter, after any history of calls in which the host fails at most twice, a
    check of the host at any time after the epoch passes. *)
Theorem ban_not_early addr h now :
  0 < now -> fails (host_of addr) h < MaxFailedAttempts ->
  fst (IsBanned addr now (rl_run h NewRateLimiter)) = false.
Proof.
  intros Hnow Hf.
  assert (Hb : below_limit (host_of addr) (fails (host_of addr) h) (rl_run h NewRateLimiter)).
  { apply (below_run (host_of addr) 0); [lia|lia|]. intros rec H. cbn [NewRateLimiter records] in H. by rewrite lookup_empty in H. }
  unfold IsBanned. destruct (enabled _); [|done]. cbn [negb].
  destruct (records _ !! _) as [rec|] eqn:E; [|done]. destruct (Hb _ E) as [_ Hz]. cbn [bannedUntil]. rewrite Hz.
  destruct (Z.ltb_spec now 0); [lia|]. by repeat case_match.
Qed.

(** An expired ban is lifted by the next check, which also forgets the failures. *)
Lemma ban_expires addr now r rec :
  enabled r = true -> records r !! host_of addr = Some rec -> bannedUntil rec < now ->
  MaxFailedAttempts <= attempts rec ->
  IsBanned addr now r = (false, RecordSuccess addr r).
Proof.
  intros He Hr Hb Ha. unfold IsBanned, RecordSuccess. rewrite He, Hr. cbn [negb bannedUntil attempts].
  destruct (Z.ltb_spec now (bannedUntil rec)); [lia|]. rewrite (proj2 (Z.ltb_lt _ _)) by done.
  rewrite (proj2 (Z.leb_le _ _)) by done. cbn [andb]. by rewrite delete_insert_eq.
Qed.

(** ** Witnesses *)

(** "1.2.3.4:5" and "1.2.3.4:6", and another host. *)
Definition demoAddr : bytes := [x31; x2e; x32; x3a; x35].
Definition demoAddr' : bytes := [x31; x2e; x32; x3a; x36].
Definition demoOther : bytes := [x39; x2e; x39; x3a; x35].

Definition demoTwice : RateLimiter := RecordFailure demoAddr 20 (RecordFailure demoAddr' 10 NewRateLimiter).

Lemma ban_lasts_witness :
  fst (IsBanned demoAddr' 500 (rl_run [(OpFail demoOther, 100); (OpCleanup 7, 200); (OpCheck demoAddr, 300)]
    (RecordFailure demoAddr 30 demoTwice))) = true.
Proof.
  refine (ban_lasts demoTwice demoAddr demoAddr' 30 _ 500 _ _ _ _ _).
  - reflexivity.
  - vm_compute. discriminate.
  - reflexivity.
  - repeat constructor; vm_compute; congruence.
  - vm_compute. split; congruence.
Defined.

Lemma ban_not_early_witness :
  fst (IsBanned demoAddr 50 (rl_run [(OpFail demoAddr, 10); (OpFail demoAddr', 20); (OpFail demoOther, 30);
    (OpFail demoOther, 40)] NewRateLimiter)) = false.
Proof.
  refine (ban_not_early demoAddr _ 50 _ _).
  - reflexivity.
  - vm_compute. reflexivity.
Defined.

Lemma ban_ends_witness :
  fst (IsBanned demoAddr (40 + BanDuration) (rl_run ([(OpFail demoAddr, 10); (OpFail demoAddr', 20); (OpFail demoAddr, 30)] ++
    [(OpCheck demoAddr, 40); (OpFail demoOther, 50)]) NewRateLimiter)) = false.
Proof.
  refine (ban_ends demoAddr [(OpFail demoAddr, 10); (OpFail demoAddr', 20); (OpFail demoAddr, 30)]
    [(OpCheck demoAddr, 40); (OpFail demoOther, 50)] 30 (40 + BanDuration) _ _ _ _).
  - vm_compute. congruence.
  - repeat constructor; vm_compute; congruence.
  - vm_compute. reflexivity.
  - vm_compute. reflexivity.
Defined.
