(* ===== verification/ProxyProto.v ===== *)
(** * PROXY protocol v2: [pkg/relay/proxy_proto.go]

    Behind a trusted load balancer the relay takes the client's address from a
    PROXY v2 header at the head of the connection.  The model keeps the
    [bufio.Reader] of the source visible: it reads from the socket in chunks, so
    that what it has fetched is gone from the raw connection. *)

From S2P Require Import Prelude Protocol Strings.

Definition proxyV2Magic : bytes := [x0d; x0a; x0d; x0a; x00; x0d; x0a; x51; x55; x49; x54; x0a].

(** ** [net.IP.String] *)

Definition DOT : byte := x2e.

Fixpoint join (sep : bytes) (l : list bytes) : bytes :=
  match l with
  | [] => []
  | [s] => s
  | s :: l' => s ++ sep ++ join sep l'
  end.

Definition ipv4_string (ip : bytes) : bytes := join [DOT] ((fun b => dec (Z_of_byte b)) <$> ip).

Definition hexdigit (n : Z) : byte := if n <? 10 then byte_of_Z (0x30 + n) else byte_of_Z (0x61 + n - 10).

(** Lower-case hexadecimal of a 16-bit group without leading zeros. *)
Definition hex16 (n : Z) : bytes :=
  (if 0x1000 <=? n then [hexdigit (n `div` 0x1000)] else []) ++
  (if 0x100 <=? n then [hexdigit ((n `div` 0x100) `mod` 16)] else []) ++
  (if 0x10 <=? n then [hexdigit ((n `div` 0x10) `mod` 16)] else []) ++ [hexdigit (n `mod` 16)].

Fixpoint groups (ip : bytes) : list Z :=
  match ip with
  | a :: b :: ip' => (Z_of_byte a * 256 + Z_of_byte b) :: groups ip'
  | _ => []
  end.

(** Length of the run of zero groups at the head. *)
Fixpoint zero_run (gs : list Z) : nat :=
  match gs with g :: gs' => if g =? 0 then S (zero_run gs') else O | [] => O end.

(** The first longest run of at least two zero groups: start and end. *)
Fixpoint best_run (i : nat) (gs : list Z) (best : nat * nat) : nat * nat :=
  match gs with
  | [] => best
  | _ :: gs' =>
      let l := zero_run gs in
      let best := if (2 <=? l)%nat && (best.2 - best.1 <? l)%nat then (i, (i + l)%nat) else best in
      best_run (S i) gs' best
  end.

Definition ipv6_string (ip : bytes) : bytes :=
  let gs := groups ip in
  let '(zs, ze) := best_run 0 gs (255%nat, 255%nat) in
  if (zs <? 8)%nat
  then join [COLON] (hex16 <$> take zs gs) ++ [COLON; COLON] ++ join [COLON] (hex16 <$> drop ze gs)
  else join [COLON] (hex16 <$> gs).

(** A 16-byte address that maps an IPv4 one prints as the latter. *)
Definition v4InV6Prefix : bytes := zeros 10 ++ [xff; xff].
Definition ip_string (ip : bytes) : bytes :=
  if (length ip =? 4)%nat then ipv4_string ip
  else if bool_decide (take 12 ip = v4InV6Prefix) then ipv4_string (drop 12 ip)
  else ipv6_string ip.

(** ** The buffered reader *)

(** The bytes a reader delivers before its first error. *)
Fixpoint ready_bytes (r : reader) : bytes :=
  match r with inl b :: r' => b :: ready_bytes r' | _ => [] end.

Definition bufSize : nat := Z.to_nat 4096.

(** How far [bufReader.Peek(12)] advances the raw connection: the reads it needs
    for twelve bytes bring [ahead] more if they are there and fit the buffer; an
    error before the twelfth byte is consumed with the bytes before it. *)
Definition peek_consumes (ahead : nat) (r : reader) : nat :=
  let n := length (ready_bytes r) in
  if (n <? 12)%nat then Nat.min (S n) (length r) else Nat.min n (Nat.min bufSize (12 + ahead)).

Inductive proxy_error := PRead (e : io_error) | PTooLong.

(** [ParseProxyHeaderV2(conn)]: what is left to read on the connection it
    returns, the client's address, and the error.  On an error, and when there is
    no PROXY header, it returns the raw connection, without what [bufReader] has
    fetched; [ahead] is how much that is beyond what was asked for. *)
Definition ParseProxyHeaderV2 (ahead : nat) (conn : reader) (remoteAddr : bytes)
    : reader * bytes * option proxy_error :=
  let raw := drop (peek_consumes ahead conn) conn in
  if negb (bool_decide (take 12 (ready_bytes conn) = proxyV2Magic)) then (raw, remoteAddr, None)
  else
    match read_full 1 (drop 12 conn) with
    | (Err e, r) => (raw, remoteAddr, Some (PRead e))
    | (Ok verCmd, r) =>
    match read_full 1 r with
    | (Err e, r) => (raw, remoteAddr, Some (PRead e))
    | (Ok familyBuf, r) =>
    match read_full 2 r with
    | (Err e, r) => (raw, remoteAddr, Some (PRead e))
    | (Ok lenBuf, r) =>
        let hdrLen := be_val lenBuf in
        if 512 <? hdrLen then (raw, remoteAddr, Some PTooLong)
        else
        match read_full (Z.to_nat hdrLen) r with
        | (Err e, r) => (raw, remoteAddr, Some (PRead e))
        | (Ok hdrPayload, r) =>
            let family := Z.shiftr (Z_of_byte (nth 0 familyBuf x00)) 4 in
            let port i := dec (be_val (slice i (i + 2) hdrPayload)) in
            let clientAddr :=
              if (family =? 1) && (12 <=? zlen hdrPayload)
              then ip_string (slice 0 4 hdrPayload) ++ COLON :: port 8%nat
              else if (family =? 2) && (36 <=? zlen hdrPayload)
              then LBRACKET :: ip_string (slice 0 16 hdrPayload) ++ RBRACKET :: COLON :: port 32%nat
              else remoteAddr in
            (r, clientAddr, None)
        end
    end
    end
    end.

Example ip_string_loopback : ip_string (zeros 15 ++ [x01]) = [COLON; COLON; x31].
Proof. reflexivity. Qed.
Example ip_string_v4 : ip_string [x0a; x00; x00; xff] = str "10.0.0.255".
Proof. reflexivity. Qed.
Example ip_string_v6 :
  ip_string ([x20; x01; x0d; xb8] ++ zeros 8 ++ [x00; x01; x00; x00]) = str "2001:db8::1:0".
Proof. reflexivity. Qed.

(** ** The header a proxy sends (PROXY protocol specification, version 2) *)

Definition proxy_header (verCmd family : byte) (body : bytes) : bytes :=
  proxyV2Magic ++ [verCmd] ++ [family] ++ be_bytes 2 (zlen body) ++ body.

Definition proxy_body_v4 (src dst : bytes) (sport dport : Z) (tlv : bytes) : bytes :=
  src ++ dst ++ be_bytes 2 sport ++ be_bytes 2 dport ++ tlv.

(** Sample values. *)
Definition demo : bytes := str "192.0.2.1:9000".
Definition demoEnv : Envelope := mkEnvelope Version MsgTypePAKEInitSub (zeros 16) zeroNonce [].

(** ** Facts *)

Lemma ready_bytes_app l r : ready_bytes (reader_of l ++ r) = l ++ ready_bytes r.
Proof. induction l as [|b l IH]; simpl; [done|]. by rewrite IH. Qed.

Lemma proxy_header_read ahead remoteAddr verCmd family body rest :
  zlen body <= 512 ->
  ParseProxyHeaderV2 ahead (reader_of (proxy_header verCmd family body) ++ rest) remoteAddr =
    (rest,
     (let port i := dec (be_val (slice i (i + 2) body)) in
      let fam := Z.shiftr (Z_of_byte family) 4 in
      if (fam =? 1) && (12 <=? zlen body) then ip_string (slice 0 4 body) ++ COLON :: port 8%nat
      else if (fam =? 2) && (36 <=? zlen body)
      then LBRACKET :: ip_string (slice 0 16 body) ++ RBRACKET :: COLON :: port 32%nat
      else remoteAddr), None).
Proof.
  intros Hl. unfold ParseProxyHeaderV2, proxy_header. rewrite ready_bytes_app, <- app_assoc.
  rewrite (take_exact 12 proxyV2Magic) by done. rewrite bool_decide_true by done. cbn [negb].
  rewrite reader_of_app, <- app_assoc. rewrite (drop_exact 12) by done.
  rewrite reader_of_app, <- app_assoc, read_full_app by done.
  rewrite reader_of_app, <- app_assoc, read_full_app by done.
  rewrite reader_of_app, <- app_assoc, read_full_app by (by rewrite length_be_bytes).
  rewrite be_val_bytes, Z.mod_small by (change (256 ^ Z.of_nat 2) with 65536; lia).
  destruct (Z.ltb_spec 512 (zlen body)); [lia|]. rewrite Nat2Z.id, read_full_app by done. done.
Qed.

(** The characters of a printed IPv4 address. *)
Lemma ipv4_string_chars ip b : b ∈ ipv4_string ip -> b = DOT \/ 0x30 <= Z_of_byte b <= 0x39.
Proof.
  unfold ipv4_string. induction ip as [|x ip IH]; [by rewrite elem_of_nil|].
  assert (Hx : b ∈ dec (Z_of_byte x) -> b = DOT \/ 0x30 <= Z_of_byte b <= 0x39).
  { intros H. right. eapply dec_digits_only, H. pose proof (Z_of_byte_range x). lia. }
  destruct ip as [|y ip]; [done|]. rewrite !fmap_cons. cbn [join]. rewrite !elem_of_app.
  rewrite list_elem_of_singleton. intros [H|[H|H]]; [by apply Hx|by left|].
  by apply IH.
Qed.

Lemma dec_chars n b : 0 <= n -> b ∈ dec n -> 0x30 <= Z_of_byte b <= 0x39.
Proof. apply dec_digits_only. Qed.

Lemma not_in_v4 (c : byte) ip n :
  0 <= n -> c <> DOT -> ~ (0x30 <= Z_of_byte c <= 0x39) -> c ∉ ipv4_string ip ++ dec n.
Proof.
  intros Hn H1 H2. rewrite elem_of_app. intros [H|H].
  - by apply ipv4_string_chars in H as [?|?].
  - by apply dec_chars in H.
Qed.

(** ** Properties *)

(** behind a proxy the relay sees the client: for a PROXY v2 header of
    the IPv4 family (any command, destination and TLV extensions up to the 512-byte
    limit), whatever the buffered reader fetched ahead, the parser returns a
    connection from which exactly the bytes after the header can be read, with the
    client's own address; the rate limiter's host of that address is the client's
    IP in dotted form. *)
Theorem proxied_client_identified ahead remoteAddr verCmd family src dst sport dport tlv rest :
  Z.shiftr (Z_of_byte family) 4 = 1 -> length src = 4%nat -> length dst = 4%nat ->
  0 <= sport < 65536 -> 12 + zlen tlv <= 512 ->
  exists addr,
    ParseProxyHeaderV2 ahead
      (reader_of (proxy_header verCmd family (proxy_body_v4 src dst sport dport tlv)) ++ rest) remoteAddr
      = (rest, addr, None) /\
    addr = ipv4_string src ++ COLON :: dec sport /\ host_of addr = ipv4_string src.
Proof.
  intros Hf Hs Hd Hp Ht. exists (ipv4_string src ++ COLON :: dec sport).
  assert (Hl : zlen (proxy_body_v4 src dst sport dport tlv) = 12 + zlen tlv).
  { unfold proxy_body_v4. rewrite !length_app, !length_be_bytes. lia. }
  rewrite proxy_header_read by lia. cbn zeta. rewrite Hf, Hl. rewrite (proj2 (Z.leb_le _ _)) by lia.
  cbn [Z.eqb andb Pos.eqb]. split_and!; [|done|].
  - do 2 f_equal. unfold proxy_body_v4. rewrite slice_head by done.
    unfold ip_string. rewrite Hs, Nat.eqb_refl. do 3 f_equal.
    replace (src ++ dst ++ be_bytes 2 sport ++ be_bytes 2 dport ++ tlv)
      with ((src ++ dst) ++ be_bytes 2 sport ++ be_bytes 2 dport ++ tlv) by (by rewrite <- app_assoc).
    rewrite slice_mid by (rewrite ?length_app, ?length_be_bytes; lia).
    rewrite be_val_bytes. apply Z.mod_small. change (256 ^ Z.of_nat 2) with 65536. lia.
  - unfold host_of. rewrite SplitHostPort_plain; [done|..].
    + intros H. eapply (not_in_v4 COLON src 0); [lia|done|vm_compute; tauto|]. rewrite elem_of_app. by left.
    + apply not_in_v4; [lia|done|by vm_compute; intros []].
    + apply not_in_v4; [lia|done|by vm_compute; intros []].
    + intros H. apply dec_chars in H; [|lia]. by vm_compute in H; destruct H.
Qed.

(** With proxy headers trusted, a client that connects directly is cut
    off: when its handshake frame arrives in one read and no PROXY header precedes
    it, the bytes of the frame are in the buffered reader that the parser drops,
    and the connection it returns starts after them. *)
Theorem direct_client_loses_frame remoteAddr env rest ahead :
  Envelope_wf env -> (length (frame_bytes env) <= bufSize)%nat -> (length (frame_bytes env) = 12 + ahead)%nat ->
  ParseProxyHeaderV2 ahead (reader_of (frame_bytes env) ++ rest) remoteAddr = (rest, remoteAddr, None).
Proof.
  intros Hwf Hl Ha. unfold ParseProxyHeaderV2. rewrite ready_bytes_app.
  rewrite take_app_le by lia.
  assert (Hm : take 12 (frame_bytes env) <> proxyV2Magic).
  { unfold frame_bytes, header_bytes, MagicHeader. done. }
  rewrite bool_decide_false by done. cbn [negb]. do 2 f_equal. apply drop_exact.
  unfold peek_consumes. rewrite ready_bytes_app, !length_app. unfold reader_of. rewrite length_fmap.
  destruct (Nat.ltb_spec (length (frame_bytes env) + length (ready_bytes rest)) 12); lia.
Qed.

(** ** Witnesses *)

Lemma proxied_client_identified_witness :
  exists addr,
    ParseProxyHeaderV2 30 (reader_of (proxy_header x21 x11
      (proxy_body_v4 [x0a; x01; x02; x03] [x0a; x00; x00; x01] 4242 443 [])) ++ [inl x5a]) demo = ([inl x5a], addr, None) /\
    addr = ipv4_string [x0a; x01; x02; x03] ++ COLON :: dec 4242 /\ host_of addr = ipv4_string [x0a; x01; x02; x03].
Proof.
  refine (proxied_client_identified 30 demo x21 x11 [x0a; x01; x02; x03] [x0a; x00; x00; x01] 4242 443 [] [inl x5a] _ _ _ _ _);
    vm_compute; try done; split; congruence.
Defined.

Lemma direct_client_loses_frame_witness :
  ParseProxyHeaderV2 26 (reader_of (frame_bytes demoEnv) ++ [inr EOF]) demo = ([inr EOF], demo, None).
Proof.
  refine (direct_client_loses_frame demo demoEnv [inr EOF] 26 _ _ _).
  - by split.
  - vm_compute. lia.
  - reflexivity.
Defined.
