(* ===== verification/RelaySession.v ===== *)
(** * Relay sessions: [pkg/relay/session.go]

    The relay is a concurrent program over shared objects: connections, client
    connections, sessions, the session map.  Each kind of object lives in a heap
    of the server's state and is referred to by its address, so that a session
    that has left the map, or a client that has left its session, can still be
    held by the goroutine that is using it.  Operations change the state;
    [go f()] adds a goroutine to it. *)

From S2P Require Import Prelude Strings Protocol Engine RateLimit.

(** ** Constants (session.go:18-22, 195; server.go:18) *)

Definition SubscriberQueueSize : nat := 200.
Definition HighWatermark : nat := 160.
Definition LowWatermark : nat := 80.
Definition sessionGracePeriod : Z := 30 * Second.
Definition MaxActiveConnections : Z := 10000.
Definition Millisecond : Z := 1000000.

(** ** Objects *)

(** A socket and its [RemoteAddr().String()]. *)
Record NetConn := mkNetConn {
  nc_conn : Conn;
  nc_addr : bytes
}.

(** [ClientConn] (session.go:25-33). The role is 1 for a publisher, 2 for a
    subscriber; a closed [done] channel is [true]. *)
Record ClientConn := mkClientConn {
  cl_netConn : nat;
  cl_role : Z;
  cl_initialEnv : option Envelope;
  cl_sendCh : list Envelope;
  cl_done : bool
}.

(** [RelaySession] (session.go:182-189) *)
Record RelaySession := mkRelaySession {
  rs_sessionID : bytes;
  rs_publisher : option nat;
  rs_subscribers : gmap bytes nat;
  rs_createdAt : Z;
  rs_closed : bool
}.

(** [Metrics] (metrics.go:12-23) without the start time. *)
Record Metrics := mkMetrics {
  m_ActiveSessions : Z;
  m_SessionsCreatedTotal : Z;
  m_ActiveConnections : Z;
  m_BytesTransferredTotal : Z;
  m_MessagesRelayedTotal : Z;
  m_RateLimitBansTotal : Z;
  m_MalformedPacketsDroppedTotal : Z;
  m_BackpressurePausesTotal : Z;
  m_SlowConsumersPrunedTotal : Z
}.

Definition NewMetrics : Metrics := mkMetrics 0 0 0 0 0 0 0 0 0.

(** ** Goroutines

    Where a goroutine of the relay stands: one constructor per point at which
    another goroutine's critical section, channel or socket operation can come in
    between. *)
Inductive pc :=
  (* handleConnection (server.go:231-329) *)
  | HStart (conn : nat)
  | HDecode (conn : nat) (remoteAddr : bytes)
  | HRegisterPub (conn : nat) (env : Envelope) (s : nat)
  | HRegistered (s c : nat)
  | HGreetPub (s c : nat) (todo : list nat)
  | HRegisterSub (conn : nat) (env : Envelope) (s : nat)
  | HNotifyPub (s c : nat) (key : bytes) (env : Envelope)
  | HSyncReq (conn s : nat) (env : Envelope)
  (* loopPublisher (server.go:331-365) with ForwardFromPublisher *)
  | PubLoop (s c : nat)
  | PubForward (s c : nat) (env : Envelope) (todo : list (bytes * nat)) (subs : list nat) (highWatermarkHit : bool)
  | PubDrain (s c : nat) (env : Envelope) (todo : list nat) (deadline : option Z)
  | PubExit (s c : nat)
  (* loopSubscriber (server.go:367-392) *)
  | SubLoop (s c : nat) (key : bytes)
  | SubRemove (s c : nat) (key : bytes)
  | SubCheck (s : nat)
  | SubExit (s : nat)
  (* writeLoop (session.go:101-126), its draining phase *)
  | WLoop (c : nat)
  | WFlush (c : nat)
  (* go s.RemoveSubscriber(addr) (session.go:306) *)
  | RemoveSub (s : nat) (key : bytes)
  (* the delayed close of a subscriber's socket (session.go:170-173) *)
  | DelayedClose (conn : nat).

#[global] Instance pc_eq_dec : EqDecision pc.
Proof. solve_decision. Defined.

(** What a goroutine's deferred calls do at its end: a handler started by the TCP
    or WebSocket listener gives back both connection counters, one started by the
    QUIC listener only [activeConns], a helper nothing. *)
Inductive goKind := GoTCP | GoQUIC | GoHelper.

Record thread := mkThread { th_kind : goKind; th_pc : pc }.

(** ** The state *)

Record Server := mkServer {
  sv_conns : gmap nat NetConn;
  sv_clients : gmap nat ClientConn;
  sv_heap : gmap nat RelaySession;
  sv_sessions : gmap bytes nat;
  sv_threads : gmap nat thread;
  sv_rateLimiter : RateLimiter;
  sv_trustProxy : bool;
  sv_metrics : Metrics;
  sv_activeConns : Z;
  sv_subKeyCounter : Z;
  sv_now : Z;
  sv_next : nat
}.

(** [NewServer] (server.go:35-43) at time [now]. *)
Definition NewServer (now : Z) : Server :=
  mkServer ∅ ∅ ∅ ∅ ∅ NewRateLimiter false NewMetrics 0 0 now 0.

Definition set_conns f w := mkServer (f (sv_conns w)) (sv_clients w) (sv_heap w) (sv_sessions w) (sv_threads w)
  (sv_rateLimiter w) (sv_trustProxy w) (sv_metrics w) (sv_activeConns w) (sv_subKeyCounter w) (sv_now w) (sv_next w).
Definition set_clients f w := mkServer (sv_conns w) (f (sv_clients w)) (sv_heap w) (sv_sessions w) (sv_threads w)
  (sv_rateLimiter w) (sv_trustProxy w) (sv_metrics w) (sv_activeConns w) (sv_subKeyCounter w) (sv_now w) (sv_next w).
Definition set_heap f w := mkServer (sv_conns w) (sv_clients w) (f (sv_heap w)) (sv_sessions w) (sv_threads w)
  (sv_rateLimiter w) (sv_trustProxy w) (sv_metrics w) (sv_activeConns w) (sv_subKeyCounter w) (sv_now w) (sv_next w).
Definition set_sessions f w := mkServer (sv_conns w) (sv_clients w) (sv_heap w) (f (sv_sessions w)) (sv_threads w)
  (sv_rateLimiter w) (sv_trustProxy w) (sv_metrics w) (sv_activeConns w) (sv_subKeyCounter w) (sv_now w) (sv_next w).
Definition set_threads f w := mkServer (sv_conns w) (sv_clients w) (sv_heap w) (sv_sessions w) (f (sv_threads w))
  (sv_rateLimiter w) (sv_trustProxy w) (sv_metrics w) (sv_activeConns w) (sv_subKeyCounter w) (sv_now w) (sv_next w).
Definition set_rateLimiter f w := mkServer (sv_conns w) (sv_clients w) (sv_heap w) (sv_sessions w) (sv_threads w)
  (f (sv_rateLimiter w)) (sv_trustProxy w) (sv_metrics w) (sv_activeConns w) (sv_subKeyCounter w) (sv_now w) (sv_next w).
Definition set_trustProxy b w := mkServer (sv_conns w) (sv_clients w) (sv_heap w) (sv_sessions w) (sv_threads w)
  (sv_rateLimiter w) b (sv_metrics w) (sv_activeConns w) (sv_subKeyCounter w) (sv_now w) (sv_next w).
Definition set_metrics f w := mkServer (sv_conns w) (sv_clients w) (sv_heap w) (sv_sessions w) (sv_threads w)
  (sv_rateLimiter w) (sv_trustProxy w) (f (sv_metrics w)) (sv_activeConns w) (sv_subKeyCounter w) (sv_now w) (sv_next w).
Definition set_activeConns f w := mkServer (sv_conns w) (sv_clients w) (sv_heap w) (sv_sessions w) (sv_threads w)
  (sv_rateLimiter w) (sv_trustProxy w) (sv_metrics w) (f (sv_activeConns w)) (sv_subKeyCounter w) (sv_now w) (sv_next w).
Definition set_subKeyCounter z w := mkServer (sv_conns w) (sv_clients w) (sv_heap w) (sv_sessions w) (sv_threads w)
  (sv_rateLimiter w) (sv_trustProxy w) (sv_metrics w) (sv_activeConns w) z (sv_now w) (sv_next w).
Definition set_now f w := mkServer (sv_conns w) (sv_clients w) (sv_heap w) (sv_sessions w) (sv_threads w)
  (sv_rateLimiter w) (sv_trustProxy w) (sv_metrics w) (sv_activeConns w) (sv_subKeyCounter w) (f (sv_now w)) (sv_next w).
Definition set_next n w := mkServer (sv_conns w) (sv_clients w) (sv_heap w) (sv_sessions w) (sv_threads w)
  (sv_rateLimiter w) (sv_trustProxy w) (sv_metrics w) (sv_activeConns w) (sv_subKeyCounter w) (sv_now w) n.

(** Metric updates. *)
Definition addActiveSessions (d : Z) (m : Metrics) : Metrics :=
  mkMetrics (m_ActiveSessions m + d) (m_SessionsCreatedTotal m) (m_ActiveConnections m) (m_BytesTransferredTotal m)
    (m_MessagesRelayedTotal m) (m_RateLimitBansTotal m) (m_MalformedPacketsDroppedTotal m)
    (m_BackpressurePausesTotal m) (m_SlowConsumersPrunedTotal m).
Definition addSessionsCreated (m : Metrics) : Metrics :=
  mkMetrics (m_ActiveSessions m) (u64_add (m_SessionsCreatedTotal m) 1) (m_ActiveConnections m)
    (m_BytesTransferredTotal m) (m_MessagesRelayedTotal m) (m_RateLimitBansTotal m)
    (m_MalformedPacketsDroppedTotal m) (m_BackpressurePausesTotal m) (m_SlowConsumersPrunedTotal m).
Definition addActiveConnections (d : Z) (m : Metrics) : Metrics :=
  mkMetrics (m_ActiveSessions m) (m_SessionsCreatedTotal m) (m_ActiveConnections m + d) (m_BytesTransferredTotal m)
    (m_MessagesRelayedTotal m) (m_RateLimitBansTotal m) (m_MalformedPacketsDroppedTotal m)
    (m_BackpressurePausesTotal m) (m_SlowConsumersPrunedTotal m).
Definition addRelayed (n : Z) (m : Metrics) : Metrics :=
  mkMetrics (m_ActiveSessions m) (m_SessionsCreatedTotal m) (m_ActiveConnections m)
    (u64_add (m_BytesTransferredTotal m) n) (u64_add (m_MessagesRelayedTotal m) 1) (m_RateLimitBansTotal m)
    (m_MalformedPacketsDroppedTotal m) (m_BackpressurePausesTotal m) (m_SlowConsumersPrunedTotal m).
Definition addBan (m : Metrics) : Metrics :=
  mkMetrics (m_ActiveSessions m) (m_SessionsCreatedTotal m) (m_ActiveConnections m) (m_BytesTransferredTotal m)
    (m_MessagesRelayedTotal m) (u64_add (m_RateLimitBansTotal m) 1) (m_MalformedPacketsDroppedTotal m)
    (m_BackpressurePausesTotal m) (m_SlowConsumersPrunedTotal m).
Definition addMalformed (m : Metrics) : Metrics :=
  mkMetrics (m_ActiveSessions m) (m_SessionsCreatedTotal m) (m_ActiveConnections m) (m_BytesTransferredTotal m)
    (m_MessagesRelayedTotal m) (m_RateLimitBansTotal m) (u64_add (m_MalformedPacketsDroppedTotal m) 1)
    (m_BackpressurePausesTotal m) (m_SlowConsumersPrunedTotal m).

(** ** Sockets *)

Definition on_conn (f : Conn -> Conn) (nc : NetConn) : NetConn := mkNetConn (f (nc_conn nc)) (nc_addr nc).

Definition closeConn (conn : nat) (w : Server) : Server := set_conns (alter (on_conn conn_close) conn) w.

(** [go f()] *)
Definition spawn (k : goKind) (p : pc) (w : Server) : Server :=
  set_next (S (sv_next w)) (set_threads (insert (sv_next w) (mkThread k p)) w).

(** ** Choices left to the run-time system

    Which ready case a [select] takes (and, when none is ready, whether the timer
    fires rather than the wait going on); how far a buffered reader reads ahead;
    in which order a [range] visits a map. *)
Record oracle := mkOracle {
  o_select : bool;
  o_ahead : nat;
  o_range : gmap bytes nat -> list (bytes * nat);
  o_range_perm : forall m, o_range m ≡ₚ map_to_list m
}.

(** ** [ClientConn] *)

Inductive relay_error :=
  | RErrClosed          (* subscriber closed *)
  | RErrQueueFull       (* subscriber queue full (slow consumer) *)
  | RErrTimeout         (* subscriber queue full timeout (slow consumer) *)
  | RErrNoPublisher     (* publisher not connected *)
  | RErrSend (e : feed_error).

Definition set_sendCh (q : list Envelope) (c : ClientConn) : ClientConn :=
  mkClientConn (cl_netConn c) (cl_role c) (cl_initialEnv c) q (cl_done c).
Definition set_done (c : ClientConn) : ClientConn :=
  mkClientConn (cl_netConn c) (cl_role c) (cl_initialEnv c) (cl_sendCh c) true.

(** [NewClientConn] (session.go:36-50) *)
Definition NewClientConn (conn : nat) (role : Z) (initialEnv : option Envelope) (w : Server) : nat * Server :=
  let c := sv_next w in
  let w := set_next (S c) (set_clients (insert c (mkClientConn conn role initialEnv [] false)) w) in
  (c, if role =? 2 then spawn GoHelper (WLoop c) w else w).

Definition IsClosed (c : ClientConn) : bool := cl_done c.
Definition QueueLen (c : ClientConn) : nat := if negb (cl_role c =? 2) then 0%nat else length (cl_sendCh c).
Definition IsHighWatermark (c : ClientConn) : bool := (HighWatermark <=? QueueLen c)%nat.
Definition IsLowWatermark (c : ClientConn) : bool := (QueueLen c <=? LowWatermark)%nat.

(** [ClientConn.Close] (session.go:166-179) *)
Definition ClientConn_Close (c : nat) (w : Server) : Server :=
  match sv_clients w !! c with
  | None => w
  | Some cl =>
      if cl_done cl then w
      else
        let w := set_clients (insert c (set_done cl)) w in
        if cl_role cl =? 2 then spawn GoHelper (DelayedClose (cl_netConn cl)) w
        else closeConn (cl_netConn cl) w
  end.

(** [WaitForDrain] (session.go:83-99), as the test whether it returns now: at its
    entry no deadline is set; later the queue is looked at again and again until
    the deadline. *)
Definition WaitForDrain (cl : ClientConn) (now : Z) (deadline : option Z) : bool :=
  match deadline with
  | None => negb (cl_role cl =? 2) || IsLowWatermark cl
  | Some d => negb (now <? d) || IsLowWatermark cl || cl_done cl
  end.

Section Pool.
(** Stale contents of the pooled frame buffer. *)
Context (pool : bytes).

(** [protocol.Encode(netConn, env)] on a socket of the heap *)
Definition encodeTo_conn (conn : nat) (env : Envelope) (w : Server) : result feed_error unit * Server :=
  match sv_conns w !! conn with
  | None => (Err FErrConnNil, w)
  | Some nc =>
      let (r, c) := conn_encode (stalePool pool) env (nc_conn nc) in
      (r, set_conns (insert conn (mkNetConn c (nc_addr nc))) w)
  end.

(** [SendFrameWithTimeout] (session.go:134-163); [None] when the goroutine stays
    blocked in the [select]. *)
Definition SendFrameWithTimeout (o : oracle) (c : nat) (env : Envelope) (timeout : Z) (w : Server)
    : option (result relay_error unit * Server) :=
  match sv_clients w !! c with
  | None => None
  | Some cl =>
      let room := (length (cl_sendCh cl) <? SubscriberQueueSize)%nat in
      let enqueue := set_clients (insert c (set_sendCh (cl_sendCh cl ++ [env]) cl)) w in
      if cl_role cl =? 2 then
        if timeout =? 0 then Some (if room then (Ok tt, enqueue) else (Err RErrQueueFull, w))
        else if room && (negb (cl_done cl) || o_select o) then Some (Ok tt, enqueue)
        else if cl_done cl then Some (Err RErrClosed, w)
        else if o_select o then Some (Err RErrTimeout, w)
        else None
      else
        let (r, w) := encodeTo_conn (cl_netConn cl) env w in
        Some (match r with Ok _ => Ok tt | Err e => Err (RErrSend e) end, w)
  end.

Definition SendFrame (o : oracle) (c : nat) (env : Envelope) (w : Server)
    : option (result relay_error unit * Server) := SendFrameWithTimeout o c env (5 * Second) w.

(** [ForwardToPublisher] (session.go:320-330) *)
Definition ForwardToPublisher (o : oracle) (s : nat) (env : Envelope) (w : Server)
    : option (result relay_error unit * Server) :=
  match sv_heap w !! s with
  | None => None
  | Some rs =>
      match rs_publisher rs with
      | None => Some (Err RErrNoPublisher, w)
      | Some pub => SendFrame o pub env w
      end
  end.

End Pool.

(** ** [RelaySession] *)

(** [NewRelaySession] (session.go:198-204) *)
Definition NewRelaySession (sessionID : bytes) (now : Z) : RelaySession :=
  mkRelaySession sessionID None ∅ now false.

(** [IsEmpty] (session.go:207-217): every client connection has a socket. *)
Definition IsEmpty (s : RelaySession) : bool :=
  if rs_closed s then true
  else
    let hasPub := match rs_publisher s with Some _ => true | None => false end in
    let hasSubs := (0 <? size (rs_subscribers s))%nat in
    negb hasPub && negb hasSubs.

(** [IsReapable] (session.go:222-231) *)
Definition IsReapable (now : Z) (s : RelaySession) : bool :=
  if negb (IsEmpty s) then false else sessionGracePeriod <=? time_sub now (rs_createdAt s).

Definition set_publisher (p : option nat) (s : RelaySession) : RelaySession :=
  mkRelaySession (rs_sessionID s) p (rs_subscribers s) (rs_createdAt s) (rs_closed s).
Definition set_subscribers (f : gmap bytes nat -> gmap bytes nat) (s : RelaySession) : RelaySession :=
  mkRelaySession (rs_sessionID s) (rs_publisher s) (f (rs_subscribers s)) (rs_createdAt s) (rs_closed s).

(** [RegisterPublisher] (session.go:234-258): [None] when a live publisher is
    already registered; the new connection is then closed. *)
Definition RegisterPublisher (s conn : nat) (env : Envelope) (w : Server) : option nat * Server :=
  let register w :=
    let (pub, w) := NewClientConn conn 1 (Some env) w in
    (Some pub, set_heap (alter (set_publisher (Some pub)) s) w) in
  match sv_heap w !! s ≫= rs_publisher with
  | None => register w
  | Some old =>
      match sv_clients w !! old with
      | None => register w
      | Some oldc =>
          if negb (IsClosed oldc) then (None, closeConn conn w)
          else register (set_heap (alter (set_publisher None) s) (ClientConn_Close old w))
      end
  end.

(** [fmt.Sprintf("%s#%d", addr, n)] *)
Definition HASH : byte := x23.
Definition subKey (addr : bytes) (n : Z) : bytes := addr ++ HASH :: dec n.

(** [RegisterSubscriber] (session.go:264-272) *)
Definition RegisterSubscriber (s conn : nat) (env : Envelope) (w : Server) : nat * bytes * Server :=
  let (sub, w) := NewClientConn conn 2 (Some env) w in
  let n := u64_add (sv_subKeyCounter w) 1 in
  let w := set_subKeyCounter n w in
  let addr := match sv_conns w !! conn with Some nc => nc_addr nc | None => [] end in
  let key := subKey addr n in
  (sub, key, set_heap (alter (set_subscribers (insert key sub)) s) w).

(** [RemoveSubscriber] (session.go:275-286) *)
Definition RemoveSubscriber (s : nat) (key : bytes) (w : Server) : Server :=
  match sv_heap w !! s ≫= fun rs => rs_subscribers rs !! key with
  | None => w
  | Some sub => ClientConn_Close sub (set_heap (alter (set_subscribers (delete key)) s) w)
  end.

(** [RelaySession.Close] (session.go:333-351).  The order in which the clients are
    closed only shows in the numbering of the goroutines it starts. *)
Definition RelaySession_Close (s : nat) (w : Server) : Server :=
  match sv_heap w !! s with
  | None => w
  | Some rs =>
      if rs_closed rs then w
      else
        let clients := option_list (rs_publisher rs) ++ (map_to_list (rs_subscribers rs)).*2 in
        fold_left (fun w c => ClientConn_Close c w) clients
          (set_heap (insert s (mkRelaySession (rs_sessionID rs) None ∅ (rs_createdAt rs) true)) w)
  end.
