(* ===== verification/MetricsPage.v ===== *)
(** * The metrics page: [pkg/relay/metrics.go]

    The text [Handler] writes, and a scraper of the Prometheus text format that
    reads it back. *)

From Stdlib Require Import Floats.SpecFloat.
From S2P Require Import Prelude Strings Float64 Progress RelaySession.

(** One metric: its help line, its type line and its value. *)
Definition metric (name help kind value : bytes) : bytes :=
  str "# HELP " ++ name ++ x20 :: help ++ x0a ::
  str "# TYPE " ++ name ++ x20 :: kind ++ x0a ::
  name ++ x20 :: value ++ [x0a].

Definition prefixed (name : string) : bytes := str "zerofeed_relay_" ++ str name.

(** The metrics in the order of the page: name, help, type, value. *)
Definition metricsOf (m : Metrics) (startTime now : Z) : list (string * string * string * bytes) :=
  [("uptime_seconds", "Total relay server uptime in seconds.", "gauge", fmt_f 2 (Seconds (time_sub now startTime)));
   ("active_sessions", "Gauge of current active E2EE sessions.", "gauge", fmt_d (m_ActiveSessions m));
   ("sessions_created_total", "Cumulative count of created sessions.", "counter", fmt_d (m_SessionsCreatedTotal m));
   ("active_connections", "Gauge of active socket connections.", "gauge", fmt_d (m_ActiveConnections m));
   ("bytes_transferred_total", "Cumulative bytes relayed through server.", "counter", fmt_d (m_BytesTransferredTotal m));
   ("messages_relayed_total", "Cumulative frames forwarded.", "counter", fmt_d (m_MessagesRelayedTotal m));
   ("ratelimit_bans_total", "Cumulative IP rate-limit bans.", "counter", fmt_d (m_RateLimitBansTotal m));
   ("malformed_packets_dropped_total", "Cumulative invalid frames dropped.", "counter", fmt_d (m_MalformedPacketsDroppedTotal m));
   ("backpressure_pauses_total", "Cumulative watermark backpressure pauses.", "counter", fmt_d (m_BackpressurePausesTotal m));
   ("slow_consumers_pruned_total", "Cumulative stalled subscribers pruned.", "counter", fmt_d (m_SlowConsumersPrunedTotal m))]%string.

(** Blank lines stand between the metrics. *)
Fixpoint pageOf (ms : list (string * string * string * bytes)) : bytes :=
  match ms with
  | [] => []
  | (name, help, kind, value) :: ms =>
      metric (prefixed name) (str help) (str kind) value ++ match ms with [] => [] | _ => x0a :: pageOf ms end
  end.

(** The body [Handler] writes. *)
Definition metricsPage (m : Metrics) (startTime now : Z) : bytes := pageOf (metricsOf m startTime now).

(** ** A scraper *)

(** A line that is neither blank nor a comment is a name, a space and a value. *)
Definition sampleOf (line : bytes) : option (bytes * bytes) :=
  match line with
  | [] => None
  | b :: _ =>
      if bool_decide (b = x23) then None
      else (fun i => (take i line, drop (S i) line)) <$> index_byte x20 line
  end.

Definition scrape (page : bytes) : list (bytes * bytes) := omap sampleOf (split_byte x0a page).

(** Where the scraper keeps what it reads.  It knows the metrics by their full
    names; [lookupMetric] takes the sample of a name and reads its value. *)
Definition parse_int (s : bytes) : Z := match s with x2d :: r => - dec_val r | _ => dec_val s end.

Definition lookupMetric (name : string) (samples : list (bytes * bytes)) : option bytes :=
  snd <$> List.find (fun p => bool_decide (fst p = str name)) samples.

Definition readMetrics (page : bytes) : option Metrics :=
  let samples := scrape page in
  let int name := parse_int <$> lookupMetric name samples in
  sessions ← int "zerofeed_relay_active_sessions"%string;
  created ← int "zerofeed_relay_sessions_created_total"%string;
  connections ← int "zerofeed_relay_active_connections"%string;
  transferred ← int "zerofeed_relay_bytes_transferred_total"%string;
  relayed ← int "zerofeed_relay_messages_relayed_total"%string;
  bans ← int "zerofeed_relay_ratelimit_bans_total"%string;
  malformed ← int "zerofeed_relay_malformed_packets_dropped_total"%string;
  pauses ← int "zerofeed_relay_backpressure_pauses_total"%string;
  pruned ← int "zerofeed_relay_slow_consumers_pruned_total"%string;
  Some {| m_ActiveSessions := sessions; m_SessionsCreatedTotal := created; m_ActiveConnections := connections;
          m_BytesTransferredTotal := transferred; m_MessagesRelayedTotal := relayed; m_RateLimitBansTotal := bans;
          m_MalformedPacketsDroppedTotal := malformed; m_BackpressurePausesTotal := pauses;
          m_SlowConsumersPrunedTotal := pruned |}.

Example page_start :
  take 150 (metricsPage NewMetrics 0 1500000000) =
  str "# HELP zerofeed_relay_uptime_seconds Total relay server uptime in seconds." ++ x0a ::
  str "# TYPE zerofeed_relay_uptime_seconds gauge" ++ x0a ::
  str "zerofeed_relay_uptime_seconds 1." .
Proof. vm_compute. reflexivity. Qed.

(** ** Facts *)

(** What numbers are made of. *)
Definition number_byte (b : byte) : Prop := 0x2b <= Z_of_byte b <= 0x7a.

Lemma dec_bytes n : 0 <= n -> Forall number_byte (dec n).
Proof.
  intros Hn. apply Forall_forall. intros b Hb. apply dec_digits_only in Hb; [|done]. unfold number_byte. lia.
Qed.

Lemma dec_pad_bytes w n : 0 <= n -> Forall number_byte (dec_pad w n).
Proof. intros Hn. apply Forall_app. split; [by apply Forall_replicate|by apply dec_bytes]. Qed.

Lemma fmt_d_bytes n : Forall number_byte (fmt_d n).
Proof. unfold fmt_d. destruct (Z.ltb_spec n 0); [constructor; [done|]|]; apply dec_bytes; lia. Qed.

Lemma half_even_nonneg n d : 0 <= n -> 0 < d -> 0 <= half_even n d.
Proof.
  intros Hn Hd. pose proof (Z.div_pos n d Hn Hd). unfold half_even. repeat case_match; lia.
Qed.

Lemma decimal_bytes prec N : 0 <= N -> Forall number_byte (decimal prec N).
Proof.
  intros HN. assert (0 < 10 ^ Z.of_nat prec) by (apply Z.pow_pos_nonneg; lia). unfold decimal. apply Forall_app. split.
  - apply dec_bytes, Z.div_pos; lia.
  - constructor; [done|]. apply dec_pad_bytes, Z.mod_pos_bound; lia.
Qed.

Lemma fmt_f_bytes prec x : Forall number_byte (fmt_f prec x).
Proof.
  assert (Hs : forall s : bool, Forall number_byte (if s then [x2d] else [])) by (intros []; by repeat constructor).
  destruct x as [s|s| |s m e]; cbn [fmt_f].
  - apply Forall_app. split; [apply Hs|by apply decimal_bytes].
  - destruct s; by repeat constructor.
  - by repeat constructor.
  - apply Forall_app. split; [apply Hs|]. apply decimal_bytes.
    assert (0 < 10 ^ Z.of_nat prec) by (apply Z.pow_pos_nonneg; lia).
    destruct (Z.leb_spec 0 e); [apply Z.mul_nonneg_nonneg; [lia|by apply Z.pow_nonneg]|].
    apply half_even_nonneg; [lia|apply Z.pow_pos_nonneg; lia].
Qed.

(** A metric the scraper can read. *)
Definition readable (mt : string * string * string * bytes) : Prop :=
  let '(name, help, kind, value) := mt in
  (x0a ∉ str name) /\ (x20 ∉ str name) /\ (x0a ∉ str help) /\ (x0a ∉ str kind) /\ (x0a ∉ value).

Lemma number_byte_line value : Forall number_byte value -> x0a ∉ value.
Proof. intros Hf Hin. rewrite Forall_forall in Hf. apply Hf in Hin as [Hin _]. by apply Hin. Qed.

Lemma sampleOf_line name value : x20 ∉ str name -> sampleOf (prefixed name ++ x20 :: value) = Some (prefixed name, value).
Proof.
  intros Hn. unfold sampleOf. change (prefixed name) with (x7a :: (str "erofeed_relay_" ++ str name)).
  cbn [app]. rewrite bool_decide_false by done.
  change (x7a :: (str "erofeed_relay_" ++ str name) ++ x20 :: value) with (prefixed name ++ x20 :: value).
  rewrite index_byte_app.
  - cbn [fmap option_fmap option_map]. rewrite take_app_length, (cons_middle x20), app_assoc.
    by rewrite drop_exact by (rewrite length_app; cbn; lia).
  - unfold prefixed. rewrite elem_of_app. intros [Hin|Hin]; [|done]. vm_compute in Hin. set_solver.
Qed.

Lemma line_free c l r : c ∉ l -> c ∉ r -> c <> x20 -> c ∉ l ++ x20 :: r.
Proof. rewrite elem_of_app, elem_of_cons. naive_solver. Qed.

Lemma prefixed_line name : x0a ∉ str name -> x0a ∉ prefixed name.
Proof. intros Hn. unfold prefixed. rewrite elem_of_app. intros [Hin|Hin]; [|done]. vm_compute in Hin. set_solver. Qed.

(** One metric of the page. *)
Lemma scrape_metric name help kind value tail :
  readable (name, help, kind, value) ->
  scrape (metric (prefixed name) (str help) (str kind) value ++ tail) = (prefixed name, value) :: scrape tail.
Proof.
  intros (Hn & Hsp & Hh & Hk & Hv). unfold metric, scrape.
  replace ((str "# HELP " ++ prefixed name ++ x20 :: str help ++ x0a :: str "# TYPE " ++ prefixed name ++ x20 :: str kind ++
      x0a :: prefixed name ++ x20 :: value ++ [x0a]) ++ tail) with
    ((str "# HELP " ++ prefixed name ++ x20 :: str help) ++ x0a :: (str "# TYPE " ++ prefixed name ++ x20 :: str kind) ++
      x0a :: (prefixed name ++ x20 :: value) ++ x0a :: tail) by
    (generalize (str "# HELP ") (str "# TYPE ") (prefixed name) (str help) (str kind); intros; by list_simplifier).
  assert (Hlab : forall s t, x0a ∉ str s -> x0a ∉ t -> x0a ∉ str s ++ prefixed name ++ x20 :: t).
  { intros s t Hs Ht. rewrite elem_of_app. intros [?|Hin]; [done|]. revert Hin. by apply line_free; [apply prefixed_line| |]. }
  rewrite !split_byte_app; [|apply line_free; [by apply prefixed_line|done|done]|apply Hlab; [|done]|apply Hlab; [|done]].
  - cbn [omap list_omap]. rewrite sampleOf_line by done. done.
  - vm_compute. set_solver.
  - vm_compute. set_solver.
Qed.

Lemma scrape_page ms : Forall readable ms -> scrape (pageOf ms) = (fun mt => (prefixed mt.1.1.1, mt.2)) <$> ms.
Proof.
  induction 1 as [|[[[name help] kind] value] ms Hm Hms IH]; [done|]. cbn [pageOf]. rewrite scrape_metric by done.
  cbn [fmap list_fmap fst snd]. f_equal. destruct ms as [|mt ms]; [done|]. rewrite <- IH. done.
Qed.

Lemma metricsOf_readable m startTime now : Forall readable (metricsOf m startTime now).
Proof.
  repeat (constructor; [split_and!; [vm_compute; set_solver..|];
    apply number_byte_line; (apply fmt_d_bytes || apply fmt_f_bytes)|]). constructor.
Qed.

(** Runs a search by name over the samples of the page. *)
Ltac find_metrics :=
  repeat match goal with
  | |- context [List.find ?f (?g <$> ?l)] =>
      cbn [List.find fmap list_fmap option_fmap option_map fst snd]
  | |- context [bool_decide (prefixed ?n = str ?s)] =>
      let b := eval vm_compute in (bool_decide (prefixed n = str s)) in
      change (bool_decide (prefixed n = str s)) with b; cbn iota
  end.

Lemma parse_fmt_d a : - 2 ^ 64 < a < 2 ^ 64 -> parse_int (fmt_d a) = a.
Proof.
  intros Ha. unfold fmt_d. destruct (Z.ltb_spec a 0).
  - cbn [parse_int]. rewrite dec_dec_val by lia. lia.
  - assert (Hneg : forall l, dec a <> x2d :: l).
    { intros l E. pose proof (dec_digits_only 20 a x2d ltac:(lia)) as Hd. change (dec_digits 20 a) with (dec a) in Hd.
      rewrite E in Hd. destruct Hd as [Hd _]; [apply list_elem_of_here|]. by apply Hd. }
    rewrite <- (dec_dec_val a) at 2 by lia. unfold parse_int.
    destruct (dec a) as [|b l]; [done|]. destruct b; try done. by destruct (Hneg l).
Qed.

(** Counters within their types: two signed gauges, the rest unsigned. *)
Definition metrics_ok (m : Metrics) : Prop :=
  int64 (m_ActiveSessions m) /\ int64 (m_ActiveConnections m) /\
  Forall (fun n => 0 <= n < 2 ^ 64)
    [m_SessionsCreatedTotal m; m_BytesTransferredTotal m; m_MessagesRelayedTotal m; m_RateLimitBansTotal m;
     m_MalformedPacketsDroppedTotal m; m_BackpressurePausesTotal m; m_SlowConsumersPrunedTotal m].

(** * Properties *)

(** C39: The metrics page is faithful.  A scraper that knows the metrics only by
    their names on the page, and reads it line by line, gets back every counter of
    the relay, each from the line of its own name, whatever the counters are within
    their types; and the page has one line per metric, the uptime first. *)
Theorem metrics_roundtrip m startTime now :
  metrics_ok m ->
  readMetrics (metricsPage m startTime now) = Some m /\
  lookupMetric "zerofeed_relay_uptime_seconds" (scrape (metricsPage m startTime now)) =
    Some (fmt_f 2 (Seconds (time_sub now startTime))) /\
  length (scrape (metricsPage m startTime now)) = 10%nat.
Proof.
  intros (A & C & F). unfold readMetrics, metricsPage. rewrite scrape_page by apply metricsOf_readable.
  split; [|split; [|done]].
  - unfold int64 in *. rewrite !Forall_cons in F. destruct m as [a1 a2 a3 a4 a5 a6 a7 a8 a9].
    cbn [m_ActiveSessions m_SessionsCreatedTotal m_ActiveConnections m_BytesTransferredTotal m_MessagesRelayedTotal
      m_RateLimitBansTotal m_MalformedPacketsDroppedTotal m_BackpressurePausesTotal m_SlowConsumersPrunedTotal] in *.
    unfold metricsOf, lookupMetric. find_metrics.
    cbn [fmap option_fmap option_map snd mbind option_bind m_ActiveSessions m_SessionsCreatedTotal m_ActiveConnections
      m_BytesTransferredTotal m_MessagesRelayedTotal m_RateLimitBansTotal m_MalformedPacketsDroppedTotal
      m_BackpressurePausesTotal m_SlowConsumersPrunedTotal]. by rewrite !parse_fmt_d by lia.
  - unfold metricsOf, lookupMetric. find_metrics. reflexivity.
Qed.

Lemma metrics_roundtrip_witness :
  let m := mkMetrics (-3) 1 7 (2 ^ 64 - 1) 5 0 9 2 4 in
  readMetrics (metricsPage m 5 1500000005) = Some m /\
  lookupMetric "zerofeed_relay_uptime_seconds" (scrape (metricsPage m 5 1500000005)) = Some (str "1.50").
Proof.
  intros m. destruct (metrics_roundtrip m 5 1500000005) as (H1 & H2 & _).
  - split; [split; cbn; lia|]. split; [split; cbn; lia|]. cbn. repeat (constructor; [lia|]). constructor.
  - split; [exact H1|]. rewrite H2. vm_compute. reflexivity.
Defined.
