(* ===== verification/RelayServer.v ===== *)
(** * The relay server: [pkg/relay/server.go] and the accept loop of [server_quic.go]

    The session map, the handler of a connection, the publisher and subscriber
    loops, the maintenance goroutine and shutdown.  [thread_step] runs one
    goroutine up to its next interaction with another one: a critical section of
    [srv.mu] or [session.mu], a channel operation, or a socket operation.
    [relay_next] is one step of the whole relay; a run of the relay is a sequence
    of such steps in any order. *)

From S2P Require Import Prelude Strings Protocol Engine RateLimit ProxyProto RelaySession.

(** ** The session map (server.go:394-470) *)

Definition getOrCreateSession (sessionID : bytes) (w : Server) : nat * Server :=
  match sv_sessions w !! sessionID with
  | Some s => (s, w)
  | None =>
      let s := sv_next w in
      let w := set_next (S s) (set_heap (insert s (NewRelaySession sessionID (sv_now w))) w) in
      let w := set_sessions (insert sessionID s) w in
      (s, set_metrics (fun m => addSessionsCreated (addActiveSessions 1 m)) w)
  end.

Definition lookupSession (sessionID : bytes) (w : Server) : option nat := sv_sessions w !! sessionID.

Definition removeSession (sessionID : bytes) (w : Server) : Server :=
  match sv_sessions w !! sessionID with
  | None => w
  | Some s =>
      set_metrics (addActiveSessions (-1)) (set_sessions (delete sessionID) (RelaySession_Close s w))
  end.

(** [CloseAll] (server.go:441-449) *)
Definition CloseAll (w : Server) : Server :=
  fold_left (fun w '(id, s) => set_sessions (delete id) (RelaySession_Close s w)) (map_to_list (sv_sessions w)) w.

Definition SessionCount (w : Server) : Z := Z.of_nat (size (sv_sessions w)).

(** [reapStaleSessions] (server.go:459-470) *)
Definition reapStaleSessions (w : Server) : Server :=
  fold_left (fun w '(id, s) =>
      match sv_heap w !! s with
      | None => w
      | Some rs =>
          if IsReapable (sv_now w) rs
          then set_metrics (addActiveSessions (-1)) (set_sessions (delete id) (RelaySession_Close s w))
          else w
      end)
    (map_to_list (sv_sessions w)) w.

(** The maintenance ticker (server.go:188-200) *)
Definition maintenance (w : Server) : Server :=
  reapStaleSessions (set_rateLimiter (CleanupStale (15 * Minute) (sv_now w)) w).

(** ** Accepting connections (server.go:202-228, 106-116; server_quic.go:63-73) *)

Definition accept (k : goKind) (nc : NetConn) (w : Server) : Server :=
  let conn := sv_next w in
  let w := set_next (S conn) (set_conns (insert conn nc) w) in
  if MaxActiveConnections <=? sv_activeConns w then closeConn conn w
  else
    let w := set_activeConns (Z.add 1) w in
    let w := match k with GoTCP => set_metrics (addActiveConnections 1) w | _ => w end in
    spawn k (HStart conn) w.

(** ** Goroutines *)

Definition goto (t : nat) (p : pc) (w : Server) : Server :=
  set_threads (alter (fun th => mkThread (th_kind th) p) t) w.

(** The end of a goroutine, with its deferred calls. *)
Definition finish (t : nat) (w : Server) : Server :=
  match th_kind <$> sv_threads w !! t with
  | Some GoTCP => set_metrics (addActiveConnections (-1)) (set_activeConns (Z.add (-1)) (set_threads (delete t) w))
  | Some GoQUIC => set_activeConns (Z.add (-1)) (set_threads (delete t) w)
  | _ => set_threads (delete t) w
  end.

(** [conn_decode] on a socket of the heap; [DecodeWithMax] when a limit is given. *)
Definition decodeFrom_conn (max : Z) (conn : nat) (w : Server) : result decode_error Envelope * Server :=
  match sv_conns w !! conn with
  | None => (Err (ErrRead ConnError), w)
  | Some nc =>
      let c := nc_conn nc in
      if c_closed c then (Err (ErrRead ConnError), w)
      else
        let (r, rest) := DecodeWithMax (c_in c) max in
        (r, set_conns (insert conn (mkNetConn (mkConn rest (c_out c) (c_writes c) false) (nc_addr nc))) w)
  end.

Definition unsupportedVersionMsg : bytes :=
  str "zerofeed/relay: unsupported protocol version (minimum required: 0x03)".
Definition closeEnv : Envelope :=
  mkEnvelope Version MsgTypeClose (zeros SessionIDSize) zeroNonce unsupportedVersionMsg.

Definition clientConnOf (c : nat) (w : Server) : nat :=
  match sv_clients w !! c with Some cl => cl_netConn cl | None => O end.

Definition sessionIDOf (s : nat) (w : Server) : bytes :=
  match sv_heap w !! s with Some rs => rs_sessionID rs | None => [] end.

Section Steps.
Context (pool : bytes).

(** Proxy header and ban check (server.go:231-250) *)
Definition handleStart (o : oracle) (t conn : nat) (w : Server) : Server :=
  match sv_conns w !! conn with
  | None => finish t w
  | Some nc =>
      let '(rest, remoteAddr, err) :=
        if sv_trustProxy w then ParseProxyHeaderV2 (o_ahead o) (c_in (nc_conn nc)) (nc_addr nc)
        else (c_in (nc_conn nc), nc_addr nc, None) in
      let w := set_conns (insert conn (on_conn (fun c => mkConn rest (c_out c) (c_writes c) (c_closed c)) nc)) w in
      match err with
      | Some _ => finish t (closeConn conn w)
      | None =>
          let (banned, rl) := IsBanned remoteAddr (sv_now w) (sv_rateLimiter w) in
          let w := set_rateLimiter (fun _ => rl) w in
          if banned then finish t (closeConn conn (set_metrics addBan w))
          else goto t (HDecode conn remoteAddr) w
      end
  end.

(** The first frame and the dispatch on its type (server.go:252-328), up to the
    registration in the session. *)
Definition handleDecode (t conn : nat) (remoteAddr : bytes) (w : Server) : Server :=
  let recordFailure w := set_rateLimiter (RecordFailure remoteAddr (sv_now w)) w in
  let (r, w) := decodeFrom_conn MaxHandshakePayload conn w in
  match r with
  | Err e =>
      let w :=
        match e with
        | ErrUnsupportedVer _ => snd (encodeTo_conn pool conn closeEnv w)
        | _ => if decode_error_is_EOF e then w else set_metrics addMalformed (recordFailure w)
        end in
      finish t (closeConn conn w)
  | Ok env =>
      let ty := env_MsgType env in
      if bool_decide (ty = MsgTypePAKEInitPub) then
        let (s, w) := getOrCreateSession (env_SessionID env) w in goto t (HRegisterPub conn env s) w
      else if bool_decide (ty = MsgTypePAKEInitSub) then
        let (s, w) := getOrCreateSession (env_SessionID env) w in goto t (HRegisterSub conn env s) w
      else if bool_decide (ty = MsgTypeSyncReq) then
        match lookupSession (env_SessionID env) w with
        | None => finish t (closeConn conn (recordFailure w))
        | Some s => goto t (HSyncReq conn s env) w
        end
      else finish t (set_metrics addMalformed (recordFailure (closeConn conn w)))
  end.

(** server.go:275-281 *)
Definition handleRegisterPub (t conn : nat) (env : Envelope) (s : nat) (w : Server) : Server :=
  let (client, w) := RegisterPublisher s conn env w in
  match client with
  | None => finish t (closeConn conn w)
  | Some c => goto t (HRegistered s c) w
  end.

(** server.go:283-284: with the session read-locked, the subscribers that wait; others may
    have come or gone since the publisher registered. *)
Definition handleWaiting (o : oracle) (t s c : nat) (w : Server) : Server :=
  let subs := match sv_heap w !! s with Some rs => (o_range o (rs_subscribers rs)).*2 | None => [] end in
  goto t (HGreetPub s c subs) w.

(** server.go:283-291: their handshake frames are handed over. *)
Definition handleGreetPub (o : oracle) (t s c : nat) (todo : list nat) (w : Server) : option Server :=
  match todo with
  | [] => Some (goto t (PubLoop s c) w)
  | sub :: todo =>
      match sv_clients w !! sub ≫= cl_initialEnv with
      | None => Some (goto t (HGreetPub s c todo) w)
      | Some env => (fun rw => goto t (HGreetPub s c todo) rw.2) <$> SendFrame pool o c env w
      end
  end.

(** server.go:294-305 *)
Definition handleRegisterSub (t conn : nat) (env : Envelope) (s : nat) (w : Server) : Server :=
  let '(c, key, w) := RegisterSubscriber s conn env w in goto t (HNotifyPub s c key env) w.

Definition handleNotifyPub (o : oracle) (t s c : nat) (key : bytes) (env : Envelope) (w : Server) : option Server :=
  match sv_heap w !! s ≫= rs_publisher with
  | None => Some (goto t (SubLoop s c key) w)
  | Some pub => (fun rw => goto t (SubLoop s c key) rw.2) <$> SendFrame pool o pub env w
  end.

(** server.go:315-321, and the deferred [conn.Close()] *)
Definition handleSyncReq (o : oracle) (t conn s : nat) (env : Envelope) (w : Server) : option Server :=
  match sv_heap w !! s ≫= rs_publisher with
  | None => Some (finish t (closeConn conn w))
  | Some pub =>
      if (clientConnOf pub w =? conn)%nat then Some (finish t (closeConn conn w))
      else (fun rw => finish t (closeConn conn rw.2)) <$> ForwardToPublisher pool o s env w
  end.

(** One turn of [loopPublisher] (server.go:342-362): read a frame; for one that is
    to be forwarded, the subscribers are collected (session.go:292-299). *)
Definition pubLoop (o : oracle) (t s c : nat) (w : Server) : Server :=
  let (r, w) := decodeFrom_conn MaxPayloadSize (clientConnOf c w) w in
  match r with
  | Err _ => goto t (PubExit s c) w
  | Ok env =>
      let ty := env_MsgType env in
      let forward w :=
        let subs := match sv_heap w !! s with Some rs => o_range o (rs_subscribers rs) | None => [] end in
        goto t (PubForward s c env subs subs.*2 false) w in
      if bool_decide (ty = MsgTypeHeartbeat) then w
      else if bool_decide (ty = MsgTypeClose) then forward w
      else forward (set_metrics (addRelayed (zlen (env_Payload env))) w)
  end.

(** After [ForwardFromPublisher]: the loop ends with a Close frame. *)
Definition pubNext (s c : nat) (env : Envelope) : pc :=
  if bool_decide (env_MsgType env = MsgTypeClose) then PubExit s c else PubLoop s c.

(** The two loops of [ForwardFromPublisher] (session.go:303-316) *)
Definition pubForward (o : oracle) (t s c : nat) (env : Envelope) (todo : list (bytes * nat)) (subs : list nat)
    (hit : bool) (w : Server) : option Server :=
  match todo with
  | [] => Some (goto t (if hit then PubDrain s c env subs None else pubNext s c env) w)
  | (key, sub) :: todo =>
      (fun rw =>
        let '(r, w) := rw in
        match r with
        | Err _ => goto t (PubForward s c env todo subs hit) (spawn GoHelper (RemoveSub s key) w)
        | Ok _ =>
            let high := match sv_clients w !! sub with Some cl => IsHighWatermark cl | None => false end in
            goto t (PubForward s c env todo subs (hit || high)) w
        end) <$> SendFrame pool o sub env w
  end.

Definition pubDrain (t s c : nat) (env : Envelope) (todo : list nat) (deadline : option Z) (w : Server) : option Server :=
  match todo with
  | [] => Some (goto t (pubNext s c env) w)
  | sub :: rest =>
      match sv_clients w !! sub with
      | None => Some (goto t (PubDrain s c env rest None) w)
      | Some cl =>
          if WaitForDrain cl (sv_now w) deadline then Some (goto t (PubDrain s c env rest None) w)
          else match deadline with
               | None => Some (goto t (PubDrain s c env todo (Some (sv_now w + 500 * Millisecond))) w)
               | Some _ => None
               end
      end
  end.

(** One turn of [loopSubscriber] (server.go:368-383) *)
Definition subLoop (o : oracle) (t s c : nat) (key : bytes) (w : Server) : option Server :=
  let (r, w) := decodeFrom_conn MaxPayloadSize (clientConnOf c w) w in
  match r with
  | Err _ => Some (goto t (SubRemove s c key) w)
  | Ok env =>
      let ty := env_MsgType env in
      if bool_decide (ty = MsgTypeHeartbeat) then Some w
      else if bool_decide (ty = MsgTypeSyncReq) || bool_decide (ty = MsgTypeKeyConfirm)
              || bool_decide (ty = MsgTypeChunkAck)
      then snd <$> ForwardToPublisher pool o s env w
      else Some w
  end.

(** server.go:386-391 *)
Definition subCheck (t s : nat) (w : Server) : Server :=
  match sv_heap w !! s with
  | None => finish t w
  | Some rs =>
      let isEmpty := bool_decide (rs_publisher rs = None) && (size (rs_subscribers rs) =? 0)%nat in
      if isEmpty then goto t (SubExit s) w else finish t w
  end.

(** [writeLoop] (session.go:101-126): a turn of its loop, and of its draining phase. *)
Definition writeLoop (o : oracle) (t c : nat) (w : Server) : option Server :=
  match sv_clients w !! c with
  | None => None
  | Some cl =>
      match cl_sendCh cl with
      | [] => if cl_done cl then Some (goto t (WFlush c) w) else None
      | env :: q =>
          if cl_done cl && o_select o then Some (goto t (WFlush c) w)
          else
            let w := set_clients (insert c (set_sendCh q cl)) w in
            let (r, w) := encodeTo_conn pool (cl_netConn cl) env w in
            Some (match r with Ok _ => w | Err _ => finish t (ClientConn_Close c w) end)
      end
  end.

Definition writeFlush (t c : nat) (w : Server) : Server :=
  match sv_clients w !! c with
  | None => finish t w
  | Some cl =>
      match cl_sendCh cl with
      | [] => finish t w
      | env :: q => snd (encodeTo_conn pool (cl_netConn cl) env (set_clients (insert c (set_sendCh q cl)) w))
      end
  end.

(** One step of goroutine [t]; [None] when there is none or it is blocked. *)
Definition thread_step (o : oracle) (t : nat) (w : Server) : option Server :=
  match th_pc <$> sv_threads w !! t with
  | None => None
  | Some p =>
      match p with
      | HStart conn => Some (handleStart o t conn w)
      | HDecode conn remoteAddr => Some (handleDecode t conn remoteAddr w)
      | HRegisterPub conn env s => Some (handleRegisterPub t conn env s w)
      | HRegistered s c => Some (handleWaiting o t s c w)
      | HGreetPub s c todo => handleGreetPub o t s c todo w
      | HRegisterSub conn env s => Some (handleRegisterSub t conn env s w)
      | HNotifyPub s c key env => handleNotifyPub o t s c key env w
      | HSyncReq conn s env => handleSyncReq o t conn s env w
      | PubLoop s c => Some (pubLoop o t s c w)
      | PubForward s c env todo subs hit => pubForward o t s c env todo subs hit w
      | PubDrain s c env todo deadline => pubDrain t s c env todo deadline w
      | PubExit s c => Some (finish t (removeSession (sessionIDOf s w) w))
      | SubLoop s c key => subLoop o t s c key w
      | SubRemove s c key => Some (goto t (SubCheck s) (RemoveSubscriber s key w))
      | SubCheck s => Some (subCheck t s w)
      | SubExit s => Some (finish t (removeSession (sessionIDOf s w) w))
      | WLoop c => writeLoop o t c w
      | WFlush c => Some (writeFlush t c w)
      | RemoveSub s key => Some (finish t (RemoveSubscriber s key w))
      | DelayedClose conn => Some (finish t (closeConn conn w))
      end
  end.

(** ** The relay as a transition system *)

Inductive relay_label :=
  | LAccept (k : goKind) (nc : NetConn)
  | LRun (t : nat) (o : oracle)
  | LTick (dt : Z)
  | LMaintain
  | LCloseAll
  | LSetRateLimiting (b : bool)
  | LSetTrustProxy (b : bool).

Definition relay_next (l : relay_label) (w : Server) : option Server :=
  match l with
  | LAccept k nc => match k with GoHelper => None | _ => Some (accept k nc w) end
  | LRun t o => thread_step o t w
  | LTick dt => if 0 <=? dt then Some (set_now (Z.add dt) w) else None
  | LMaintain => Some (maintenance w)
  | LCloseAll => Some (CloseAll w)
  | LSetRateLimiting b => Some (set_rateLimiter (SetEnabled b) w)
  | LSetTrustProxy b => Some (set_trustProxy b w)
  end.

Inductive relay_run : Server -> list relay_label -> Server -> Prop :=
  | run_nil w : relay_run w [] w
  | run_snoc w ls w1 l w2 : relay_run w ls w1 -> relay_next l w1 = Some w2 -> relay_run w (ls ++ [l]) w2.

(** The same as a function, for concrete runs. *)
Fixpoint exec (ls : list relay_label) (w : Server) : option Server :=
  match ls with
  | [] => Some w
  | l :: ls => relay_next l w ≫= exec ls
  end.

End Steps.

Definition reachable (pool : bytes) (w : Server) : Prop := exists now ls, relay_run pool (NewServer now) ls w.

(** A concrete run is a run. *)
Lemma exec_run pool ls w0 ls0 w w' :
  relay_run pool w0 ls0 w -> exec pool ls w = Some w' -> relay_run pool w0 (ls0 ++ ls) w'.
Proof.
  revert ls0 w. induction ls as [|l ls IH]; intros ls0 w Hr E; cbn in E.
  - injection E as <-. by rewrite app_nil_r.
  - destruct (relay_next pool l w) as [w1|] eqn:E1; [|done]. cbn in E.
    replace (ls0 ++ l :: ls) with ((ls0 ++ [l]) ++ ls) by (by rewrite <- app_assoc).
    eapply IH; [|exact E]. by eapply run_snoc.
Qed.

Lemma exec_reachable pool now ls w : exec pool ls (NewServer now) = Some w -> reachable pool w.
Proof. intros E. exists now, ls. apply (exec_run pool ls _ [] _ w (run_nil pool _) E). Qed.

(** ** Concrete runs *)

Definition mapOrder : oracle := mkOracle true 0 map_to_list (fun m => reflexivity (map_to_list m)).

Definition demoSid : bytes := str "0123456789abcdef".
Definition demoFrame (ty : byte) (payload : bytes) : Envelope := mkEnvelope Version ty demoSid zeroNonce payload.

(** A socket that delivers the given frames and then stays silent: reading on
    from it fails with a time-out. *)
Definition demoSocket (addr : bytes) (envs : list Envelope) : NetConn :=
  mkNetConn (mkConn (reader_of (concat (frame_bytes <$> envs)) ++ [inr Timeout]) [] [] false) addr.

(** [n] steps of goroutine [t]. *)
Definition steps (t n : nat) : list relay_label := replicate n (LRun t mapOrder).
