(* ===== verification/RelayInv.v ===== *)
(** * The relay's invariant

    What holds in every state the relay can reach, for every interleaving of its
    goroutines: mapped sessions are open and filed under their own ID, every
    client belongs to one session (whose ID is that of the client's handshake
    frame) and is driven by one handler, queues are bounded, a live publisher is
    the registered one, and every socket has one owner. *)

From S2P Require Import Prelude Strings Protocol Engine RateLimit ProxyProto RelaySession RelayServer.

(** ** Ghost state

    Where a client belongs: its session, the key it is filed under when it is a
    subscriber, and the handler goroutine that drives it.  [owner] says who may
    read a socket: a handler before registration, a client after it. *)
Record Home := mkHome { h_session : nat; h_key : option bytes; h_thread : nat }.

Abbreviation homes := (gmap nat Home).
Abbreviation owners := (gmap nat (nat + nat)).

Definition client_sid (cl : ClientConn) : option bytes := env_SessionID <$> cl_initialEnv cl.
Definition session_sid (heap : gmap nat RelaySession) (s : nat) : option bytes := rs_sessionID <$> heap !! s.

Definition is_sub (home : homes) (s c : nat) : Prop := exists k t, home !! c = Some (mkHome s (Some k) t).
Definition is_filed (home : homes) (s : nat) (kc : bytes * nat) : Prop :=
  exists t, home !! kc.2 = Some (mkHome s (Some kc.1) t).

Definition pc_inv (home : homes) (owner : owners) (heap : gmap nat RelaySession) (t : nat) (p : pc) : Prop :=
  match p with
  | HStart conn | HDecode conn _ => owner !! conn = Some (inl t)
  | HRegisterPub conn env s | HRegisterSub conn env s | HSyncReq conn s env =>
      owner !! conn = Some (inl t) /\ session_sid heap s = Some (env_SessionID env)
  | HRegistered s c => home !! c = Some (mkHome s None t)
  | HGreetPub s c todo => home !! c = Some (mkHome s None t) /\ Forall (is_sub home s) todo
  | HNotifyPub s c key env =>
      home !! c = Some (mkHome s (Some key) t) /\ session_sid heap s = Some (env_SessionID env)
  | PubLoop s c | PubExit s c => home !! c = Some (mkHome s None t)
  | PubForward s c env todo subs _ =>
      home !! c = Some (mkHome s None t) /\ Forall (is_filed home s) todo /\ Forall (is_sub home s) subs
  | PubDrain s c env todo _ => home !! c = Some (mkHome s None t) /\ Forall (is_sub home s) todo
  | SubLoop s c key | SubRemove s c key => home !! c = Some (mkHome s (Some key) t)
  | SubCheck s | SubExit s => is_Some (session_sid heap s)
  | WLoop c | WFlush c => exists s, is_sub home s c
  | RemoveSub s key => exists c, is_filed home s (key, c)
  | DelayedClose conn => exists c, owner !! conn = Some (inr c)
  end.

(** The session and publisher a publisher's goroutine works for. *)
Definition pub_pc (p : pc) : option (nat * nat) :=
  match p with
  | HRegistered s c | HGreetPub s c _ | PubLoop s c | PubForward s c _ _ _ _ | PubDrain s c _ _ _ | PubExit s c => Some (s, c)
  | _ => None
  end.

(** The points at which a goroutine can start. *)
Definition fresh_pc (p : pc) : bool :=
  match p with HStart _ | WLoop _ | RemoveSub _ _ | DelayedClose _ => true | _ => false end.

Lemma fresh_not_pub p : fresh_pc p = true -> pub_pc p = None.
Proof. by destruct p. Qed.

Definition role_of (k : option bytes) : Z := match k with None => 1 | Some _ => 2 end.

Definition client_ok (cl : ClientConn) : Prop :=
  (cl_role cl = 1 /\ cl_sendCh cl = []) \/ (cl_role cl = 2 /\ (length (cl_sendCh cl) <= SubscriberQueueSize)%nat).

(** A publisher that is not closed is the one its session knows. *)
Definition live (cls : gmap nat ClientConn) (heap : gmap nat RelaySession) (s c : nat) : Prop :=
  forall cl rs, cls !! c = Some cl -> cl_done cl = false -> heap !! s = Some rs -> rs_publisher rs = Some c.

Definition session_ok (home : homes) (s : nat) (rs : RelaySession) : Prop :=
  (forall p, rs_publisher rs = Some p -> exists t, home !! p = Some (mkHome s None t)) /\
  (forall k c, rs_subscribers rs !! k = Some c -> is_filed home s (k, c)).

Record Inv (home : homes) (owner : owners) (cls : gmap nat ClientConn) (heap : gmap nat RelaySession)
    (sess : gmap bytes nat) (ths : gmap nat thread) (cnt : Z) (nxt : nat) : Prop := {
  i_home : forall c h, home !! c = Some h -> exists cl rs, cls !! c = Some cl /\ heap !! h_session h = Some rs /\
    client_sid cl = Some (rs_sessionID rs) /\ cl_role cl = role_of (h_key h);
  i_key : forall c s k t, home !! c = Some (mkHome s (Some k) t) ->
    Z.of_nat nxt < 2 ^ 64 -> exists addr n, k = subKey addr n /\ 1 <= n <= cnt;
  i_cnt : 0 <= cnt < 2 ^ 64 /\ cnt <= Z.of_nat nxt;
  i_session : forall s rs, heap !! s = Some rs -> session_ok home s rs;
  i_map : forall id s, sess !! id = Some s ->
    exists rs, heap !! s = Some rs /\ rs_sessionID rs = id /\ rs_closed rs = false;
  i_client : forall c cl, cls !! c = Some cl ->
    client_ok cl /\ owner !! cl_netConn cl = Some (inr c) /\ is_Some (home !! c);
  i_thread : forall t th, ths !! t = Some th -> pc_inv home owner heap t (th_pc th);
  i_live : forall t th s c, ths !! t = Some th -> pub_pc (th_pc th) = Some (s, c) -> live cls heap s c;
  i_fresh : forall n, (nxt <= n)%nat ->
    cls !! n = None /\ heap !! n = None /\ ths !! n = None /\ home !! n = None /\ owner !! n = None
}.

Definition inv (home : homes) (owner : owners) (w : Server) : Prop :=
  Inv home owner (sv_clients w) (sv_heap w) (sv_sessions w) (sv_threads w) (sv_subKeyCounter w) (sv_next w).

(** ** Monotonicity of the local conditions *)

Definition sids_kept (heap heap' : gmap nat RelaySession) : Prop :=
  forall s id, session_sid heap s = Some id -> session_sid heap' s = Some id.

Lemma is_sub_mono home home' s c : home ⊆ home' -> is_sub home s c -> is_sub home' s c.
Proof. intros Hh (k & t & H). exists k, t. by eapply lookup_weaken. Qed.

Lemma is_filed_mono home home' s kc : home ⊆ home' -> is_filed home s kc -> is_filed home' s kc.
Proof. intros Hh (t & H). exists t. by eapply lookup_weaken. Qed.

Lemma is_filed_sub home s kc : is_filed home s kc -> is_sub home s kc.2.
Proof. intros (t & H). by exists kc.1, t. Qed.

Lemma session_ok_mono home home' s rs : home ⊆ home' -> session_ok home s rs -> session_ok home' s rs.
Proof.
  intros Hh [Hp Hs]. split.
  - intros p H. destruct (Hp p H) as [t Ht]. exists t. by eapply lookup_weaken.
  - intros k c H. eapply is_filed_mono; eauto.
Qed.

#[export] Hint Resolve is_sub_mono is_filed_mono is_filed_sub session_ok_mono : zf.

Lemma pc_inv_mono home home' owner owner' heap heap' t p :
  home ⊆ home' -> sids_kept heap heap' ->
  (forall conn, owner !! conn = Some (inl t) -> owner' !! conn = Some (inl t)) ->
  (forall conn c, owner !! conn = Some (inr c) -> owner' !! conn = Some (inr c)) ->
  pc_inv home owner heap t p -> pc_inv home' owner' heap' t p.
Proof.
  intros Hh Hs Ho1 Ho2. assert (Hl : forall c h, home !! c = Some h -> home' !! c = Some h).
  { intros c h H. by eapply lookup_weaken. }
  destruct p; simpl; try (by intuition eauto); intros H.
  - destruct H as [H1 H2]. split; [eauto|]. eapply Forall_impl; eauto with zf.
  - destruct H as (H1 & H2 & H3). split_and!; [eauto| |]; eapply Forall_impl; eauto with zf.
  - destruct H as [H1 H2]. split; [eauto|]. eapply Forall_impl; eauto with zf.
  - destruct H as [id H]. exists id. eauto.
  - destruct H as [id H]. exists id. eauto.
  - destruct H as [s' H]. exists s'. eauto with zf.
  - destruct H as [s' H]. exists s'. eauto with zf.
  - destruct H as [s' H]. exists s'. eauto with zf.
  - destruct H as [c H]. exists c. eauto.
Qed.

Lemma sids_kept_refl heap : sids_kept heap heap.
Proof. by intros s id. Qed.

Lemma sids_kept_insert heap s rs rs' :
  heap !! s = Some rs -> rs_sessionID rs' = rs_sessionID rs -> sids_kept heap (<[s := rs']> heap).
Proof.
  intros H E s' id. unfold session_sid. destruct (decide (s = s')) as [<-|Hne].
  - rewrite H, lookup_insert_eq. simpl. by rewrite E.
  - by rewrite lookup_insert_ne.
Qed.

#[export] Hint Resolve sids_kept_refl : zf.
#[export] Hint Extern 0 (sids_kept _ _) => exact (sids_kept_refl _) : core.

Section Updates.
Context {home : homes} {owner : owners} {cls : gmap nat ClientConn} {heap : gmap nat RelaySession}.
Context {sess : gmap bytes nat} {ths : gmap nat thread} {cnt : Z} {nxt : nat}.
Context (HI : Inv home owner cls heap sess ths cnt nxt).

(** A client changes its queue or gets closed. *)
Lemma Inv_client c cl cl' :
  cls !! c = Some cl -> cl_netConn cl' = cl_netConn cl -> cl_role cl' = cl_role cl ->
  cl_initialEnv cl' = cl_initialEnv cl -> client_ok cl' -> (cl_done cl = true -> cl_done cl' = true) ->
  Inv home owner (<[c := cl']> cls) heap sess ths cnt nxt.
Proof.
  intros Hc Hn Hr Hi Hok Hd. destruct HI as [H1 H2 H3 H4 H5 H6 H7 H8 H9]. constructor; eauto.
  - intros x h Hx. destruct (H1 x h Hx) as (clx & rs & E1 & E2 & E3 & E4).
    destruct (decide (c = x)) as [<-|Hne].
    + exists cl', rs. rewrite lookup_insert_eq. assert (clx = cl) as -> by congruence.
      unfold client_sid in *. rewrite Hi, Hr. done.
    + exists clx, rs. by rewrite lookup_insert_ne.
  - intros x clx. destruct (decide (c = x)) as [<-|Hne]; [|rewrite lookup_insert_ne by done; eauto].
    rewrite lookup_insert_eq. intros [= <-]. destruct (H6 _ _ Hc) as (_ & E2 & E3). by rewrite Hn.
  - intros t th s x Ht Hp clx rs. destruct (decide (c = x)) as [<-|Hne].
    + rewrite lookup_insert_eq. intros [= <-] Hd' Hs. eapply H8; eauto. by destruct (cl_done cl); [rewrite Hd in Hd'|].
    + rewrite lookup_insert_ne by done. eapply H8; eauto.
  - intros n Hnx. destruct (H9 n Hnx) as (E & ?). rewrite lookup_insert_ne by congruence. done.
Qed.

(** A new goroutine. *)
Lemma Inv_spawn k p :
  pc_inv home owner heap nxt p -> pub_pc p = None ->
  Inv home owner cls heap sess (<[nxt := mkThread k p]> ths) cnt (S nxt).
Proof.
  intros Hp Hpub. destruct HI as [H1 H2 H3 H4 H5 H6 H7 H8 H9]. constructor; eauto.
  - intros c s k' t H Hlt. eapply H2; [done|lia].
  - lia.
  - intros t th. destruct (decide (nxt = t)) as [<-|Hne]; [|rewrite lookup_insert_ne by done; eauto].
    rewrite lookup_insert_eq. by intros [= <-].
  - intros t th s c. destruct (decide (nxt = t)) as [<-|Hne]; [|rewrite lookup_insert_ne by done; eauto].
    rewrite lookup_insert_eq. intros [= <-]. simpl. congruence.
  - intros n Hn. destruct (H9 n ltac:(lia)) as (? & ? & ? & ?). rewrite lookup_insert_ne by lia. done.
Qed.

(** A goroutine moves on. *)
Lemma Inv_goto t th p :
  ths !! t = Some th -> pc_inv home owner heap t p ->
  (forall s c, pub_pc p = Some (s, c) -> pub_pc (th_pc th) = Some (s, c) \/ live cls heap s c) ->
  Inv home owner cls heap sess (alter (fun th => mkThread (th_kind th) p) t ths) cnt nxt.
Proof.
  intros Ht Hp Hpub. destruct HI as [H1 H2 H3 H4 H5 H6 H7 H8 H9]. constructor; eauto.
  - intros t' th'. destruct (decide (t = t')) as [<-|Hne]; [|rewrite lookup_alter_ne by done; eauto].
    rewrite lookup_alter_eq, Ht. by intros [= <-].
  - intros t' th' s c. destruct (decide (t = t')) as [<-|Hne]; [|rewrite lookup_alter_ne by done; eauto].
    rewrite lookup_alter_eq, Ht. intros [= <-] Hpp. destruct (Hpub _ _ Hpp); eauto.
  - intros n Hn. destruct (H9 n Hn) as (? & ? & E & ?). rewrite lookup_alter_ne by congruence. done.
Qed.

Lemma Inv_finish t : Inv home owner cls heap sess (delete t ths) cnt nxt.
Proof.
  destruct HI as [H1 H2 H3 H4 H5 H6 H7 H8 H9]. constructor; eauto.
  - intros t' th' H. apply lookup_delete_Some in H as [_ H]. eauto.
  - intros t' th' s c H. apply lookup_delete_Some in H as [_ H]. eauto.
  - intros n Hn. destruct (H9 n Hn) as (? & ? & E & ? & ?). split_and!; try done. by apply lookup_delete_None; right.
Qed.

(** A session object changes in place. *)
Lemma Inv_session s rs rs' :
  heap !! s = Some rs -> rs_sessionID rs' = rs_sessionID rs -> session_ok home s rs' ->
  (sess !! rs_sessionID rs = Some s -> rs_closed rs' = false) ->
  (forall c cl, rs_publisher rs = Some c -> cls !! c = Some cl -> cl_done cl = false -> rs_publisher rs' = Some c) ->
  Inv home owner cls (<[s := rs']> heap) sess ths cnt nxt.
Proof.
  intros Hs Hid Hok Hcl Hlive. destruct HI as [H1 H2 H3 H4 H5 H6 H7 H8 H9].
  pose proof (sids_kept_insert heap s rs rs' Hs Hid) as Hk. constructor; eauto.
  - intros c h Hh. destruct (H1 c h Hh) as (cl & r & E1 & E2 & E3 & E4).
    destruct (decide (s = h_session h)) as [E|Hne].
    + exists cl, rs'. rewrite <- E, lookup_insert_eq. rewrite Hid. rewrite <- E in E2. split_and!; congruence.
    + exists cl, r. by rewrite lookup_insert_ne.
  - intros x r. destruct (decide (s = x)) as [<-|Hne]; [|rewrite lookup_insert_ne by done; eauto].
    rewrite lookup_insert_eq. by intros [= <-].
  - intros id x Hx. destruct (H5 id x Hx) as (r & E1 & E2 & E3). destruct (decide (s = x)) as [<-|Hne].
    + exists rs'. rewrite lookup_insert_eq. split_and!; [done|congruence|]. apply Hcl. congruence.
    + exists r. by rewrite lookup_insert_ne.
  - intros t th Ht. eapply pc_inv_mono; eauto.
  - intros t th x c Ht Hpp cl r Hc Hd. destruct (decide (s = x)) as [<-|Hne].
    + rewrite lookup_insert_eq. intros [= <-]. eapply Hlive; eauto. eapply H8; eauto.
    + rewrite lookup_insert_ne by done. eapply H8; eauto.
  - intros n Hn. destruct (H9 n Hn) as (? & E & ?). rewrite lookup_insert_ne by congruence. done.
Qed.

Lemma Inv_delete_session id : Inv home owner cls heap (delete id sess) ths cnt nxt.
Proof.
  destruct HI as [H1 H2 H3 H4 H5 H6 H7 H8 H9]. constructor; eauto.
  intros id' s H. apply lookup_delete_Some in H as [_ H]. eauto.
Qed.

Lemma Inv_new_session id now :
  Inv home owner cls (<[nxt := NewRelaySession id now]> heap) (<[id := nxt]> sess) ths cnt (S nxt).
Proof.
  destruct HI as [H1 H2 H3 H4 H5 H6 H7 H8 H9].
  assert (Hn : heap !! nxt = None) by (by destruct (H9 nxt ltac:(lia)) as (? & ? & ?)).
  assert (Hk : sids_kept heap (<[nxt := NewRelaySession id now]> heap)).
  { intros s i. unfold session_sid. destruct (decide (nxt = s)) as [<-|]; [by rewrite Hn|by rewrite lookup_insert_ne]. }
  constructor; eauto.
  - intros c h Hh. destruct (H1 c h Hh) as (cl & r & E1 & E2 & E3 & E4). exists cl, r.
    rewrite lookup_insert_ne by congruence. done.
  - intros c s k t H Hlt. eapply H2; [done|lia].
  - lia.
  - intros s rs. destruct (decide (nxt = s)) as [<-|Hne]; [|rewrite lookup_insert_ne by done; eauto].
    rewrite lookup_insert_eq. intros [= <-]. split; [done|]. intros k c H. cbn in H. by rewrite lookup_empty in H.
  - intros id' s. destruct (decide (id = id')) as [<-|Hne].
    + rewrite lookup_insert_eq. intros [= <-]. eexists. by rewrite lookup_insert_eq.
    + rewrite lookup_insert_ne by done. intros H. destruct (H5 _ _ H) as (r & E & ?). exists r.
      rewrite lookup_insert_ne by congruence. done.
  - intros t th Ht. eapply pc_inv_mono; eauto.
  - intros t th s c Ht Hpp cl r Hc Hd. destruct (decide (nxt = s)) as [<-|Hne].
    + exfalso. assert (Hh : exists t', home !! c = Some (mkHome nxt None t')).
      { specialize (H7 _ _ Ht). destruct (th_pc th); simpl in *; inversion Hpp; subst; naive_solver. }
      destruct Hh as [t' Hh]. destruct (H1 _ _ Hh) as (? & ? & _ & E & _). simpl in E. congruence.
    + rewrite lookup_insert_ne by done. eapply H8; eauto.
  - intros n Hx. destruct (H9 n ltac:(lia)) as (? & E & ?). rewrite lookup_insert_ne by lia. done.
Qed.

(** A socket the listener hands out. *)
Lemma Inv_new_conn t :
  (nxt < t)%nat -> Inv home (<[nxt := inl t]> owner) cls heap sess ths cnt (S nxt).
Proof.
  intros Ht. destruct HI as [H1 H2 H3 H4 H5 H6 H7 H8 H9].
  assert (Hn : owner !! nxt = None) by (by destruct (H9 nxt ltac:(lia)) as (? & ? & ? & ? & ?)).
  assert (Hkeep : forall conn o, owner !! conn = Some o -> <[nxt := inl t]> owner !! conn = Some o).
  { intros conn o H. rewrite lookup_insert_ne by congruence. done. }
  constructor; eauto.
  - intros c s k t' H Hlt. eapply H2; [done|lia].
  - lia.
  - intros c cl H. destruct (H6 _ _ H) as (? & E & ?). eauto.
  - intros t' th H. eapply pc_inv_mono; [done|apply sids_kept_refl| | |by eapply H7]; eauto.
  - intros n Hx. destruct (H9 n ltac:(lia)) as (? & ? & ? & ? & ?). rewrite lookup_insert_ne by lia. done.
Qed.

(** The publisher a goroutine works for is at home in its session. *)
Lemma Inv_pub_home t th s c :
  ths !! t = Some th -> pub_pc (th_pc th) = Some (s, c) -> home !! c = Some (mkHome s None t).
Proof.
  intros Ht Hpp. pose proof (i_thread _ _ _ _ _ _ _ _ HI t th Ht) as H.
  destruct (th_pc th); simpl in *; inversion Hpp; subst; naive_solver.
Qed.

(** Registration: a handler's socket becomes the socket of a new client, which is
    entered in the session, and the handler goes on at [p]. *)
Lemma Inv_register ok cnt' t th conn env s rs rs' p :
  ths !! t = Some th -> owner !! conn = Some (inl t) -> heap !! s = Some rs ->
  env_SessionID env = rs_sessionID rs -> rs_sessionID rs' = rs_sessionID rs -> rs_closed rs' = rs_closed rs ->
  let home' := <[nxt := mkHome s ok t]> home in
  let owner' := <[conn := inr nxt]> owner in
  let heap' := <[s := rs']> heap in
  session_ok home' s rs' ->
  match ok with
  | None => cnt' = cnt /\ rs_publisher rs' = Some nxt /\
      (forall old cl, rs_publisher rs = Some old -> cls !! old = Some cl -> cl_done cl = true)
  | Some k => cnt' = u64_add cnt 1 /\ rs_publisher rs' = rs_publisher rs /\ exists addr, k = subKey addr cnt'
  end ->
  pc_inv home' owner' heap' t p ->
  (forall s' c', pub_pc p = Some (s', c') -> ok = None /\ s' = s /\ c' = nxt) ->
  Inv home' owner' (<[nxt := mkClientConn conn (role_of ok) (Some env) [] false]> cls) heap' sess
    (alter (fun th => mkThread (th_kind th) p) t ths) cnt' (S nxt).
Proof.
  intros Ht Ho Hs Hid Hid' Hcl home' owner' heap' Hok Hreg Hp Hpub.
  pose proof (Inv_pub_home) as Hph. destruct HI as [H1 H2 H3 H4 H5 H6 H7 H8 H9].
  destruct (H9 nxt ltac:(lia)) as (Nc & Nh & Nt & Nm & No).
  assert (Hh : home ⊆ home') by (by apply insert_subseteq).
  assert (Hsid : sids_kept heap heap') by (by eapply sids_kept_insert).
  assert (Hinl : forall t' conn', t' <> t -> owner !! conn' = Some (inl t') -> owner' !! conn' = Some (inl t')).
  { intros t' conn' Hne H. unfold owner'. rewrite lookup_insert_ne by congruence. done. }
  assert (Hinr : forall conn' c, owner !! conn' = Some (inr c) -> owner' !! conn' = Some (inr c)).
  { intros conn' c H. unfold owner'. rewrite lookup_insert_ne by congruence. done. }
  assert (Hcnt : 0 <= cnt' < 2 ^ 64 /\ cnt' <= Z.of_nat nxt + 1 /\ (Z.of_nat nxt + 1 < 2 ^ 64 -> cnt <= cnt')).
  { destruct ok as [k|]; destruct Hreg as [-> _]; [|lia]. unfold u64_add, wrap.
    pose proof (Z.mod_pos_bound (cnt + 1) (2 ^ 64) ltac:(lia)).
    pose proof (Z.mod_le (cnt + 1) (2 ^ 64) ltac:(lia) ltac:(lia)). split_and!; [lia..|].
    intros. rewrite Z.mod_small by lia. lia. }
  constructor.
  - intros c h. destruct (decide (nxt = c)) as [<-|Hne]; unfold home'.
    + rewrite lookup_insert_eq. intros [= <-]. simpl. rewrite lookup_insert_eq. unfold heap'. rewrite lookup_insert_eq.
      eexists _, rs'. split_and!; [done..| |done]. unfold client_sid. cbn. congruence.
    + rewrite !lookup_insert_ne by done. intros H. destruct (H1 c h H) as (cl & r & E1 & E2 & E3 & E4).
      destruct (decide (s = h_session h)) as [E|Hne']; unfold heap'.
      * exists cl, rs'. rewrite <- E, lookup_insert_eq. split_and!; try done. rewrite E3. congruence.
      * exists cl, r. by rewrite lookup_insert_ne.
  - intros c s0 k t0. destruct (decide (nxt = c)) as [<-|Hne]; unfold home'.
    + rewrite lookup_insert_eq. intros [= <- -> <-] Hlt. destruct Hreg as (-> & _ & addr & ->).
      exists addr, (u64_add cnt 1). split; [done|]. unfold u64_add, wrap. rewrite Z.mod_small by lia. lia.
    + rewrite lookup_insert_ne by done. intros H Hlt. destruct (H2 _ _ _ _ H ltac:(lia)) as (addr & n & -> & Hn).
      exists addr, n. split; [done|]. lia.
  - lia.
  - intros s0 r. destruct (decide (s = s0)) as [<-|Hne]; unfold heap'.
    + rewrite lookup_insert_eq. by intros [= <-].
    + rewrite lookup_insert_ne by done. intros H. eapply session_ok_mono; eauto.
  - intros id s0 H. destruct (H5 _ _ H) as (r & E1 & E2 & E3). destruct (decide (s = s0)) as [<-|Hne]; unfold heap'.
    + exists rs'. rewrite lookup_insert_eq. split_and!; congruence.
    + exists r. by rewrite lookup_insert_ne.
  - intros c cl. destruct (decide (nxt = c)) as [<-|Hne]; unfold home'.
    + rewrite !lookup_insert_eq. intros [= <-]. simpl. split_and!; [|unfold owner'; by rewrite lookup_insert_eq|done].
      destruct ok; [right|left]; simpl; split; try done. lia.
    + rewrite !lookup_insert_ne by done. intros H. destruct (H6 _ _ H) as (E1 & E2 & E3). eauto.
  - intros t' th'. destruct (decide (t = t')) as [<-|Hne].
    + rewrite lookup_alter_eq, Ht. intros [= <-]. done.
    + rewrite lookup_alter_ne by done. intros H. eapply pc_inv_mono; [done|done| | |by eapply H7]; eauto.
  - intros t' th' s' c' H Hpp cl r. destruct (decide (nxt = c')) as [<-|Hne].
    + destruct (decide (t = t')) as [<-|Hne'].
      * rewrite lookup_alter_eq, Ht in H. injection H as <-. destruct (Hpub _ _ Hpp) as (-> & -> & _).
        unfold heap'. rewrite !lookup_insert_eq. intros _ _ [= <-]. by destruct Hreg as (_ & ? & _).
      * rewrite lookup_alter_ne in H by done. pose proof (Hph _ _ _ _ H Hpp). congruence.
    + rewrite lookup_insert_ne by done. destruct (decide (t = t')) as [<-|Hne'].
      { rewrite lookup_alter_eq, Ht in H. injection H as <-. destruct (Hpub _ _ Hpp) as (_ & _ & ->). done. }
      rewrite lookup_alter_ne in H by done. intros Hc Hd.
      destruct (decide (s = s')) as [<-|Hns]; unfold heap'.
      * rewrite lookup_insert_eq. intros [= <-]. pose proof (H8 _ _ _ _ H Hpp cl rs Hc Hd Hs) as Hp'.
        destruct ok as [k|]; destruct Hreg as (_ & Hr & Hold); [congruence|].
        rewrite (Hold _ _ Hp' Hc) in Hd. done.
      * rewrite lookup_insert_ne by done. eapply H8; eauto.
  - intros n Hn. destruct (H9 n ltac:(lia)) as (E1 & E2 & E3 & E4 & E5). unfold home', owner', heap'.
    rewrite !lookup_insert_ne by (congruence || lia). by rewrite lookup_alter_ne by congruence.
Qed.

End Updates.

(** ** Operations preserve the invariant

    [advances]: the invariant still holds, no goroutine has gone or moved, new
    ones are at their start, and
    sessions keep their IDs. *)
Definition kept (x y : gmap nat thread * nat) : Prop :=
  (x.2 <= y.2)%nat /\ (forall n, (n < x.2)%nat -> y.1 !! n = x.1 !! n) /\
  (forall n th, (x.2 <= n)%nat -> y.1 !! n = Some th -> x.1 !! n = Some th \/ fresh_pc (th_pc th) = true).

#[global] Instance kept_preorder : PreOrder kept.
Proof.
  split; [intros x; split_and!; by eauto|]. intros x y z (H1 & H2 & H3) (H4 & H5 & H6). split_and!; [lia|..].
  - intros n Hn. rewrite H5 by lia. by apply H2.
  - intros n th Hn Hz. destruct (Nat.lt_ge_cases n y.2) as [Hlt|Hge].
    + rewrite H5 in Hz by done. by apply H3.
    + destruct (H6 n th Hge Hz) as [Hy|]; [by apply H3|by right].
Qed.

Definition advances (home : homes) (owner : owners) (w w' : Server) : Prop :=
  inv home owner w' /\ kept (sv_threads w, sv_next w) (sv_threads w', sv_next w') /\ sids_kept (sv_heap w) (sv_heap w').

Section Ops.
Context {home : homes} {owner : owners}.

Lemma advances_refl w : inv home owner w -> advances home owner w w.
Proof. intros H. by split_and!. Qed.

Lemma advances_trans w1 w2 w3 :
  advances home owner w1 w2 -> (inv home owner w2 -> advances home owner w2 w3) -> advances home owner w1 w3.
Proof.
  intros (H1 & H2 & H3) H. destruct (H H1) as (H4 & H5 & H6). split_and!; [done|by etrans|].
  intros s id Hs. by apply H6, H3.
Qed.

Lemma inv_spawn w k p :
  inv home owner w -> pc_inv home owner (sv_heap w) (sv_next w) p -> fresh_pc p = true ->
  advances home owner w (spawn k p w).
Proof.
  intros H Hp Hf. split_and!; [by apply Inv_spawn; [..|apply fresh_not_pub]| |done]. split_and!; cbn; [lia|..].
  - intros n Hn. by rewrite lookup_insert_ne by lia.
  - intros n th Hn. destruct (decide (sv_next w = n)) as [<-|Hne].
    + rewrite lookup_insert_eq. intros [= <-]. by right.
    + rewrite lookup_insert_ne by done. by left.
Qed.

Lemma inv_ClientConn_Close w c : inv home owner w -> advances home owner w (ClientConn_Close c w).
Proof.
  intros H. unfold ClientConn_Close. destruct (sv_clients w !! c) as [cl|] eqn:Hc; [|by apply advances_refl].
  destruct (cl_done cl); [by apply advances_refl|].
  assert (H' : inv home owner (set_clients (insert c (set_done cl)) w)).
  { eapply (Inv_client H c cl); try done. apply (i_client _ _ _ _ _ _ _ _ H c cl Hc). }
  destruct (cl_role cl =? 2); [|by split_and!].
  apply (inv_spawn _ GoHelper (DelayedClose (cl_netConn cl)) H'); [|done]. exists c.
  apply (i_client _ _ _ _ _ _ _ _ H c cl Hc).
Qed.

Lemma inv_close_all l w :
  inv home owner w -> advances home owner w (fold_left (fun w c => ClientConn_Close c w) l w).
Proof.
  revert w. induction l as [|c l IH]; intros w H; [by apply advances_refl|].
  eapply advances_trans; [by apply inv_ClientConn_Close|]. intros H'. by apply IH.
Qed.

(** Closing a client leaves sessions alone, and closes it. *)
Lemma ClientConn_Close_frame c w :
  sv_heap (ClientConn_Close c w) = sv_heap w /\ sv_sessions (ClientConn_Close c w) = sv_sessions w.
Proof. unfold ClientConn_Close. by repeat case_match. Qed.

Lemma ClientConn_Close_heap f c w :
  ClientConn_Close c (set_heap f w) = set_heap f (ClientConn_Close c w).
Proof. unfold ClientConn_Close. cbn. destruct (sv_clients w !! c); [|done]. by repeat case_match. Qed.

Lemma ClientConn_Close_sessions f c w :
  ClientConn_Close c (set_sessions f w) = set_sessions f (ClientConn_Close c w).
Proof. unfold ClientConn_Close. cbn. destruct (sv_clients w !! c); [|done]. by repeat case_match. Qed.

Lemma ClientConn_Close_done c x cl w :
  sv_clients (ClientConn_Close c w) !! x = Some cl -> (x = c \/ exists cl0, sv_clients w !! x = Some cl0 /\ cl_done cl0 = true) ->
  cl_done cl = true.
Proof.
  unfold ClientConn_Close. destruct (sv_clients w !! c) as [cl1|] eqn:Hc.
  2: { intros H [->|(? & ? & ?)]; congruence. }
  destruct (cl_done cl1) eqn:Hd.
  { intros H [->|(? & ? & ?)]; congruence. }
  intros H H'. assert (E : <[c:=set_done cl1]> (sv_clients w) !! x = Some cl) by (by destruct (cl_role cl1 =? 2)).
  destruct (decide (c = x)) as [<-|Hne].
  - rewrite lookup_insert_eq in E. by injection E as <-.
  - rewrite lookup_insert_ne in E by done. destruct H' as [->|(? & ? & ?)]; congruence.
Qed.

Lemma close_all_heap f l w :
  fold_left (fun w c => ClientConn_Close c w) l (set_heap f w) =
  set_heap f (fold_left (fun w c => ClientConn_Close c w) l w).
Proof. revert w. induction l as [|c l IH]; intros w; [done|]. cbn. by rewrite ClientConn_Close_heap, IH. Qed.

Lemma close_all_sessions f l w :
  fold_left (fun w c => ClientConn_Close c w) l (set_sessions f w) =
  set_sessions f (fold_left (fun w c => ClientConn_Close c w) l w).
Proof. revert w. induction l as [|c l IH]; intros w; [done|]. cbn. by rewrite ClientConn_Close_sessions, IH. Qed.

Lemma close_all_frame l w :
  let w' := fold_left (fun w c => ClientConn_Close c w) l w in
  sv_heap w' = sv_heap w /\ sv_sessions w' = sv_sessions w.
Proof.
  revert w. induction l as [|c l IH]; intros w; [done|]. cbn.
  destruct (IH (ClientConn_Close c w)) as [-> ->]. apply ClientConn_Close_frame.
Qed.

Lemma ClientConn_Close_keeps c x cl w :
  sv_clients w !! x = Some cl -> exists cl', sv_clients (ClientConn_Close c w) !! x = Some cl' /\
    cl_netConn cl' = cl_netConn cl /\ cl_role cl' = cl_role cl /\ cl_initialEnv cl' = cl_initialEnv cl /\
    cl_sendCh cl' = cl_sendCh cl /\ (cl_done cl = true -> cl_done cl' = true) /\ (x <> c -> cl' = cl).
Proof.
  intros Hx. unfold ClientConn_Close. destruct (sv_clients w !! c) as [cl1|] eqn:Hc; [|by exists cl].
  destruct (cl_done cl1); [by exists cl|].
  assert (E : exists cl', <[c := set_done cl1]> (sv_clients w) !! x = Some cl' /\
    cl_netConn cl' = cl_netConn cl /\ cl_role cl' = cl_role cl /\ cl_initialEnv cl' = cl_initialEnv cl /\
    cl_sendCh cl' = cl_sendCh cl /\ (cl_done cl = true -> cl_done cl' = true) /\ (x <> c -> cl' = cl)).
  { destruct (decide (c = x)) as [<-|Hne].
    - rewrite lookup_insert_eq. assert (cl1 = cl) as -> by congruence. eexists; by split_and!.
    - rewrite lookup_insert_ne by done. by exists cl. }
  by destruct (cl_role cl1 =? 2).
Qed.

Lemma close_all_done l x cl w :
  sv_clients (fold_left (fun w c => ClientConn_Close c w) l w) !! x = Some cl ->
  is_Some (sv_clients w !! x) ->
  (x ∈ l \/ exists cl0, sv_clients w !! x = Some cl0 /\ cl_done cl0 = true) -> cl_done cl = true.
Proof.
  revert w. induction l as [|c l IH]; intros w; cbn; intros H [cl1 Hx] Hor.
  - destruct Hor as [Hin|(? & ? & ?)]; [by apply elem_of_nil in Hin|congruence].
  - destruct (ClientConn_Close_keeps c x cl1 w Hx) as (cl2 & E & _ & _ & _ & _ & Hd & _).
    eapply IH; [done|by rewrite E|]. rewrite elem_of_cons in Hor. destruct Hor as [[->|Hin]|(cl0 & E0 & Hd0)]; [..|].
    + right. exists cl2. split; [done|]. eapply ClientConn_Close_done; [done|by left].
    + by left.
    + right. exists cl2. split; [done|]. apply Hd. congruence.
Qed.

(** Closing a session: the clients first, then the object. *)
Lemma RelaySession_Close_eq s rs w :
  sv_heap w !! s = Some rs -> rs_closed rs = false ->
  RelaySession_Close s w =
    set_heap (insert s (mkRelaySession (rs_sessionID rs) None ∅ (rs_createdAt rs) true))
      (fold_left (fun w c => ClientConn_Close c w)
        (option_list (rs_publisher rs) ++ (map_to_list (rs_subscribers rs)).*2) w).
Proof. intros Hs Hc. unfold RelaySession_Close. rewrite Hs, Hc. apply close_all_heap. Qed.

(** Taking a session out of the map and closing it. *)
Lemma inv_drop_session id s w :
  inv home owner w -> sv_sessions w !! id = Some s ->
  advances home owner w (set_sessions (delete id) (RelaySession_Close s w)).
Proof.
  intros H Hs. destruct (i_map _ _ _ _ _ _ _ _ H id s Hs) as (rs & Hrs & Hid & Hcl).
  rewrite (RelaySession_Close_eq s rs w Hrs Hcl).
  set (l := _ ++ _). destruct (close_all_frame l w) as [Eh Es].
  destruct (inv_close_all l w H) as (H1 & H2 & H3). set (w' := fold_left _ l w) in *.
  split_and!; [|done|].
  - assert (Hd : inv home owner (set_sessions (delete id) w')) by (by apply Inv_delete_session).
    eapply (Inv_session Hd s rs); cbn.
    + by rewrite Eh.
    + done.
    + split; [done|]. intros k c E. cbn in E. by rewrite lookup_empty in E.
    + rewrite Hid, lookup_delete_eq. done.
    + intros c cl Hp Hc Hdone. exfalso. destruct (i_session _ _ _ _ _ _ _ _ H s rs Hrs) as [Hpub _].
      destruct (Hpub c Hp) as [t Ht]. destruct (i_home _ _ _ _ _ _ _ _ H _ _ Ht) as (cl0 & _ & Hc0 & _).
      assert (cl_done cl = true); [|congruence]. eapply (close_all_done l c cl w); [done|by rewrite Hc0|].
      left. unfold l. rewrite Hp. cbn. apply list_elem_of_here.
  - cbn. rewrite Eh. by eapply sids_kept_insert.
Qed.

Lemma inv_removeSession id w : inv home owner w -> advances home owner w (removeSession id w).
Proof.
  intros H. unfold removeSession. destruct (sv_sessions w !! id) as [s|] eqn:Hs; [|by apply advances_refl].
  exact (inv_drop_session id s w H Hs).
Qed.

Lemma inv_RemoveSubscriber s key w : inv home owner w -> advances home owner w (RemoveSubscriber s key w).
Proof.
  intros H. unfold RemoveSubscriber. destruct (sv_heap w !! s) as [rs|] eqn:Hs; [|by apply advances_refl].
  cbn. destruct (rs_subscribers rs !! key) as [sub|] eqn:Hk; [|by apply advances_refl].
  eapply advances_trans; [|apply inv_ClientConn_Close].
  destruct (i_session _ _ _ _ _ _ _ _ H s rs Hs) as [Hp Hsub].
  assert (E : alter (set_subscribers (delete key)) s (sv_heap w) = <[s := set_subscribers (delete key) rs]> (sv_heap w)).
  { apply map_eq. intros x. destruct (decide (s = x)) as [<-|?].
    - by rewrite lookup_alter_eq, lookup_insert_eq, Hs.
    - by rewrite lookup_alter_ne, lookup_insert_ne. }
  split_and!; [|done|cbn; rewrite E; by eapply sids_kept_insert].
  unfold inv. cbn. rewrite E. eapply (Inv_session H s rs); try done.
  - split; [done|]. intros k c. cbn. intros Hd. apply lookup_delete_Some in Hd as [_ Hd]. eauto.
  - intros Hm. destruct (i_map _ _ _ _ _ _ _ _ H _ _ Hm) as (? & ? & ? & ?). simpl. congruence.
Qed.

Lemma inv_getOrCreateSession id w s w' :
  inv home owner w -> getOrCreateSession id w = (s, w') ->
  advances home owner w w' /\ session_sid (sv_heap w') s = Some id.
Proof.
  intros H. unfold getOrCreateSession. destruct (sv_sessions w !! id) as [s0|] eqn:E; intros [= <- <-].
  - split; [by apply advances_refl|]. destruct (i_map _ _ _ _ _ _ _ _ H _ _ E) as (rs & Hs & Hid & _).
    unfold session_sid. rewrite Hs. simpl. by rewrite Hid.
  - split; [|unfold session_sid; cbn; by rewrite lookup_insert_eq].
    destruct (i_fresh _ _ _ _ _ _ _ _ H (sv_next w) ltac:(lia)) as (_ & Hn & _).
    split_and!; [exact (Inv_new_session H id (sv_now w))|split_and!; cbn; [lia|done|by left]|].
    intros x i. cbn. unfold session_sid. destruct (decide (sv_next w = x)) as [<-|]; [by rewrite Hn|by rewrite lookup_insert_ne].
Qed.

Lemma inv_SendFrame pool o c env w r w' :
  inv home owner w -> SendFrame pool o c env w = Some (r, w') -> advances home owner w w'.
Proof.
  intros H. unfold SendFrame, SendFrameWithTimeout. destruct (sv_clients w !! c) as [cl|] eqn:Hc; [|done].
  destruct (i_client _ _ _ _ _ _ _ _ H c cl Hc) as (Hok & _ & _).
  destruct (Z.eqb_spec (cl_role cl) 2) as [Hr|Hr].
  - change (5 * Second =? 0) with false. cbn [andb].
    destruct (Nat.ltb_spec (length (cl_sendCh cl)) SubscriberQueueSize) as [Hl|Hl]; cbn [andb].
    + assert (Hq : advances home owner w (set_clients (insert c (set_sendCh (cl_sendCh cl ++ [env]) cl)) w)).
      { split_and!; [|done..]. eapply (Inv_client H c cl); try done. right. split; [done|].
        cbn. rewrite length_app. cbn. lia. }
      repeat case_match; intros [= <- <-]; done || by apply advances_refl.
    + repeat case_match; intros [= <- <-]; by apply advances_refl.
  - unfold encodeTo_conn. destruct (sv_conns w !! cl_netConn cl).
    + destruct (conn_encode _ _ _). intros [= <- <-]. by split_and!.
    + intros [= <- <-]. by apply advances_refl.
Qed.

Lemma inv_ForwardToPublisher pool o s env w r w' :
  inv home owner w -> ForwardToPublisher pool o s env w = Some (r, w') -> advances home owner w w'.
Proof.
  intros H. unfold ForwardToPublisher. destruct (sv_heap w !! s) as [rs|]; [|done].
  destruct (rs_publisher rs); [by apply inv_SendFrame|]. intros [= <- <-]. by apply advances_refl.
Qed.

Lemma inv_decodeFrom_conn max conn w r w' :
  inv home owner w -> decodeFrom_conn max conn w = (r, w') -> advances home owner w w'.
Proof.
  intros H. unfold decodeFrom_conn. destruct (sv_conns w !! conn); [|intros [= <- <-]; by apply advances_refl].
  destruct (c_closed _); [intros [= <- <-]; by apply advances_refl|].
  destruct (DecodeWithMax _ _). intros [= <- <-]. by split_and!.
Qed.

Lemma inv_encodeTo_conn pool conn env w r w' :
  inv home owner w -> encodeTo_conn pool conn env w = (r, w') -> advances home owner w w'.
Proof.
  intros H. unfold encodeTo_conn. destruct (sv_conns w !! conn); [|intros [= <- <-]; by apply advances_refl].
  destruct (conn_encode _ _ _). intros [= <- <-]. by split_and!.
Qed.

Lemma inv_finish t w : inv home owner w -> inv home owner (finish t w).
Proof. intros H. unfold finish. destruct (th_kind <$> _) as [[]|]; exact (Inv_finish H t). Qed.

Lemma inv_goto w t th p :
  inv home owner w -> sv_threads w !! t = Some th -> pc_inv home owner (sv_heap w) t p ->
  (forall s c, pub_pc p = Some (s, c) -> pub_pc (th_pc th) = Some (s, c)) ->
  inv home owner (goto t p w).
Proof. intros H Ht Hp Hpub. eapply (Inv_goto H); eauto. Qed.

End Ops.

(** Read a field through the updates. *)
Ltac fields := cbn [sv_conns sv_clients sv_heap sv_sessions sv_threads sv_subKeyCounter sv_next sv_now sv_metrics
  set_conns set_clients set_heap set_sessions set_threads set_rateLimiter set_trustProxy set_metrics
  set_activeConns set_subKeyCounter set_now set_next closeConn spawn goto].

(** ** Registration *)

Lemma alter_some {A} (f : A -> A) (m : gmap nat A) i x : m !! i = Some x -> alter f i m = <[i := f x]> m.
Proof.
  intros H. apply map_eq. intros j. destruct (decide (i = j)) as [<-|Hne].
  - by rewrite lookup_alter_eq, lookup_insert_eq, H.
  - by rewrite lookup_alter_ne, lookup_insert_ne.
Qed.

Lemma set_heap_alter f s rs w :
  sv_heap w !! s = Some rs -> set_heap (alter f s) w = set_heap (insert s (f rs)) w.
Proof. intros H. unfold set_heap. by rewrite (alter_some _ _ s rs). Qed.

(** The state after a publisher has been entered in session [s]. *)
Definition with_publisher (s conn : nat) (env : Envelope) (rs : RelaySession) (w : Server) : Server :=
  set_heap (insert s (set_publisher (Some (sv_next w)) rs))
    (set_next (S (sv_next w)) (set_clients (insert (sv_next w) (mkClientConn conn 1 (Some env) [] false)) w)).

Lemma RegisterPublisher_cases home owner s conn env w rs :
  inv home owner w -> sv_heap w !! s = Some rs ->
  (exists old cl, rs_publisher rs = Some old /\ sv_clients w !! old = Some cl /\ cl_done cl = false /\
     RegisterPublisher s conn env w = (None, closeConn conn w)) \/
  ((forall old cl, rs_publisher rs = Some old -> sv_clients w !! old = Some cl -> cl_done cl = true) /\
   RegisterPublisher s conn env w = (Some (sv_next w), with_publisher s conn env rs w)).
Proof.
  intros H Hs. unfold RegisterPublisher, with_publisher. rewrite Hs. cbn [mbind option_bind].
  destruct (rs_publisher rs) as [old|] eqn:Hp.
  - destruct (i_session _ _ _ _ _ _ _ _ H s rs Hs) as [Hpub _]. destruct (Hpub old Hp) as [t Ht].
    destruct (i_home _ _ _ _ _ _ _ _ H _ _ Ht) as (cl & _ & Hc & _). rewrite Hc. unfold IsClosed.
    destruct (cl_done cl) eqn:Hd; [right|left; by exists old, cl]. cbn [negb]. split; [naive_solver|].
    unfold ClientConn_Close. rewrite Hc, Hd. rewrite (set_heap_alter _ s rs) by done.
    unfold NewClientConn. change (1 =? 2) with false. cbv beta iota zeta.
    rewrite (set_heap_alter _ s (set_publisher None rs)) by (cbn; by rewrite lookup_insert_eq).
    unfold set_heap. cbn [sv_heap set_next set_clients]. by rewrite insert_insert_eq.
  - right. split; [done|]. unfold NewClientConn. change (1 =? 2) with false. cbv beta iota zeta.
    by rewrite (set_heap_alter _ s rs).
Qed.

(** The state after a subscriber has been entered in session [s]. *)
Definition with_subscriber (s conn : nat) (env : Envelope) (key : bytes) (rs : RelaySession) (w : Server) : Server :=
  set_heap (insert s (set_subscribers (insert key (sv_next w)) rs))
    (set_subKeyCounter (u64_add (sv_subKeyCounter w) 1)
      (spawn GoHelper (WLoop (sv_next w))
        (set_next (S (sv_next w)) (set_clients (insert (sv_next w) (mkClientConn conn 2 (Some env) [] false)) w)))).

Lemma RegisterSubscriber_eq s conn env w rs :
  sv_heap w !! s = Some rs ->
  exists addr, let key := subKey addr (u64_add (sv_subKeyCounter w) 1) in
    RegisterSubscriber s conn env w = (sv_next w, key, with_subscriber s conn env key rs w).
Proof.
  intros Hs. exists (match sv_conns w !! conn with Some nc => nc_addr nc | None => [] end). cbn zeta.
  unfold RegisterSubscriber, with_subscriber, NewClientConn. change (2 =? 2) with true. cbv beta iota zeta.
  by rewrite (set_heap_alter _ s rs).
Qed.

Lemma session_ok_publisher home s rs n t :
  session_ok home s rs -> home !! n = None ->
  session_ok (<[n := mkHome s None t]> home) s (set_publisher (Some n) rs).
Proof.
  intros [Hp Hs] Hn. split; cbn.
  - intros p [= <-]. exists t. by rewrite lookup_insert_eq.
  - intros k c H. eapply is_filed_mono; [by apply insert_subseteq|eauto].
Qed.

Lemma session_ok_subscriber home s rs n t key :
  session_ok home s rs -> home !! n = None ->
  session_ok (<[n := mkHome s (Some key) t]> home) s (set_subscribers (insert key n) rs).
Proof.
  intros [Hp Hs] Hn. split; cbn.
  - intros p H. destruct (Hp p H) as [t' Ht]. exists t'. eapply lookup_weaken; [done|by apply insert_subseteq].
  - intros k c. destruct (decide (key = k)) as [<-|Hne].
    + rewrite lookup_insert_eq. intros [= <-]. exists t. cbn. by rewrite lookup_insert_eq.
    + rewrite lookup_insert_ne by done. intros H. eapply is_filed_mono; [by apply insert_subseteq|eauto].
Qed.

(** What a [range] over the subscribers of a session visits. *)
Lemma range_filed home s rs o : session_ok home s rs -> Forall (is_filed home s) (o_range o (rs_subscribers rs)).
Proof.
  intros [_ Hs]. rewrite (o_range_perm o). apply Forall_forall. intros [k c] Hin.
  apply Hs. by apply elem_of_map_to_list in Hin.
Qed.

Lemma filed_subs home s l : Forall (is_filed home s) l -> Forall (is_sub home s) l.*2.
Proof. intros H. rewrite Forall_fmap. eapply Forall_impl; [exact H|]. apply is_filed_sub. Qed.

(** ** Steps preserve the invariant *)

(** The invariant holds again, with the ghost state extended. *)
Definition preserved (home : homes) (w : Server) : Prop :=
  exists home' owner', home ⊆ home' /\ inv home' owner' w.

Lemma preserved_same home owner w : inv home owner w -> preserved home w.
Proof. intros H. by exists home, owner. Qed.

Section StepInv.
Context (pool : bytes) (home : homes) (owner : owners) (w : Server) (t : nat) (th : thread).
Context (HI : inv home owner w) (Ht : sv_threads w !! t = Some th).

Lemma thread_pc_inv p : th_pc th = p -> pc_inv home owner (sv_heap w) t p.
Proof. intros <-. exact (i_thread _ _ _ _ _ _ _ _ HI t th Ht). Qed.

Lemma thread_below : (t < sv_next w)%nat.
Proof using HI Ht.
  destruct (Nat.lt_ge_cases t (sv_next w)) as [|Hge]; [done|].
  destruct (i_fresh _ _ _ _ _ _ _ _ HI t Hge) as (_ & _ & E & _). congruence.
Qed.

(** Moving on after operations of the step. *)
Lemma inv_goto_after w' p :
  advances home owner w w' -> pc_inv home owner (sv_heap w') t p ->
  (forall s c, pub_pc p = Some (s, c) -> pub_pc (th_pc th) = Some (s, c)) ->
  inv home owner (goto t p w').
Proof.
  intros (H1 & (_ & H2 & _) & H3) Hp Hpub. eapply inv_goto; eauto. cbn in H2. rewrite H2; [done|].
  by apply thread_below.
Qed.

Lemma session_exists s id : session_sid (sv_heap w) s = Some id ->
  exists rs, sv_heap w !! s = Some rs /\ rs_sessionID rs = id.
Proof. unfold session_sid. destruct (sv_heap w !! s) as [rs|]; [|done]. intros [= <-]. eauto. Qed.

Lemma inv_handleRegisterPub conn env s :
  th_pc th = HRegisterPub conn env s -> preserved home (handleRegisterPub t conn env s w).
Proof.
  intros E. destruct (thread_pc_inv _ E) as [Ho Hsid]. destruct (session_exists _ _ Hsid) as (rs & Hs & Hid).
  unfold handleRegisterPub. destruct (RegisterPublisher_cases home owner s conn env w rs HI Hs)
    as [(old & cl & _ & _ & _ & ->)|[Hold ->]].
  - apply (preserved_same home owner). apply inv_finish. exact HI.
  - destruct (i_fresh _ _ _ _ _ _ _ _ HI (sv_next w) ltac:(lia)) as (_ & _ & _ & Nh & _).
    pose proof (i_session _ _ _ _ _ _ _ _ HI s rs Hs) as Hok.
    exists (<[sv_next w := mkHome s None t]> home), (<[conn := inr (sv_next w)]> owner).
    split; [by apply insert_subseteq|].
    eapply (Inv_register HI None); eauto; try done.
    + by apply session_ok_publisher.
    + cbn. by rewrite lookup_insert_eq.
    + cbn. intros s' c' [= <- <-]. done.
Qed.

Lemma inv_handleRegisterSub conn env s :
  th_pc th = HRegisterSub conn env s -> preserved home (handleRegisterSub t conn env s w).
Proof.
  intros E. destruct (thread_pc_inv _ E) as [Ho Hsid]. destruct (session_exists _ _ Hsid) as (rs & Hs & Hid).
  unfold handleRegisterSub. destruct (RegisterSubscriber_eq s conn env w rs Hs) as [addr ->].
  set (key := subKey addr _).
  destruct (i_fresh _ _ _ _ _ _ _ _ HI (sv_next w) ltac:(lia)) as (_ & _ & _ & Nh & _).
  destruct (i_fresh _ _ _ _ _ _ _ _ HI (S (sv_next w)) ltac:(lia)) as (_ & _ & Nt & _ & _).
  exists (<[sv_next w := mkHome s (Some key) t]> home), (<[conn := inr (sv_next w)]> owner).
  split; [by apply insert_subseteq|].
  unfold inv, with_subscriber. fields. rewrite alter_insert_ne by congruence.
  apply (Inv_spawn (nxt := S (sv_next w)));
    [|exists s, key, t; by rewrite lookup_insert_eq|done].
  eapply (Inv_register HI (Some key)); eauto; try done.
  + apply session_ok_subscriber; [|done]. by eapply (i_session _ _ _ _ _ _ _ _ HI).
  + cbn. rewrite lookup_insert_eq. split; [done|]. unfold session_sid. rewrite lookup_insert_eq. cbn. by rewrite Hid.
Qed.

Lemma inv_handleStart o conn : th_pc th = HStart conn -> inv home owner (handleStart o t conn w).
Proof.
  intros E. pose proof (thread_pc_inv _ E) as Ho. unfold handleStart.
  destruct (sv_conns w !! conn) as [nc|]; [|by apply inv_finish].
  destruct (if sv_trustProxy w then _ else _) as [[rest ra] err].
  destruct err; [apply inv_finish; exact HI|].
  destruct (IsBanned _ _ _) as [banned rl]. destruct banned; [apply inv_finish; exact HI|].
  by apply (inv_goto _ t th).
Qed.

Lemma inv_handleDecode conn ra : th_pc th = HDecode conn ra -> inv home owner (handleDecode pool t conn ra w).
Proof.
  intros E. pose proof (thread_pc_inv _ E) as Ho. unfold handleDecode.
  destruct (decodeFrom_conn _ _ w) as [r w1] eqn:E1. pose proof (inv_decodeFrom_conn _ _ _ _ _ HI E1) as A1.
  destruct r as [env|e].
  - assert (Hcreate : forall s w2 p, getOrCreateSession (env_SessionID env) w1 = (s, w2) ->
      p = HRegisterPub conn env s \/ p = HRegisterSub conn env s -> inv home owner (goto t p w2)).
    { intros s w2 p E2 Hp. destruct (inv_getOrCreateSession _ _ _ _ (proj1 A1) E2) as [A2 Hsid].
      apply inv_goto_after; [by eapply advances_trans|by destruct Hp as [-> | ->]|by destruct Hp as [-> | ->]]. }
    repeat case_match; eauto; try (apply inv_finish; exact (proj1 A1)).
    apply inv_goto_after; [done| |done]. split; [done|].
    match goal with Hl : lookupSession _ _ = Some _ |- _ => rename Hl into Hlook end.
    destruct (i_map _ _ _ _ _ _ _ _ (proj1 A1) _ _ Hlook) as (rs & Hs & Hid & _).
    unfold session_sid. rewrite Hs. simpl. by rewrite Hid.
  - apply inv_finish. destruct (decode_error_is_EOF e), e; try exact (proj1 A1);
      destruct (encodeTo_conn pool conn closeEnv w1) as [r w2] eqn:E2;
      exact (proj1 (inv_encodeTo_conn _ _ _ _ _ _ (proj1 A1) E2)).
Qed.

Lemma inv_handleWaiting o s c : th_pc th = HRegistered s c -> inv home owner (handleWaiting o t s c w).
Proof.
  intros E. pose proof (thread_pc_inv _ E) as Hc. cbn in Hc. unfold handleWaiting.
  apply inv_goto_after; [by apply advances_refl| |by rewrite E]. split; [done|].
  destruct (sv_heap w !! s) as [rs|] eqn:Hs; [|constructor]. by apply filed_subs, range_filed, (i_session _ _ _ _ _ _ _ _ HI s rs Hs).
Qed.

Lemma inv_handleGreetPub o s c todo w' :
  th_pc th = HGreetPub s c todo -> handleGreetPub pool o t s c todo w = Some w' -> inv home owner w'.
Proof.
  intros E. destruct (thread_pc_inv _ E) as [Hc Htodo]. unfold handleGreetPub.
  destruct todo as [|sub todo].
  - intros [= <-]. apply inv_goto_after; [by apply advances_refl|done|by rewrite E].
  - inversion Htodo; subst. destruct (sv_clients w !! sub ≫= cl_initialEnv) as [env|].
    + destruct (SendFrame pool o c env w) as [[r w1]|] eqn:E1; intros [= <-]. cbn.
      apply inv_goto_after; [by eapply inv_SendFrame|done|by rewrite E].
    + intros [= <-]. apply inv_goto_after; [by apply advances_refl|done|by rewrite E].
Qed.

Lemma inv_handleNotifyPub o s c key env w' :
  th_pc th = HNotifyPub s c key env -> handleNotifyPub pool o t s c key env w = Some w' -> inv home owner w'.
Proof.
  intros E. destruct (thread_pc_inv _ E) as [Hc _]. unfold handleNotifyPub.
  destruct (sv_heap w !! s ≫= rs_publisher) as [pub|].
  - destruct (SendFrame pool o pub env w) as [[r w1]|] eqn:E1; intros [= <-]. cbn.
    apply inv_goto_after; [by eapply inv_SendFrame|done|done].
  - intros [= <-]. apply inv_goto_after; [by apply advances_refl|done|done].
Qed.

Lemma inv_handleSyncReq o conn s env w' :
  handleSyncReq pool o t conn s env w = Some w' -> inv home owner w'.
Proof.
  unfold handleSyncReq. destruct (sv_heap w !! s ≫= rs_publisher) as [pub|].
  - destruct (clientConnOf pub w =? conn)%nat; [intros [= <-]; apply inv_finish; exact HI|].
    destruct (ForwardToPublisher pool o s env w) as [[r w1]|] eqn:E1; intros [= <-]. cbn.
    apply inv_finish. exact (proj1 (inv_ForwardToPublisher _ _ _ _ _ _ _ HI E1)).
  - intros [= <-]. apply inv_finish. exact HI.
Qed.

Lemma inv_pubLoop o s c : th_pc th = PubLoop s c -> inv home owner (pubLoop o t s c w).
Proof.
  intros E. pose proof (thread_pc_inv _ E) as Hc. unfold pubLoop.
  destruct (decodeFrom_conn _ _ w) as [r w1] eqn:E1. pose proof (inv_decodeFrom_conn _ _ _ _ _ HI E1) as A1.
  destruct r as [env|e]; [|apply inv_goto_after; [done|done|by rewrite E]].
  destruct (bool_decide (env_MsgType env = MsgTypeHeartbeat)); [exact (proj1 A1)|].
  assert (Hf : forall w2, sv_heap w2 = sv_heap w1 -> advances home owner w w2 ->
    inv home owner (goto t (PubForward s c env
      (match sv_heap w2 !! s with Some rs => o_range o (rs_subscribers rs) | None => [] end)
      (match sv_heap w2 !! s with Some rs => o_range o (rs_subscribers rs) | None => [] end).*2 false) w2)).
  { intros w2 Eh A2. apply inv_goto_after; [done| |by rewrite E].
    assert (Hfl : Forall (is_filed home s) (match sv_heap w2 !! s with Some rs => o_range o (rs_subscribers rs) | None => [] end)).
    { destruct (sv_heap w2 !! s) as [rs|] eqn:Hs; [|done]. apply range_filed. exact (i_session _ _ _ _ _ _ _ _ (proj1 A2) s rs Hs). }
    split_and!; [done|done|by apply filed_subs]. }
  destruct (bool_decide (env_MsgType env = MsgTypeClose)); by apply Hf.
Qed.

Lemma pubNext_inv s c env w' :
  pub_pc (th_pc th) = Some (s, c) -> advances home owner w w' -> inv home owner (goto t (pubNext s c env) w').
Proof.
  intros E A. pose proof (Inv_pub_home HI t th s c Ht E) as Hc.
  apply inv_goto_after; [done|unfold pubNext; by case_bool_decide|]. unfold pubNext. intros s' c'. by case_bool_decide; rewrite E.
Qed.

Lemma inv_pubForward o s c env todo subs hit w' :
  th_pc th = PubForward s c env todo subs hit -> pubForward pool o t s c env todo subs hit w = Some w' ->
  inv home owner w'.
Proof.
  intros E. destruct (thread_pc_inv _ E) as (Hc & Htodo & Hsubs). unfold pubForward.
  destruct todo as [|[key sub] todo].
  - intros [= <-]. destruct hit.
    + apply inv_goto_after; [by apply advances_refl|done|by rewrite E].
    + apply pubNext_inv; [by rewrite E|by apply advances_refl].
  - inversion Htodo as [|? ? Hsub Htodo']; subst.
    destruct (SendFrame pool o sub env w) as [[r w1]|] eqn:E1; intros [= <-].
    pose proof (inv_SendFrame _ _ _ _ _ _ _ HI E1) as A1. destruct r as [[]|e].
    + apply inv_goto_after; [done|done|by rewrite E].
    + apply inv_goto_after; [|done|by rewrite E]. eapply advances_trans; [done|]. intros H1.
      apply inv_spawn; [done| |done]. by exists sub.
Qed.

Lemma inv_pubDrain s c env todo dl w' :
  th_pc th = PubDrain s c env todo dl -> pubDrain t s c env todo dl w = Some w' -> inv home owner w'.
Proof.
  intros E. destruct (thread_pc_inv _ E) as (Hc & Htodo). unfold pubDrain. destruct todo as [|sub todo].
  - intros [= <-]. apply pubNext_inv; [by rewrite E|by apply advances_refl].
  - pose proof Htodo as Hall. inversion Htodo; subst.
    repeat case_match; intros [= <-]; (apply inv_goto_after; [by apply advances_refl|done|by rewrite E]).
Qed.

Lemma inv_subLoop o s c key w' :
  th_pc th = SubLoop s c key -> subLoop pool o t s c key w = Some w' -> inv home owner w'.
Proof.
  intros E. pose proof (thread_pc_inv _ E) as Hc. unfold subLoop.
  destruct (decodeFrom_conn _ _ w) as [r w1] eqn:E1. pose proof (inv_decodeFrom_conn _ _ _ _ _ HI E1) as A1.
  destruct r as [env|e].
  - destruct (bool_decide _); [intros [= <-]; exact (proj1 A1)|].
    destruct (_ || _ || _); [|intros [= <-]; exact (proj1 A1)].
    destruct (ForwardToPublisher pool o s env w1) as [[r w2]|] eqn:E2; intros [= <-].
    exact (proj1 (inv_ForwardToPublisher _ _ _ _ _ _ _ (proj1 A1) E2)).
  - intros [= <-]. apply inv_goto_after; done.
Qed.

Lemma inv_subCheck s : inv home owner (subCheck t s w).
Proof.
  unfold subCheck. destruct (sv_heap w !! s) as [rs|] eqn:Hs; [|by apply inv_finish].
  destruct (bool_decide _ && _); [|by apply inv_finish].
  apply inv_goto_after; [by apply advances_refl| |done]. cbn. unfold session_sid. by rewrite Hs.
Qed.

(** Taking the head of a queue. *)
Lemma inv_dequeue c cl env q :
  sv_clients w !! c = Some cl -> cl_sendCh cl = env :: q ->
  inv home owner (set_clients (insert c (set_sendCh q cl)) w).
Proof.
  intros Hc Hq. eapply (Inv_client HI c cl); try done.
  destruct (i_client _ _ _ _ _ _ _ _ HI c cl Hc) as [[[H1 H2]|[H1 H2]] _]; [congruence|].
  right. split; [done|]. rewrite Hq in H2. cbn in *. lia.
Qed.

Lemma inv_writeLoop o c w' :
  th_pc th = WLoop c -> writeLoop pool o t c w = Some w' -> inv home owner w'.
Proof.
  intros E. pose proof (thread_pc_inv _ E) as Hc. unfold writeLoop.
  destruct (sv_clients w !! c) as [cl|] eqn:Hcl; [|done].
  assert (Hfl : inv home owner (goto t (WFlush c) w)) by (by apply inv_goto_after; [apply advances_refl|..]).
  destruct (cl_sendCh cl) as [|env q] eqn:Hq.
  - destruct (cl_done cl); [intros [= <-]; done|done].
  - destruct (cl_done cl && o_select o); [intros [= <-]; done|].
    destruct (encodeTo_conn _ _ _ _) as [r w1] eqn:E1.
    pose proof (inv_encodeTo_conn _ _ _ _ _ _ (inv_dequeue c cl env q Hcl Hq) E1) as A1.
    destruct r; intros [= <-]; [exact (proj1 A1)|]. apply inv_finish.
    exact (proj1 (inv_ClientConn_Close _ c (proj1 A1))).
Qed.

Lemma inv_writeFlush c : inv home owner (writeFlush pool t c w).
Proof.
  unfold writeFlush. destruct (sv_clients w !! c) as [cl|] eqn:Hcl; [|by apply inv_finish].
  destruct (cl_sendCh cl) as [|env q] eqn:Hq; [by apply inv_finish|].
  destruct (encodeTo_conn _ _ _ _) as [r w1] eqn:E1.
  exact (proj1 (inv_encodeTo_conn _ _ _ _ _ _ (inv_dequeue c cl env q Hcl Hq) E1)).
Qed.

End StepInv.

Lemma inv_thread_step pool home owner o t w w' :
  inv home owner w -> thread_step pool o t w = Some w' -> preserved home w'.
Proof.
  intros HI. unfold thread_step. destruct (sv_threads w !! t) as [th|] eqn:Ht; [|done]. cbn [fmap option_fmap option_map].
  assert (Hself : forall w', inv home owner w' -> preserved home w') by (intros; by eapply preserved_same).
  destruct (th_pc th) eqn:E; intros Hstep; try (injection Hstep as <-).
  - by apply Hself, (inv_handleStart _ _ _ _ th).
  - by apply Hself, (inv_handleDecode _ _ _ _ _ th).
  - by eapply (inv_handleRegisterPub _ _ _ _ th).
  - by apply Hself, (inv_handleWaiting _ _ _ _ th).
  - by apply Hself, (inv_handleGreetPub pool _ _ w t th HI Ht o s c todo).
  - by eapply (inv_handleRegisterSub _ _ _ _ th).
  - by apply Hself, (inv_handleNotifyPub pool _ _ w t th HI Ht o s c key env).
  - by apply Hself, (inv_handleSyncReq pool _ _ w t HI o conn s env).
  - by apply Hself, (inv_pubLoop _ _ _ _ th).
  - by apply Hself, (inv_pubForward pool _ _ w t th HI Ht o s c env todo subs highWatermarkHit).
  - by apply Hself, (inv_pubDrain _ _ w t th HI Ht s c env todo deadline).
  - apply Hself, inv_finish. exact (proj1 (inv_removeSession _ _ HI)).
  - by apply Hself, (inv_subLoop pool _ _ w t th HI Ht o s c key).
  - apply Hself. apply (inv_goto_after _ _ w t th HI Ht); [by apply inv_RemoveSubscriber| |done].
    pose proof (thread_pc_inv _ _ _ _ _ HI Ht _ E) as Hc. destruct (i_home _ _ _ _ _ _ _ _ HI _ _ Hc) as (_ & rs & _ & Hs & _).
    exists (rs_sessionID rs). apply (inv_RemoveSubscriber s key w HI). unfold session_sid. cbn in Hs. by rewrite Hs.
  - by apply Hself, (inv_subCheck _ _ _ _ th).
  - apply Hself, inv_finish. exact (proj1 (inv_removeSession _ _ HI)).
  - by apply Hself, (inv_writeLoop pool _ _ w t th HI Ht o c).
  - by apply Hself, inv_writeFlush.
  - apply Hself, inv_finish. exact (proj1 (inv_RemoveSubscriber _ _ _ HI)).
  - apply Hself, inv_finish. exact HI.
Qed.

Lemma inv_accept home owner k nc w :
  inv home owner w -> preserved home (accept k nc w).
Proof.
  intros HI. unfold accept. destruct (MaxActiveConnections <=? _).
  - exists home, (<[sv_next w := inl (S (sv_next w))]> owner). split; [done|].
    exact (Inv_new_conn HI (S (sv_next w)) ltac:(lia)).
  - exists home, (<[sv_next w := inl (S (sv_next w))]> owner). split; [done|].
    pose proof (Inv_new_conn HI (S (sv_next w)) ltac:(lia)) as H1.
    assert (Hp : pc_inv home (<[sv_next w := inl (S (sv_next w))]> owner) (sv_heap w) (S (sv_next w)) (HStart (sv_next w))).
    { cbn. by rewrite lookup_insert_eq. }
    destruct k; exact (Inv_spawn H1 _ (HStart (sv_next w)) Hp eq_refl).
Qed.

(** Going through the session map and dropping some of the sessions: the
    invariant holds at the end, the sessions that are not listed stay. *)
Lemma fold_sessions home owner (f : Server -> bytes * nat -> Server) l w :
  (forall w id s, inv home owner w -> sv_sessions w !! id = Some s ->
     advances home owner w (f w (id, s)) /\
     (forall id', id' <> id -> sv_sessions (f w (id, s)) !! id' = sv_sessions w !! id')) ->
  inv home owner w -> NoDup l.*1 -> (forall id s, (id, s) ∈ l -> sv_sessions w !! id = Some s) ->
  advances home owner w (fold_left f l w) /\
  (forall id, id ∉ l.*1 -> sv_sessions (fold_left f l w) !! id = sv_sessions w !! id).
Proof.
  intros Hf. revert w. induction l as [|[id s] l IH]; intros w HI Hnd Hl.
  - split; [by apply advances_refl|done].
  - cbn in Hnd. apply NoDup_cons in Hnd as [Hnin Hnd].
    destruct (Hf w id s HI (Hl _ _ (list_elem_of_here _ _))) as [A Hkeep]. cbn [fold_left].
    destruct (IH (f w (id, s)) (proj1 A) Hnd) as [A' Hkeep'].
    { intros id' s' Hin. rewrite Hkeep; [by apply Hl, list_elem_of_further|].
      intros ->. apply Hnin. apply list_elem_of_fmap. by exists (id, s'). }
    split; [by eapply advances_trans|]. intros id' Hn. rewrite fmap_cons, not_elem_of_cons in Hn. destruct Hn as [Hn1 Hn2].
    by rewrite Hkeep', Hkeep.
Qed.

Lemma RelaySession_Close_sessions s w : sv_sessions (RelaySession_Close s w) = sv_sessions w.
Proof.
  unfold RelaySession_Close. destruct (sv_heap w !! s) as [rs|]; [|done]. destruct (rs_closed rs); [done|].
  rewrite close_all_heap. cbn. by destruct (close_all_frame
    (option_list (rs_publisher rs) ++ (map_to_list (rs_subscribers rs)).*2) w) as [_ ->].
Qed.

Lemma drop_session_others id s w id' :
  id' <> id -> sv_sessions (set_sessions (delete id) (RelaySession_Close s w)) !! id' = sv_sessions w !! id'.
Proof. intros Hne. cbn. rewrite lookup_delete_ne by done. by rewrite RelaySession_Close_sessions. Qed.

Lemma inv_fold_sessions home owner f w :
  (forall w id s, inv home owner w -> sv_sessions w !! id = Some s ->
     f w (id, s) = w \/ f w (id, s) = set_sessions (delete id) (RelaySession_Close s w) \/
     f w (id, s) = set_metrics (addActiveSessions (-1)) (set_sessions (delete id) (RelaySession_Close s w))) ->
  inv home owner w -> advances home owner w (fold_left f (map_to_list (sv_sessions w)) w).
Proof.
  intros Hf HI. apply fold_sessions; [|done|apply NoDup_fst_map_to_list|].
  - intros w1 id s H1 Hs. pose proof (inv_drop_session id s w1 H1 Hs) as A. pose proof (drop_session_others id s w1) as D.
    destruct (Hf w1 id s H1 Hs) as [->|[-> | ->]]; (split; [|done || exact D]).
    + by apply advances_refl.
    + done.
    + exact A.
  - intros id s. by rewrite elem_of_map_to_list.
Qed.

Lemma inv_CloseAll home owner w : inv home owner w -> advances home owner w (CloseAll w).
Proof. intros H. apply inv_fold_sessions; [|done]. intros w' id s _ _. right. by left. Qed.

Lemma inv_reap home owner w : inv home owner w -> advances home owner w (reapStaleSessions w).
Proof.
  intros H. apply inv_fold_sessions; [|done]. intros w' id s _ _.
  destruct (sv_heap w' !! s) as [rs|]; [|by left]. destruct (IsReapable _ _); [right; by right|by left].
Qed.

Lemma inv_init now : inv ∅ ∅ (NewServer now).
Proof.
  constructor; cbn; intros *; rewrite ?lookup_empty; try done.
Qed.

Lemma inv_next pool home owner l w w' :
  inv home owner w -> relay_next pool l w = Some w' -> preserved home w'.
Proof.
  intros HI. destruct l; cbn [relay_next]; intros E.
  - destruct k; [injection E as <-; by eapply inv_accept..|done].
  - by eapply inv_thread_step.
  - destruct (0 <=? dt); [|done]. injection E as <-. by apply (preserved_same home owner).
  - injection E as <-. apply (preserved_same home owner). unfold maintenance.
    refine (proj1 (inv_reap home owner _ _)). exact HI.
  - injection E as <-. apply (preserved_same home owner). exact (proj1 (inv_CloseAll home owner w HI)).
  - injection E as <-. by apply (preserved_same home owner).
  - injection E as <-. by apply (preserved_same home owner).
Qed.

Lemma inv_run pool home owner w ls w' :
  relay_run pool w ls w' -> inv home owner w -> preserved home w'.
Proof.
  induction 1 as [w|w ls w1 l w2 _ IH Hl]; intros HI; [by eapply preserved_same|].
  destruct (IH HI) as (home1 & owner1 & Hsub & H1). destruct (inv_next _ _ _ _ _ _ H1 Hl) as (home2 & owner2 & Hsub2 & H2).
  exists home2, owner2. split; [by etrans|done].
Qed.

(** Every reachable state satisfies the invariant. *)
Lemma reachable_inv pool w : reachable pool w -> exists home owner, inv home owner w.
Proof.
  intros (now & ls & H). destruct (inv_run _ ∅ ∅ _ _ _ H (inv_init now)) as (home & owner & _ & HI). eauto.
Qed.
