(* ===== verification/RelayProps.v ===== *)
(** * Properties of the relay

    Safety of every reachable state, who can create and who can remove a session,
    and what a goroutine can touch. *)

From S2P Require Import Prelude Strings Protocol Engine RateLimit ProxyProto RelaySession RelayServer RelayInv.

(** ** Consequences of the invariant *)

(** Two goroutines that serve live publishers of one session object are the same. *)
Lemma inv_single_publisher home owner w t1 t2 th1 th2 s c1 c2 cl1 cl2 :
  inv home owner w -> sv_threads w !! t1 = Some th1 -> sv_threads w !! t2 = Some th2 ->
  pub_pc (th_pc th1) = Some (s, c1) -> pub_pc (th_pc th2) = Some (s, c2) ->
  sv_clients w !! c1 = Some cl1 -> sv_clients w !! c2 = Some cl2 ->
  cl_done cl1 = false -> cl_done cl2 = false -> t1 = t2 /\ c1 = c2.
Proof.
  intros HI H1 H2 P1 P2 C1 C2 D1 D2.
  pose proof (Inv_pub_home HI t1 th1 s c1 H1 P1) as Hh1. pose proof (Inv_pub_home HI t2 th2 s c2 H2 P2) as Hh2.
  destruct (i_home _ _ _ _ _ _ _ _ HI _ _ Hh1) as (_ & rs & _ & Hs & _). cbn in Hs.
  pose proof (i_live _ _ _ _ _ _ _ _ HI t1 th1 s c1 H1 P1 cl1 rs C1 D1 Hs).
  pose proof (i_live _ _ _ _ _ _ _ _ HI t2 th2 s c2 H2 P2 cl2 rs C2 D2 Hs).
  assert (c1 = c2) as <- by congruence. split; [congruence|done].
Qed.

(** ** Who changes the session map

    [book]: the session map and the gauge that counts it. *)
Definition book (w : Server) : gmap bytes nat * Z := (sv_sessions w, m_ActiveSessions (sv_metrics w)).

(** The map without [id], the gauge one less: what removing a session does. *)
Definition book_drop (id : bytes) (b : gmap bytes nat * Z) : gmap bytes nat * Z :=
  match b.1 !! id with Some _ => (delete id b.1, b.2 + -1) | None => b end.

Lemma ClientConn_Close_book c w : book (ClientConn_Close c w) = book w.
Proof. unfold ClientConn_Close. by repeat case_match. Qed.

Lemma close_all_book l w : book (fold_left (fun w c => ClientConn_Close c w) l w) = book w.
Proof. revert w. induction l as [|c l IH]; intros w; [done|]. cbn. by rewrite IH, ClientConn_Close_book. Qed.

Lemma RelaySession_Close_book s w : book (RelaySession_Close s w) = book w.
Proof.
  unfold RelaySession_Close. destruct (sv_heap w !! s) as [rs|]; [|done]. destruct (rs_closed rs); [done|].
  by rewrite close_all_book.
Qed.

Lemma RemoveSubscriber_book s key w : book (RemoveSubscriber s key w) = book w.
Proof. unfold RemoveSubscriber. destruct (sv_heap w !! s ≫= _); [|done]. by rewrite ClientConn_Close_book. Qed.

Lemma encodeTo_conn_book pool conn env w : book (snd (encodeTo_conn pool conn env w)) = book w.
Proof. unfold encodeTo_conn. destruct (sv_conns w !! conn); [|done]. by destruct (conn_encode _ _ _). Qed.

Lemma decodeFrom_conn_book max conn w : book (snd (decodeFrom_conn max conn w)) = book w.
Proof.
  unfold decodeFrom_conn. destruct (sv_conns w !! conn); [|done]. destruct (c_closed _); [done|].
  by destruct (DecodeWithMax _ _).
Qed.

Lemma SendFrame_book pool o c env w r w' : SendFrame pool o c env w = Some (r, w') -> book w' = book w.
Proof.
  unfold SendFrame, SendFrameWithTimeout. destruct (sv_clients w !! c) as [cl|]; [|done].
  destruct (cl_role cl =? 2).
  - repeat case_match; by intros [= <- <-].
  - pose proof (encodeTo_conn_book pool (cl_netConn cl) env w) as H.
    destruct (encodeTo_conn _ _ _ _) as [r1 w1]. by intros [= <- <-].
Qed.

Lemma ForwardToPublisher_book pool o s env w r w' :
  ForwardToPublisher pool o s env w = Some (r, w') -> book w' = book w.
Proof.
  unfold ForwardToPublisher. destruct (sv_heap w !! s) as [rs|]; [|done].
  destruct (rs_publisher rs); [apply SendFrame_book|by intros [= <- <-]].
Qed.

Lemma finish_book t w : book (finish t w) = book w.
Proof. unfold finish. by destruct (th_kind <$> _) as [[]|]. Qed.

Lemma RegisterPublisher_book s conn env w : book (snd (RegisterPublisher s conn env w)) = book w.
Proof.
  unfold RegisterPublisher. destruct (_ ≫= rs_publisher) as [old|]; [|done].
  destruct (sv_clients w !! old); [|done]. destruct (negb _); [done|]. cbn. apply ClientConn_Close_book.
Qed.

Lemma removeSession_book id w : book (removeSession id w) = book_drop id (book w).
Proof.
  unfold removeSession, book_drop. cbn. destruct (sv_sessions w !! id) as [s|]; [|done].
  pose proof (RelaySession_Close_book s w) as [= E1 E2]. unfold book. cbn. by rewrite E1, E2.
Qed.

Lemma getOrCreateSession_book id w :
  book (snd (getOrCreateSession id w)) =
    match sv_sessions w !! id with
    | Some _ => book w
    | None => (<[id := sv_next w]> (sv_sessions w), m_ActiveSessions (sv_metrics w) + 1)
    end.
Proof. unfold getOrCreateSession. by destruct (sv_sessions w !! id). Qed.

(** What the step of a goroutine does to the book: nothing; or, where a
    publisher's or subscriber's handler ends, the removal of its session's ID; or,
    at the dispatch on a handshake frame, the creation of the session. *)
Inductive book_change (w w' : Server) : pc -> Prop :=
  | bc_same p : book w' = book w -> book_change w w' p
  | bc_pub_exit s c : book w' = book_drop (sessionIDOf s w) (book w) -> book_change w w' (PubExit s c)
  | bc_sub_exit s : book w' = book_drop (sessionIDOf s w) (book w) -> book_change w w' (SubExit s)
  | bc_create conn ra env :
      fst (decodeFrom_conn MaxHandshakePayload conn w) = Ok env ->
      env_MsgType env = MsgTypePAKEInitPub \/ env_MsgType env = MsgTypePAKEInitSub ->
      sv_sessions w !! env_SessionID env = None ->
      book w' = (<[env_SessionID env := sv_next w]> (sv_sessions w), m_ActiveSessions (sv_metrics w) + 1) ->
      book_change w w' (HDecode conn ra).

Lemma handleDecode_book pool t conn ra w : book_change w (handleDecode pool t conn ra w) (HDecode conn ra).
Proof.
  unfold handleDecode. pose proof (decodeFrom_conn_book MaxHandshakePayload conn w) as Hd.
  assert (Hn : sv_next (snd (decodeFrom_conn MaxHandshakePayload conn w)) = sv_next w).
  { unfold decodeFrom_conn. destruct (sv_conns w !! conn); [|done]. destruct (c_closed _); [done|].
    by destruct (DecodeWithMax _ _). }
  destruct (decodeFrom_conn _ _ _) as [[env|e] w1] eqn:E; cbn [fst snd] in *.
  - assert (Hc : forall p, env_MsgType env = MsgTypePAKEInitPub \/ env_MsgType env = MsgTypePAKEInitSub ->
      book_change w (goto t p (snd (getOrCreateSession (env_SessionID env) w1))) (HDecode conn ra)).
    { intros p Hty. pose proof (getOrCreateSession_book (env_SessionID env) w1) as Hg.
      pose proof Hd as [= E1 E2]. rewrite E1, Hd, E2, Hn in Hg.
      destruct (sv_sessions w !! env_SessionID env) eqn:Hs; [by apply bc_same|].
      eapply bc_create; eauto. by rewrite E. }
    repeat case_match; try (apply bc_same; rewrite ?finish_book; exact Hd); apply Hc;
      match goal with Hb : bool_decide _ = true |- _ => apply bool_decide_eq_true in Hb; by auto end.
  - apply bc_same. rewrite finish_book. destruct (decode_error_is_EOF e), e; try exact Hd;
      (etrans; [exact (encodeTo_conn_book pool conn closeEnv w1)|exact Hd]).
Qed.

Lemma thread_step_book pool o t w w' th :
  sv_threads w !! t = Some th -> thread_step pool o t w = Some w' -> book_change w w' (th_pc th).
Proof.
  intros Ht. unfold thread_step. rewrite Ht. cbn [fmap option_fmap option_map].
  destruct (th_pc th) eqn:E; intros Hs; try (injection Hs as <-).
  2: by apply handleDecode_book.
  all: try (by apply bc_same).
  - apply bc_same. unfold handleStart. destruct (sv_conns w !! conn); [|by rewrite finish_book].
    destruct (if sv_trustProxy w then _ else _) as [[? ?] [|]]; [by rewrite finish_book|].
    destruct (IsBanned _ _ _) as [[] ?]; [by rewrite finish_book|done].
  - apply bc_same. unfold handleRegisterPub. pose proof (RegisterPublisher_book s conn env w) as Hr.
    destruct (RegisterPublisher _ _ _ _) as [[c|] w1]; [exact Hr|rewrite finish_book; exact Hr].
  - apply bc_same. unfold handleGreetPub in Hs. destruct todo as [|sub todo]; [by injection Hs as <-|].
    destruct (_ ≫= cl_initialEnv); [|by injection Hs as <-].
    destruct (SendFrame _ _ _ _ _) as [[r w1]|] eqn:E1; [|done]. injection Hs as <-. exact (SendFrame_book _ _ _ _ _ _ _ E1).
  - apply bc_same. unfold handleNotifyPub in Hs. destruct (_ ≫= rs_publisher); [|by injection Hs as <-].
    destruct (SendFrame _ _ _ _ _) as [[r w1]|] eqn:E1; [|done]. injection Hs as <-. exact (SendFrame_book _ _ _ _ _ _ _ E1).
  - apply bc_same. unfold handleSyncReq in Hs. destruct (_ ≫= rs_publisher); [|injection Hs as <-; by rewrite finish_book].
    destruct (_ =? _)%nat; [injection Hs as <-; by rewrite finish_book|].
    destruct (ForwardToPublisher _ _ _ _ _) as [[r w1]|] eqn:E1; [|done]. injection Hs as <-.
    rewrite finish_book. exact (ForwardToPublisher_book _ _ _ _ _ _ _ E1).
  - apply bc_same. unfold pubLoop. pose proof (decodeFrom_conn_book MaxPayloadSize (clientConnOf c w) w) as Hd.
    destruct (decodeFrom_conn _ _ _) as [[env|e] w1]; [|exact Hd]. repeat case_match; exact Hd.
  - apply bc_same. unfold pubForward in Hs. destruct todo as [|[k sub] todo]; [by injection Hs as <-|].
    destruct (SendFrame _ _ _ _ _) as [[[]  w1]|] eqn:E1; [..|done]; injection Hs as <-;
      exact (SendFrame_book _ _ _ _ _ _ _ E1).
  - apply bc_same. unfold pubDrain in Hs. by repeat case_match; simplify_eq.
  - apply bc_pub_exit. by rewrite finish_book, removeSession_book.
  - apply bc_same. unfold subLoop in Hs. pose proof (decodeFrom_conn_book MaxPayloadSize (clientConnOf c w) w) as Hd.
    destruct (decodeFrom_conn _ _ _) as [[env|e] w1]; [|by injection Hs as <-].
    destruct (bool_decide _); [by injection Hs as <-|]. destruct (_ || _); [|by injection Hs as <-].
    destruct (ForwardToPublisher _ _ _ _ _) as [[r w2]|] eqn:E1; [|done]. injection Hs as <-.
    etrans; [exact (ForwardToPublisher_book _ _ _ _ _ _ _ E1)|exact Hd].
  - apply bc_same. exact (RemoveSubscriber_book s key w).
  - apply bc_same. unfold subCheck. repeat case_match; rewrite ?finish_book; done.
  - apply bc_sub_exit. by rewrite finish_book, removeSession_book.
  - apply bc_same. unfold writeLoop in Hs. destruct (sv_clients w !! c) as [cl|]; [|done].
    destruct (cl_sendCh cl) as [|env q]; [by destruct (cl_done cl); simplify_eq|].
    destruct (cl_done cl && o_select o); [by injection Hs as <-|].
    pose proof (encodeTo_conn_book pool (cl_netConn cl) env (set_clients (insert c (set_sendCh q cl)) w)) as He.
    destruct (encodeTo_conn _ _ _ _) as [[]  w1]; injection Hs as <-; [exact He|].
    rewrite finish_book, ClientConn_Close_book. exact He.
  - apply bc_same. unfold writeFlush. destruct (sv_clients w !! c) as [cl|]; [|by rewrite finish_book].
    destruct (cl_sendCh cl); [by rewrite finish_book|]. by rewrite encodeTo_conn_book.
  - apply bc_same. by rewrite finish_book, RemoveSubscriber_book.
  - apply bc_same. by rewrite finish_book.
Qed.

(** Going through the session map. *)
Lemma fold_sessions_subset (f : Server -> bytes * nat -> Server) l w :
  (forall w id s, sv_sessions (f w (id, s)) ⊆ sv_sessions w) -> sv_sessions (fold_left f l w) ⊆ sv_sessions w.
Proof.
  intros Hf. revert w. induction l as [|[id s] l IH]; intros w; [done|]. cbn. etrans; [apply IH|apply Hf].
Qed.

Lemma drop_subset id s w : sv_sessions (set_sessions (delete id) (RelaySession_Close s w)) ⊆ sv_sessions w.
Proof. cbn. rewrite RelaySession_Close_sessions. apply delete_subseteq. Qed.

Lemma maintenance_subset w : sv_sessions (maintenance w) ⊆ sv_sessions w.
Proof.
  unfold maintenance, reapStaleSessions. apply (fold_sessions_subset _ _ (set_rateLimiter _ w)).
  intros w' id s. destruct (sv_heap w' !! s) as [rs|]; [|done].
  destruct (IsReapable _ rs); [exact (drop_subset id s w')|done].
Qed.

Lemma book_drop_subset id b : (book_drop id b).1 ⊆ b.1.
Proof. unfold book_drop. destruct (b.1 !! id); [apply delete_subseteq|done]. Qed.

(** ** The reaper and the gauge *)

Definition gauge (w : Server) : Prop := m_ActiveSessions (sv_metrics w) = SessionCount w.

Lemma close_all_now l w : sv_now (fold_left (fun w c => ClientConn_Close c w) l w) = sv_now w.
Proof.
  revert w. induction l as [|c l IH]; intros w; [done|]. cbn. rewrite IH.
  unfold ClientConn_Close. by repeat case_match.
Qed.

Lemma RelaySession_Close_others s s' w :
  s' <> s -> sv_heap (RelaySession_Close s w) !! s' = sv_heap w !! s' /\ sv_now (RelaySession_Close s w) = sv_now w.
Proof.
  intros Hne. unfold RelaySession_Close. destruct (sv_heap w !! s) as [rs|]; [|done].
  destruct (rs_closed rs); [done|]. rewrite close_all_heap. set (l := _ ++ _).
  fields. rewrite close_all_now. destruct (close_all_frame l w) as [-> _].
  by rewrite lookup_insert_ne.
Qed.

Lemma gauge_drop w w' id s :
  gauge w -> sv_sessions w !! id = Some s ->
  book w' = (delete id (sv_sessions w), m_ActiveSessions (sv_metrics w) + -1) -> gauge w'.
Proof.
  unfold gauge, SessionCount. intros Hg Hs Hb. injection Hb as -> ->.
  rewrite map_size_delete_Some by (by rewrite Hs). rewrite Hg.
  assert (size (sv_sessions w) <> 0)%nat by (apply map_size_non_empty_iff; intros E; by rewrite E, lookup_empty in Hs). lia.
Qed.

(** The body of the reaper's loop. *)
Definition reap_one (w : Server) (ids : bytes * nat) : Server :=
  match sv_heap w !! ids.2 with
  | None => w
  | Some rs =>
      if IsReapable (sv_now w) rs
      then set_metrics (addActiveSessions (-1)) (set_sessions (delete ids.1) (RelaySession_Close ids.2 w))
      else w
  end.

Definition reapable (w : Server) (s : nat) : bool :=
  match sv_heap w !! s with Some rs => IsReapable (sv_now w) rs | None => false end.

Lemma reap_one_spec home owner w id s :
  inv home owner w -> sv_sessions w !! id = Some s ->
  let w' := reap_one w (id, s) in
  advances home owner w w' /\
  sv_sessions w' = (if reapable w s then delete id (sv_sessions w) else sv_sessions w) /\
  (gauge w -> gauge w') /\ (forall s', s' <> s -> reapable w' s' = reapable w s').
Proof.
  intros HI Hs w'. unfold w', reap_one, reapable. cbn [fst snd].
  destruct (sv_heap w !! s) as [rs|]; [|split_and!; [by apply advances_refl|done..]].
  destruct (IsReapable _ rs); [|split_and!; [by apply advances_refl|done..]].
  pose proof (RelaySession_Close_book s w) as [= E1 E2]. split_and!.
  - exact (inv_drop_session id s w HI Hs).
  - fields. by rewrite E1.
  - intros Hg. eapply gauge_drop; [done|done|]. unfold book. fields. by rewrite E1; cbn; rewrite E2.
  - intros s' Hne. fields. by destruct (RelaySession_Close_others s s' w Hne) as [-> ->].
Qed.

Lemma reap_fold home owner l w :
  inv home owner w -> NoDup l.*1 -> (forall id s, (id, s) ∈ l -> sv_sessions w !! id = Some s) ->
  let w' := fold_left reap_one l w in
  (forall id s, sv_sessions w' !! id = Some s <->
     sv_sessions w !! id = Some s /\ ((id, s) ∈ l -> reapable w s = false)) /\
  (gauge w -> gauge w').
Proof.
  revert w. induction l as [|[id s] l IH]; intros w HI Hnd Hl.
  - cbn. split; [|done]. intros id s. split; [|by intros [? _]]. intros H. split; [done|]. by intros ?%elem_of_nil.
  - apply NoDup_cons in Hnd as [Hnin Hnd]. pose proof (Hl id s (list_elem_of_here _ _)) as Hs.
    destruct (reap_one_spec home owner w id s HI Hs) as (A & E & Hg & Hr). cbn [fold_left].
    set (w1 := reap_one w (id, s)) in *.
    assert (Hne : forall id' s', (id', s') ∈ l -> id' <> id /\ s' <> s).
    { intros id' s' Hin. assert (id' <> id) as Hi.
      { intros ->. apply Hnin. apply list_elem_of_fmap. by exists (id, s'). }
      split; [done|]. intros ->.
      destruct (i_map _ _ _ _ _ _ _ _ HI _ _ Hs) as (r1 & R1 & I1 & _).
      destruct (i_map _ _ _ _ _ _ _ _ HI _ _ (Hl _ _ (list_elem_of_further _ _ _ Hin))) as (r2 & R2 & I2 & _). congruence. }
    destruct (IH w1 (proj1 A) Hnd) as [IH1 IH2].
    { intros id' s' Hin. rewrite E. destruct (Hne _ _ Hin) as [Hi _].
      destruct (reapable w s); rewrite ?lookup_delete_ne by done; by apply Hl, list_elem_of_further. }
    split; [|by auto]. intros id' s'. rewrite IH1, E. rewrite elem_of_cons. split.
    + intros [H1 H2]. assert (sv_sessions w !! id' = Some s') as Hw.
      { destruct (reapable w s); [|done]. by apply lookup_delete_Some in H1 as [_ H1]. }
      split; [done|]. intros [[= -> ->]|Hin]; [|].
      * destruct (reapable w s); [by rewrite lookup_delete_eq in H1|done].
      * destruct (Hne _ _ Hin) as [_ Hi]. rewrite <- Hr by done. by apply H2.
    + intros [H1 H2]. split.
      * destruct (reapable w s) eqn:Er; [|done]. rewrite lookup_delete_ne; [done|]. intros <-.
        assert (s' = s) as -> by congruence. rewrite H2 in Er by (by left). done.
      * intros Hin. destruct (Hne _ _ Hin) as [_ Hi]. rewrite Hr by done. apply H2. by right.
Qed.

Lemma reapStaleSessions_fold w : reapStaleSessions w = fold_left reap_one (map_to_list (sv_sessions w)) w.
Proof.
  unfold reapStaleSessions. generalize (map_to_list (sv_sessions w)) as l. intros l. revert w.
  induction l as [|[id s] l IH]; intros w; [done|]. cbn [fold_left]. by rewrite IH.
Qed.

Lemma maintenance_spec home owner w :
  inv home owner w ->
  (forall id s, sv_sessions (maintenance w) !! id = Some s <-> sv_sessions w !! id = Some s /\ reapable w s = false) /\
  (gauge w -> gauge (maintenance w)).
Proof.
  intros HI. unfold maintenance. rewrite reapStaleSessions_fold. set (w1 := set_rateLimiter _ w).
  destruct (reap_fold home owner (map_to_list (sv_sessions w1)) w1) as [H1 H2].
  - exact HI.
  - apply NoDup_fst_map_to_list.
  - intros id s. by rewrite elem_of_map_to_list.
  - split; [|exact H2]. intros id s. rewrite H1. split; intros [H H']; (split; [done|]).
    + apply H'. by apply elem_of_map_to_list.
    + intros _. exact H'.
Qed.

Lemma gauge_next pool home owner l w w' :
  inv home owner w -> l <> LCloseAll -> relay_next pool l w = Some w' -> gauge w -> gauge w'.
Proof.
  intros HI Hne Hl Hg. assert (Hsame : forall w', book w' = book w -> gauge w').
  { intros w2 [= E1 E2]. unfold gauge, SessionCount in *. congruence. }
  assert (Hdrop : forall w' id, book w' = book_drop id (book w) -> gauge w').
  { intros w2 id Hb. unfold book_drop in Hb. cbn in Hb. destruct (sv_sessions w !! id) as [s|] eqn:Hs; [|by apply Hsame].
    by eapply gauge_drop. }
  destruct l as [k nc|t o|dt| | |b|b]; cbn [relay_next] in Hl; [..|done| |].
  - apply Hsame. destruct k; simplify_eq; unfold accept; by repeat case_match.
  - destruct (sv_threads w !! t) as [th|] eqn:Ht; [|unfold thread_step in Hl; by rewrite Ht in Hl].
    destruct (thread_step_book pool o t w w' th Ht Hl) as [p Hb|s0 c0 Hb|s0 Hb|conn ra env Hdec Hty Hn Hb]; eauto.
    unfold gauge, SessionCount in *. injection Hb as -> ->. rewrite map_size_insert_None by done. lia.
  - destruct (0 <=? dt); simplify_eq. by apply Hsame.
  - simplify_eq. by eapply maintenance_spec.
  - simplify_eq. by apply Hsame.
  - simplify_eq. by apply Hsame.
Qed.

(** ** Isolation

    Neither the client [c], with its queue and its [done] flag, nor its socket has
    been touched. *)
Definition untouched (c : nat) (cl : ClientConn) (w w' : Server) : Prop :=
  sv_clients w' !! c = Some cl /\ sv_conns w' !! cl_netConn cl = sv_conns w !! cl_netConn cl.

(** The session ID a goroutine works for.  A handler that has not decoded its
    first frame works for none. *)
Definition acts_for (w : Server) (p : pc) (id : bytes) : Prop :=
  match p with
  | HStart _ | HDecode _ _ => False
  | HRegisterPub _ _ s | HRegisterSub _ _ s | HSyncReq _ s _ | HRegistered s _ | HGreetPub s _ _ | HNotifyPub s _ _ _
  | PubLoop s _ | PubForward s _ _ _ _ _ | PubDrain s _ _ _ _ | PubExit s _
  | SubLoop s _ _ | SubRemove s _ _ | SubCheck s | SubExit s | RemoveSub s _ => session_sid (sv_heap w) s = Some id
  | WLoop c | WFlush c => exists cl, sv_clients w !! c = Some cl /\ client_sid cl = Some id
  | DelayedClose conn => exists c cl, sv_clients w !! c = Some cl /\ cl_netConn cl = conn /\ client_sid cl = Some id
  end.

Section Isolation.
Context {home : homes} {owner : owners} {c : nat} {cl : ClientConn} {id : bytes}.
Context (Hid : client_sid cl = Some id).

(** What touches only other clients and sockets. *)
Definition spares (w w' : Server) : Prop := inv home owner w -> sv_clients w !! c = Some cl -> untouched c cl w w'.

Lemma spares_trans w1 w2 w3 :
  (inv home owner w1 -> inv home owner w2) -> spares w1 w2 -> spares w2 w3 -> spares w1 w3.
Proof.
  intros Hi H1 H2 HI Hc. destruct (H1 HI Hc) as [E1 E2]. destruct (H2 (Hi HI) E1) as [E3 E4].
  split; [done|congruence].
Qed.

Lemma spares_same w w' : sv_clients w' = sv_clients w -> sv_conns w' = sv_conns w -> spares w w'.
Proof. intros E1 E2 _ Hc. split; [by rewrite E1|by rewrite E2]. Qed.

(** Sockets: the client's own has the client as its owner. *)
Lemma spares_conn w w' conn f :
  owner !! conn <> Some (inr c) -> sv_clients w' = sv_clients w -> sv_conns w' = f (sv_conns w) ->
  (forall m i, i <> conn -> f m !! i = m !! i) -> spares w w'.
Proof.
  intros Hn E1 E2 Hf HI Hc. destruct (i_client _ _ _ _ _ _ _ _ HI c cl Hc) as (_ & Ho & _).
  split; [by rewrite E1|]. rewrite E2, Hf; [done|]. intros <-. done.
Qed.

Lemma spares_closeConn w conn : owner !! conn <> Some (inr c) -> spares w (closeConn conn w).
Proof. intros H. eapply spares_conn; [done|done|done|]. intros m i Hi. by rewrite lookup_alter_ne. Qed.

Lemma spares_encode pool w conn env : owner !! conn <> Some (inr c) -> spares w (snd (encodeTo_conn pool conn env w)).
Proof.
  intros H. unfold encodeTo_conn. destruct (sv_conns w !! conn) as [nc|] eqn:E; [|by apply spares_same].
  destruct (conn_encode _ _ _) as [r x]. eapply spares_conn; [done|done|done|]. intros m i Hi. by rewrite lookup_insert_ne.
Qed.

Lemma spares_decode max w conn : owner !! conn <> Some (inr c) -> spares w (snd (decodeFrom_conn max conn w)).
Proof.
  intros H. unfold decodeFrom_conn. destruct (sv_conns w !! conn) as [nc|] eqn:E; [|by apply spares_same].
  destruct (c_closed _); [by apply spares_same|]. destruct (DecodeWithMax _ _) as [r x].
  eapply spares_conn; [done|done|done|]. intros m i Hi. by rewrite lookup_insert_ne.
Qed.

Lemma client_conn_owner w x clx :
  inv home owner w -> sv_clients w !! x = Some clx -> x <> c -> owner !! cl_netConn clx <> Some (inr c).
Proof. intros HI Hx Hne. destruct (i_client _ _ _ _ _ _ _ _ HI x clx Hx) as (_ & -> & _). congruence. Qed.

Lemma spares_Close w x : x <> c -> spares w (ClientConn_Close x w).
Proof.
  intros Hne HI Hc. unfold ClientConn_Close. destruct (sv_clients w !! x) as [clx|] eqn:Hx; [|by split].
  destruct (cl_done clx); [by split|].
  assert (Hcl : <[x := set_done clx]> (sv_clients w) !! c = Some cl) by (by rewrite lookup_insert_ne).
  destruct (cl_role clx =? 2); [by split|]. split; [done|]. cbn. rewrite lookup_alter_ne; [done|].
  intros E. apply (client_conn_owner w x clx HI Hx Hne). rewrite E. by destruct (i_client _ _ _ _ _ _ _ _ HI c cl Hc) as (_ & ? & _).
Qed.

Lemma spares_close_all l w : c ∉ l -> spares w (fold_left (fun w x => ClientConn_Close x w) l w).
Proof.
  revert w. induction l as [|x l IH]; intros w Hn; [by apply spares_same|]. apply not_elem_of_cons in Hn as [Hx Hn].
  cbn. eapply spares_trans; [|by apply spares_Close|by apply IH]. intros HI. by apply inv_ClientConn_Close.
Qed.

(** Clients of a session with another ID. *)
Lemma home_sid w x h rs :
  inv home owner w -> home !! x = Some h -> sv_heap w !! h_session h = Some rs -> rs_sessionID rs <> id ->
  sv_clients w !! c = Some cl -> x <> c.
Proof.
  intros HI Hh Hs Hne Hc ->. destruct (i_home _ _ _ _ _ _ _ _ HI c h Hh) as (cl' & rs' & E1 & E2 & E3 & _). congruence.
Qed.

Lemma spares_removeSession w id' : id' <> id -> spares w (removeSession id' w).
Proof.
  intros Hne HI Hc. unfold removeSession. destruct (sv_sessions w !! id') as [s|] eqn:Hs; [|by apply spares_same].
  destruct (i_map _ _ _ _ _ _ _ _ HI _ _ Hs) as (rs & Hrs & Hrid & Hcl). rewrite (RelaySession_Close_eq s rs w Hrs Hcl).
  destruct (i_session _ _ _ _ _ _ _ _ HI s rs Hrs) as [Hp Hsub].
  refine (spares_close_all _ w _ HI Hc). rewrite elem_of_app, list_elem_of_fmap.
  intros [Ep|([k x] & Ex & Hin)].
  - assert (rs_publisher rs = Some c) as Ep'.
    { destruct (rs_publisher rs) as [p|]; cbn in Ep; [by apply list_elem_of_singleton in Ep as ->|by apply elem_of_nil in Ep]. }
    destruct (Hp _ Ep') as [t Ht]. eapply (home_sid w c _ rs HI Ht); eauto. congruence.
  - apply elem_of_map_to_list, Hsub in Hin as [t Ht]. cbn in Ex, Ht. eapply (home_sid w x _ rs HI Ht); eauto. congruence.
Qed.

Lemma spares_RemoveSubscriber w s key :
  session_sid (sv_heap w) s <> Some id -> spares w (RemoveSubscriber s key w).
Proof.
  intros Hne HI Hc. unfold RemoveSubscriber. unfold session_sid in Hne.
  destruct (sv_heap w !! s) as [rs|] eqn:Hs; [|by apply spares_same]. cbn in Hne |- *.
  destruct (rs_subscribers rs !! key) as [x|] eqn:Hk; [|by apply spares_same].
  rewrite ClientConn_Close_heap. destruct (i_session _ _ _ _ _ _ _ _ HI s rs Hs) as [_ Hsub].
  destruct (Hsub _ _ Hk) as [t Ht]. refine (spares_Close w x _ HI Hc).
  eapply (home_sid w x _ rs HI Ht); eauto. congruence.
Qed.

Lemma spares_SendFrame pool o x env w r w' :
  x <> c -> SendFrame pool o x env w = Some (r, w') -> spares w w'.
Proof.
  intros Hne E HI Hc. unfold SendFrame, SendFrameWithTimeout in E.
  destruct (sv_clients w !! x) as [clx|] eqn:Hx; [|done].
  assert (Hq : forall q, untouched c cl w (set_clients (insert x (set_sendCh q clx)) w)).
  { intros q. split; [cbn; by rewrite lookup_insert_ne|done]. }
  assert (Hself : untouched c cl w w) by (by apply spares_same).
  destruct (cl_role clx =? 2).
  - repeat case_match; simplify_eq; eauto.
  - pose proof (spares_encode pool w (cl_netConn clx) env (client_conn_owner w x clx HI Hx Hne) HI Hc) as He.
    destruct (encodeTo_conn _ _ _ _). by simplify_eq.
Qed.

Lemma spares_finish t w : spares w (finish t w).
Proof. apply spares_same; unfold finish; by destruct (th_kind <$> _) as [[]|]. Qed.

(** From here on: one step of goroutine [t], which works for another session. *)
Context (pool : bytes) (o : oracle) (w : Server) (t : nat) (th : thread).
Context (HI : inv home owner w) (Hc : sv_clients w !! c = Some cl) (Ht : sv_threads w !! t = Some th).

Lemma untouched_self : untouched c cl w w.
Proof using Hc. by split. Qed.

Lemma untouched_trans w1 w2 w3 : untouched c cl w1 w2 -> untouched c cl w2 w3 -> untouched c cl w1 w3.
Proof. intros [E1 E2] [E3 E4]. split; [done|congruence]. Qed.

Lemma untouched_finish t' w1 : untouched c cl w w1 -> untouched c cl w (finish t' w1).
Proof. intros [E1 E2]. unfold finish. by destruct (th_kind <$> _) as [[]|]. Qed.

Lemma untouched_closeConn conn w1 :
  owner !! conn = Some (inl t) -> inv home owner w1 -> untouched c cl w w1 -> untouched c cl w (closeConn conn w1).
Proof.
  intros Ho HI1 [E1 E2]. eapply untouched_trans; [split; [exact E1|exact E2]|].
  apply (spares_closeConn w1 conn); [congruence|done|done].
Qed.

Lemma untouched_to s x pool' o' env w1 w2 r :
  (exists k t', home !! x = Some (mkHome s k t')) -> session_sid (sv_heap w1) s <> Some id -> inv home owner w1 ->
  untouched c cl w w1 -> SendFrame pool' o' x env w1 = Some (r, w2) -> untouched c cl w w2.
Proof.
  intros (k & t' & Hh) Hs HI1 [E1 E2] E. eapply untouched_trans; [split; [exact E1|exact E2]|].
  refine (spares_SendFrame pool' o' x env w1 r w2 _ E HI1 E1).
  destruct (i_home _ _ _ _ _ _ _ _ HI1 x _ Hh) as (_ & rs & _ & Hrs & _). cbn in Hrs.
  eapply (home_sid w1 x _ rs HI1 Hh); eauto. unfold session_sid in Hs. rewrite Hrs in Hs. cbn in Hs. congruence.
Qed.

Lemma untouched_forward s pool' o' env w1 w2 r :
  session_sid (sv_heap w1) s <> Some id -> inv home owner w1 ->
  untouched c cl w w1 -> ForwardToPublisher pool' o' s env w1 = Some (r, w2) -> untouched c cl w w2.
Proof.
  intros Hs HI1 Hu E. unfold ForwardToPublisher in E. destruct (sv_heap w1 !! s) as [rs|] eqn:Hrs; [|done].
  destruct (rs_publisher rs) as [p|] eqn:Hp; [|by injection E as <- <-].
  destruct (i_session _ _ _ _ _ _ _ _ HI1 s rs Hrs) as [Hpub _]. destruct (Hpub p Hp) as [t' Ht'].
  eapply (untouched_to s p); eauto.
Qed.

Lemma untouched_decode max s x k :
  home !! x = Some (mkHome s k t) -> session_sid (sv_heap w) s <> Some id ->
  untouched c cl w (snd (decodeFrom_conn max (clientConnOf x w) w)).
Proof.
  intros Hh Hs. destruct (i_home _ _ _ _ _ _ _ _ HI x _ Hh) as (clx & rs & Hx & Hrs & _). cbn in Hrs.
  unfold clientConnOf. rewrite Hx. refine (spares_decode max w (cl_netConn clx) _ HI Hc).
  eapply client_conn_owner; eauto. eapply (home_sid w x _ rs HI Hh); eauto.
  unfold session_sid in Hs. rewrite Hrs in Hs. cbn in Hs. congruence.
Qed.

Lemma untouched_handleStart conn : th_pc th = HStart conn -> untouched c cl w (handleStart o t conn w).
Proof.
  intros E. pose proof (thread_pc_inv _ _ _ _ _ HI Ht _ E) as Ho. cbn in Ho. unfold handleStart.
  destruct (sv_conns w !! conn) as [nc|]; [|apply untouched_finish, untouched_self].
  destruct (if sv_trustProxy w then _ else _) as [[rest ra] err].
  set (w1 := set_conns _ w). assert (Hu : untouched c cl w w1).
  { refine (spares_conn w w1 conn _ _ eq_refl eq_refl _ HI Hc); [congruence|]. intros m i Hi. by rewrite lookup_insert_ne. }
  destruct err; [by apply untouched_finish, untouched_closeConn|].
  destruct (IsBanned _ _ _) as [[] rl]; [|exact Hu].
  apply untouched_finish, untouched_closeConn; [done|exact HI|exact Hu].
Qed.

Lemma untouched_handleDecode conn ra : th_pc th = HDecode conn ra -> untouched c cl w (handleDecode pool t conn ra w).
Proof.
  intros E. pose proof (thread_pc_inv _ _ _ _ _ HI Ht _ E) as Ho. cbn in Ho. unfold handleDecode.
  assert (Hu : untouched c cl w (snd (decodeFrom_conn MaxHandshakePayload conn w))).
  { apply spares_decode; [congruence|done|done]. }
  destruct (decodeFrom_conn _ _ w) as [r w1] eqn:E1.
  pose proof (proj1 (inv_decodeFrom_conn _ _ _ _ _ HI E1)) as HI1. cbn [snd] in Hu. destruct r as [env|e].
  - assert (Hg : untouched c cl w (snd (getOrCreateSession (env_SessionID env) w1))).
    { eapply untouched_trans; [exact Hu|]. unfold getOrCreateSession. destruct Hu as [Hc1 _].
      destruct (sv_sessions w1 !! _); by split. }
    repeat case_match; try exact Hg; try exact Hu;
      (apply untouched_finish; try (apply untouched_closeConn; [done|exact HI1|exact Hu])).
  - apply untouched_finish. apply untouched_closeConn; [done| |].
    + destruct (decode_error_is_EOF e), e; try exact HI1;
        destruct (encodeTo_conn pool conn closeEnv w1) as [r w2] eqn:E2;
        exact (proj1 (inv_encodeTo_conn _ _ _ _ _ _ HI1 E2)).
    + assert (Hx : untouched c cl w (snd (encodeTo_conn pool conn closeEnv w1))).
      { eapply untouched_trans; [exact Hu|]. apply spares_encode; [congruence|done|]. by destruct Hu. }
      destruct (decode_error_is_EOF e), e; try exact Hu; exact Hx.
Qed.

(** Nothing of the client is at the next free address. *)
Lemma client_not_next : c <> sv_next w.
Proof. intros ->. destruct (i_fresh _ _ _ _ _ _ _ _ HI (sv_next w) ltac:(lia)) as (E & _). congruence. Qed.

Lemma untouched_register conn env s :
  th_pc th = HRegisterPub conn env s \/ th_pc th = HRegisterSub conn env s ->
  untouched c cl w (handleRegisterPub t conn env s w) /\ untouched c cl w (handleRegisterSub t conn env s w).
Proof.
  intros E. assert (Hp : owner !! conn = Some (inl t) /\ session_sid (sv_heap w) s = Some (env_SessionID env)).
  { by destruct E as [E|E]; apply (thread_pc_inv _ _ _ _ _ HI Ht _ E). }
  destruct Hp as [Ho Hsid]. destruct (session_exists w _ _ Hsid) as (rs & Hs & _). pose proof client_not_next as Hn. split.
  - unfold handleRegisterPub. destruct (RegisterPublisher_cases home owner s conn env w rs HI Hs)
      as [(old & clo & _ & _ & _ & ->)|[_ ->]].
    + apply untouched_finish, untouched_closeConn; [done|exact HI|].
      apply untouched_closeConn; [done|exact HI|apply untouched_self].
    + split; [|done]. cbn. by rewrite lookup_insert_ne.
  - unfold handleRegisterSub. destruct (RegisterSubscriber_eq s conn env w rs Hs) as [addr ->].
    split; [|done]. cbn. by rewrite lookup_insert_ne.
Qed.

Lemma untouched_write x clx env q :
  x <> c -> sv_clients w !! x = Some clx -> cl_sendCh clx = env :: q ->
  untouched c cl w (snd (encodeTo_conn pool (cl_netConn clx) env (set_clients (insert x (set_sendCh q clx)) w))).
Proof.
  intros Hne Hx Hq. apply (untouched_trans _ (set_clients (insert x (set_sendCh q clx)) w)).
  - split; [|done]. cbn. by rewrite lookup_insert_ne.
  - apply spares_encode; [by eapply client_conn_owner|by eapply inv_dequeue|]. cbn. by rewrite lookup_insert_ne.
Qed.

Lemma untouched_writeLoop x w' : x <> c -> writeLoop pool o t x w = Some w' -> untouched c cl w w'.
Proof.
  intros Hx Hs. pose proof untouched_self as Hself. unfold writeLoop in Hs.
  destruct (sv_clients w !! x) as [clx|] eqn:Hcx; [|done].
  destruct (cl_sendCh clx) as [|env q] eqn:Hq; [by destruct (cl_done clx); simplify_eq|].
  destruct (cl_done clx && o_select o); [by injection Hs as <-|].
  pose proof (untouched_write x clx env q Hx Hcx Hq) as Hw.
  destruct (encodeTo_conn _ _ _ _) as [[]  w1] eqn:E1; injection Hs as <-; [exact Hw|].
  apply untouched_finish. eapply untouched_trans; [exact Hw|].
  apply (spares_Close w1 x Hx); [|by destruct Hw].
  exact (proj1 (inv_encodeTo_conn _ _ _ _ _ _ (inv_dequeue _ _ w HI x clx env q Hcx Hq) E1)).
Qed.

Lemma untouched_subLoop s x key w' :
  home !! x = Some (mkHome s (Some key) t) -> session_sid (sv_heap w) s <> Some id ->
  subLoop pool o t s x key w = Some w' -> untouched c cl w w'.
Proof.
  intros Hh Hnot Hs. unfold subLoop in Hs. pose proof (untouched_decode MaxPayloadSize s x (Some key) Hh Hnot) as Hd.
  destruct (decodeFrom_conn _ _ _) as [[env|e] w1] eqn:E1; [|by injection Hs as <-].
  pose proof (inv_decodeFrom_conn _ _ _ _ _ HI E1) as A1.
  destruct (bool_decide _); [by injection Hs as <-|]. destruct (_ || _); [|by injection Hs as <-].
  destruct (ForwardToPublisher _ _ _ _ _) as [[r w2]|] eqn:E2; [|done]. injection Hs as <-.
  refine (untouched_forward s pool o env w1 w2 r _ (proj1 A1) Hd E2).
  assert (sv_heap w1 = sv_heap w) as ->; [|done]. unfold decodeFrom_conn in E1.
  destruct (sv_conns w !! _); [|by injection E1]. destruct (c_closed _); [by injection E1|].
  destruct (DecodeWithMax _ _). by injection E1 as _ <-.
Qed.

Lemma untouched_syncReq conn s env w' :
  owner !! conn = Some (inl t) -> session_sid (sv_heap w) s <> Some id ->
  handleSyncReq pool o t conn s env w = Some w' -> untouched c cl w w'.
Proof.
  intros Ho Hnot Hs. pose proof untouched_self as Hself. unfold handleSyncReq in Hs.
  assert (Hcl : untouched c cl w (finish t (closeConn conn w))) by (by apply untouched_finish, untouched_closeConn).
  destruct (_ ≫= rs_publisher); [|by injection Hs as <-]. destruct (_ =? _)%nat; [by injection Hs as <-|].
  destruct (ForwardToPublisher _ _ _ _ _) as [[r w1]|] eqn:E1; [|done]. injection Hs as <-.
  apply untouched_finish, untouched_closeConn; [done|exact (proj1 (inv_ForwardToPublisher _ _ _ _ _ _ _ HI E1))|].
  eapply untouched_forward in E1; eauto.
Qed.

Lemma untouched_step w' :
  ~ acts_for w (th_pc th) id -> thread_step pool o t w = Some w' -> untouched c cl w w'.
Proof.
  intros Hnot. unfold thread_step. rewrite Ht. cbn [fmap option_fmap option_map].
  pose proof untouched_self as Hself. pose proof (thread_pc_inv _ _ _ _ _ HI Ht) as Hpc.
  destruct (th_pc th) eqn:E; cbn [acts_for] in Hnot; specialize (Hpc _ eq_refl); cbn [pc_inv] in Hpc;
    intros Hs; try (injection Hs as <-).
  - by apply untouched_handleStart.
  - by apply untouched_handleDecode.
  - apply untouched_register. by left.
  - exact Hself.
  - destruct Hpc as [Hh Htodo]. unfold handleGreetPub in Hs. destruct todo as [|sub todo]; [by injection Hs as <-|].
    destruct (_ ≫= cl_initialEnv); [|by injection Hs as <-].
    destruct (SendFrame _ _ _ _ _) as [[r w1]|] eqn:E1; [|done]. injection Hs as <-. eapply untouched_to in E1; eauto.
  - apply untouched_register. by right.
  - unfold handleNotifyPub in Hs. destruct (sv_heap w !! s) as [rs|] eqn:Hrs; [|by injection Hs as <-]. cbn in Hs.
    destruct (rs_publisher rs) as [p|] eqn:Hp; [|by injection Hs as <-].
    destruct (SendFrame _ _ _ _ _) as [[r w1]|] eqn:E1; [|done]. injection Hs as <-.
    destruct (i_session _ _ _ _ _ _ _ _ HI s rs Hrs) as [Hpub _]. destruct (Hpub p Hp) as [t' Ht'].
    eapply (untouched_to s p) in E1; eauto.
  - destruct Hpc as [Ho _]. by eapply untouched_syncReq.
  - unfold pubLoop. pose proof (untouched_decode MaxPayloadSize s c0 None Hpc Hnot) as Hd.
    destruct (decodeFrom_conn _ _ _) as [[env|e] w1]; [|exact Hd]. repeat case_match; exact Hd.
  - destruct Hpc as (Hh & Htodo & _). unfold pubForward in Hs. destruct todo as [|[k sub] todo]; [by injection Hs as <-|].
    inversion Htodo as [|? ? [t' Hsub] _]; subst.
    destruct (SendFrame _ _ _ _ _) as [[[]  w1]|] eqn:E1; [..|done]; injection Hs as <-;
      eapply (untouched_to s sub) in E1; eauto.
  - unfold pubDrain in Hs. by repeat case_match; simplify_eq.
  - apply untouched_finish. apply spares_removeSession; [|done|done]. unfold session_sid, sessionIDOf in *.
    destruct (i_home _ _ _ _ _ _ _ _ HI _ _ Hpc) as (_ & rs & _ & Hrs & _). cbn in Hrs. rewrite Hrs in *. cbn in Hnot. congruence.
  - by eapply untouched_subLoop.
  - apply (spares_RemoveSubscriber w s key Hnot HI Hc).
  - unfold subCheck. repeat case_match; try apply untouched_finish; exact Hself.
  - apply untouched_finish. apply spares_removeSession; [|done|done]. unfold session_sid, sessionIDOf in *.
    destruct (sv_heap w !! s) as [rs|]; [|by destruct Hpc]. cbn in Hnot. congruence.
  - eapply (untouched_writeLoop c0); [|done]. intros ->. apply Hnot. eauto.
  - assert (Hx : c0 <> c) by (intros ->; apply Hnot; eauto). unfold writeFlush.
    destruct (sv_clients w !! c0) as [clx|] eqn:Hcx; [|by apply untouched_finish].
    destruct (cl_sendCh clx) as [|env q] eqn:Hq; [by apply untouched_finish|]. by apply untouched_write.
  - apply untouched_finish. apply (spares_RemoveSubscriber w s key Hnot HI Hc).
  - apply untouched_finish. split; [done|]. cbn. rewrite lookup_alter_ne; [done|]. intros E1. apply Hnot. eauto.
Qed.

End Isolation.

Lemma IsReapable_false now rs :
  rs_closed rs = false ->
  IsReapable now rs = false <->
  (is_Some (rs_publisher rs) \/ rs_subscribers rs <> ∅ \/ time_sub now (rs_createdAt rs) < sessionGracePeriod).
Proof.
  intros Hc. unfold IsReapable, IsEmpty. rewrite Hc.
  destruct (rs_publisher rs) as [p|]; cbn [negb andb].
  { split; [intros _; left; by eexists|done]. }
  destruct (Nat.ltb_spec 0 (size (rs_subscribers rs))) as [Hs|Hs]; cbn [negb andb].
  { split; [intros _; right; left|done]. intros E. rewrite E, map_size_empty in Hs. lia. }
  assert (rs_subscribers rs = ∅) as -> by (apply map_size_empty_inv; lia).
  rewrite Z.leb_gt. split; [by auto|]. intros [[? ?]|[?|?]]; done.
Qed.

Lemma and_iff_compat_l_and (A B C : Prop) : (A -> (B <-> C)) -> (A /\ B <-> A /\ C).
Proof. tauto. Qed.

(** A run with two generations of a session (see [orphan_removes_new_session]). *)
Definition demoPub : NetConn := demoSocket (str "10.0.0.1:1") [demoFrame MsgTypePAKEInitPub []].
Definition demoSub : NetConn := demoSocket (str "10.0.0.2:1") [demoFrame MsgTypePAKEInitSub []].

Definition raceRun : list relay_label :=
  [LAccept GoTCP demoSub] ++ steps 1 2 ++     (* the subscriber has its session object *)
  [LAccept GoTCP demoPub] ++ steps 4 7 ++     (* a publisher comes and goes *)
  steps 1 2 ++                                (* the subscriber registers *)
  [LAccept GoTCP demoPub] ++ steps 9 5 ++     (* a new publisher *)
  [LAccept GoTCP demoSub] ++ steps 13 4 ++    (* and a new subscriber *)
  steps 1 3.                                  (* the first subscriber leaves *)

Definition race_check (w : Server) : bool :=
  match thread_step [] mapOrder 1 w with
  | None => false
  | Some w' =>
      bool_decide (th_pc <$> sv_threads w !! 1%nat = Some (SubExit 2)) &&
      (bool_decide (sv_sessions w !! demoSid = Some 10%nat) &&
      (bool_decide (2%nat <> 10%nat) &&
      (bool_decide (rs_publisher <$> sv_heap w !! 10%nat = Some (Some 11%nat)) &&
       bool_decide (cl_done <$> sv_clients w !! 11%nat = Some false) &&
      (bool_decide ((fun rs => (map_to_list (rs_subscribers rs)).*2) <$> sv_heap w !! 10%nat = Some [14%nat]) &&
       bool_decide (cl_done <$> sv_clients w !! 14%nat = Some false) &&
      (bool_decide (sv_sessions w' !! demoSid = None) &&
      (bool_decide (cl_done <$> sv_clients w' !! 11%nat = Some true) &&
       bool_decide (cl_done <$> sv_clients w' !! 14%nat = Some true)))))))
  end.

(** ** Properties *)

(** C8: what holds at every moment of every run of the relay, whatever its
    clients send and however its goroutines interleave: a session in the map is open
    and filed under its own ID; a subscriber's queue never exceeds its 200 slots (and
    a publisher has none); and of the goroutines that serve publishers of one session
    at most one has a publisher that is not closed. *)
Theorem relay_safe pool w :
  reachable pool w ->
  (forall id s, sv_sessions w !! id = Some s ->
     exists rs, sv_heap w !! s = Some rs /\ rs_sessionID rs = id /\ rs_closed rs = false) /\
  (forall c cl, sv_clients w !! c = Some cl -> (length (cl_sendCh cl) <= SubscriberQueueSize)%nat) /\
  (forall t1 t2 th1 th2 s c1 c2 cl1 cl2,
     sv_threads w !! t1 = Some th1 -> sv_threads w !! t2 = Some th2 ->
     pub_pc (th_pc th1) = Some (s, c1) -> pub_pc (th_pc th2) = Some (s, c2) ->
     sv_clients w !! c1 = Some cl1 -> sv_clients w !! c2 = Some cl2 ->
     cl_done cl1 = false -> cl_done cl2 = false -> t1 = t2).
Proof.
  intros H. destruct (reachable_inv pool w H) as (home & owner & HI). split_and!.
  - apply (i_map _ _ _ _ _ _ _ _ HI).
  - intros c cl Hc. destruct (i_client _ _ _ _ _ _ _ _ HI c cl Hc) as [[[_ ->]|[_ ?]] _]; [cbn; lia|done].
  - intros. by edestruct (inv_single_publisher home owner w t1 t2).
Qed.


(** C32: only a handshake creates a session: if a step of the relay (any
    step, from any state) adds an entry for [id] to the session map, it is the
    handler of a connection that has just decoded, as the connection's first frame
    and within the handshake size limit, a PAKE-init frame of a publisher or
    subscriber that carries [id]. *)
Theorem only_handshake_creates_session pool l w w' id s :
  relay_next pool l w = Some w' -> sv_sessions w !! id = None -> sv_sessions w' !! id = Some s ->
  exists t o th conn ra env,
    l = LRun t o /\ sv_threads w !! t = Some th /\ th_pc th = HDecode conn ra /\
    fst (decodeFrom_conn MaxHandshakePayload conn w) = Ok env /\ env_SessionID env = id /\
    (env_MsgType env = MsgTypePAKEInitPub \/ env_MsgType env = MsgTypePAKEInitSub).
Proof.
  intros Hl Hnone Hsome.
  assert (Hsub : sv_sessions w' ⊆ sv_sessions w -> False).
  { intros Hn. rewrite (lookup_weaken _ _ _ _ Hsome Hn) in Hnone. done. }
  destruct l as [k nc|t o|dt| | |b|b]; cbn [relay_next] in Hl.
  - exfalso. apply Hsub. destruct k; simplify_eq; unfold accept; by repeat case_match.
  - destruct (sv_threads w !! t) as [th|] eqn:Ht; [|unfold thread_step in Hl; by rewrite Ht in Hl].
    assert (Hd : forall b, book w' = b -> b.1 ⊆ sv_sessions w -> False).
    { intros b Hb Hs. apply Hsub. by rewrite <- Hb in Hs. }
    pose proof (thread_step_book pool o t w w' th Ht Hl) as Hbc. remember (th_pc th) as p eqn:Ep.
    destruct Hbc as [p Hb|s0 c0 Hb|s0 Hb|conn ra env Hdec Hty Hn Hb].
    + by destruct (Hd _ Hb).
    + by destruct (Hd _ Hb (book_drop_subset _ _)).
    + by destruct (Hd _ Hb (book_drop_subset _ _)).
    + exists t, o, th, conn, ra, env. split_and!; try done.
      destruct (decide (env_SessionID env = id)) as [|Hne]; [done|]. apply (f_equal fst) in Hb. cbn in Hb.
      rewrite Hb, lookup_insert_ne in Hsome by done. congruence.
  - destruct (0 <=? dt); simplify_eq. by destruct Hsub.
  - simplify_eq. by destruct Hsub; apply maintenance_subset.
  - simplify_eq. destruct Hsub. apply fold_sessions_subset. intros w1 id1 s1. apply drop_subset.
  - simplify_eq. by destruct Hsub.
  - simplify_eq. by destruct Hsub.
Qed.


(** C7: sessions do not see each other: a step of a goroutine that does
    not work for session ID [id] leaves every client of [id] as it was, with its
    queue and its [done] flag, and does not read, write or close its socket. *)
Theorem session_isolation pool o t th w w' c cl id :
  reachable pool w -> sv_threads w !! t = Some th -> thread_step pool o t w = Some w' ->
  sv_clients w !! c = Some cl -> client_sid cl = Some id -> (acts_for w (th_pc th) id -> False) ->
  untouched c cl w w'.
Proof.
  intros H Ht Hs Hc Hid Hnot. destruct (reachable_inv pool w H) as (home & owner & HI).
  by apply (untouched_step (home := home) (owner := owner) (id := id) Hid pool o w t th HI Hc Ht).
Qed.

(** the maintenance run removes exactly the sessions that have neither
    a publisher nor subscribers and are at least 30 seconds old: every other session,
    in particular one that was just created for a client that has not registered yet,
    stays; and the gauge of active sessions follows. *)
Theorem reaper_exact pool w :
  reachable pool w ->
  (forall id s, sv_sessions (maintenance w) !! id = Some s <->
     sv_sessions w !! id = Some s /\
     exists rs, sv_heap w !! s = Some rs /\
       (is_Some (rs_publisher rs) \/ rs_subscribers rs <> ∅ \/
        time_sub (sv_now w) (rs_createdAt rs) < sessionGracePeriod)) /\
  (m_ActiveSessions (sv_metrics w) = SessionCount w ->
   m_ActiveSessions (sv_metrics (maintenance w)) = SessionCount (maintenance w)).
Proof.
  intros H. destruct (reachable_inv pool w H) as (home & owner & HI).
  destruct (maintenance_spec home owner w HI) as [H1 H2]. split; [|exact H2].
  intros id s. rewrite H1. apply and_iff_compat_l_and. intros Hs.
  destruct (i_map _ _ _ _ _ _ _ _ HI _ _ Hs) as (rs & Hrs & _ & Hcl). unfold reapable. rewrite Hrs.
  rewrite IsReapable_false by done. split; [eauto|]. intros (rs' & [= <-] & Hx). exact Hx.
Qed.

(** The gauge of active sessions counts the session map in every run
    in which [CloseAll] is not called. *)
Theorem active_sessions_gauge pool now ls w :
  relay_run pool (NewServer now) ls w -> (LCloseAll ∈ ls -> False) ->
  m_ActiveSessions (sv_metrics w) = SessionCount w.
Proof.
  intros Hr. remember (NewServer now) as w0 eqn:E0. revert E0.
  induction Hr as [w|w ls w1 l w2 Hr IH Hl]; intros E0 Hno; subst; [done|].
  rewrite elem_of_app, list_elem_of_singleton in Hno.
  destruct (inv_run _ ∅ ∅ _ _ _ Hr (inv_init now)) as (home & owner & _ & HI).
  apply (gauge_next pool home owner l w1 w2 HI); [intros ->; tauto|done|]. apply IH; tauto.
Qed.

(** What [CloseAll] does to the book: the map is emptied, the gauge is not touched. *)
Lemma CloseAll_book w : book (CloseAll w) = (∅, m_ActiveSessions (sv_metrics w)).
Proof.
  unfold CloseAll. set (f := fun w '(id, s) => _). set (l := map_to_list (sv_sessions w)).
  assert (G : forall l w, m_ActiveSessions (sv_metrics (fold_left f l w)) = m_ActiveSessions (sv_metrics w) /\
    forall id, sv_sessions (fold_left f l w) !! id = if decide (id ∈ l.*1) then None else sv_sessions w !! id).
  { clear. induction l as [|[id s] l IH]; intros w; [done|]. cbn [fold_left].
    destruct (IH (f w (id, s))) as [E1 E2]. pose proof (RelaySession_Close_book s w) as [= F1 F2].
    split; [by rewrite E1|]. intros id'. rewrite E2. cbn. rewrite F1.
    destruct (decide (id' = id)) as [->|Hne].
    - rewrite lookup_delete_eq, (decide_True (P := id ∈ id :: l.*1)) by apply list_elem_of_here. by case_decide.
    - rewrite lookup_delete_ne by done.
      destruct (decide (id' ∈ l.*1)) as [H1|H1], (decide (id' ∈ id :: l.*1)) as [H2|H2]; try done;
        rewrite elem_of_cons in H2; tauto. }
  destruct (G l w) as [E1 E2]. unfold book. f_equal; [|done]. apply map_eq. intros id. rewrite E2, lookup_empty.
  case_decide as Hin; [done|]. apply not_elem_of_dom_1. intros Hd. apply elem_of_dom in Hd as [s Hs].
  apply Hin, list_elem_of_fmap. exists (id, s). split; [done|]. by apply elem_of_map_to_list.
Qed.

(** a subscriber that registers late can bring down a session it does
    not belong to: there is a run in which a subscriber gets its session object, the
    publisher leaves and the session is removed, the subscriber registers in the
    removed object, a new publisher and a new subscriber meet in a new session under
    the same ID, and the end of the first subscriber's handler then closes both of
    them and removes their session from the map. *)
Theorem orphan_removes_new_session :
  exists ls w t o w' s1 s2 p q,
    relay_run [] (NewServer 5) ls w /\ thread_step [] o t w = Some w' /\
    th_pc <$> sv_threads w !! t = Some (SubExit s1) /\
    sv_sessions w !! demoSid = Some s2 /\ s1 <> s2 /\
    (rs_publisher <$> sv_heap w !! s2 = Some (Some p) /\ cl_done <$> sv_clients w !! p = Some false) /\
    ((fun rs => (map_to_list (rs_subscribers rs)).*2) <$> sv_heap w !! s2 = Some [q] /\
     cl_done <$> sv_clients w !! q = Some false) /\
    sv_sessions w' !! demoSid = None /\
    cl_done <$> sv_clients w' !! p = Some true /\ cl_done <$> sv_clients w' !! q = Some true.
Proof.
  destruct (exec [] raceRun (NewServer 5)) as [w|] eqn:E; [|by vm_compute in E].
  exists raceRun, w, 1%nat, mapOrder.
  assert (Hw : race_check <$> exec [] raceRun (NewServer 5) = Some true) by (vm_compute; reflexivity).
  rewrite E in Hw. injection Hw as Hw. unfold race_check in Hw.
  destruct (thread_step [] mapOrder 1 w) as [w'|] eqn:E1; [|done].
  exists w', 2%nat, 10%nat, 11%nat, 14%nat. rewrite !andb_true_iff, !bool_decide_eq_true in Hw.
  split; [exact (exec_run [] raceRun _ [] _ w (run_nil [] _) E)|]. split; [done|]. destruct_and!. by split_and!.
Qed.

(** ** Witnesses *)

Definition run_from_5 (ls : list relay_label) : Server := default (NewServer 5) (exec [] ls (NewServer 5)).

Definition demoWorld : Server := run_from_5 raceRun.

Lemma demo_reachable : reachable [] demoWorld.
Proof. apply (exec_reachable [] 5 raceRun). vm_compute. reflexivity. Qed.

Lemma relay_safe_witness :
  exists rs, sv_heap demoWorld !! 10%nat = Some rs /\ rs_sessionID rs = demoSid /\ rs_closed rs = false.
Proof. refine (proj1 (relay_safe [] demoWorld demo_reachable) demoSid 10%nat _). vm_compute. reflexivity. Defined.

Lemma only_handshake_creates_session_witness :
  exists t o th conn ra env,
    LRun 1 mapOrder = LRun t o /\ sv_threads (run_from_5 ([LAccept GoTCP demoSub] ++ steps 1 1)) !! t = Some th /\
    th_pc th = HDecode conn ra /\
    fst (decodeFrom_conn MaxHandshakePayload conn (run_from_5 ([LAccept GoTCP demoSub] ++ steps 1 1))) = Ok env /\
    env_SessionID env = demoSid /\ (env_MsgType env = MsgTypePAKEInitPub \/ env_MsgType env = MsgTypePAKEInitSub).
Proof.
  refine (only_handshake_creates_session [] (LRun 1 mapOrder) _ (run_from_5 ([LAccept GoTCP demoSub] ++ steps 1 2)) demoSid 2%nat _ _ _);
    vm_compute; reflexivity.
Defined.

(** Publishers of two sessions; the second one's goroutine makes a step. *)
Definition otherPub : NetConn :=
  demoSocket (str "10.0.0.3:1") [mkEnvelope Version MsgTypePAKEInitPub (str "fedcba9876543210") zeroNonce []].
Definition twoRun : list relay_label :=
  [LAccept GoTCP demoPub] ++ steps 1 5 ++ [LAccept GoQUIC otherPub] ++ steps 5 5.
Definition twoWorld : Server := run_from_5 twoRun.

Lemma two_reachable : reachable [] twoWorld.
Proof. apply (exec_reachable [] 5 twoRun). vm_compute. reflexivity. Qed.

Definition demoClient : ClientConn := mkClientConn 0 1 (Some (demoFrame MsgTypePAKEInitPub [])) [] false.

Lemma session_isolation_witness : untouched 3 demoClient twoWorld (run_from_5 (twoRun ++ steps 5 1)).
Proof.
  refine (session_isolation [] mapOrder 5 (mkThread GoQUIC (PubLoop 6 7)) twoWorld _ 3 demoClient demoSid two_reachable _ _ _ _ _);
    vm_compute; try reflexivity. discriminate.
Defined.

Lemma reaper_exact_witness : sv_sessions (maintenance twoWorld) !! demoSid = Some 2%nat.
Proof.
  refine (proj2 (proj1 (reaper_exact [] twoWorld two_reachable) demoSid 2%nat) _).
  split; [vm_compute; reflexivity|]. eexists. split; [vm_compute; reflexivity|]. left. by eexists.
Defined.

Lemma active_sessions_gauge_witness : m_ActiveSessions (sv_metrics twoWorld) = SessionCount twoWorld.
Proof.
  refine (active_sessions_gauge [] 5 twoRun twoWorld (exec_run [] twoRun (NewServer 5) [] _ _ (run_nil [] _) _) _).
  - vm_compute. reflexivity.
  - unfold twoRun, steps. cbn. rewrite !elem_of_cons, elem_of_nil. intros H. by repeat destruct H as [?|H].
Defined.
