(* ===== verification/RelayFifo.v ===== *)
(** * The relay is transparent: order and completeness of what it forwards

    For one subscriber and the publisher of its session: what the relay has put
    on the subscriber's wire or in its queue is, at every moment and for every
    interleaving with all other clients, a prefix of what the publisher has sent,
    heartbeats left out, up to and including the first Close frame. *)

From S2P Require Import Prelude Strings Protocol Engine RateLimit ProxyProto RelaySession RelayServer RelayInv RelayProps.

(** What the relay forwards of a publisher's frames (server.go:350-361). *)
Fixpoint relayed (fs : list Envelope) : list Envelope :=
  match fs with
  | [] => []
  | env :: fs' =>
      if bool_decide (env_MsgType env = MsgTypeHeartbeat) then relayed fs'
      else if bool_decide (env_MsgType env = MsgTypeClose) then [env]
      else env :: relayed fs'
  end.

(** The bytes of a sequence of frames. *)
Definition wire (envs : list Envelope) : bytes := concat (frame_bytes <$> envs).

Section Fifo.
(** The pooled buffer; the subscriber [c], the publisher [p], their session, the
    subscriber's key, and the goroutine [t] of the publisher. *)
Context (pool : bytes) (c p s : nat) (key : bytes) (t tc : nat).

Definition enc (env : Envelope) : bytes := match Encode (stalePool pool) env with Ok bs => bs | Err _ => [] end.

(** What has been written to the subscriber and what waits in its queue. *)
Definition pend (w : Server) : option bytes :=
  cl ← sv_clients w !! c; nc ← sv_conns w !! cl_netConn cl;
  Some (c_out (nc_conn nc) ++ concat (enc <$> cl_sendCh cl)).

(** What the publisher's socket still delivers. *)
Definition in_of (w : Server) : option reader :=
  cl ← sv_clients w !! p; nc ← sv_conns w !! cl_netConn cl; Some (c_in (nc_conn nc)).

Definition isdone (w : Server) : Prop := cl_done <$> sv_clients w !! c = Some true.
Definition isclosed (w : Server) : Prop := rs_closed <$> sv_heap w !! s = Some true.
Definition isfiled (w : Server) : Prop := (rs ← sv_heap w !! s; rs_subscribers rs !! key) = Some c.

(** The publisher is registered in its open session and not closed. *)
Definition good (w : Server) : Prop :=
  rs_closed <$> sv_heap w !! s = Some false /\ (sv_heap w !! s ≫= rs_publisher) = Some p /\
  cl_done <$> sv_clients w !! p = Some false.

(** What the rest of the relay may do meanwhile. *)
Record mild (w w' : Server) : Prop := {
  k_pend : forall b, pend w = Some b -> pend w' = Some b \/ isdone w';
  k_in : in_of w' = in_of w;
  k_closed : isclosed w -> isclosed w';
  k_filed : isfiled w' -> isfiled w;
  k_done : isdone w -> isdone w'
}.

Definition calm (w w' : Server) : Prop := mild w w' /\ (good w -> good w' \/ isclosed w').

Lemma calm_fields w w' :
  sv_clients w' = sv_clients w -> sv_conns w' = sv_conns w -> sv_heap w' = sv_heap w -> calm w w'.
Proof.
  intros E1 E2 E3. split; [split|]; unfold pend, in_of, good, isclosed, isfiled, isdone; rewrite ?E1, ?E2, ?E3; auto.
Qed.

Lemma calm_refl w : calm w w.
Proof. by apply calm_fields. Qed.

Lemma mild_trans w1 w2 w3 : mild w1 w2 -> mild w2 w3 -> mild w1 w3.
Proof.
  intros [A1 A2 A4 A5 A6] [B1 B2 B4 B5 B6]. split; auto; [|congruence].
  intros b Hb. destruct (A1 b Hb) as [H|H]; [by apply B1|right; by apply B6].
Qed.

Lemma calm_trans w1 w2 w3 : calm w1 w2 -> calm w2 w3 -> calm w1 w3.
Proof.
  intros [A1 A2] [B1 B2]. split; [by eapply mild_trans|].
  intros Hg. destruct (A2 Hg) as [H|H]; [by apply B2|right; by apply B1].
Qed.

Context {home : homes} {owner : owners}.
Context (Hc : home !! c = Some (mkHome s (Some key) tc)) (Hp : home !! p = Some (mkHome s None t)).

(** Sockets: closing is not seen; writing and reading only on the own one. *)
Lemma calm_conn w w' conn f :
  sv_clients w' = sv_clients w -> sv_heap w' = sv_heap w -> sv_conns w' = alter (on_conn f) conn (sv_conns w) ->
  (owner !! conn = Some (inr c) -> forall x, c_out (f x) = c_out x) ->
  (owner !! conn = Some (inr p) -> forall x, c_in (f x) = c_in x) ->
  inv home owner w -> calm w w'.
Proof.
  intros E1 E2 E3 F1 F2 HI.
  assert (Ep : pend w' = pend w).
  { unfold pend. rewrite E1, E3. destruct (sv_clients w !! c) as [cl|] eqn:Hcl; [|done]. cbn.
    destruct (i_client _ _ _ _ _ _ _ _ HI c cl Hcl) as (_ & Ho & _).
    destruct (decide (conn = cl_netConn cl)) as [->|Hne]; [|by rewrite lookup_alter_ne].
    rewrite lookup_alter_eq. destruct (sv_conns w !! cl_netConn cl) as [nc|]; [|done]. cbn. by rewrite F1. }
  assert (Ei : in_of w' = in_of w).
  { unfold in_of. rewrite E1, E3. destruct (sv_clients w !! p) as [cl|] eqn:Hcl; [|done]. cbn.
    destruct (i_client _ _ _ _ _ _ _ _ HI p cl Hcl) as (_ & Ho & _).
    destruct (decide (conn = cl_netConn cl)) as [->|Hne]; [|by rewrite lookup_alter_ne].
    rewrite lookup_alter_eq. destruct (sv_conns w !! cl_netConn cl) as [nc|]; [|done]. cbn. by rewrite F2. }
  split; [split; [rewrite Ep; auto|done|..]|]; unfold good, isclosed, isfiled, isdone; rewrite ?E1, ?E2; auto.
Qed.

Lemma insert_on_conn f w conn nc :
  sv_conns w !! conn = Some nc -> <[conn := on_conn f nc]> (sv_conns w) = alter (on_conn f) conn (sv_conns w).
Proof. intros H. symmetry. by apply alter_some. Qed.

Lemma calm_closeConn w conn : inv home owner w -> calm w (closeConn conn w).
Proof. intros HI. by eapply (calm_conn _ _ conn conn_close). Qed.

Lemma conn_encode_in pool' env x : c_in (snd (conn_encode pool' env x)) = c_in x.
Proof. unfold conn_encode, conn_write. by repeat case_match. Qed.

Lemma calm_encode w conn env : inv home owner w -> owner !! conn <> Some (inr c) -> calm w (snd (encodeTo_conn pool conn env w)).
Proof.
  intros HI Hne. unfold encodeTo_conn. destruct (sv_conns w !! conn) as [nc|] eqn:E; [|apply calm_refl].
  pose proof (conn_encode_in (stalePool pool) env (nc_conn nc)) as Hin.
  destruct (conn_encode _ _ _) as [r x]. cbn [snd] in *.
  eapply (calm_conn _ _ conn (fun y => mkConn (c_in y) (c_out x) (c_writes x) (c_closed x))); eauto; [|done].
  cbn. rewrite <- insert_on_conn with (nc := nc) by done. f_equal. unfold on_conn. f_equal. destruct x. cbn in *. by rewrite Hin.
Qed.

Lemma calm_decode w max conn : inv home owner w -> owner !! conn <> Some (inr p) -> calm w (snd (decodeFrom_conn max conn w)).
Proof.
  intros HI Hne. unfold decodeFrom_conn. destruct (sv_conns w !! conn) as [nc|] eqn:E; [|apply calm_refl].
  destruct (c_closed (nc_conn nc)); [apply calm_refl|]. destruct (DecodeWithMax _ _) as [r rest]. cbn [snd].
  eapply (calm_conn _ _ conn (fun y => mkConn rest (c_out y) (c_writes y) false)); eauto; [|done].
  cbn. by rewrite <- insert_on_conn with (nc := nc) by done.
Qed.

(** Clients: changing another client, or the subscriber's [done] flag. *)
Lemma mild_client w w' x clx cl' :
  sv_clients w !! x = Some clx -> sv_clients w' = <[x := cl']> (sv_clients w) ->
  sv_heap w' = sv_heap w -> sv_conns w' = sv_conns w ->
  cl_netConn cl' = cl_netConn clx -> (cl_done clx = true -> cl_done cl' = true) ->
  (x = c -> cl_sendCh cl' = cl_sendCh clx) -> mild w w'.
Proof.
  intros Hx E1 E2 E3 Hn Hd Hq.
  assert (Ep : pend w' = pend w).
  { unfold pend. rewrite E1, E3. destruct (decide (x = c)) as [->|Hne]; [|by rewrite lookup_insert_ne].
    rewrite lookup_insert_eq, Hx. cbn. by rewrite Hn, Hq. }
  split; [rewrite Ep; auto|..]; unfold in_of, isclosed, isfiled, isdone; rewrite ?E1, ?E2, ?E3; auto.
  - destruct (decide (x = p)) as [->|Hne]; [|by rewrite lookup_insert_ne].
    rewrite lookup_insert_eq, Hx. cbn. by rewrite Hn.
  - destruct (decide (x = c)) as [->|Hne]; [|by rewrite lookup_insert_ne].
    rewrite lookup_insert_eq, Hx. cbn. intros [= H]. by rewrite Hd.
Qed.

Lemma calm_client w w' x clx cl' :
  sv_clients w !! x = Some clx -> sv_clients w' = <[x := cl']> (sv_clients w) ->
  sv_heap w' = sv_heap w -> sv_conns w' = sv_conns w -> x <> p ->
  cl_netConn cl' = cl_netConn clx -> (cl_done clx = true -> cl_done cl' = true) ->
  (x = c -> cl_sendCh cl' = cl_sendCh clx) -> calm w w'.
Proof.
  intros Hx E1 E2 E3 Hnp Hn Hd Hq. split; [by eapply mild_client|]. unfold good, isclosed.
  rewrite E1, E2, lookup_insert_ne by done. auto.
Qed.

Lemma calm_Close w x : inv home owner w -> mild w (ClientConn_Close x w) /\ (x <> p -> calm w (ClientConn_Close x w)).
Proof.
  intros HI. unfold ClientConn_Close. pose proof (calm_refl w) as [Hr _].
  destruct (sv_clients w !! x) as [clx|] eqn:Hx; [|split; [done|intros _; apply calm_refl]].
  destruct (cl_done clx); [split; [done|intros _; apply calm_refl]|].
  set (w1 := set_clients (insert x (set_done clx)) w).
  assert (H0 : mild w w1) by (by eapply (mild_client _ _ x clx)).
  assert (H1 : x <> p -> calm w w1) by (intros; by eapply (calm_client _ _ x clx)).
  assert (H2 : inv home owner w1).
  { eapply (Inv_client HI x clx); try done. apply (i_client _ _ _ _ _ _ _ _ HI x clx Hx). }
  destruct (cl_role clx =? 2).
  - pose proof (calm_fields w1 (spawn GoHelper (DelayedClose (cl_netConn clx)) w1) eq_refl eq_refl eq_refl) as H3.
    split; [eapply mild_trans; [done|apply H3]|]. intros Hne. by eapply calm_trans; [apply H1|].
  - pose proof (calm_closeConn w1 (cl_netConn clx) H2) as H3.
    split; [eapply mild_trans; [done|apply H3]|]. intros Hne. by eapply calm_trans; [apply H1|].
Qed.

Lemma calm_close_all w l :
  inv home owner w -> let w' := fold_left (fun w x => ClientConn_Close x w) l w in mild w w' /\ (p ∉ l -> calm w w').
Proof.
  revert w. induction l as [|x l IH]; intros w HI; cbn.
  - pose proof (calm_refl w) as H. split; [apply H|done].
  - destruct (calm_Close w x HI) as [M1 C1]. destruct (inv_ClientConn_Close w x HI) as [HI' _].
    destruct (IH _ HI') as [M2 C2]. split; [by eapply mild_trans|].
    rewrite not_elem_of_cons. intros [Hx Hn]. eapply calm_trans; [apply C1; congruence|by apply C2].
Qed.

Lemma client_conn_not w x clx y :
  inv home owner w -> sv_clients w !! x = Some clx -> x <> y -> owner !! cl_netConn clx <> Some (inr y).
Proof. intros HI Hx Hne. destruct (i_client _ _ _ _ _ _ _ _ HI x clx Hx) as (_ & -> & _). congruence. Qed.

Lemma calm_SendFrame o w x env r w' :
  inv home owner w -> x <> c -> SendFrame pool o x env w = Some (r, w') -> calm w w'.
Proof.
  intros HI Hne E. unfold SendFrame, SendFrameWithTimeout in E. destruct (sv_clients w !! x) as [clx|] eqn:Hx; [|done].
  destruct (Z.eqb_spec (cl_role clx) 2) as [Hr|Hr].
  - assert (Hxp : x <> p). { intros ->. destruct (i_home _ _ _ _ _ _ _ _ HI _ _ Hp) as (cl & _ & E1 & _ & _ & E2). cbn in E2. congruence. }
    assert (Hq : calm w (set_clients (insert x (set_sendCh (cl_sendCh clx ++ [env]) clx)) w)) by (by eapply (calm_client _ _ x clx)).
    repeat case_match; simplify_eq; done || apply calm_refl.
  - pose proof (calm_encode w (cl_netConn clx) env HI (client_conn_not w x clx c HI Hx Hne)) as He.
    destruct (encodeTo_conn _ _ _ _). by simplify_eq.
Qed.

(** Sessions. *)
Lemma calm_heap w w' s' rs rs' :
  sv_heap w !! s' = Some rs -> sv_heap w' = <[s' := rs']> (sv_heap w) ->
  sv_clients w' = sv_clients w -> sv_conns w' = sv_conns w ->
  (s' = s -> rs_closed rs' = false -> rs_closed rs = false /\ rs_publisher rs' = rs_publisher rs) ->
  (s' = s -> rs_subscribers rs' !! key = Some c -> rs_subscribers rs !! key = Some c) -> calm w w'.
Proof.
  intros Hs E1 E2 E3 H1 H2.
  split; [split|]; unfold pend, in_of, good, isclosed, isfiled, isdone; rewrite ?E1, ?E2, ?E3; auto.
  all: destruct (decide (s' = s)) as [->|Hne]; [|by rewrite ?lookup_insert_ne by done; auto].
  all: rewrite lookup_insert_eq, Hs; cbn.
  - intros [= Hcl]. destruct (rs_closed rs') eqn:Ec; [done|]. destruct (H1 eq_refl eq_refl). congruence.
  - auto.
  - intros (G1 & G2 & G3). destruct (rs_closed rs') eqn:Ec; [by right|left]. destruct (H1 eq_refl eq_refl) as [_ ->]. done.
Qed.

Lemma calm_RemoveSubscriber w s' k : inv home owner w -> calm w (RemoveSubscriber s' k w).
Proof.
  intros HI. unfold RemoveSubscriber. destruct (sv_heap w !! s') as [rs|] eqn:Hs; [|apply calm_refl]. cbn.
  destruct (rs_subscribers rs !! k) as [x|] eqn:Hk; [|apply calm_refl].
  rewrite (set_heap_alter _ s' rs) by done. rewrite ClientConn_Close_heap.
  assert (Hxp : x <> p).
  { intros ->. destruct (i_session _ _ _ _ _ _ _ _ HI s' rs Hs) as [_ Hsub]. destruct (Hsub _ _ Hk) as [t' Ht']. cbn in Ht'. congruence. }
  eapply calm_trans; [by apply (calm_Close w x HI)|]. eapply (calm_heap _ _ s' rs); [|reflexivity|done|done|..].
  - by destruct (ClientConn_Close_frame x w) as [-> _].
  - done.
  - intros _. cbn. intros H. by apply lookup_delete_Some in H as [_ H].
Qed.

Lemma calm_drop w id s' :
  inv home owner w -> sv_sessions w !! id = Some s' -> calm w (set_sessions (delete id) (RelaySession_Close s' w)).
Proof.
  intros HI Hs. destruct (i_map _ _ _ _ _ _ _ _ HI _ _ Hs) as (rs & Hrs & _ & Hcl).
  rewrite (RelaySession_Close_eq s' rs w Hrs Hcl). set (l := _ ++ _). set (w1 := fold_left _ l w).
  destruct (close_all_frame l w) as [Eh _]. fold w1 in Eh.
  destruct (i_session _ _ _ _ _ _ _ _ HI s' rs Hrs) as [Hpub Hsub].
  assert (Hm : calm w1 (set_sessions (delete id)
    (set_heap (insert s' (mkRelaySession (rs_sessionID rs) None ∅ (rs_createdAt rs) true)) w1))).
  { eapply (calm_heap _ _ s' rs); [by rewrite Eh|reflexivity|done..]. }
  destruct (calm_close_all w l HI) as [M1 C1]. fold w1 in M1, C1. destruct (decide (s' = s)) as [->|Hne].
  - split; [eapply mild_trans; [exact M1|apply Hm]|]. intros _. right. unfold isclosed. fields. by rewrite lookup_insert_eq.
  - eapply calm_trans; [apply C1|exact Hm].
    unfold l. rewrite elem_of_app, list_elem_of_fmap. intros [Ep|([k x] & Ex & Hin)].
    + assert (rs_publisher rs = Some p) as Ep'.
      { destruct (rs_publisher rs) as [q|]; cbn in Ep; [by apply list_elem_of_singleton in Ep as ->|by apply elem_of_nil in Ep]. }
      destruct (Hpub _ Ep') as [t' Ht']. congruence.
    + apply elem_of_map_to_list, Hsub in Hin as [t' Ht']. cbn in Ex, Ht'. congruence.
Qed.

Lemma calm_removeSession w id : inv home owner w -> calm w (removeSession id w).
Proof.
  intros HI. unfold removeSession. destruct (sv_sessions w !! id) as [s'|] eqn:Hs; [|apply calm_refl].
  eapply calm_trans; [by apply (calm_drop w id s')|]. by apply calm_fields.
Qed.

Lemma calm_ForwardToPublisher o w s' env r w' :
  inv home owner w -> ForwardToPublisher pool o s' env w = Some (r, w') -> calm w w'.
Proof.
  intros HI E. unfold ForwardToPublisher in E. destruct (sv_heap w !! s') as [rs|] eqn:Hs; [|done].
  destruct (rs_publisher rs) as [q|] eqn:Hq; [|injection E as <- <-; apply calm_refl].
  destruct (i_session _ _ _ _ _ _ _ _ HI s' rs Hs) as [Hpub _]. destruct (Hpub q Hq) as [t' Ht'].
  eapply calm_SendFrame; [done| |exact E]. intros ->. congruence.
Qed.

(** ** Steps of the other goroutines *)

(** No goroutine but [t] serves a publisher of the session. *)
Definition only (w : Server) : Prop :=
  forall n th x, sv_threads w !! n = Some th -> pub_pc (th_pc th) = Some (s, x) -> n = t.

(** The draining phase of the subscriber's writer means that it is closed. *)
Definition flushed (w : Server) : Prop :=
  forall n th, sv_threads w !! n = Some th -> th_pc th = WFlush c -> isdone w.

(** Only goroutine [t'] has moved, and these two facts still hold. *)
Definition framed (t' : nat) (w w' : Server) : Prop :=
  (sv_next w <= sv_next w')%nat /\
  (forall n, n <> t' -> (n < sv_next w)%nat -> sv_threads w' !! n = sv_threads w !! n) /\
  (only w -> only w') /\ (flushed w -> flushed w').

Definition settled (t' : nat) (w w' : Server) : Prop := calm w w' /\ framed t' w w'.

Section Other.
Context (w : Server) (t' : nat) (th : thread).
Context (HI : inv home owner w) (Ht : sv_threads w !! t' = Some th).

(** The goroutines after a step of [t']: itself, the others, new ones. *)
Lemma thread_cases w1 n th' :
  kept (sv_threads w, sv_next w) (sv_threads w1, sv_next w1) -> sv_threads w1 !! n = Some th' ->
  sv_threads w !! n = Some th' \/ fresh_pc (th_pc th') = true.
Proof.
  intros (K1 & K2 & K3) Hn. cbn in *. destruct (Nat.lt_ge_cases n (sv_next w)) as [Hlt|Hge].
  - rewrite K2 in Hn by done. by left.
  - by apply K3.
Qed.

Lemma framed_by w1 w2 :
  kept (sv_threads w, sv_next w) (sv_threads w1, sv_next w1) -> (isdone w -> isdone w2) ->
  sv_next w2 = sv_next w1 -> (forall n, n <> t' -> sv_threads w2 !! n = sv_threads w1 !! n) ->
  (forall th2, sv_threads w2 !! t' = Some th2 ->
     (forall x, pub_pc (th_pc th2) = Some (s, x) -> pub_pc (th_pc th) = Some (s, x)) /\
     (th_pc th2 = WFlush c -> isdone w2 \/ th_pc th = WFlush c)) ->
  framed t' w w2.
Proof.
  intros K C En Es H2. split_and!; [destruct K as [K1 _]; cbn in K1; lia|..].
  - intros n Hn Hlt. rewrite Es by done. by apply K.
  - intros Ho n th' x Hn Hx. destruct (decide (n = t')) as [->|Hne].
    + destruct (H2 _ Hn) as [Hp1 _]. by eapply Ho, Hp1.
    + rewrite Es in Hn by done. destruct (thread_cases _ _ _ K Hn) as [H|H%fresh_not_pub]; [by eapply Ho|congruence].
  - intros Hf n th' Hn Hx. destruct (decide (n = t')) as [->|Hne].
    + destruct (H2 _ Hn) as [_ Hp1]. destruct (Hp1 Hx) as [|E]; [done|]. apply C. by eapply Hf.
    + rewrite Es in Hn by done. destruct (thread_cases _ _ _ K Hn) as [H|H]; [|by rewrite Hx in H].
      apply C. by eapply Hf.
Qed.

Lemma framed_goto w1 p' :
  kept (sv_threads w, sv_next w) (sv_threads w1, sv_next w1) -> (isdone w -> isdone w1) ->
  (forall x, pub_pc p' = Some (s, x) -> pub_pc (th_pc th) = Some (s, x)) -> (p' = WFlush c -> isdone w1) ->
  framed t' w (goto t' p' w1).
Proof.
  intros K C Hpub Hf. eapply framed_by; [exact K|exact C|done|..].
  - intros n Hn. cbn. by rewrite lookup_alter_ne.
  - intros th2. cbn. rewrite lookup_alter_eq. destruct (sv_threads w1 !! t'); [|done]. intros [= <-]. cbn. auto.
Qed.

Lemma framed_stay w1 :
  kept (sv_threads w, sv_next w) (sv_threads w1, sv_next w1) -> (isdone w -> isdone w1) -> framed t' w w1.
Proof.
  intros K C. eapply framed_by; [exact K|done..|]. intros th2 H2.
  destruct (thread_cases _ _ _ K H2) as [H|H]; [|by destruct (th_pc th2)].
  assert (th2 = th) as -> by congruence. auto.
Qed.

Lemma settled_goto w1 p' :
  kept (sv_threads w, sv_next w) (sv_threads w1, sv_next w1) -> calm w w1 ->
  (forall x, pub_pc p' = Some (s, x) -> pub_pc (th_pc th) = Some (s, x)) -> (p' = WFlush c -> isdone w1) ->
  settled t' w (goto t' p' w1).
Proof.
  intros K C Hpub Hf. split; [eapply calm_trans; [exact C|by apply calm_fields]|].
  apply framed_goto; [done|apply C|done|done].
Qed.

Lemma settled_finish w1 :
  kept (sv_threads w, sv_next w) (sv_threads w1, sv_next w1) -> calm w w1 -> settled t' w (finish t' w1).
Proof.
  intros K C.
  assert (Ef : sv_threads (finish t' w1) = delete t' (sv_threads w1) /\ sv_next (finish t' w1) = sv_next w1)
    by (unfold finish; by destruct (th_kind <$> _) as [[]|]). destruct Ef as [E1 E2].
  assert (C' : calm w (finish t' w1)).
  { eapply calm_trans; [exact C|]. apply calm_fields; unfold finish; by destruct (th_kind <$> _) as [[]|]. }
  split; [done|]. eapply framed_by; [exact K|apply C'|done|..].
  - intros n Hn. by rewrite E1, lookup_delete_ne.
  - intros th2. by rewrite E1, lookup_delete_eq.
Qed.

Lemma settled_stay w1 :
  kept (sv_threads w, sv_next w) (sv_threads w1, sv_next w1) -> calm w w1 -> settled t' w w1.
Proof. intros K C. split; [done|]. apply framed_stay; [done|apply C]. Qed.

Lemma kept_self : kept (sv_threads w, sv_next w) (sv_threads w, sv_next w).
Proof. done. Qed.

Lemma adv_kept w1 : advances home owner w w1 -> kept (sv_threads w, sv_next w) (sv_threads w1, sv_next w1).
Proof. by intros (_ & K & _). Qed.

Lemma settled_handleStart o conn : th_pc th = HStart conn -> settled t' w (handleStart o t' conn w).
Proof.
  intros E. pose proof (thread_pc_inv _ _ _ _ _ HI Ht _ E) as Ho. cbn in Ho. unfold handleStart.
  destruct (sv_conns w !! conn) as [nc|] eqn:Hn; [|apply settled_finish; [done|apply calm_refl]].
  destruct (if sv_trustProxy w then _ else _) as [[rest ra] err].
  set (w1 := set_conns _ w). assert (C1 : calm w w1).
  { eapply (calm_conn _ _ conn (fun x => mkConn rest (c_out x) (c_writes x) (c_closed x))); try done; try congruence.
    cbn. by apply insert_on_conn. }
  assert (C2 : forall f g, calm w (closeConn conn (set_metrics f (set_rateLimiter g w1)))).
  { intros f g. eapply calm_trans; [exact C1|]. eapply calm_trans; [|apply calm_closeConn; exact HI]. by apply calm_fields. }
  destruct err.
  - apply settled_finish; [done|]. eapply calm_trans; [exact C1|]. apply calm_closeConn. exact HI.
  - destruct (IsBanned _ _ _) as [[] rl].
    + apply settled_finish; [done|]. apply C2.
    + apply settled_goto; [done| |done|done]. eapply calm_trans; [exact C1|]. by apply calm_fields.
Qed.

Lemma calm_getOrCreate w1 id : inv home owner w1 -> calm w1 (snd (getOrCreateSession id w1)).
Proof.
  intros HI1. unfold getOrCreateSession. destruct (sv_sessions w1 !! id); [apply calm_refl|]. cbn [snd].
  destruct (i_fresh _ _ _ _ _ _ _ _ HI1 (sv_next w1) ltac:(lia)) as (_ & Hn & _).
  destruct (i_home _ _ _ _ _ _ _ _ HI1 _ _ Hc) as (_ & rs & _ & Hs & _). cbn in Hs.
  assert (Hne : sv_next w1 <> s) by congruence.
  split; [split|]; unfold pend, in_of, good, isclosed, isfiled, isdone; fields; rewrite ?lookup_insert_ne by done; auto.
Qed.

Lemma settled_handleDecode conn ra : th_pc th = HDecode conn ra -> settled t' w (handleDecode pool t' conn ra w).
Proof.
  intros E. pose proof (thread_pc_inv _ _ _ _ _ HI Ht _ E) as Ho. cbn in Ho. unfold handleDecode.
  pose proof (calm_decode w MaxHandshakePayload conn HI ltac:(congruence)) as C1.
  destruct (decodeFrom_conn _ _ w) as [r w1] eqn:E1.
  pose proof (inv_decodeFrom_conn _ _ _ _ _ HI E1) as A1. pose proof (proj1 A1) as HI1. cbn [snd] in C1.
  assert (Hfin : forall f g, settled t' w (finish t' (set_metrics f (set_rateLimiter g (closeConn conn w1))))).
  { intros f g. apply settled_finish; [exact (adv_kept _ A1)|]. eapply calm_trans; [exact C1|].
    eapply calm_trans; [apply (calm_closeConn w1 conn HI1)|]. by apply calm_fields. }
  assert (Hfin' : forall f, settled t' w (finish t' (closeConn conn (set_rateLimiter f w1)))).
  { intros f. apply settled_finish; [exact (adv_kept _ A1)|]. eapply calm_trans; [exact C1|].
    eapply calm_trans; [|apply calm_closeConn; exact HI1]. by apply calm_fields. }
  destruct r as [env|e].
  - assert (Hgo : forall q s0 w2, getOrCreateSession (env_SessionID env) w1 = (s0, w2) -> pub_pc q = None ->
      (forall x, q <> WFlush x) -> settled t' w (goto t' q w2)).
    { intros q s0 w2 Eg Hq Hq'. pose proof (calm_getOrCreate w1 (env_SessionID env) HI1) as C2. rewrite Eg in C2.
      apply settled_goto; [|by eapply calm_trans|by rewrite Hq|by intros ->; destruct (Hq' c)].
      eapply adv_kept, advances_trans; [exact A1|]. intros _. by apply (inv_getOrCreateSession _ _ _ _ HI1 Eg). }
    repeat case_match; eauto.
    apply settled_goto; [exact (adv_kept _ A1)|exact C1|done|done].
  - apply settled_finish.
    + etrans; [exact (adv_kept _ A1)|]. destruct (decode_error_is_EOF e), e; try done;
        destruct (encodeTo_conn pool conn closeEnv w1) as [r w2] eqn:E2;
        exact (proj1 (proj2 (inv_encodeTo_conn _ _ _ _ _ _ HI1 E2))).
    + eapply calm_trans; [exact C1|].
      pose proof (calm_encode w1 conn closeEnv HI1 ltac:(congruence)) as C2.
      destruct (encodeTo_conn pool conn closeEnv w1) as [r w2] eqn:E2. cbn [snd] in *.
      pose proof (proj1 (inv_encodeTo_conn _ _ _ _ _ _ HI1 E2)) as HI2.
      assert (C3 : forall f g, calm w1 (closeConn conn (set_metrics f (set_rateLimiter g w1)))).
      { intros f g. eapply calm_trans; [|apply calm_closeConn; exact HI1]. by apply calm_fields. }
      assert (C4 : calm w1 (closeConn conn w2)) by (eapply calm_trans; [exact C2|by apply calm_closeConn]).
      assert (C5 : calm w1 (closeConn conn w1)) by (by apply calm_closeConn).
      destruct (decode_error_is_EOF e), e; try exact C5; try exact C4; apply C3.
Qed.

(** A new client is neither the subscriber nor the publisher. *)
Lemma not_next : c <> sv_next w /\ p <> sv_next w.
Proof using HI Hc Hp.
  destruct (i_fresh _ _ _ _ _ _ _ _ HI (sv_next w) ltac:(lia)) as (_ & _ & _ & Hn & _). split; congruence.
Qed.

Lemma calm_new_client w1 w2 cl :
  sv_clients w2 = <[sv_next w := cl]> (sv_clients w1) -> sv_conns w2 = sv_conns w1 -> sv_heap w2 = sv_heap w1 -> calm w1 w2.
Proof using HI Hc Hp.
  intros E1 E2 E3. destruct not_next as [N1 N2].
  split; [split|]; unfold pend, in_of, good, isclosed, isfiled, isdone; rewrite ?E1, ?E2, ?E3, ?lookup_insert_ne by done; auto.
Qed.

Lemma settled_registerPub conn env s' :
  good w -> th_pc th = HRegisterPub conn env s' -> settled t' w (handleRegisterPub t' conn env s' w).
Proof.
  intros (G1 & G2 & G3) E. destruct (thread_pc_inv _ _ _ _ _ HI Ht _ E) as [Ho Hsid].
  destruct (session_exists w _ _ Hsid) as (rs & Hs & _). unfold handleRegisterPub.
  destruct (RegisterPublisher_cases home owner s' conn env w rs HI Hs) as [(old & clo & _ & _ & _ & ->)|[Hold ->]].
  - apply settled_finish; [done|]. eapply calm_trans; [by apply (calm_closeConn w conn)|]. apply calm_closeConn. exact HI.
  - assert (Hne : s' <> s).
    { intros ->. rewrite Hs in G2. cbn in G2. destruct (sv_clients w !! p) as [cl|] eqn:Hcl; [|done].
      cbn in G3. rewrite (Hold p cl G2 Hcl) in G3. done. }
    apply settled_goto; [| | |done].
    + split_and!; cbn; [lia|done|by left].
    + apply (calm_trans _ (set_clients (insert (sv_next w) (mkClientConn conn 1 (Some env) [] false)) w));
        [by eapply calm_new_client|].
      eapply (calm_heap _ _ s' rs); [exact Hs|reflexivity|reflexivity|reflexivity|done|done].
    + cbn. intros x [= <- _]. done.
Qed.

Lemma settled_registerSub conn env s' :
  th_pc th = HRegisterSub conn env s' -> settled t' w (handleRegisterSub t' conn env s' w).
Proof.
  intros E. destruct (thread_pc_inv _ _ _ _ _ HI Ht _ E) as [Ho Hsid].
  destruct (session_exists w _ _ Hsid) as (rs & Hs & _). unfold handleRegisterSub.
  destruct (RegisterSubscriber_eq s' conn env w rs Hs) as [addr ->]. destruct not_next as [N1 _].
  apply settled_goto; [| |done|done].
  - split_and!; cbn; [lia|..].
    + intros n Hn. by rewrite lookup_insert_ne by lia.
    + intros n th' Hn. destruct (decide (S (sv_next w) = n)) as [<-|Hne].
      * rewrite lookup_insert_eq. intros [= <-]. by right.
      * rewrite lookup_insert_ne by done. by left.
  - apply (calm_trans _ (set_clients (insert (sv_next w) (mkClientConn conn 2 (Some env) [] false)) w));
      [by eapply calm_new_client|].
    eapply (calm_heap _ _ s' rs); [exact Hs|reflexivity|reflexivity|reflexivity|done|].
    intros _. cbn. rewrite lookup_insert_Some. intros [[_ H]|[_ H]]; [congruence|done].
Qed.

(** Writing to the subscriber itself. *)
Lemma calm_write cl env q w1 r :
  sv_clients w !! c = Some cl -> cl_sendCh cl = env :: q ->
  encodeTo_conn pool (cl_netConn cl) env (set_clients (insert c (set_sendCh q cl)) w) = (r, w1) ->
  calm w (match r with Ok _ => w1 | Err _ => ClientConn_Close c w1 end).
Proof using HI Hc Hp.
  intros Hcl Hq E. set (w0 := set_clients (insert c (set_sendCh q cl)) w) in *.
  assert (Hcp : c <> p) by congruence.
  assert (HI0 : inv home owner w0) by (by eapply inv_dequeue).
  pose proof (proj1 (inv_encodeTo_conn _ _ _ _ _ _ HI0 E)) as HI1.
  assert (Hcl0 : sv_clients w0 !! c = Some (set_sendCh q cl)) by (unfold w0; fields; by rewrite lookup_insert_eq).
  (* away from the subscriber's queue and output nothing happens *)
  assert (Ef : sv_clients w1 = sv_clients w0 /\ sv_heap w1 = sv_heap w /\ in_of w1 = in_of w).
  { unfold encodeTo_conn in E. assert (Hin0 : in_of w0 = in_of w) by (unfold in_of, w0; fields; by rewrite lookup_insert_ne).
    destruct (sv_conns w0 !! cl_netConn cl) as [nc|] eqn:Hnc; [|by injection E as <- <-].
    pose proof (conn_encode_in (stalePool pool) env (nc_conn nc)) as Hin.
    destruct (conn_encode _ _ _) as [r1 x]. injection E as <- <-. split_and!; [done..|]. rewrite <- Hin0.
    unfold in_of. fields. destruct (sv_clients w0 !! p) as [clp|] eqn:Hclp; [|done]. cbn.
    rewrite lookup_insert_ne; [done|]. intros Ec.
    destruct (i_client _ _ _ _ _ _ _ _ HI0 c _ Hcl0) as (_ & O1 & _).
    destruct (i_client _ _ _ _ _ _ _ _ HI0 p _ Hclp) as (_ & O2 & _). cbn in O1. congruence. }
  destruct Ef as (E1 & E2 & E3).
  assert (Hg : good w -> good w1).
  { unfold good. rewrite E1, E2. unfold w0. fields. by rewrite lookup_insert_ne. }
  assert (M1 : forall b, pend w = Some b -> match r with Ok _ => pend w1 = Some b | Err _ => True end).
  { intros b. destruct r as [[]|]; [|done]. unfold pend. rewrite Hcl, E1, Hcl0. cbn.
    unfold encodeTo_conn in E. change (sv_conns w0) with (sv_conns w) in E.
    destruct (sv_conns w !! cl_netConn cl) as [nc|] eqn:Hnc; [|done]. cbn. rewrite Hq. cbn.
    unfold conn_encode in E. unfold enc at 1. destruct (Encode (stalePool pool) env) as [bs|] eqn:Ee; [|done].
    unfold conn_write in E. repeat case_match; simplify_eq; fields; rewrite lookup_insert_eq; cbn; by rewrite <- app_assoc. }
  assert (Hd1 : isdone w -> isdone w1).
  { unfold isdone. rewrite E1, Hcl0, Hcl. done. }
  assert (C1 : match r with Ok _ => calm w w1 | Err _ => True end).
  { destruct r; [|done]. split; [split|]; unfold isclosed, isfiled; rewrite ?E2; auto. }
  destruct r; [done|].
  destruct (calm_Close w1 c HI1) as [_ C2]. specialize (C2 Hcp). destruct C2 as [[_ K2 K3 K4 K5] K6].
  assert (Hdone : isdone (ClientConn_Close c w1)).
  { unfold isdone. destruct (ClientConn_Close_keeps c c (set_sendCh q cl) w1) as (cl2 & F & _); [by rewrite E1|].
    rewrite F. cbn. f_equal. eapply ClientConn_Close_done; [exact F|by left]. }
  split; [split|].
  - by right.
  - congruence.
  - intros H. apply K3. unfold isclosed in *. by rewrite E2.
  - intros H. apply K4 in H. unfold isfiled in *. by rewrite E2 in H.
  - done.
  - intros H. by apply K6, Hg.
Qed.

Lemma settled_write o x w' :
  th_pc th = WLoop x -> writeLoop pool o t' x w = Some w' -> settled t' w w'.
Proof using HI Hc Hp Ht.
  intros E Hs. unfold writeLoop in Hs. destruct (sv_clients w !! x) as [clx|] eqn:Hx; [|done].
  assert (Hfl : cl_done clx = true -> settled t' w (goto t' (WFlush x) w)).
  { intros Hd. apply settled_goto; [done|apply calm_refl|done|]. intros [= ->]. unfold isdone. rewrite Hx. cbn. by rewrite Hd. }
  destruct (cl_sendCh clx) as [|env q] eqn:Hq.
  { destruct (cl_done clx); simplify_eq. by apply Hfl. }
  destruct (cl_done clx && o_select o) eqn:Hb.
  { apply andb_true_iff in Hb as [Hb _]. simplify_eq. by apply Hfl. }
  destruct (encodeTo_conn _ _ _ _) as [r w1] eqn:E1. injection Hs as <-.
  pose proof (inv_dequeue _ _ w HI x clx env q Hx Hq) as HI0.
  pose proof (inv_encodeTo_conn _ _ _ _ _ _ HI0 E1) as A1.
  assert (C : calm w (match r with Ok _ => w1 | Err _ => ClientConn_Close x w1 end)).
  { destruct (decide (x = c)) as [->|Hne]; [by eapply calm_write|].
    assert (Hxp : x <> p).
    { pose proof (thread_pc_inv _ _ _ _ _ HI Ht _ E) as (s0 & k0 & t0 & Hh). intros ->. congruence. }
    assert (C0 : calm w (set_clients (insert x (set_sendCh q clx)) w)) by (by eapply (calm_client _ _ x clx)).
    pose proof (calm_encode _ (cl_netConn clx) env HI0 (client_conn_not w x clx c HI Hx Hne)) as C1.
    rewrite E1 in C1. cbn [snd] in C1. destruct r; [by eapply calm_trans|].
    eapply calm_trans; [exact C0|]. eapply calm_trans; [exact C1|]. by apply (calm_Close w1 x (proj1 A1)). }
  destruct r.
  - apply settled_stay; [exact (proj1 (proj2 A1))|exact C].
  - apply settled_finish; [|exact C]. etrans; [exact (proj1 (proj2 A1))|].
    exact (proj1 (proj2 (inv_ClientConn_Close w1 x (proj1 A1)))).
Qed.

Lemma settled_flush x : flushed w -> th_pc th = WFlush x -> settled t' w (writeFlush pool t' x w).
Proof using HI Hc Hp Ht.
  intros Hf E. unfold writeFlush. destruct (sv_clients w !! x) as [clx|] eqn:Hx; [|apply settled_finish; [done|apply calm_refl]].
  destruct (cl_sendCh clx) as [|env q] eqn:Hq; [apply settled_finish; [done|apply calm_refl]|].
  destruct (encodeTo_conn _ _ _ _) as [r w1] eqn:E1. cbn [snd].
  pose proof (inv_dequeue _ _ w HI x clx env q Hx Hq) as HI0.
  pose proof (inv_encodeTo_conn _ _ _ _ _ _ HI0 E1) as A1.
  apply settled_stay; [exact (proj1 (proj2 A1))|].
  destruct (decide (x = c)) as [->|Hne].
  - pose proof (calm_write clx env q w1 r Hx Hq E1) as C. destruct r; [done|].
    (* an error in the draining phase: the subscriber is closed already *)
    pose proof (Hf t' th Ht E) as Hd. unfold ClientConn_Close in C.
    assert (Ec : sv_clients w1 !! c = Some (set_sendCh q clx)).
    { unfold encodeTo_conn in E1. destruct (sv_conns _ !! _); [destruct (conn_encode _ _ _)|]; injection E1 as _ <-;
        fields; by rewrite lookup_insert_eq. }
    rewrite Ec in C. unfold isdone in Hd. rewrite Hx in Hd. cbn in Hd. injection Hd as Hd.
    cbn in C. by rewrite Hd in C.
  - assert (Hxp : x <> p).
    { pose proof (thread_pc_inv _ _ _ _ _ HI Ht _ E) as (s0 & k0 & t0 & Hh). intros ->. congruence. }
    assert (C0 : calm w (set_clients (insert x (set_sendCh q clx)) w)) by (by eapply (calm_client _ _ x clx)).
    pose proof (calm_encode _ (cl_netConn clx) env HI0 (client_conn_not w x clx c HI Hx Hne)) as C1.
    rewrite E1 in C1. cbn [snd] in C1. by eapply calm_trans.
Qed.

Lemma settled_sendFrame o x env r w1 q :
  x <> c -> SendFrame pool o x env w = Some (r, w1) ->
  (forall y, pub_pc q = Some (s, y) -> pub_pc (th_pc th) = Some (s, y)) -> (forall y, q <> WFlush y) ->
  settled t' w (goto t' q w1).
Proof using HI Hc Hp Ht.
  intros Hx E Hq Hq'. apply settled_goto; [|by eapply calm_SendFrame|done|by intros ->; destruct (Hq' c)].
  exact (adv_kept _ (inv_SendFrame _ _ _ _ _ _ _ HI E)).
Qed.

(** The conditions under which the steps of the others are looked at. *)
Context (Hne : t' <> t) (Hgood : good w) (Honly : only w) (Hflush : flushed w).

Lemma settled_pubForward o s' q env todo subs hit w' :
  th_pc th = PubForward s' q env todo subs hit -> pubForward pool o t' s' q env todo subs hit w = Some w' ->
  settled t' w w'.
Proof using HI Hc Hp Ht Hne Hgood Honly.
  intros E Hs. destruct (thread_pc_inv _ _ _ _ _ HI Ht _ E) as (Hh & Htodo & _).
  assert (Hs' : s' <> s). { intros ->. apply Hne. eapply Honly; [done|]. by rewrite E. }
  unfold pubForward in Hs. destruct todo as [|[k x] todo].
  - injection Hs as <-. apply settled_goto; [done|apply calm_refl| |].
    + intros y. unfold pubNext. destruct hit; [|case_bool_decide]; cbn; congruence.
    + unfold pubNext. by destruct hit; [|case_bool_decide].
  - inversion Htodo as [|? ? [t0 Hsub] _]; subst. cbn in Hsub. assert (Hx : x <> c) by congruence.
    destruct (SendFrame _ _ _ _ _) as [[[]  w1]|] eqn:E1; [..|done]; injection Hs as <-.
    + eapply settled_sendFrame; [exact Hx|exact E1|cbn; congruence|done].
    + apply settled_goto; [| |cbn; congruence|done].
      * etrans; [exact (adv_kept _ (inv_SendFrame _ _ _ _ _ _ _ HI E1))|].
        refine (proj1 (proj2 (inv_spawn (home := home) (owner := owner) w1 GoHelper (RemoveSub s' k) _ _ _)));
          [by apply (inv_SendFrame _ _ _ _ _ _ _ HI E1)|by exists x, t0|done].
      * eapply calm_trans; [by eapply calm_SendFrame|]. by apply calm_fields.
Qed.

Lemma settled_decode max x k s' :
  home !! x = Some (mkHome s' k t') ->
  let w1 := snd (decodeFrom_conn max (clientConnOf x w) w) in
  calm w w1 /\ advances home owner w w1.
Proof using HI Hc Hp Ht Hne.
  intros Hh. assert (Hx : x <> p) by congruence.
  destruct (i_home _ _ _ _ _ _ _ _ HI _ _ Hh) as (clx & _ & Hcx & _). unfold clientConnOf. rewrite Hcx.
  pose proof (calm_decode w max (cl_netConn clx) HI (client_conn_not w x clx p HI Hcx Hx)) as C.
  destruct (decodeFrom_conn _ _ _) as [r w1] eqn:E1. split; [exact C|]. by eapply inv_decodeFrom_conn.
Qed.

Lemma settled_pubLoop o s' x :
  th_pc th = PubLoop s' x -> settled t' w (pubLoop o t' s' x w).
Proof using HI Hc Hp Ht Hne.
  intros E. pose proof (thread_pc_inv _ _ _ _ _ HI Ht _ E) as Hh. unfold pubLoop.
  destruct (settled_decode MaxPayloadSize x None s' Hh) as [C A].
  destruct (decodeFrom_conn _ _ _) as [[env|e] w1]; cbn [snd] in *;
    [|apply settled_goto; [exact (adv_kept _ A)|exact C|by rewrite E|done]].
  destruct (bool_decide _); [apply settled_stay; [exact (adv_kept _ A)|exact C]|].
  destruct (bool_decide _); (apply settled_goto; [exact (adv_kept _ A)| |by rewrite E|done]); [exact C|].
  eapply calm_trans; [exact C|by apply calm_fields].
Qed.

Lemma settled_subLoop o s' x k w' :
  home !! x = Some (mkHome s' (Some k) t') -> subLoop pool o t' s' x k w = Some w' -> settled t' w w'.
Proof using HI Hc Hp Ht Hne.
  intros Hh Hs. unfold subLoop in Hs. destruct (settled_decode MaxPayloadSize x (Some k) s' Hh) as [C A].
  destruct (decodeFrom_conn _ _ _) as [[env|e] w1]; cbn [snd] in *;
    [|injection Hs as <-; apply settled_goto; [exact (adv_kept _ A)|exact C|done|done]].
  assert (Hst : settled t' w w1) by (apply settled_stay; [exact (adv_kept _ A)|exact C]).
  destruct (bool_decide _); [by injection Hs as <-|]. destruct (_ || _); [|by injection Hs as <-].
  destruct (ForwardToPublisher _ _ _ _ _) as [[r w2]|] eqn:E1; [|done]. injection Hs as <-.
  pose proof (inv_ForwardToPublisher _ _ _ _ _ _ _ (proj1 A) E1) as A1.
  apply settled_stay; [|eapply calm_trans; [exact C|eapply calm_ForwardToPublisher; [exact (proj1 A)|done]]].
  etrans; [exact (adv_kept _ A)|exact (proj1 (proj2 A1))].
Qed.

Lemma settled_step o w' : thread_step pool o t' w = Some w' -> settled t' w w'.
Proof using HI Hc Hp Ht Hne Hgood Honly Hflush.
  unfold thread_step. rewrite Ht. cbn [fmap option_fmap option_map].
  pose proof (thread_pc_inv _ _ _ _ _ HI Ht) as Hpc.
  assert (Hgo : forall q, pub_pc q = None \/ pub_pc q = pub_pc (th_pc th) -> (forall y, q <> WFlush y) ->
    settled t' w (goto t' q w)).
  { intros q Hq Hq'. apply settled_goto; [done|apply calm_refl|intros y; destruct Hq; congruence|by intros ->; destruct (Hq' c)]. }
  destruct (th_pc th) eqn:E; specialize (Hpc _ eq_refl); cbn [pc_inv] in Hpc; intros Hs; try (injection Hs as <-).
  - by apply settled_handleStart.
  - by apply settled_handleDecode.
  - by apply settled_registerPub.
  - apply Hgo; [by right|done].
  - destruct Hpc as [Hh _]. unfold handleGreetPub in Hs.
    destruct todo as [|sub todo]; [injection Hs as <-; apply Hgo; [by right|done]|].
    destruct (_ ≫= cl_initialEnv); [|injection Hs as <-; apply Hgo; [by right|done]].
    destruct (SendFrame _ _ _ _ _) as [[r w1]|] eqn:E1; [|done]. injection Hs as <-.
    eapply settled_sendFrame; [|exact E1|by rewrite E|done]. congruence.
  - by apply settled_registerSub.
  - unfold handleNotifyPub in Hs. destruct (sv_heap w !! s0) as [rs|] eqn:Hrs; [|injection Hs as <-; apply Hgo; [by left|done]].
    cbn in Hs. destruct (rs_publisher rs) as [q|] eqn:Hq; [|injection Hs as <-; apply Hgo; [by left|done]].
    destruct (SendFrame _ _ _ _ _) as [[r w1]|] eqn:E1; [|done]. injection Hs as <-.
    destruct (i_session _ _ _ _ _ _ _ _ HI s0 rs Hrs) as [Hpub _]. destruct (Hpub q Hq) as [t0 Ht0].
    eapply settled_sendFrame; [|exact E1|done|done]. congruence.
  - unfold handleSyncReq in Hs.
    assert (Hcl : settled t' w (finish t' (closeConn conn w))) by (apply settled_finish; [done|by apply calm_closeConn]).
    destruct (_ ≫= rs_publisher); [|by injection Hs as <-]. destruct (_ =? _)%nat; [by injection Hs as <-|].
    destruct (ForwardToPublisher _ _ _ _ _) as [[r w1]|] eqn:E1; [|done]. injection Hs as <-.
    pose proof (inv_ForwardToPublisher _ _ _ _ _ _ _ HI E1) as A1. apply settled_finish; [exact (adv_kept _ A1)|].
    eapply calm_trans; [by eapply calm_ForwardToPublisher|]. apply calm_closeConn. exact (proj1 A1).
  - by apply settled_pubLoop.
  - by eapply settled_pubForward.
  - unfold pubDrain in Hs. repeat case_match; simplify_eq; (apply Hgo; [right; try done|try done]);
      unfold pubNext; by case_bool_decide.
  - apply settled_finish; [exact (adv_kept _ (inv_removeSession _ _ HI))|by apply calm_removeSession].
  - by eapply settled_subLoop.
  - apply settled_goto; [exact (adv_kept _ (inv_RemoveSubscriber _ _ _ HI))|by apply calm_RemoveSubscriber|done|done].
  - unfold subCheck. repeat case_match; try (apply settled_finish; [done|apply calm_refl]). apply Hgo; [by left|done].
  - apply settled_finish; [exact (adv_kept _ (inv_removeSession _ _ HI))|by apply calm_removeSession].
  - by eapply settled_write.
  - by apply settled_flush.
  - apply settled_finish; [exact (adv_kept _ (inv_RemoveSubscriber _ _ _ HI))|by apply calm_RemoveSubscriber].
  - apply settled_finish; [done|by apply calm_closeConn].
Qed.

End Other.

(** ** Steps of the listener, the clock, maintenance and shutdown *)

Lemma framed_env w w' :
  inv home owner w -> kept (sv_threads w, sv_next w) (sv_threads w', sv_next w') -> (isdone w -> isdone w') ->
  framed (sv_next w) w w'.
Proof.
  intros HI K Hd. split_and!; [apply K|by intros n _ Hn; apply K|..].
  - intros Ho n th x Hn Hx. destruct (thread_cases w w' n th K Hn) as [H|H%fresh_not_pub]; [by eapply Ho|congruence].
  - intros Hf n th Hn Hx. destruct (thread_cases w w' n th K Hn) as [H|H]; [|by rewrite Hx in H].
    apply Hd. by eapply Hf.
Qed.

Lemma calm_fold_sessions f l w :
  (forall w id s', inv home owner w -> sv_sessions w !! id = Some s' ->
     f w (id, s') = w \/ f w (id, s') = set_sessions (delete id) (RelaySession_Close s' w) \/
     f w (id, s') = set_metrics (addActiveSessions (-1)) (set_sessions (delete id) (RelaySession_Close s' w))) ->
  inv home owner w -> NoDup l.*1 -> (forall id s', (id, s') ∈ l -> sv_sessions w !! id = Some s') ->
  calm w (fold_left f l w).
Proof using Hc Hp.
  intros Hf. revert w. induction l as [|[id s'] l IH]; intros w HI Hnd Hl; [apply calm_refl|].
  cbn in Hnd. apply NoDup_cons in Hnd as [Hnin Hnd]. cbn [fold_left].
  pose proof (Hl _ _ (list_elem_of_here _ _)) as Hs.
  pose proof (calm_drop w id s' HI Hs) as C. pose proof (inv_drop_session id s' w HI Hs) as A.
  pose proof (drop_session_others id s' w) as D.
  assert (Hstep : calm w (f w (id, s')) /\ inv home owner (f w (id, s')) /\
    forall id', id' <> id -> sv_sessions (f w (id, s')) !! id' = sv_sessions w !! id').
  { destruct (Hf w id s' HI Hs) as [->|[-> | ->]]; split_and!; try done; try apply calm_refl; try exact (proj1 A).
    eapply calm_trans; [exact C|by apply calm_fields]. }
  destruct Hstep as (C1 & HI1 & D1). eapply calm_trans; [exact C1|]. apply IH; [done|done|].
  intros id' s1 Hin. rewrite D1; [by apply Hl, list_elem_of_further|]. intros ->. apply Hnin.
  apply list_elem_of_fmap. by exists (id, s1).
Qed.

(** A new socket is nobody's yet. *)
Lemma calm_new_conn w w' :
  inv home owner w -> sv_clients w' = sv_clients w -> sv_heap w' = sv_heap w ->
  (forall i, i <> sv_next w -> sv_conns w' !! i = sv_conns w !! i) -> calm w w'.
Proof.
  intros HI E1 E2 E3. destruct (i_fresh _ _ _ _ _ _ _ _ HI (sv_next w) ltac:(lia)) as (_ & _ & _ & _ & No).
  assert (Hl : forall x cl, sv_clients w !! x = Some cl -> sv_conns w' !! cl_netConn cl = sv_conns w !! cl_netConn cl).
  { intros x cl Hx. apply E3. destruct (i_client _ _ _ _ _ _ _ _ HI x cl Hx) as (_ & Ho & _). congruence. }
  assert (Ep : pend w' = pend w).
  { unfold pend. rewrite E1. destruct (sv_clients w !! c) as [cl|] eqn:Hcl; [|done]. cbn. by rewrite (Hl c cl Hcl). }
  assert (Ei : in_of w' = in_of w).
  { unfold in_of. rewrite E1. destruct (sv_clients w !! p) as [cl|] eqn:Hcl; [|done]. cbn. by rewrite (Hl p cl Hcl). }
  split; [split; [rewrite Ep; auto|done|..]|]; unfold good, isclosed, isfiled, isdone; rewrite ?E1, ?E2; auto.
Qed.

Lemma settled_accept k nc w : inv home owner w -> settled (sv_next w) w (accept k nc w).
Proof.
  intros HI. assert (C : calm w (accept k nc w)).
  { apply calm_new_conn; [done|..]; unfold accept; destruct (MaxActiveConnections <=? _); try (by destruct k).
    - intros i Hi. cbn. by rewrite lookup_alter_ne, lookup_insert_ne by done.
    - intros i Hi. destruct k; cbn; by rewrite lookup_insert_ne by done. }
  split; [done|]. apply framed_env; [done| |apply C]. unfold accept. destruct (MaxActiveConnections <=? _).
  - split_and!; cbn; [lia|done|by left].
  - assert (K : kept (sv_threads w, sv_next w)
      (<[S (sv_next w) := mkThread k (HStart (sv_next w))]> (sv_threads w), S (S (sv_next w)))).
    { split_and!; cbn; [lia|..].
      - intros n Hn. by rewrite lookup_insert_ne by lia.
      - intros n th Hn. destruct (decide (S (sv_next w) = n)) as [<-|Hne].
        + rewrite lookup_insert_eq. intros [= <-]. by right.
        + rewrite lookup_insert_ne by done. by left. }
    destruct k; exact K.
Qed.

Lemma env_step l w w' :
  inv home owner w -> (forall t' o, l <> LRun t' o) -> relay_next pool l w = Some w' ->
  settled (sv_next w) w w'.
Proof using Hc Hp.
  intros HI Hnr E.
  assert (Hsame : forall w', sv_clients w' = sv_clients w -> sv_conns w' = sv_conns w -> sv_heap w' = sv_heap w ->
    sv_threads w' = sv_threads w -> sv_next w' = sv_next w -> settled (sv_next w) w w').
  { intros w1 E1 E2 E3 E4 E5. pose proof (calm_fields w w1 E1 E2 E3) as C. split; [done|].
    apply framed_env; [done|by rewrite E4, E5|apply C]. }
  assert (Hfold : forall f w0, sv_clients w0 = sv_clients w -> sv_conns w0 = sv_conns w -> sv_heap w0 = sv_heap w ->
    sv_threads w0 = sv_threads w -> sv_next w0 = sv_next w -> inv home owner w0 ->
    (forall w id s', inv home owner w -> sv_sessions w !! id = Some s' ->
     f w (id, s') = w \/ f w (id, s') = set_sessions (delete id) (RelaySession_Close s' w) \/
     f w (id, s') = set_metrics (addActiveSessions (-1)) (set_sessions (delete id) (RelaySession_Close s' w))) ->
    settled (sv_next w) w (fold_left f (map_to_list (sv_sessions w0)) w0)).
  { intros f w0 E1 E2 E3 E4 E5 HI0 Hf.
    assert (C : calm w (fold_left f (map_to_list (sv_sessions w0)) w0)).
    { apply (calm_trans _ w0); [by apply calm_fields|]. apply calm_fold_sessions; [done|done|apply NoDup_fst_map_to_list|].
      intros id s'. by rewrite elem_of_map_to_list. }
    split; [done|]. apply framed_env; [done| |apply C]. rewrite <- E4, <- E5.
    exact (proj1 (proj2 (inv_fold_sessions home owner f w0 Hf HI0))). }
  destruct l as [k nc|t' o|dt| | |b|b]; cbn [relay_next] in E.
  - destruct k; simplify_eq; by apply settled_accept.
  - by destruct (Hnr t' o).
  - destruct (0 <=? dt); simplify_eq. by apply Hsame.
  - simplify_eq. unfold maintenance. rewrite reapStaleSessions_fold. apply Hfold; try done.
    intros w1 id s' HI1 Hs1. unfold reap_one. cbn. destruct (sv_heap w1 !! s'); [|by left].
    destruct (IsReapable _ _); [right; by right|by left].
  - simplify_eq. apply Hfold; try done. intros w1 id s' _ _. right. by left.
  - simplify_eq. by apply Hsame.
  - simplify_eq. by apply Hsame.
Qed.

(** ** The publisher's own steps *)

(** The subscriber is being removed. *)
Definition removing (w : Server) : Prop :=
  exists n th, sv_threads w !! n = Some th /\ th_pc th = RemoveSub s key.

(** The subscriber has not been dropped and the session is not closed. *)
Definition alive (w : Server) : Prop := ~ isclosed w /\ ~ isdone w /\ isfiled w /\ ~ removing w.

(** What still has to come after the current frame. *)
Definition after (env : Envelope) (fs : list Envelope) : bytes :=
  if bool_decide (env_MsgType env = MsgTypeClose) then [] else wire (relayed fs).

Context (total : bytes) (rest : reader).

Definition unread (fs : list Envelope) (w : Server) : Prop :=
  in_of w = Some (reader_of (wire fs) ++ rest) /\ Forall (Envelope_ok MaxPayloadSize) fs.

(** The publisher's goroutine, and what is to be forwarded from here: [b] has
    been, [b] followed by what is left is everything. *)
Inductive phase (w : Server) (b : bytes) : option pc -> Prop :=
  | ph_loop fs : unread fs w -> b ++ wire (relayed fs) = total -> phase w b (Some (PubLoop s p))
  | ph_forward env todo subs hit fs : unread fs w -> Envelope_ok MaxPayloadSize env -> NoDup todo ->
      b ++ (if bool_decide ((key, c) ∈ todo) then frame_bytes env else []) ++ after env fs = total ->
      phase w b (Some (PubForward s p env todo subs hit))
  | ph_drain env todo dl fs : unread fs w -> b ++ after env fs = total -> phase w b (Some (PubDrain s p env todo dl))
  | ph_exit : b `prefix_of` total -> phase w b (Some (PubExit s p))
  | ph_gone : b `prefix_of` total -> phase w b None.

Definition on_track (w : Server) : Prop :=
  exists b, pend w = Some b /\ phase w b (th_pc <$> sv_threads w !! t).

Lemma phase_prefix w b x : phase w b x -> b `prefix_of` total.
Proof. destruct 1 as [fs _ E|env todo subs hit fs _ _ _ E|env todo dl fs _ E|H|H]; try done; rewrite <- E; by apply prefix_app_r. Qed.

(** A goroutine that does not run sees only the others' steps. *)
Lemma phase_calm w w' b x : in_of w' = in_of w -> phase w b x -> phase w' b x.
Proof.
  intros Ei. assert (Hu : forall fs, unread fs w -> unread fs w') by (intros fs [H1 H2]; split; [by rewrite Ei|done]).
  destruct 1; eauto using phase.
Qed.

Lemma on_track_calm w w' :
  alive w' -> calm w w' -> sv_threads w' !! t = sv_threads w !! t -> on_track w -> on_track w'.
Proof.
  intros (_ & Hnd & _ & _) [[K1 K2 _ _ _] _] Et (b & Hb & Hph). exists b. rewrite Et.
  destruct (K1 b Hb) as [H|H]; [|done]. split; [done|]. by eapply phase_calm.
Qed.

Lemma enc_ok env : Envelope_ok MaxPayloadSize env -> enc env = frame_bytes env.
Proof. intros [H1 H2 H3]. unfold enc. by rewrite Encode_spec by (done || apply length_stalePool). Qed.

Section Own.
Context (w : Server) (th : thread).
Context (HI : inv home owner w) (Ht : sv_threads w !! t = Some th) (Hgood : good w) (Hal : alive w).

Lemma next_phase w1 b env fs :
  unread fs w1 -> b ++ after env fs = total -> phase w1 b (Some (pubNext s p env)).
Proof.
  intros Hu E. unfold pubNext, after in *. case_bool_decide.
  - apply ph_exit. rewrite app_nil_r in E. by rewrite E.
  - by apply (ph_loop _ _ fs).
Qed.

(** Reading the next frame. *)
Lemma own_decode r w1 :
  decodeFrom_conn MaxPayloadSize (clientConnOf p w) w = (r, w1) ->
  pend w1 = pend w /\ sv_clients w1 = sv_clients w /\ sv_heap w1 = sv_heap w /\
  sv_threads w1 = sv_threads w /\ sv_next w1 = sv_next w /\
  (forall env fs x, r = Ok env -> unread fs w -> fst (Decode rest) = Err x ->
     exists fs', fs = env :: fs' /\ Envelope_ok MaxPayloadSize env /\ unread fs' w1).
Proof using HI Hp Hc.
  intros E. destruct (i_home _ _ _ _ _ _ _ _ HI _ _ Hp) as (clp & _ & Hclp & _).
  unfold clientConnOf in E. rewrite Hclp in E. unfold decodeFrom_conn in E.
  destruct (sv_conns w !! cl_netConn clp) as [nc|] eqn:Hnc; [|by injection E as <- <-].
  destruct (c_closed (nc_conn nc)); [by injection E as <- <-|].
  destruct (DecodeWithMax _ _) as [r0 rd] eqn:Ed. injection E as <- <-. split_and!; try done.
  - unfold pend. fields. destruct (sv_clients w !! c) as [cl|] eqn:Hcl; [|done]. cbn. rewrite lookup_insert_ne; [done|].
    intros En. destruct (i_client _ _ _ _ _ _ _ _ HI c _ Hcl) as (_ & O1 & _).
    destruct (i_client _ _ _ _ _ _ _ _ HI p _ Hclp) as (_ & O2 & _). congruence.
  - intros env fs x -> [Hin Hok] Hrest. unfold in_of in Hin. rewrite Hclp in Hin. cbn in Hin. rewrite Hnc in Hin.
    injection Hin as Hin. rewrite Hin in Ed. destruct fs as [|env' fs'].
    { change (reader_of (wire []) ++ rest) with rest in Ed. unfold Decode in Hrest. by rewrite Ed in Hrest. }
    apply Forall_cons in Hok as [Hok1 Hok2]. exists fs'.
    change (wire (env' :: fs')) with (frame_bytes env' ++ wire fs') in Ed. rewrite reader_of_app, <- app_assoc in Ed.
    pose proof (Decode_frame env' (reader_of (wire fs') ++ rest) Hok1) as Hd. unfold Decode in Hd. rewrite Hd in Ed.
    injection Ed as <- <-. split_and!; [done|done|]. split; [|done].
    unfold in_of. fields. rewrite Hclp. cbn. by rewrite lookup_insert_eq.
Qed.

(** What a step of the publisher's goroutine establishes. *)
Definition own_ok (w' : Server) : Prop := framed t w w' /\ (good w' \/ isclosed w') /\ (alive w' -> on_track w').

Lemma goto_pc q w1 : sv_threads w1 !! t = Some th -> th_pc <$> sv_threads (goto t q w1) !! t = Some q.
Proof. intros H. fields. by rewrite lookup_alter_eq, H. Qed.

Lemma snapshot_mem o rs : sv_heap w !! s = Some rs -> (key, c) ∈ o_range o (rs_subscribers rs) /\ NoDup (o_range o (rs_subscribers rs)).
Proof using Hal.
  intros Hs. destruct Hal as (_ & _ & Hf & _). unfold isfiled in Hf. rewrite Hs in Hf. cbn in Hf. split.
  - rewrite (o_range_perm o). by apply elem_of_map_to_list.
  - rewrite (o_range_perm o). apply NoDup_map_to_list.
Qed.

Lemma own_loop o x :
  th_pc th = PubLoop s p -> fst (Decode rest) = Err x -> on_track w -> own_ok (pubLoop o t s p w).
Proof using HI Ht Hgood Hal Hc Hp.
  intros E Hrest (b & Hb & Hph). rewrite Ht in Hph. cbn [fmap option_fmap option_map] in Hph. rewrite E in Hph.
  inversion Hph as [fs Hu Htot| | | |]; subst. unfold pubLoop.
  destruct (decodeFrom_conn _ _ w) as [r w1] eqn:E1.
  destruct (own_decode r w1 E1) as (Ep & Ec & Eh & Et & En & Hdec).
  assert (K : kept (sv_threads w, sv_next w) (sv_threads w1, sv_next w1)) by (by rewrite Et, En).
  assert (Hd : isdone w -> isdone w1) by (unfold isdone; by rewrite Ec).
  assert (Hg : good w1) by (unfold good; rewrite Ec, Eh; exact Hgood).
  assert (Ht1 : sv_threads w1 !! t = Some th) by (by rewrite Et).
  destruct r as [env|e].
  - destruct (Hdec env fs x eq_refl Hu Hrest) as (fs' & -> & Hok & Hu'). cbn [relayed] in Htot.
    destruct (bool_decide_reflect (env_MsgType env = MsgTypeHeartbeat)) as [Hty|Hty].
    { split_and!; [by apply (framed_stay w t th Ht)|by left|]. intros _. exists b. rewrite Ep, Ht1. cbn. rewrite E. split; [done|].
      by apply (ph_loop _ _ fs'). }
    assert (Hfw : forall w2, pend w2 = pend w1 -> unread fs' w2 -> good w2 -> (isdone w -> isdone w2) ->
      sv_heap w2 = sv_heap w -> sv_threads w2 = sv_threads w -> sv_next w2 = sv_next w ->
      let subs := match sv_heap w2 !! s with Some rs => o_range o (rs_subscribers rs) | None => [] end in
      own_ok (goto t (PubForward s p env subs subs.*2 false) w2)).
    { intros w2 Ep2 Hu2 Hg2 Hd2 Eh2 Et2 En2 subs. split_and!; [|by left|].
      { apply (framed_goto w t th Ht); [by rewrite Et2, En2|done|by rewrite E|done]. }
      intros _. exists b. assert (Ht2 : sv_threads w2 !! t = Some th) by (by rewrite Et2).
      rewrite (goto_pc _ w2 Ht2). split; [exact (eq_trans Ep2 (eq_trans Ep Hb))|].
      unfold subs. rewrite Eh2. destruct Hgood as (G1 & _ & _). destruct (sv_heap w !! s) as [rs|] eqn:Hs; [|done].
      destruct (snapshot_mem o rs Hs) as [Hin Hnd]. apply (ph_forward _ _ _ _ _ _ fs'); [exact Hu2|done|done|].
      rewrite bool_decide_true by done. rewrite <- Htot. unfold after. case_bool_decide; unfold wire; cbn; by rewrite ?app_nil_r. }
    destruct (bool_decide (env_MsgType env = MsgTypeClose)); by apply Hfw.
  - split_and!; [apply (framed_goto w t th Ht); [done|done|by rewrite E|done]|by left|]. intros _. exists b. rewrite goto_pc by done.
    split; [exact (eq_trans Ep Hb)|]. apply ph_exit. by eapply phase_prefix.
Qed.

(** Sending to the subscriber itself, while it is not closed: the frame is queued,
    or the subscriber is given up. *)
Lemma send_self o env r w1 :
  SendFrame pool o c env w = Some (r, w1) ->
  sv_heap w1 = sv_heap w /\ in_of w1 = in_of w /\ good w1 /\
  match r with
  | Ok _ => forall b, pend w = Some b -> pend w1 = Some (b ++ enc env)
  | Err _ => True
  end.
Proof using HI Hgood Hal Hc Hp Ht.
  intros E. destruct (i_home _ _ _ _ _ _ _ _ HI _ _ Hc) as (cl & _ & Hcl & _ & _ & Hrole). cbn in Hrole.
  assert (Hcp : c <> p) by congruence. unfold SendFrame, SendFrameWithTimeout in E. rewrite Hcl, Hrole in E.
  change (2 =? 2) with true in E. change (5 * Second =? 0) with false in E. cbn [andb orb negb] in E.
  destruct Hal as (_ & Hnd & _). unfold isdone in Hnd. rewrite Hcl in Hnd. cbn in Hnd.
  destruct (cl_done cl); [done|]. cbn [negb orb] in E. rewrite andb_true_r in E.
  set (w2 := set_clients (insert c (set_sendCh (cl_sendCh cl ++ [env]) cl)) w) in E.
  assert (Hq : in_of w2 = in_of w /\ good w2 /\ forall b, pend w = Some b -> pend w2 = Some (b ++ enc env)).
  { split_and!.
    - unfold in_of, w2. fields. by rewrite lookup_insert_ne.
    - unfold good, w2. fields. rewrite lookup_insert_ne by done. exact Hgood.
    - intros b. unfold pend, w2. fields. rewrite lookup_insert_eq, Hcl. cbn. destruct (sv_conns w !! cl_netConn cl); [|done].
      cbn. intros [= <-]. rewrite fmap_app, concat_app. cbn. by rewrite app_nil_r, app_assoc. }
  destruct Hq as (Q1 & Q2 & Q3). repeat case_match; simplify_eq; split_and!; done.
Qed.

Lemma own_forward o env todo subs hit w' :
  th_pc th = PubForward s p env todo subs hit -> on_track w ->
  pubForward pool o t s p env todo subs hit w = Some w' -> own_ok w'.
Proof using HI Ht Hgood Hal Hc Hp.
  intros E (b & Hb & Hph) Hs. rewrite Ht in Hph. cbn [fmap option_fmap option_map] in Hph. rewrite E in Hph.
  inversion Hph as [|? ? ? ? fs Hu Hok Hnd Htot| | |]; subst; clear Hph.
  pose proof (thread_pc_inv _ _ _ _ _ HI Ht _ E) as (_ & Htodo & _). unfold pubForward in Hs.
  destruct todo as [|[k x] todo].
  - injection Hs as <-. rewrite bool_decide_false in Htot by apply not_elem_of_nil. cbn [app] in Htot.
    split_and!; [|by left|].
    + apply (framed_goto w t th Ht); [done|done| |].
      * rewrite E. unfold pubNext. destruct hit; [done|]. by case_bool_decide.
      * unfold pubNext. destruct hit; [done|]. by case_bool_decide.
    + intros _. exists b. rewrite goto_pc by done. split; [exact Hb|]. destruct hit.
      * by apply (ph_drain _ _ _ _ _ fs).
      * by eapply next_phase.
  - inversion Htodo as [|? ? [t0 Hsub] Htodo']; subst. cbn in Hsub. apply NoDup_cons in Hnd as [Hnin Hnd].
    destruct (SendFrame _ _ _ _ _) as [[r w1]|] eqn:E1; [|done].
    pose proof (inv_SendFrame _ _ _ _ _ _ _ HI E1) as (HI1 & K1 & _).
    assert (Ht1 : sv_threads w1 !! t = Some th).
    { destruct K1 as (_ & K1 & _). cbn in K1. rewrite K1; [done|]. by eapply thread_below. }
    destruct (decide (x = c)) as [->|Hxc].
    + assert (k = key) as -> by congruence. destruct (send_self o env r w1 E1) as (Eh & Ei & Hg & Hpd).
      assert (Hd : isdone w -> isdone w1) by (intros Hd; by destruct Hal as (_ & [] & _)).
      rewrite bool_decide_true in Htot by apply list_elem_of_here. destruct r as [[]|e]; injection Hs as <-.
      * split_and!; [by apply (framed_goto w t th Ht); [..|rewrite E|]|by left|]. intros _.
        exists (b ++ enc env). rewrite goto_pc by done. split; [exact (Hpd b Hb)|].
        apply (ph_forward _ _ _ _ _ _ fs); [|done|done|].
        { destruct Hu as [Hu1 Hu2]. split; [exact (eq_trans Ei Hu1)|done]. }
        rewrite bool_decide_false by done. rewrite enc_ok by done. by rewrite <- app_assoc.
      * split_and!; [|by left|].
        { apply (framed_goto w t th Ht); [|exact Hd|by rewrite E|done]. etrans; [exact K1|].
          refine (proj1 (proj2 (inv_spawn (home := home) (owner := owner) w1 GoHelper (RemoveSub s key) HI1 _ eq_refl))). by exists c, t0. }
        intros (_ & _ & _ & Hrem). exfalso. apply Hrem.
        exists (sv_next w1), (mkThread GoHelper (RemoveSub s key)). split; [|done]. fields.
        destruct (i_fresh _ _ _ _ _ _ _ _ HI1 (sv_next w1) ltac:(lia)) as (_ & _ & Nt & _).
        rewrite lookup_alter_ne by congruence. by rewrite lookup_insert_eq.
    + pose proof (calm_SendFrame o w x env r w1 HI Hxc E1) as C.
      assert (Hmem : bool_decide ((key, c) ∈ (k, x) :: todo) = bool_decide ((key, c) ∈ todo)).
      { apply bool_decide_ext. rewrite elem_of_cons. split; [intros [[= _ ?]|?]; [congruence|done]|by right]. }
      rewrite Hmem in Htot.
      assert (Hdone : forall w2 hit', kept (sv_threads w, sv_next w) (sv_threads w2, sv_next w2) -> calm w w2 ->
        sv_threads w2 !! t = Some th -> own_ok (goto t (PubForward s p env todo subs hit') w2)).
      { intros w2 hit' K2 C2 Ht2. split_and!.
        - apply (framed_goto w t th Ht); [done|apply C2|by rewrite E|done].
        - by apply C2.
        - intros (_ & Hnd' & _). exists b. rewrite goto_pc by done. destruct C2 as [[P1 P2 _ _ _] _].
          destruct (P1 b Hb) as [P|P]; [|done]. split; [exact P|]. apply (ph_forward _ _ _ _ _ _ fs); [|done|done|done].
          destruct Hu as [Hu1 Hu2]. split; [exact (eq_trans P2 Hu1)|done]. }
      destruct r as [[]|e]; injection Hs as <-; apply Hdone; try done.
      * etrans; [exact K1|].
        refine (proj1 (proj2 (inv_spawn (home := home) (owner := owner) w1 GoHelper (RemoveSub s k) HI1 _ eq_refl))). by exists x, t0.
      * eapply calm_trans; [exact C|]. by apply calm_fields.
      * fields. rewrite lookup_insert_ne; [done|]. destruct (i_fresh _ _ _ _ _ _ _ _ HI1 (sv_next w1) ltac:(lia)) as (_ & _ & Nt & _). congruence.
Qed.

Lemma own_drain env todo dl w' :
  th_pc th = PubDrain s p env todo dl -> on_track w -> pubDrain t s p env todo dl w = Some w' -> own_ok w'.
Proof using HI Ht Hgood Hc Hp.
  intros E (b & Hb & Hph) Hs. rewrite Ht in Hph. cbn [fmap option_fmap option_map] in Hph. rewrite E in Hph.
  inversion Hph as [| |? ? ? fs Hu Htot| |]; subst; clear Hph.
  assert (Hgo : forall q, pub_pc q = Some (s, p) -> (forall y, q <> WFlush y) -> phase w b (Some q) -> own_ok (goto t q w)).
  { intros q Hq Hq' Hph. split_and!; [|by left|].
    - apply (framed_goto w t th Ht); [done|done|by rewrite E, Hq|by intros ->; destruct (Hq' c)].
    - intros _. exists b. rewrite goto_pc by done. split; [exact Hb|]. by apply (phase_calm w). }
  assert (Hd : forall l d, phase w b (Some (PubDrain s p env l d))) by (intros; by apply (ph_drain _ _ _ _ _ fs)).
  unfold pubDrain in Hs. repeat case_match; simplify_eq; apply Hgo; try done; try apply Hd.
  - unfold pubNext. by case_bool_decide.
  - unfold pubNext. by case_bool_decide.
  - by eapply next_phase.
Qed.

Lemma own_exit : th_pc th = PubExit s p -> on_track w -> own_ok (finish t (removeSession (sessionIDOf s w) w)).
Proof using HI Ht Hgood Hc Hp.
  intros E (b & Hb & Hph). apply phase_prefix in Hph.
  pose proof (inv_removeSession (sessionIDOf s w) w HI) as (HI1 & K1 & _).
  pose proof (calm_removeSession w (sessionIDOf s w) HI) as C.
  destruct (settled_finish w t th Ht _ K1 C) as [C' Fr]. split_and!; [done|by apply C'|].
  intros (_ & Hnd & _). exists b. destruct C' as [[P1 _ _ _ _] _]. destruct (P1 b Hb) as [P|P]; [|done]. split; [done|].
  assert (Ef : forall w1, sv_threads (finish t w1) = delete t (sv_threads w1)).
  { intros w1. unfold finish. by destruct (th_kind <$> _) as [[]|]. }
  rewrite Ef, lookup_delete_eq. by apply ph_gone.
Qed.

End Own.
End Fifo.

(** ** Runs *)

Lemma frame_bytes_nonempty env r : frame_bytes env ++ r <> [].
Proof. done. Qed.


(** A run of the relay during which the subscriber is not dropped and the session
    not closed. *)
Inductive live_run (pool : bytes) (c s : nat) (key : bytes) (w0 : Server) : Server -> Prop :=
  | lr_start : alive c s key w0 -> live_run pool c s key w0 w0
  | lr_step w l w' : live_run pool c s key w0 w -> relay_next pool l w = Some w' -> alive c s key w' ->
      live_run pool c s key w0 w'.

(** The situation at the start: the publisher's goroutine is about to read the
    frames [fs], nothing decodable follows, no other goroutine serves a publisher of
    the session, the subscriber's writer is not in its draining phase. *)
Record relaying (pool : bytes) (c p s : nat) (key : bytes) (t : nat) (b0 : bytes) (fs : list Envelope) (rest : reader)
    (w : Server) : Prop := {
  r_reach : reachable pool w;
  r_loop : th_pc <$> sv_threads w !! t = Some (PubLoop s p);
  r_only : only s t w;
  r_open : cl_done <$> sv_clients w !! p = Some false;
  r_writer : forall n th, sv_threads w !! n = Some th -> th_pc th <> WFlush c;
  r_pend : pend pool c w = Some b0;
  r_in : in_of p w = Some (reader_of (wire fs) ++ rest);
  r_ok : Forall (Envelope_ok MaxPayloadSize) fs;
  r_rest : exists x, fst (Decode rest) = Err x
}.

Definition tracked (pool : bytes) (c p s : nat) (key : bytes) (t : nat) (total : bytes) (rest : reader) (w : Server) : Prop :=
  exists home owner tc, inv home owner w /\
    home !! c = Some (mkHome s (Some key) tc) /\ home !! p = Some (mkHome s None t) /\
    good p s w /\ only s t w /\ flushed c w /\ (t < sv_next w)%nat /\ on_track pool c p s key t total rest w.

Lemma relaying_tracked pool c p s key t b0 fs rest w :
  relaying pool c p s key t b0 fs rest w -> alive c s key w ->
  tracked pool c p s key t (b0 ++ wire (relayed fs)) rest w.
Proof.
  intros [Hr Hl Ho Hop Hw Hp Hin Hok _] (Hnc & _ & Hf & _).
  destruct (reachable_inv pool w Hr) as (home & owner & HI).
  destruct (sv_threads w !! t) as [th|] eqn:Ht; [|done]. cbn in Hl. injection Hl as Hl.
  pose proof (thread_pc_inv _ _ _ _ _ HI Ht _ Hl) as Hh. cbn in Hh.
  unfold isfiled in Hf. destruct (sv_heap w !! s) as [rs|] eqn:Hs; [|done]. cbn in Hf.
  destruct (i_session _ _ _ _ _ _ _ _ HI s rs Hs) as [_ Hsub]. destruct (Hsub _ _ Hf) as [tc Htc]. cbn in Htc.
  exists home, owner, tc. split_and!; try done.
  - split_and!; [|rewrite Hs; cbn|done].
    + unfold isclosed in Hnc. rewrite Hs in *. cbn in *. by destruct (rs_closed rs).
    + destruct (sv_clients w !! p) as [cl|] eqn:Hcl; [|done]. cbn in Hop. injection Hop as Hop.
      eapply (i_live _ _ _ _ _ _ _ _ HI t th s p Ht); [by rewrite Hl|done|done|done].
  - intros n th' Hn Hx. by destruct (Hw n th' Hn).
  - by eapply thread_below.
  - exists b0. rewrite Ht. cbn. rewrite Hl. split; [done|]. by apply (ph_loop _ _ _ _ _ _ _ _ fs).
Qed.

(** One step of the relay, whoever makes it. *)
Lemma tracked_step pool c p s key t total rest x l w w' :
  fst (Decode rest) = Err x -> alive c s key w -> tracked pool c p s key t total rest w ->
  relay_next pool l w = Some w' -> alive c s key w' -> tracked pool c p s key t total rest w'.
Proof.
  intros Hrest Hal (home & owner & tc & HI & Hc & Hp & Hg & Ho & Hfl & Hlt & Htr) E Hal'.
  destruct (inv_next _ _ _ _ _ _ HI E) as (home' & owner' & Hsub & HI').
  assert (G : only s t w' /\ flushed c w' /\ (t < sv_next w')%nat /\ (good p s w' \/ isclosed s w') /\
    on_track pool c p s key t total rest w').
  2: { destruct G as (G1 & G2 & G3 & G4 & G5). exists home', owner', tc.
       split_and!; try done; try (by eapply lookup_weaken).
       destruct G4 as [|Hcl]; [done|]. by destruct Hal' as [[] _]. }
  assert (Hother : forall t', t' <> t -> settled pool c p s key t t' w w' ->
    only s t w' /\ flushed c w' /\ (t < sv_next w')%nat /\ (good p s w' \/ isclosed s w') /\
    on_track pool c p s key t total rest w').
  { intros t' Hne [C (F1 & F2 & F3 & F4)]. split_and!; [by apply F3|by apply F4|lia|by apply C|].
    eapply on_track_calm; [done|done|by apply F2|done]. }
  assert (Hown : own_ok pool c p s key t total rest w w' ->
    only s t w' /\ flushed c w' /\ (t < sv_next w')%nat /\ (good p s w' \/ isclosed s w') /\
    on_track pool c p s key t total rest w').
  { intros ((F1 & F2 & F3 & F4) & G1 & G2). split_and!; [by apply F3|by apply F4|lia|done|by apply G2]. }
  destruct l as [k nc|t' o|dt| | |b|b].
  2: destruct (decide (t' = t)) as [->|Hne].
  2: { apply Hown. cbn [relay_next] in E. unfold thread_step in E. pose proof Htr as (b & Hb & Hph).
       destruct (sv_threads w !! t) as [th|] eqn:Ht; [|done]. cbn [fmap option_fmap option_map] in E, Hph.
       inversion Hph as [fs Hu He Hpc|env todo subs hit fs Hu Hok Hnd He Hpc|env todo dl fs Hu He Hpc|He Hpc|]; subst;
         rewrite <- Hpc in E; symmetry in Hpc.
       - injection E as <-. by eapply own_loop.
       - by eapply own_forward.
       - by eapply own_drain.
       - injection E as <-. by eapply own_exit. }
  2: { cbn [relay_next] in E. destruct (sv_threads w !! t') as [th|] eqn:Ht; [|unfold thread_step in E; by rewrite Ht in E].
       apply (Hother t' Hne). by eapply settled_step. }
  all: apply (Hother (sv_next w)); [lia|]; eapply env_step; eauto; intros; discriminate.
Qed.

Lemma live_run_alive pool c s key w0 w : live_run pool c s key w0 w -> alive c s key w0 /\ alive c s key w.
Proof. induction 1 as [|w l w' _ [IH1 IH2] _ H]; done. Qed.

Lemma tracked_run pool c p s key t b0 fs rest w0 w :
  relaying pool c p s key t b0 fs rest w0 -> live_run pool c s key w0 w ->
  tracked pool c p s key t (b0 ++ wire (relayed fs)) rest w.
Proof.
  intros Hr Hrun. destruct (r_rest _ _ _ _ _ _ _ _ _ _ Hr) as [x Hx].
  induction Hrun as [Hal|w l w' Hrun IH E Hal']; [by apply relaying_tracked|].
  eapply tracked_step; [exact Hx| |exact IH|exact E|exact Hal']. by apply live_run_alive in Hrun as [_ ?].
Qed.

Lemma fifo_run pool c p s key t b0 fs rest w0 w :
  relaying pool c p s key t b0 fs rest w0 -> live_run pool c s key w0 w ->
  exists b, pend pool c w = Some b /\ b `prefix_of` b0 ++ wire (relayed fs) /\
    (th_pc <$> sv_threads w !! t = Some (PubLoop s p) -> in_of p w = Some rest -> b = b0 ++ wire (relayed fs)).
Proof.
  intros Hr Hrun. destruct (tracked_run _ _ _ _ _ _ _ _ _ _ _ Hr Hrun)
    as (home & owner & tc & _ & _ & _ & _ & _ & _ & _ & (b & Hb & Hph)).
  exists b. split_and!; [done|by eapply phase_prefix|]. intros Hl Hin. rewrite Hl in Hph.
  inversion Hph as [fs' [Hu _] He| | | |]; subst. rewrite Hin in Hu. injection Hu as Hu.
  assert (wire fs' = []) as Hw.
  { apply (f_equal length) in Hu. rewrite length_app in Hu. unfold reader_of in Hu. rewrite length_fmap in Hu.
    apply nil_length_inv. lia. }
  destruct fs' as [|env fs']; [by rewrite app_nil_r in He|]. by destruct (frame_bytes_nonempty env (wire fs')).
Qed.

(** ** Properties *)

(** C6: the relay neither loses, repeats, reorders nor alters a frame for a
    subscriber it has not dropped: from a moment when the publisher's goroutine is
    about to read the frames [fs] from its socket, at every later moment of every run
    (any clients, any interleaving, any choice of the run-time system) in which the
    subscriber has not been closed or removed, what has been written to the
    subscriber's socket followed by what is in its queue is what was there at the
    start followed by a prefix of the publisher's frames without the heartbeats, up
    to and including the first Close; and once the publisher's goroutine has read
    them all and is waiting for more, it is all of them. *)
Theorem relay_fifo pool c p s key t b0 fs rest w0 w :
  relaying pool c p s key t b0 fs rest w0 -> live_run pool c s key w0 w ->
  exists b, pend pool c w = Some b /\ b `prefix_of` b0 ++ wire (relayed fs) /\
    (th_pc <$> sv_threads w !! t = Some (PubLoop s p) -> in_of p w = Some rest -> b = b0 ++ wire (relayed fs)).
Proof. apply fifo_run. Qed.

(** What the writer of client [c] leaves behind: an empty queue, every queued
    frame on the socket, nothing else changed. *)
Definition drained (c : nat) (cl : ClientConn) (nc : NetConn) (w w' : Server) : Prop :=
  sv_clients w' = <[c := set_sendCh [] cl]> (sv_clients w) /\
  sv_conns w' = <[cl_netConn cl := mkNetConn (emit (nc_conn nc) (cl_sendCh cl)) (nc_addr nc)]> (sv_conns w) /\
  sv_threads w' = sv_threads w /\ sv_heap w' = sv_heap w /\ sv_sessions w' = sv_sessions w.

Lemma write_one pool o t c cl nc env q w :
  sv_clients w !! c = Some cl -> cl_sendCh cl = env :: q -> cl_done cl = false ->
  sv_conns w !! cl_netConn cl = Some nc -> healthy (nc_conn nc) -> Envelope_ok MaxPayloadSize env ->
  th_pc <$> sv_threads w !! t = Some (WLoop c) ->
  relay_next pool (LRun t o) w =
    Some (set_conns (insert (cl_netConn cl) (mkNetConn (emit (nc_conn nc) [env]) (nc_addr nc)))
      (set_clients (insert c (set_sendCh q cl)) w)).
Proof.
  intros Hc Hq Hd Hn Hh He Ht. cbn [relay_next]. unfold thread_step. rewrite Ht. unfold writeLoop. rewrite Hc, Hq, Hd. cbn [andb].
  unfold encodeTo_conn. cbn [set_clients sv_conns]. rewrite Hn, conn_encode_healthy by (done || apply length_stalePool).
  by rewrite emit_one.
Qed.

Lemma drain_run pool o t c w q :
  forall cl nc, sv_clients w !! c = Some cl -> cl_sendCh cl = q -> cl_done cl = false ->
  sv_conns w !! cl_netConn cl = Some nc -> healthy (nc_conn nc) -> Forall (Envelope_ok MaxPayloadSize) q ->
  th_pc <$> sv_threads w !! t = Some (WLoop c) ->
  exists w', exec pool (replicate (length q) (LRun t o)) w = Some w' /\ drained c cl nc w w'.
Proof.
  revert w. induction q as [|env q IH]; intros w cl nc Hc Hq Hd Hn Hh Hok Ht.
  - exists w. split; [done|]. split_and!; try done; symmetry; apply insert_id.
    + rewrite Hc. f_equal. destruct cl. cbn in *. by rewrite Hq.
    + rewrite Hn, Hq, emit_nil by done. by destruct nc.
  - apply Forall_cons in Hok as [He Hok]. cbn [length replicate exec].
    rewrite (write_one pool o t c cl nc env q w) by done. cbn [mbind option_bind].
    set (w1 := set_conns _ _).
    destruct (IH w1 (set_sendCh q cl) (mkNetConn (emit (nc_conn nc) [env]) (nc_addr nc))) as (w' & E & D1 & D2 & D3 & D4 & D5);
      try done.
    + cbn. by rewrite lookup_insert_eq.
    + cbn. by rewrite lookup_insert_eq.
    + exists w'. split; [done|]. split_and!; [|..|by rewrite D3|by rewrite D4|by rewrite D5].
      * rewrite D1. cbn. by rewrite insert_insert_eq.
      * rewrite D2. cbn [nc_conn nc_addr]. rewrite emit_emit, Hq. cbn. by rewrite insert_insert_eq.
Qed.

(** C25: A subscriber's queue always drains.  Whatever state the relay is in, the
    writer goroutine of a live subscriber whose socket accepts data needs nobody
    else to make progress: scheduled as often as frames are queued, it writes all
    of them to the socket, in order, empties the queue, and leaves every other
    client, socket, session and goroutine as it was. *)
Theorem writer_drains pool o t c cl nc w :
  sv_clients w !! c = Some cl -> cl_done cl = false ->
  sv_conns w !! cl_netConn cl = Some nc -> healthy (nc_conn nc) ->
  Forall (Envelope_ok MaxPayloadSize) (cl_sendCh cl) ->
  th_pc <$> sv_threads w !! t = Some (WLoop c) ->
  exists w', exec pool (replicate (length (cl_sendCh cl)) (LRun t o)) w = Some w' /\ drained c cl nc w w'.
Proof. intros Hc Hd Hn Hh Hok Ht. by apply drain_run. Qed.

(** ** A concrete run *)

(** Checks on concrete states. *)
Definition all_threads (f : nat -> pc -> bool) (w : Server) : bool :=
  forallb (fun '(n, th) => f n (th_pc th)) (map_to_list (sv_threads w)).

Lemma all_threads_spec f w n th : all_threads f w = true -> sv_threads w !! n = Some th -> f n (th_pc th) = true.
Proof.
  intros H Hn. unfold all_threads in H. rewrite forallb_forall in H. apply (H (n, th)).
  apply list_elem_of_In. by apply elem_of_map_to_list.
Qed.

Definition alive_check (c s : nat) (key : bytes) (w : Server) : bool :=
  bool_decide (rs_closed <$> sv_heap w !! s = Some false) && bool_decide (cl_done <$> sv_clients w !! c = Some false) &&
  bool_decide ((rs ← sv_heap w !! s; rs_subscribers rs !! key) = Some c) &&
  all_threads (fun _ p => negb (bool_decide (p = RemoveSub s key))) w.

Lemma alive_check_spec c s key w : alive_check c s key w = true -> alive c s key w.
Proof.
  unfold alive_check. rewrite !andb_true_iff, !bool_decide_eq_true. intros [[[H1 H2] H3] H4].
  split_and!; [unfold isclosed; congruence|unfold isdone; congruence|done|].
  intros (n & th & Hn & E). pose proof (all_threads_spec _ _ _ _ H4 Hn) as H. cbn in H. by rewrite bool_decide_true in H.
Qed.

Fixpoint live_exec (pool : bytes) (c s : nat) (key : bytes) (ls : list relay_label) (w : Server) : option Server :=
  if alive_check c s key w then
    match ls with
    | [] => Some w
    | l :: ls => relay_next pool l w ≫= live_exec pool c s key ls
    end
  else None.

Lemma live_exec_run pool c s key w0 ls w w' :
  live_run pool c s key w0 w -> live_exec pool c s key ls w = Some w' -> live_run pool c s key w0 w'.
Proof.
  revert w. induction ls as [|l ls IH]; intros w Hr E; cbn in E; destruct (alive_check c s key w) eqn:Ha; try done.
  - by injection E as <-.
  - destruct (relay_next pool l w) as [w1|] eqn:E1; [|done]. cbn in E.
    eapply IH; [|exact E]. eapply lr_step; [done|done|]. apply alive_check_spec.
    by destruct ls; cbn in E; destruct (alive_check c s key w1).
Qed.

(** A publisher that sends a data frame, a heartbeat and a rekey frame. *)
Definition fifoFrames : list Envelope :=
  [demoFrame MsgTypeDataStream [x01; x02]; demoFrame MsgTypeHeartbeat []; demoFrame MsgTypeRekey [x03]].
Definition fifoPrefix : list relay_label :=
  ([LAccept GoTCP demoSub] ++ steps 1 4 ++
   [LAccept GoTCP (demoSocket (str "10.0.0.1:1") (demoFrame MsgTypePAKEInitPub [] :: fifoFrames))] ++ steps 6 6).
Definition fifoStart : Server := run_from_5 fifoPrefix.
Definition fifoKey : bytes := subKey (str "10.0.0.2:1") 1.
(** It is read to the end; the writer gets the first frame out meanwhile. *)
Definition fifoRun : list relay_label := steps 6 5 ++ steps 4 1 ++ steps 6 2.
Definition fifoEnd : Server := default fifoStart (live_exec [] 3 2 fifoKey fifoRun fifoStart).

Lemma relaying_exec pool c p s key t b0 fs rest now ls w x :
  exec pool ls (NewServer now) = Some w ->
  th_pc <$> sv_threads w !! t = Some (PubLoop s p) -> cl_done <$> sv_clients w !! p = Some false ->
  all_threads (fun n q => match pub_pc q with Some (s', _) => (n =? t)%nat | None => true end) w = true ->
  all_threads (fun _ q => negb (bool_decide (q = WFlush c))) w = true ->
  pend pool c w = Some b0 -> in_of p w = Some (reader_of (wire fs) ++ rest) ->
  Forall (Envelope_ok MaxPayloadSize) fs -> fst (Decode rest) = Err x ->
  relaying pool c p s key t b0 fs rest w.
Proof.
  intros E Hl Hop Ho Hf Hp Hin Hok Hx. constructor; try done; [by eapply exec_reachable|..|by exists x].
  - intros n th y Hn Hy. pose proof (all_threads_spec _ _ _ _ Ho Hn) as H. cbn in H. rewrite Hy in H. by apply Nat.eqb_eq.
  - intros n th Hn Hy. pose proof (all_threads_spec _ _ _ _ Hf Hn) as H. cbn in H. by rewrite bool_decide_true in H.
Qed.

Lemma fifo_relaying : relaying [] 3 7 2 fifoKey 6 [] fifoFrames [inr Timeout] fifoStart.
Proof.
  eapply (relaying_exec _ _ _ _ _ _ _ _ _ 5 fifoPrefix); try (vm_compute; reflexivity).
  repeat constructor; vm_compute; congruence.
Qed.

Lemma relay_fifo_witness : pend [] 3 fifoEnd = Some (wire [demoFrame MsgTypeDataStream [x01; x02]; demoFrame MsgTypeRekey [x03]]).
Proof.
  assert (Hrun : live_run [] 3 2 fifoKey fifoStart fifoEnd).
  { eapply (live_exec_run _ _ _ _ _ fifoRun); [apply lr_start, alive_check_spec; vm_compute; reflexivity|].
    vm_compute. reflexivity. }
  destruct (relay_fifo [] 3 7 2 fifoKey 6 [] fifoFrames [inr Timeout] fifoStart fifoEnd fifo_relaying Hrun) as (b & Hb & _ & Hall).
  rewrite Hb. f_equal. apply Hall; vm_compute; reflexivity.
Defined.

(** At the end of that run one frame is still queued: the writer gets it out. *)
Lemma writer_drains_witness : exists cl nc w',
  cl_sendCh cl = [demoFrame MsgTypeRekey [x03]] /\
  exec [] (replicate 1 (LRun 4 mapOrder)) fifoEnd = Some w' /\ drained 3 cl nc fifoEnd w'.
Proof.
  pose (cl := default (mkClientConn 0 0 None [] true) (sv_clients fifoEnd !! 3%nat)).
  pose (nc := default demoSub (sv_conns fifoEnd !! cl_netConn cl)).
  assert (Hq : cl_sendCh cl = [demoFrame MsgTypeRekey [x03]]) by (vm_compute; reflexivity).
  destruct (writer_drains [] mapOrder 4 3 cl nc fifoEnd) as (w' & E & D).
  - vm_compute. reflexivity.
  - vm_compute. reflexivity.
  - vm_compute. reflexivity.
  - vm_compute. tauto.
  - rewrite Hq. repeat constructor; vm_compute; congruence.
  - vm_compute. reflexivity.
  - exists cl, nc, w'. split; [exact Hq|]. split; [|exact D]. rewrite Hq in E. exact E.
Defined.
