(* ===== verification/RelayNode.v ===== *)
(** * The relay process: listeners, HTTP servers, signals and shutdown

    [runRelay] (main.go) around the [Server] of RelayServer.v: [Start] with its
    accept loop and its goroutines, [StartQUIC] and [handleQuicConn]
    (server_quic.go, or the stub of server_quic_disabled.go), the HTTP servers of
    [StartMetricsServer] and [StartWebSocketTLSServer], [Close], the signal
    handler of [setupSignalContext] and the end of [main].

    A [Node] is the server with what these goroutines share and where each of them
    is; [node_next] runs one of them for one step.  What the operating system
    answers (a bind, an accepted connection, a request) comes with the step; an
    answer the state rules out, such as a connection from a closed listener, is
    not a step. *)

From S2P Require Import Prelude Strings Protocol Engine RateLimit ProxyProto RelaySession MetricsPage RelayServer RelayInv RelayProps WebSocket Cli.

(** ** State *)

(** [main], from its call of [srv.Start] on. *)
Inductive main_pc :=
  | MListen
  | MStore                         (* server.go:177-179 *)
  | MReady                         (* 180-200 *)
  | MAccept                        (* 202-228 *)
  | MReturn (ok : bool)            (* [runRelay] returns: [defer cancel()] *)
  | MWipe (ok : bool)              (* [crypto.WipeAll] *)
  | MWipeListener (ok : bool)      (* [srv.Close], run by [WipeAll] *)
  | MWipeSessions (ok : bool)
  | MExit (status : Z).

(** The goroutine of [setupSignalContext] (main.go:42-46). *)
Inductive signal_pc := SWait | SWipe | SListener | SSessions | SCancel | SDone.

(** The goroutine of [Start] that waits for the context (server.go:182-186). *)
Inductive closer_pc := CNone | CWait | CSessions | CDone.

Inductive http_state :=
  | HttpOff
  | HttpStarting (addr : bytes) (tls : option (bytes * bytes))
  | HttpServing (addr : bytes) (tls : option (bytes * bytes))
  | HttpDown.

(** [StartQUIC]; [QDone] with whether the listener had been bound, and whether it
    returned an error. *)
Inductive quic_pc := QOff | QTls | QListen | QStore (addr : bytes) | QReady | QAccept | QDone (bound err : bool).

Record Node := mkNode {
  n_srv : Server;
  n_listenAddr : bytes;             (** [srv.listenAddr] *)
  n_bound : option bytes;           (** the TCP listener's address once there is one *)
  n_open : bool;                    (** it has not been closed *)
  n_stored : bool;                  (** [srv.listener != nil] *)
  n_ready : bool;                   (** [srv.ready] is closed *)
  n_readyOnce : bool;               (** [srv.readyOnce] has run *)
  n_panic : bool;
  n_ctxDone : bool;
  n_wiper : bool;                   (** the wiper of main.go:539-541 is registered *)
  n_main : main_pc;
  n_signal : signal_pc;
  n_closer : closer_pc;
  n_ticker : bool;
  n_metrics : http_state;
  n_ws : http_state;
  n_quic : quic_pc;
  n_quicOpen : bool;
  n_quicConns : nat                 (** goroutines in [handleQuicConn] *)
}.

Definition up_srv f n := mkNode (f (n_srv n)) (n_listenAddr n) (n_bound n) (n_open n) (n_stored n) (n_ready n) (n_readyOnce n)
  (n_panic n) (n_ctxDone n) (n_wiper n) (n_main n) (n_signal n) (n_closer n) (n_ticker n) (n_metrics n) (n_ws n) (n_quic n) (n_quicOpen n) (n_quicConns n).
Definition set_listen bound op stored n := mkNode (n_srv n) (n_listenAddr n) bound op stored (n_ready n) (n_readyOnce n)
  (n_panic n) (n_ctxDone n) (n_wiper n) (n_main n) (n_signal n) (n_closer n) (n_ticker n) (n_metrics n) (n_ws n) (n_quic n) (n_quicOpen n) (n_quicConns n).
Definition set_ready r once p n := mkNode (n_srv n) (n_listenAddr n) (n_bound n) (n_open n) (n_stored n) r once
  p (n_ctxDone n) (n_wiper n) (n_main n) (n_signal n) (n_closer n) (n_ticker n) (n_metrics n) (n_ws n) (n_quic n) (n_quicOpen n) (n_quicConns n).
Definition set_ctxDone n := mkNode (n_srv n) (n_listenAddr n) (n_bound n) (n_open n) (n_stored n) (n_ready n) (n_readyOnce n)
  (n_panic n) true (n_wiper n) (n_main n) (n_signal n) (n_closer n) (n_ticker n) (n_metrics n) (n_ws n) (n_quic n) (n_quicOpen n) (n_quicConns n).
Definition take_wiper n := mkNode (n_srv n) (n_listenAddr n) (n_bound n) (n_open n) (n_stored n) (n_ready n) (n_readyOnce n)
  (n_panic n) (n_ctxDone n) false (n_main n) (n_signal n) (n_closer n) (n_ticker n) (n_metrics n) (n_ws n) (n_quic n) (n_quicOpen n) (n_quicConns n).
Definition set_main p n := mkNode (n_srv n) (n_listenAddr n) (n_bound n) (n_open n) (n_stored n) (n_ready n) (n_readyOnce n)
  (n_panic n) (n_ctxDone n) (n_wiper n) p (n_signal n) (n_closer n) (n_ticker n) (n_metrics n) (n_ws n) (n_quic n) (n_quicOpen n) (n_quicConns n).
Definition set_signal p n := mkNode (n_srv n) (n_listenAddr n) (n_bound n) (n_open n) (n_stored n) (n_ready n) (n_readyOnce n)
  (n_panic n) (n_ctxDone n) (n_wiper n) (n_main n) p (n_closer n) (n_ticker n) (n_metrics n) (n_ws n) (n_quic n) (n_quicOpen n) (n_quicConns n).
Definition set_closer p tick n := mkNode (n_srv n) (n_listenAddr n) (n_bound n) (n_open n) (n_stored n) (n_ready n) (n_readyOnce n)
  (n_panic n) (n_ctxDone n) (n_wiper n) (n_main n) (n_signal n) p tick (n_metrics n) (n_ws n) (n_quic n) (n_quicOpen n) (n_quicConns n).
Definition set_http m ws n := mkNode (n_srv n) (n_listenAddr n) (n_bound n) (n_open n) (n_stored n) (n_ready n) (n_readyOnce n)
  (n_panic n) (n_ctxDone n) (n_wiper n) (n_main n) (n_signal n) (n_closer n) (n_ticker n) m ws (n_quic n) (n_quicOpen n) (n_quicConns n).
Definition set_quic addr p op k n := mkNode (n_srv n) addr (n_bound n) (n_open n) (n_stored n) (n_ready n) (n_readyOnce n)
  (n_panic n) (n_ctxDone n) (n_wiper n) (n_main n) (n_signal n) (n_closer n) (n_ticker n) (n_metrics n) (n_ws n) p op k.

(** ** Starting (main.go:531-558) *)

(** [StartMetricsServer] and [StartWebSocketTLSServer] do nothing without an
    address; TLS when certificate and key are given (server.go:56-59, 89-92, 131-137). *)
Definition startHTTP (addr : bytes) (tls : option (bytes * bytes)) : http_state :=
  if bool_decide (addr = []) then HttpOff else HttpStarting addr tls.

(** [StartWebSocketServer] (server.go:84-86) *)
Definition StartWebSocketServer (addr : bytes) : http_state := startHTTP addr None.

(** [StartQUIC] at its beginning; without the build tag it returns an error
    (server_quic_disabled.go). *)
Definition startQUIC (quicBuilt : bool) : quic_pc := if quicBuilt then QTls else QDone false true.

(** The server's settings, then the servers beside it: the state when [main] calls
    [srv.Start]. *)
Definition configure (cfg : relay_config) (srv : Server) : Server :=
  let srv := if rc_rateLimit cfg then srv else set_rateLimiter (SetEnabled false) srv in
  if rc_trustProxy cfg then set_trustProxy true srv else srv.

Definition bootRelay (quicBuilt : bool) (cfg : relay_config) (now : Z) : Node :=
  mkNode (configure cfg (NewServer now)) (rc_listen cfg) None false false false false false false true MListen SWait CNone false
    (match rc_metrics cfg with Some addr => startHTTP addr None | None => HttpOff end)
    (match rc_ws cfg with Some (addr, tls) => startHTTP addr tls | None => HttpOff end)
    (if rc_quic cfg then startQUIC quicBuilt else QOff) false 0.

(** [Addr] (server.go:143-150) *)
Definition Addr (n : Node) : bytes :=
  match n_bound n with Some addr => if n_stored n then addr else n_listenAddr n | None => n_listenAddr n end.

(** ** Steps *)

(** [srv.readyOnce.Do(func() { close(srv.ready) })]; closing a closed channel panics. *)
Definition makeReady (n : Node) : Node :=
  if n_readyOnce n then n else set_ready true true (n_panic n || n_ready n) n.

(** The two halves of [srv.Close] (server.go:429-438). *)
Definition closeListener (n : Node) : Node :=
  if n_stored n then set_listen (n_bound n) false true n else n.
Definition closeSessions (n : Node) : Node := up_srv CloseAll n.

(** What [l.Accept] returns: it blocks until a connection is there, the listener is
    closed ([net.ErrClosed]), or the system fails to accept on an open one. *)
Inductive accepted := Accepted (nc : NetConn) | AcceptClosed | AcceptFailed.
Inductive main_input := InListen (r : option bytes) | InAccept (r : accepted) | InNone.

(** A round of the accept loop (server.go:202-228); [None] for an answer a listener in
    this state does not give. *)
Definition acceptStep (r : accepted) (n : Node) : option Node :=
  match r with
  | Accepted nc => if n_open n then Some (up_srv (accept GoTCP nc) n) else None
  | AcceptClosed => if n_open n then None else Some (set_main (MReturn true) n)
  | AcceptFailed => if n_open n then Some (if n_ctxDone n then set_main (MReturn true) n else n) else None
  end.

Definition mainStep (i : main_input) (n : Node) : option Node :=
  match n_main n, i with
  | MListen, InListen (Some addr) => Some (set_main MStore (set_listen (Some addr) true false n))
  | MListen, InListen None => Some (set_main (MReturn false) n)
  | MStore, InNone => Some (set_main MReady (set_listen (n_bound n) (n_open n) true n))
  | MReady, InNone => Some (set_main MAccept (set_closer CWait true (makeReady n)))
  | MAccept, InAccept r => acceptStep r n
  | MReturn ok, InNone => Some (set_main (MWipe ok) (set_ctxDone n))
  | MWipe ok, InNone =>
      let status := if ok then 0 else 1 in
      Some (if n_wiper n then set_main (MWipeListener ok) (take_wiper n) else set_main (MExit status) n)
  | MWipeListener ok, InNone => Some (set_main (MWipeSessions ok) (closeListener n))
  | MWipeSessions ok, InNone => Some (set_main (MExit (if ok then 0 else 1)) (closeSessions n))
  | _, _ => None
  end.

Definition signalStep (n : Node) : option Node :=
  match n_signal n with
  | SWait | SDone => None
  | SWipe => Some (if n_wiper n then set_signal SListener (take_wiper n) else set_signal SCancel n)
  | SListener => Some (set_signal SSessions (closeListener n))
  | SSessions => Some (set_signal SCancel (closeSessions n))
  | SCancel => Some (set_signal SDone (set_ctxDone n))
  end.

Definition closerStep (n : Node) : option Node :=
  match n_closer n with
  | CWait => if n_ctxDone n then Some (set_closer CSessions (n_ticker n) (set_listen (n_bound n) false (n_stored n) n)) else None
  | CSessions => Some (set_closer CDone (n_ticker n) (closeSessions n))
  | CNone | CDone => None
  end.

(** The ticker goroutine (server.go:188-200): a tick, or the end of the context. *)
Definition tickerStep (tick : bool) (n : Node) : option Node :=
  if negb (n_ticker n) then None
  else if tick then Some (up_srv maintenance n)
  else if n_ctxDone n then Some (set_closer (n_closer n) false n)
  else None.

Inductive quic_input := QTlsMade (ok : bool) | QBound (r : option bytes) | QConn (ok : bool) | QNone.

Definition quicStep (i : quic_input) (n : Node) : option Node :=
  let at_pc p := set_quic (n_listenAddr n) p (n_quicOpen n) (n_quicConns n) n in
  match n_quic n, i with
  | QTls, QTlsMade ok => Some (at_pc (if ok then QListen else QDone false true))
  | QListen, QBound (Some addr) => Some (at_pc (QStore addr))
  | QListen, QBound None => Some (at_pc (QDone false true))
  | QStore addr, QNone => Some (set_quic addr QReady (n_quicOpen n) (n_quicConns n) n)
  | QReady, QNone => Some (set_quic (n_listenAddr n) QAccept true (n_quicConns n) (makeReady n))
  | QAccept, QConn true =>
      if n_quicOpen n then Some (set_quic (n_listenAddr n) QAccept true (S (n_quicConns n)) n) else None
  | QAccept, QConn false => Some (at_pc (QDone true (negb (n_ctxDone n))))
  | _, _ => None
  end.

(** The goroutine that closes the QUIC listener (server_quic.go:36-39). *)
Definition quicCloserStep (n : Node) : option Node :=
  if n_quicOpen n && n_ctxDone n then Some (set_quic (n_listenAddr n) (n_quic n) false (n_quicConns n) n) else None.

(** A round of [handleQuicConn] (server_quic.go:56-75): a stream, or an error. *)
Definition quicStreamStep (stream : option NetConn) (n : Node) : option Node :=
  match n_quicConns n, stream with
  | O, _ => None
  | S _, Some nc => Some (up_srv (accept GoQUIC nc) n)
  | S k, None => Some (set_quic (n_listenAddr n) (n_quic n) (n_quicOpen n) k n)
  end.

(** An HTTP server binds or fails, or is shut down with the context (server.go:69-78,
    124-137). *)
Definition httpBind (ok : bool) (h : http_state) : option http_state :=
  match h with HttpStarting addr tls => Some (if ok then HttpServing addr tls else HttpDown) | _ => None end.
Definition httpShutdown (h : http_state) : option http_state :=
  match h with HttpStarting _ _ | HttpServing _ _ => Some HttpDown | _ => None end.
Definition serving (h : http_state) : bool := match h with HttpServing _ _ => true | _ => false end.

(** A request to the metrics server: the page at [/metrics], else 404 (server.go:61-62). *)
Definition serveMetrics (startTime now : Z) (path : bytes) (n : Node) : option (Z * bytes) :=
  if serving (n_metrics n) then
    Some (if bool_decide (path = str "/metrics") then (200, metricsPage (sv_metrics (n_srv n)) startTime now) else (404, []))
  else None.

(** A request to the WebSocket server (server.go:95-117); [nc] is the connection's
    stream of data payloads. *)
Definition wsRequest (envAllowed : bytes) (hj : hijacker) (r : http_request) (nc : NetConn) (n : Node) : option Node :=
  if serving (n_ws n) then
    match serveWebSocket envAllowed (sv_activeConns (n_srv n)) MaxActiveConnections hj r with
    | WsServe _ => Some (up_srv (accept GoTCP nc) n)
    | WsStatus _ | WsBusy _ => Some n
    end
  else None.

Inductive node_label :=
  | NMain (i : main_input)
  | NInterrupt                    (** SIGINT or SIGTERM arrives *)
  | NSignal
  | NCloser
  | NTicker (tick : bool)
  | NQuic (i : quic_input)
  | NQuicCloser
  | NQuicStream (stream : option NetConn)
  | NMetricsBind (ok : bool) | NMetricsDown
  | NWsBind (ok : bool) | NWsDown
  | NWs (envAllowed : bytes) (hj : hijacker) (r : http_request) (nc : NetConn)
  | NRun (t : nat) (o : oracle)   (** a goroutine that serves a connection *)
  | NTime (dt : Z).

Section Node.
Variable pool : bytes.

Definition exited (n : Node) : bool := match n_main n with MExit _ => true | _ => n_panic n end.

Definition node_next (l : node_label) (n : Node) : option Node :=
  if exited n then None
  else
    match l with
    | NMain i => mainStep i n
    | NInterrupt => match n_signal n with SWait => Some (set_signal SWipe n) | _ => None end
    | NSignal => signalStep n
    | NCloser => closerStep n
    | NTicker tick => tickerStep tick n
    | NQuic i => quicStep i n
    | NQuicCloser => quicCloserStep n
    | NQuicStream stream => quicStreamStep stream n
    | NMetricsBind ok => h ← httpBind ok (n_metrics n); Some (set_http h (n_ws n) n)
    | NMetricsDown => if n_ctxDone n then h ← httpShutdown (n_metrics n); Some (set_http h (n_ws n) n) else None
    | NWsBind ok => h ← httpBind ok (n_ws n); Some (set_http (n_metrics n) h n)
    | NWsDown => if n_ctxDone n then h ← httpShutdown (n_ws n); Some (set_http (n_metrics n) h n) else None
    | NWs envAllowed hj r nc => wsRequest envAllowed hj r nc n
    | NRun t o => srv ← thread_step pool o t (n_srv n); Some (up_srv (fun _ => srv) n)
    | NTime dt => if 0 <=? dt then Some (up_srv (set_now (Z.add dt)) n) else None
    end.

Fixpoint node_exec (ls : list node_label) (n : Node) : option Node :=
  match ls with
  | [] => Some n
  | l :: ls => node_next l n ≫= node_exec ls
  end.
End Node.

(** ** The node runs a relay *)

Section Runs.
Variable pool : bytes.

Lemma node_exec_app ls1 ls2 n : node_exec pool (ls1 ++ ls2) n = node_exec pool ls1 n ≫= node_exec pool ls2.
Proof.
  revert n. induction ls1 as [|l ls1 IH]; intros n; [done|]. cbn. destruct (node_next pool l n); [apply IH|done].
Qed.

(** Either the server is left alone or it makes one of its own steps. *)
Definition server_step (n n' : Node) : Prop :=
  n_srv n' = n_srv n \/ exists l, relay_next pool l (n_srv n) = Some (n_srv n').

Lemma makeReady_srv n : n_srv (makeReady n) = n_srv n.
Proof. unfold makeReady. by destruct (n_readyOnce n). Qed.
Lemma closeListener_srv n : n_srv (closeListener n) = n_srv n.
Proof. unfold closeListener. by destruct (n_stored n). Qed.

Lemma same_server n n' : n_srv n' = n_srv n -> server_step n n'.
Proof. by left. Qed.
Lemma own_server l n n' : relay_next pool l (n_srv n) = Some (n_srv n') -> server_step n n'.
Proof. right. by exists l. Qed.

Lemma mainStep_server i n n' : mainStep i n = Some n' -> server_step n n'.
Proof.
  unfold mainStep, acceptStep. destruct (n_main n), i as [[]|[nc| |]|]; intros H; try discriminate H; repeat case_match; try discriminate H;
    injection H as <-;
    first [apply same_server; cbn; first [reflexivity|apply makeReady_srv|apply closeListener_srv]
          |apply (own_server (LAccept GoTCP nc)); reflexivity|apply (own_server LCloseAll); reflexivity].
Qed.

Lemma node_next_server l n n' : node_next pool l n = Some n' -> server_step n n'.
Proof.
  unfold node_next. destruct (exited n); [done|]. destruct l; [apply mainStep_server|..]; intros E.
  - destruct (n_signal n); try discriminate E. injection E as <-. by left.
  - unfold signalStep in E. destruct (n_signal n); try discriminate E; injection E as <-.
    + case_match; by left.
    + apply same_server. cbn. apply closeListener_srv.
    + by apply (own_server LCloseAll).
    + by left.
  - unfold closerStep in E. destruct (n_closer n); try discriminate E.
    + case_match; [|discriminate E]. injection E as <-. by left.
    + injection E as <-. by apply (own_server LCloseAll).
  - unfold tickerStep in E. repeat case_match; try discriminate E; injection E as <-; [by apply (own_server LMaintain)|by left].
  - unfold quicStep in E. destruct (n_quic n), i as [[]|[]|[]|]; try discriminate E; repeat case_match; try discriminate E;
      injection E as <-; apply same_server; cbn; first [reflexivity|apply makeReady_srv].
  - unfold quicCloserStep in E. case_match; [|discriminate E]. injection E as <-. by left.
  - unfold quicStreamStep in E. repeat case_match; try discriminate E; injection E as <-; [by eapply (own_server (LAccept GoQUIC _))|by left].
  - destruct (httpBind _ _); [|discriminate E]. injection E as <-. by left.
  - case_match; [|discriminate E]. destruct (httpShutdown _); [|discriminate E]. injection E as <-. by left.
  - destruct (httpBind _ _); [|discriminate E]. injection E as <-. by left.
  - case_match; [|discriminate E]. destruct (httpShutdown _); [|discriminate E]. injection E as <-. by left.
  - unfold wsRequest in E. case_match; [|discriminate E]. case_match; injection E as <-; [by left|by left|].
    by eapply (own_server (LAccept GoTCP _)).
  - destruct (thread_step _ _ _ _) eqn:Et; [|discriminate E]. injection E as <-. by apply (own_server (LRun t o)).
  - case_match; [|discriminate E]. injection E as <-. apply (own_server (LTick dt)). cbn. by case_match.
Qed.

Lemma reachable_server n n' : server_step n n' -> reachable pool (n_srv n) -> reachable pool (n_srv n').
Proof.
  intros [->|[l E]]; [done|]. intros (now & ls & Hr). exists now, (ls ++ [l]). by eapply run_snoc.
Qed.

(** Nothing panics: [ready] is closed only under [readyOnce]; and it is closed only when
    a listener is bound. *)
Definition quic_up (p : quic_pc) : Prop := p = QAccept \/ exists err, p = QDone true err.

Record node_inv (n : Node) : Prop := {
  ni_panic : n_panic n = false;
  ni_once : n_ready n = n_readyOnce n;
  ni_ready : n_ready n = true -> n_stored n = true \/ quic_up (n_quic n);
  ni_stored : n_stored n = true -> n_bound n <> None;
  ni_pc : match n_main n with
          | MListen => n_bound n = None /\ n_stored n = false
          | MStore => n_bound n <> None
          | MReady => n_stored n = true
          | MAccept => n_stored n = true /\ n_closer n <> CNone
          | _ => True
          end;
  ni_closer : n_closer n <> CNone -> n_bound n <> None /\ (n_closer n <> CWait -> n_open n = false);
  ni_signal : n_signal n = SDone -> n_ctxDone n = true
}.

(** Steps that leave the listener, the start-up and the goroutines of [main] alone. *)
Lemma node_inv_same n n' :
  node_inv n -> n_panic n' = n_panic n -> n_ready n' = n_ready n -> n_readyOnce n' = n_readyOnce n -> n_stored n' = n_stored n ->
  n_bound n' = n_bound n -> n_open n' = n_open n -> n_main n' = n_main n -> n_closer n' = n_closer n ->
  (n_signal n' = SDone -> n_signal n = SDone \/ n_ctxDone n' = true) -> (n_ctxDone n = true -> n_ctxDone n' = true) ->
  (quic_up (n_quic n) -> quic_up (n_quic n')) -> node_inv n'.
Proof.
  intros [H1 H2 H3 H4 H5 H6 H7] E1 E2 E3 E4 E5 E6 E7 E8 Hs Hd Hq.
  constructor; rewrite ?E1, ?E2, ?E3, ?E4, ?E5, ?E6, ?E7, ?E8; auto.
  - intros Hr. destruct (H3 Hr); auto.
  - intros Hn. destruct (Hs Hn); auto.
Qed.

Ltac same_node HI := apply (node_inv_same _ _ HI); try reflexivity; cbn; auto.

Lemma makeReady_cases n : node_inv n -> makeReady n = n /\ n_ready n = true \/ makeReady n = set_ready true true false n /\ n_ready n = false.
Proof.
  intros HI. unfold makeReady. rewrite (ni_once n HI), (ni_panic n HI). destruct (n_readyOnce n); [by left|by right].
Qed.

Lemma closeListener_inv n : node_inv n -> node_inv (closeListener n).
Proof.
  intros HI. unfold closeListener. destruct (n_stored n) eqn:E; [|done]. destruct HI as [H1 H2 H3 H4 H5 H6 H7].
  constructor; cbn; auto; try (by rewrite <- E). 
  destruct (n_main n); auto; congruence.
Qed.

Lemma return_inv ok n : node_inv n -> node_inv (set_main (MReturn ok) n).
Proof. intros [H1 H2 H3 H4 H5 H6 H7]. by constructor. Qed.

Lemma mainStep_inv i n n' : mainStep i n = Some n' -> node_inv n -> node_inv n'.
Proof.
  unfold mainStep, acceptStep. intros E HI. pose proof (ni_pc n HI) as Hpc. pose proof HI as [H1 H2 H3 H4 H5 H6 H7].
  destruct (n_main n) eqn:Em, i as [[]|[nc| |]|]; try discriminate E; repeat case_match; try discriminate E; injection E as <-;
    rewrite ?Em in *.
  all: try (constructor; cbn; rewrite ?Em; auto; fail).
  - destruct Hpc as [Hb Hs]. rewrite Hs, Hb in *. constructor; cbn; auto; try done.
    intros Hc. destruct (H6 Hc) as [? _]. done.
  - destruct (makeReady_cases n HI) as [[-> Hr]|[-> Hr]]; constructor; cbn; auto; intros _; (split; [by apply H4|done]).
  - by same_node HI.
  - by apply return_inv.
  - by apply return_inv.
  - done.
  - pose proof (closeListener_inv n HI) as [K1 K2 K3 K4 K5 K6 K7]. by constructor.
Qed.

Lemma node_next_inv l n n' : node_next pool l n = Some n' -> node_inv n -> node_inv n'.
Proof.
  unfold node_next. destruct (exited n); [done|]. intros E HI. destruct l; [by eapply mainStep_inv|..].
  - destruct (n_signal n); try discriminate E. injection E as <-. by same_node HI.
  - unfold signalStep in E. destruct (n_signal n) eqn:Es; try discriminate E; injection E as <-.
    + case_match; by same_node HI.
    + pose proof (closeListener_inv n HI) as HI'. by same_node HI'.
    + by same_node HI.
    + by same_node HI.
  - unfold closerStep in E. destruct (n_closer n) eqn:Ec; try discriminate E.
    + case_match; [|discriminate E]. injection E as <-. destruct HI as [H1 H2 H3 H4 H5 H6 H7].
      constructor; cbn; auto; [destruct (n_main n); auto; by destruct H5|]. intros _. split; [apply H6; by rewrite Ec|done].
    + injection E as <-. destruct HI as [H1 H2 H3 H4 H5 H6 H7]. rewrite Ec in H6.
      constructor; cbn; auto; [destruct (n_main n); auto; by destruct H5|]. intros _. destruct H6 as [? Ho]; [done|]. split; [done|]. intros _. by apply Ho.
  - unfold tickerStep in E. repeat case_match; try discriminate E; injection E as <-; by same_node HI.
  - unfold quicStep in E. destruct (n_quic n) eqn:Eq, i as [[]|[]|[]|]; try discriminate E; repeat case_match; try discriminate E;
      injection E as <-; try (same_node HI; rewrite ?Eq; intros [?|[? ?]]; try discriminate; unfold quic_up; eauto).
    destruct (makeReady_cases n HI) as [[-> Hr]|[-> Hr]]; destruct HI as [H1 H2 H3 H4 H5 H6 H7]; constructor; cbn; auto; by right; left.
  - unfold quicCloserStep in E. case_match; [|discriminate E]. injection E as <-. by same_node HI.
  - unfold quicStreamStep in E. repeat case_match; try discriminate E; injection E as <-; by same_node HI.
  - destruct (httpBind _ _); [|discriminate E]. injection E as <-. by same_node HI.
  - case_match; [|discriminate E]. destruct (httpShutdown _); [|discriminate E]. injection E as <-. by same_node HI.
  - destruct (httpBind _ _); [|discriminate E]. injection E as <-. by same_node HI.
  - case_match; [|discriminate E]. destruct (httpShutdown _); [|discriminate E]. injection E as <-. by same_node HI.
  - unfold wsRequest in E. case_match; [|discriminate E]. case_match; injection E as <-; by same_node HI.
  - destruct (thread_step _ _ _ _) eqn:Et; [|discriminate E]. injection E as <-. by same_node HI.
  - case_match; [|discriminate E]. injection E as <-. by same_node HI.
Qed.

Lemma boot_inv qb cfg now : node_inv (bootRelay qb cfg now).
Proof. by constructor. Qed.

Lemma boot_reachable qb cfg now : reachable pool (n_srv (bootRelay qb cfg now)).
Proof.
  cbn. unfold configure. destruct (rc_rateLimit cfg), (rc_trustProxy cfg).
  - by apply (exec_reachable pool now [LSetTrustProxy true]).
  - by apply (exec_reachable pool now []).
  - by apply (exec_reachable pool now [LSetRateLimiting false; LSetTrustProxy true]).
  - by apply (exec_reachable pool now [LSetRateLimiting false]).
Qed.

Lemma node_exec_inv ls n n' :
  node_exec pool ls n = Some n' -> node_inv n -> reachable pool (n_srv n) -> node_inv n' /\ reachable pool (n_srv n').
Proof.
  revert n. induction ls as [|l ls IH]; intros n E HI Hr; cbn in E; [by simplify_eq|].
  destruct (node_next pool l n) as [n1|] eqn:E1; [|discriminate E]. apply (IH n1 E).
  - by eapply node_next_inv.
  - eapply reachable_server; [by eapply node_next_server|done].
Qed.

(** ** The node runs what was configured *)

(** An HTTP server that is there was asked for, with this address and these files. *)
Definition http_from (asked : option (bytes * option (bytes * bytes))) (h : http_state) : Prop :=
  match h with HttpStarting addr tls | HttpServing addr tls => asked = Some (addr, tls) /\ addr <> [] | _ => True end.

(** A QUIC listener that is there was asked for, and built in. *)
Definition quic_from (quicBuilt asked : bool) (n : Node) : Prop :=
  match n_quic n with QOff | QDone false _ => n_quicOpen n = false /\ n_quicConns n = 0%nat | _ => quicBuilt = true /\ asked = true end.

Record configured (quicBuilt : bool) (cfg : relay_config) (n : Node) : Prop := {
  nc_metrics : http_from ((fun addr => (addr, None)) <$> rc_metrics cfg) (n_metrics n);
  nc_ws : http_from (rc_ws cfg) (n_ws n);
  nc_quic : quic_from quicBuilt (rc_quic cfg) n;
  nc_early : match n_quic n with QTls | QListen | QStore _ | QReady => n_quicOpen n = false /\ n_quicConns n = 0%nat | _ => True end
}.

Lemma configured_same qb cfg n n' :
  n_metrics n' = n_metrics n -> n_ws n' = n_ws n -> n_quic n' = n_quic n -> n_quicOpen n' = n_quicOpen n ->
  n_quicConns n' = n_quicConns n -> configured qb cfg n -> configured qb cfg n'.
Proof. intros E1 E2 E3 E4 E5 [H1 H2 H3 H4]. constructor; unfold quic_from; by rewrite ?E1, ?E2, ?E3, ?E4, ?E5. Qed.

Lemma startHTTP_from addr tls : http_from (Some (addr, tls)) (startHTTP addr tls).
Proof. unfold startHTTP. by case_bool_decide. Qed.

Lemma boot_configured qb cfg now : configured qb cfg (bootRelay qb cfg now).
Proof.
  constructor; cbn.
  - destruct (rc_metrics cfg); [apply startHTTP_from|done].
  - destruct (rc_ws cfg) as [[addr tls]|]; [apply startHTTP_from|done].
  - unfold quic_from. cbn. destruct (rc_quic cfg), qb; done.
  - destruct (rc_quic cfg), qb; done.
Qed.

Lemma http_bind_from asked ok h h' : httpBind ok h = Some h' -> http_from asked h -> http_from asked h'.
Proof. destruct h; try discriminate. intros [= <-]. by destruct ok. Qed.
Lemma http_down_from asked h h' : httpShutdown h = Some h' -> http_from asked h'.
Proof. destruct h; try discriminate; by intros [= <-]. Qed.

Lemma makeReady_frame n :
  n_metrics (makeReady n) = n_metrics n /\ n_ws (makeReady n) = n_ws n /\ n_quic (makeReady n) = n_quic n /\
  n_quicOpen (makeReady n) = n_quicOpen n /\ n_quicConns (makeReady n) = n_quicConns n.
Proof. unfold makeReady. by destruct (n_readyOnce n). Qed.

Lemma closeListener_config n :
  n_metrics (closeListener n) = n_metrics n /\ n_ws (closeListener n) = n_ws n /\ n_quic (closeListener n) = n_quic n /\
  n_quicOpen (closeListener n) = n_quicOpen n /\ n_quicConns (closeListener n) = n_quicConns n.
Proof. unfold closeListener. by destruct (n_stored n). Qed.

Lemma mainStep_configured qb cfg i n n' : mainStep i n = Some n' -> configured qb cfg n -> configured qb cfg n'.
Proof.
  destruct (makeReady_frame n) as (R1 & R2 & R3 & R4 & R5). destruct (closeListener_config n) as (L1 & L2 & L3 & L4 & L5).
  unfold mainStep, acceptStep. intros E. destruct (n_main n), i as [[]|[nc| |]|]; try discriminate E; repeat case_match;
    try discriminate E; injection E as <-; try done; by apply configured_same.
Qed.

Lemma quicStep_configured qb cfg i n n' : quicStep i n = Some n' -> configured qb cfg n -> configured qb cfg n'.
Proof.
  destruct (makeReady_frame n) as (R1 & R2 & R3 & R4 & R5). unfold quicStep. intros E [H1 H2 H3 H4]. unfold quic_from in H3.
  destruct (n_quic n) eqn:Eq, i as [[]|[]|[]|]; try discriminate E; repeat case_match; try discriminate E; injection E as <-;
    (constructor; unfold quic_from; cbn; rewrite ?R1, ?R2; auto).
Qed.

Lemma configured_next qb cfg l n n' : node_next pool l n = Some n' -> configured qb cfg n -> configured qb cfg n'.
Proof.
  destruct (closeListener_config n) as (L1 & L2 & L3 & L4 & L5).
  unfold node_next. destruct (exited n); [done|]. intros E HI. destruct l; [by eapply mainStep_configured|..].
  - destruct (n_signal n); try discriminate E. injection E as <-. by apply (configured_same _ _ n).
  - unfold signalStep in E. destruct (n_signal n); try discriminate E; injection E as <-; try case_match; by apply (configured_same _ _ n).
  - unfold closerStep in E. destruct (n_closer n); try discriminate E; try (case_match; [|discriminate E]); injection E as <-;
      by apply (configured_same _ _ n).
  - unfold tickerStep in E. repeat case_match; try discriminate E; injection E as <-; by apply (configured_same _ _ n).
  - by eapply quicStep_configured.
  - unfold quicCloserStep in E. case_match eqn:Eo; [|discriminate E]. injection E as <-. destruct HI as [H1 H2 H3 H4].
    apply andb_true_iff in Eo as [Eo _]. unfold quic_from in H3.
    constructor; unfold quic_from; cbn; auto; destruct (n_quic n) as [| | | | | |[] ?]; try done; naive_solver.
  - unfold quicStreamStep in E. pose proof HI as [H1 H2 H3 H4]. unfold quic_from in H3.
    destruct (n_quicConns n) as [|k] eqn:Ek; [discriminate E|]. destruct stream as [nc|]; injection E as <-.
    + by apply (configured_same _ _ n).
    + constructor; unfold quic_from; cbn; auto; destruct (n_quic n) as [| | | | | |[] ?]; try done; naive_solver.
  - destruct (httpBind _ _) eqn:Eh; [|discriminate E]. injection E as <-. destruct HI. constructor; cbn; auto. by eapply http_bind_from.
  - case_match; [|discriminate E]. destruct (httpShutdown _) eqn:Eh; [|discriminate E]. injection E as <-. destruct HI.
    constructor; cbn; auto. by eapply http_down_from.
  - destruct (httpBind _ _) eqn:Eh; [|discriminate E]. injection E as <-. destruct HI. constructor; cbn; auto. by eapply http_bind_from.
  - case_match; [|discriminate E]. destruct (httpShutdown _) eqn:Eh; [|discriminate E]. injection E as <-. destruct HI.
    constructor; cbn; auto. by eapply http_down_from.
  - unfold wsRequest in E. case_match; [|discriminate E]. case_match; injection E as <-; by apply (configured_same _ _ n).
  - destruct (thread_step _ _ _ _) eqn:Et; [|discriminate E]. injection E as <-. by apply (configured_same _ _ n).
  - case_match; [|discriminate E]. injection E as <-. by apply (configured_same _ _ n).
Qed.

Lemma configured_exec qb cfg ls n n' : node_exec pool ls n = Some n' -> configured qb cfg n -> configured qb cfg n'.
Proof.
  revert n. induction ls as [|l ls IH]; intros n E HI; cbn in E; [by simplify_eq|].
  destruct (node_next pool l n) as [n1|] eqn:E1; [|discriminate E]. apply (IH n1 E). by eapply configured_next.
Qed.

(** ** Shutdown *)

(** The steps of [main], of the signal handler and of the goroutine that waits for the end of
    the context; the accept loop gets no failure of the system. *)
Definition own (l : node_label) : Prop :=
  match l with NMain (InAccept AcceptFailed) => False | NMain _ | NSignal | NCloser => True | _ => False end.

(** In at most [k] such steps the node gets to [Q]. *)
Definition soon (k : nat) (Q : Node -> Prop) (n : Node) : Prop :=
  exists ls n', (length ls <= k)%nat /\ Forall own ls /\ node_exec pool ls n = Some n' /\ Q n'.

Lemma soon_now k (Q : Node -> Prop) n : Q n -> soon k Q n.
Proof. intros H. exists [], n. by split_and!; [cbn; lia|constructor|..]. Qed.

Lemma soon_step k Q l n n1 : own l -> node_next pool l n = Some n1 -> soon k Q n1 -> soon (S k) Q n.
Proof.
  intros Hl E (ls & n' & Hk & Ho & E' & HQ). exists (l :: ls), n'. cbn. rewrite E. split_and!; [lia|by constructor|done|done].
Qed.

Lemma main_next i p n :
  n_main n = p -> (forall st, p <> MExit st) -> n_panic n = false -> node_next pool (NMain i) n = mainStep i n.
Proof. intros Em Hp Hn. unfold node_next, exited. rewrite Em, Hn. destruct p; try reflexivity. by destruct (Hp status). Qed.

Definition ended (status : Z) (n : Node) : Prop := n_main n = MExit status.

(** One step of [main] at [p]. *)
Lemma main_soon k Q i p n n1 :
  own (NMain i) -> n_main n = p -> (forall st, p <> MExit st) -> n_panic n = false -> mainStep i n = Some n1 -> soon k Q n1 ->
  soon (S k) Q n.
Proof. intros Ho Em Hp Hn E H. eapply (soon_step _ _ (NMain i)); [exact Ho|by erewrite main_next|exact H]. Qed.

Lemma closeListener_frame n : n_main (closeListener n) = n_main n /\ n_panic (closeListener n) = n_panic n.
Proof. unfold closeListener. by destruct (n_stored n). Qed.

(** The process winds down on its own from the return of [runRelay]. *)
Lemma exit_soon n ok : n_main n = MReturn ok -> n_panic n = false -> soon 4 (ended (if ok then 0 else 1)) n.
Proof.
  intros Em Hp. eapply (main_soon _ _ InNone); [exact I|exact Em|discriminate|exact Hp|unfold mainStep; rewrite Em; reflexivity|].
  set (n1 := set_main _ _). eapply (main_soon _ _ InNone (MWipe ok) n1); [exact I|reflexivity|discriminate|exact Hp|reflexivity|].
  destruct (n_wiper n1); [|by apply soon_now].
  eapply (main_soon _ _ InNone (MWipeListener ok)); [exact I|reflexivity|discriminate|exact Hp|reflexivity|]. set (n2 := set_main _ (take_wiper n1)).
  eapply (main_soon _ _ InNone (MWipeSessions ok)); [exact I|reflexivity|discriminate| |reflexivity|by apply soon_now].
  cbn [set_main n_panic]. rewrite (proj2 (closeListener_frame n2)). exact Hp.
Qed.

Lemma soon_trans k m (P Q : Node -> Prop) n : soon k P n -> (forall n', P n' -> soon m Q n') -> soon (k + m) Q n.
Proof.
  intros (ls & n1 & Hk & Ho & E & HP) HQ. destruct (HQ n1 HP) as (ls' & n2 & Hm & Ho' & E' & H).
  exists (ls ++ ls'), n2. rewrite length_app, node_exec_app, E. split_and!; [lia|by apply Forall_app|done|done].
Qed.
Lemma soon_mono k m (P Q : Node -> Prop) n : (k <= m)%nat -> (forall n', P n' -> Q n') -> soon k P n -> soon m Q n.
Proof. intros Hk HQ (ls & n1 & Hl & Ho & E & HP). exists ls, n1. split_and!; [lia|done|done|auto]. Qed.

(** Once the context is done the waiting goroutine closes the listener, if nobody has
    yet, and the accept loop returns. *)
Lemma accept_soon n : n_main n = MAccept -> n_ctxDone n = true -> node_inv n -> soon 6 (ended 0) n.
Proof.
  intros Em Hc HI. assert (He : exited n = false) by (unfold exited; by rewrite Em, (ni_panic n HI)).
  assert (Hclosed : forall n, n_main n = MAccept -> n_open n = false -> n_panic n = false -> soon 5 (ended 0) n).
  { intros n' Em' Ho Hp. eapply (main_soon _ _ (InAccept AcceptClosed)); [exact I|exact Em'|discriminate|exact Hp| |].
    - unfold mainStep, acceptStep. by rewrite Em', Ho.
    - by apply (exit_soon _ true). }
  destruct (n_open n) eqn:Eo; [|eapply (soon_mono 5); [lia|done|by apply Hclosed; [..|apply (ni_panic n HI)]]].
  pose proof (ni_pc n HI) as Hpc. rewrite Em in Hpc. destruct Hpc as [_ Hcl].
  assert (Ew : n_closer n = CWait).
  { destruct (ni_closer n HI Hcl) as [_ Hw]. destruct (n_closer n); try done; by rewrite Hw in Eo. }
  eapply (soon_step _ _ NCloser); [exact I|unfold node_next; rewrite He; unfold closerStep; rewrite Ew, Hc; reflexivity|].
  apply Hclosed; [exact Em|reflexivity|apply (ni_panic n HI)].
Qed.

Lemma ready_panic n : node_inv n -> n_panic (makeReady n) = false /\ n_ctxDone (makeReady n) = n_ctxDone n.
Proof.
  intros HI. destruct (makeReady_cases n HI) as [[-> _]|[-> _]]; [|done]. split; [apply (ni_panic n HI)|done].
Qed.

Lemma ready_soon n : n_main n = MReady -> n_ctxDone n = true -> node_inv n -> soon 7 (ended 0) n.
Proof.
  intros Em Hc HI. destruct (ready_panic n HI) as [Hp Hd].
  assert (E : mainStep InNone n = Some (set_main MAccept (set_closer CWait true (makeReady n)))) by (unfold mainStep; by rewrite Em).
  eapply (main_soon _ _ InNone); [exact I|exact Em|discriminate|apply (ni_panic n HI)|exact E|].
  apply accept_soon; [done|cbn; congruence|by eapply mainStep_inv].
Qed.

Lemma store_soon n : n_main n = MStore -> n_ctxDone n = true -> node_inv n -> soon 8 (ended 0) n.
Proof.
  intros Em Hc HI. assert (E : mainStep InNone n = Some (set_main MReady (set_listen (n_bound n) (n_open n) true n)))
    by (unfold mainStep; by rewrite Em).
  eapply (main_soon _ _ InNone); [exact I|exact Em|discriminate|apply (ni_panic n HI)|exact E|].
  apply ready_soon; [done|exact Hc|by eapply mainStep_inv].
Qed.

Lemma listen_soon n (r : option bytes) : n_main n = MListen -> n_ctxDone n = true -> node_inv n ->
  soon 9 (ended (match r with Some _ => 0 | None => 1 end)) n.
Proof.
  intros Em Hc HI. destruct r as [addr|].
  - assert (E : mainStep (InListen (Some addr)) n = Some (set_main MStore (set_listen (Some addr) true false n)))
      by (unfold mainStep; by rewrite Em).
    eapply (main_soon _ _ (InListen (Some addr))); [exact I|exact Em|discriminate|apply (ni_panic n HI)|exact E|].
    apply store_soon; [done|exact Hc|by eapply mainStep_inv].
  - eapply (soon_mono 5); [lia|done|].
    eapply (main_soon _ _ (InListen None)); [exact I|exact Em|discriminate|apply (ni_panic n HI)|unfold mainStep; rewrite Em; reflexivity|].
    by apply (exit_soon _ false); [|apply (ni_panic n HI)].
Qed.

Lemma wipeSessions_soon n ok : n_main n = MWipeSessions ok -> n_panic n = false -> soon 1 (ended (if ok then 0 else 1)) n.
Proof.
  intros Em Hp. eapply (main_soon _ _ InNone); [exact I|exact Em|discriminate|exact Hp|unfold mainStep; rewrite Em; reflexivity|by apply soon_now].
Qed.
Lemma wipeListener_soon n ok : n_main n = MWipeListener ok -> n_panic n = false -> soon 2 (ended (if ok then 0 else 1)) n.
Proof.
  intros Em Hp. eapply (main_soon _ _ InNone); [exact I|exact Em|discriminate|exact Hp|unfold mainStep; rewrite Em; reflexivity|].
  apply (wipeSessions_soon _ ok); [done|]. cbn. by rewrite (proj2 (closeListener_frame n)).
Qed.
Lemma wipe_soon n ok : n_main n = MWipe ok -> n_panic n = false -> soon 3 (ended (if ok then 0 else 1)) n.
Proof.
  intros Em Hp. eapply (main_soon _ _ InNone); [exact I|exact Em|discriminate|exact Hp|unfold mainStep; rewrite Em; reflexivity|].
  destruct (n_wiper n); [by apply (wipeListener_soon _ ok)|by apply soon_now].
Qed.

(** Wherever [main] is, it exits soon after the context is done; [r] is what binding the
    port gives if it is still to be bound. *)
Definition exit_status (r : option bytes) (p : main_pc) : Z :=
  match p with
  | MListen => match r with Some _ => 0 | None => 1 end
  | MStore | MReady | MAccept => 0
  | MReturn ok | MWipe ok | MWipeListener ok | MWipeSessions ok => if ok then 0 else 1
  | MExit status => status
  end.

Lemma done_soon n r : n_ctxDone n = true -> node_inv n -> soon 9 (ended (exit_status r (n_main n))) n.
Proof.
  intros Hc HI. pose proof (ni_panic n HI) as Hp. destruct (n_main n) eqn:Em; cbn [exit_status].
  - by apply listen_soon.
  - eapply (soon_mono 8); [lia|done|by apply store_soon].
  - eapply (soon_mono 7); [lia|done|by apply ready_soon].
  - eapply (soon_mono 6); [lia|done|by apply accept_soon].
  - eapply (soon_mono 4); [lia|done|by apply exit_soon].
  - eapply (soon_mono 3); [lia|done|by apply wipe_soon].
  - eapply (soon_mono 2); [lia|done|by apply wipeListener_soon].
  - eapply (soon_mono 1); [lia|done|by apply wipeSessions_soon].
  - by apply soon_now.
Qed.

(** The signal handler gets to the end of the context. *)
Definition cancelled (p : main_pc) (n : Node) : Prop := n_ctxDone n = true /\ n_main n = p /\ node_inv n.

Lemma signal_step k Q n n1 : exited n = false -> signalStep n = Some n1 -> soon k Q n1 -> soon (S k) Q n.
Proof. intros He E. eapply (soon_step _ _ NSignal); [exact I|unfold node_next; by rewrite He]. Qed.

Lemma signal_next_inv n n1 : exited n = false -> signalStep n = Some n1 -> node_inv n -> node_inv n1.
Proof. intros He E. apply (node_next_inv NSignal). unfold node_next. by rewrite He. Qed.

Lemma cancel_soon n : exited n = false -> node_inv n -> n_signal n = SCancel -> soon 1 (cancelled (n_main n)) n.
Proof.
  intros He HI Es. assert (E : signalStep n = Some (set_signal SDone (set_ctxDone n))) by (unfold signalStep; by rewrite Es).
  eapply signal_step; [done|exact E|]. apply soon_now. split; [done|]. split; [done|by eapply signal_next_inv].
Qed.

Lemma exited_same n n' : n_main n' = n_main n -> n_panic n' = n_panic n -> exited n' = exited n.
Proof. unfold exited. by intros -> ->. Qed.

Lemma sessions_soon n : exited n = false -> node_inv n -> n_signal n = SSessions -> soon 2 (cancelled (n_main n)) n.
Proof.
  intros He HI Es. assert (E : signalStep n = Some (set_signal SCancel (closeSessions n))) by (unfold signalStep; by rewrite Es).
  eapply signal_step; [done|exact E|]. apply (cancel_soon (set_signal SCancel (closeSessions n))); [done|by eapply signal_next_inv|done].
Qed.

Lemma listener_soon n : exited n = false -> node_inv n -> n_signal n = SListener -> soon 3 (cancelled (n_main n)) n.
Proof.
  intros He HI Es. assert (E : signalStep n = Some (set_signal SSessions (closeListener n))) by (unfold signalStep; by rewrite Es).
  destruct (closeListener_frame n) as [F1 F2]. eapply signal_step; [done|exact E|]. rewrite <- F1.
  apply (sessions_soon (set_signal SSessions (closeListener n)));
    [unfold exited; cbn; by rewrite F1, F2|by eapply signal_next_inv|done].
Qed.

Lemma interrupt_soon n : exited n = false -> node_inv n -> n_signal n <> SWait -> soon 4 (cancelled (n_main n)) n.
Proof.
  intros He HI Hs. destruct (n_signal n) eqn:Es; [done|..].
  - destruct (n_wiper n) eqn:Ew.
    + assert (E : signalStep n = Some (set_signal SListener (take_wiper n))) by (unfold signalStep; by rewrite Es, Ew).
      eapply signal_step; [done|exact E|]. apply (listener_soon (set_signal SListener (take_wiper n))); [done|by eapply signal_next_inv|done].
    + assert (E : signalStep n = Some (set_signal SCancel n)) by (unfold signalStep; by rewrite Es, Ew).
      eapply (soon_mono 2); [lia|done|]. eapply signal_step; [done|exact E|].
      apply (cancel_soon (set_signal SCancel n)); [done|by eapply signal_next_inv|done].
  - eapply (soon_mono 3); [lia|done|by apply listener_soon].
  - eapply (soon_mono 2); [lia|done|by apply sessions_soon].
  - eapply (soon_mono 1); [lia|done|by apply cancel_soon].
  - apply soon_now. split; [by apply (ni_signal n HI)|done].
Qed.

(** A closed listener stays closed. *)
Definition shut (n : Node) : Prop := n_bound n <> None /\ n_open n = false.

Lemma shut_same n n' : n_bound n' = n_bound n -> (n_open n = false -> n_open n' = false) -> shut n -> shut n'.
Proof. unfold shut. intros -> H [? ?]. auto. Qed.

Lemma closeListener_shut n : shut n -> shut (closeListener n).
Proof. apply shut_same; unfold closeListener; by destruct (n_stored n). Qed.

Lemma makeReady_shut n : shut n -> shut (makeReady n).
Proof. apply shut_same; unfold makeReady; by destruct (n_readyOnce n). Qed.

Lemma mainStep_shut i n n' :
  mainStep i n = Some n' -> node_inv n -> shut n -> shut n' /\ forall nc, i <> InAccept (Accepted nc).
Proof.
  unfold mainStep, acceptStep. intros E HI Hs. pose proof (ni_pc n HI) as Hpc. pose proof Hs as [Hb Ho].
  destruct (n_main n) eqn:Em, i as [[]|[nc| |]|]; try discriminate E.
  - by destruct Hpc.
  - injection E as <-. done.
  - injection E as <-. split; [|done]. by apply (shut_same n).
  - injection E as <-. split; [|done]. by apply (shut_same (makeReady n)), makeReady_shut.
  - by rewrite Ho in E.
  - rewrite Ho in E. by injection E as <-.
  - by rewrite Ho in E.
  - by injection E as <-.
  - case_match; by injection E as <-.
  - injection E as <-. split; [|done]. by apply (shut_same (closeListener n)), closeListener_shut.
  - injection E as <-. split; [|done]. by apply (shut_same n).
Qed.

Lemma shut_next l n n' :
  node_next pool l n = Some n' -> node_inv n -> shut n -> shut n' /\ forall nc, l <> NMain (InAccept (Accepted nc)).
Proof.
  unfold node_next. destruct (exited n); [done|]. intros E HI Hs. destruct l.
  { destruct (mainStep_shut _ _ _ E HI Hs) as [H1 H2]. split; [done|]. intros nc [= ->]. by destruct (H2 nc). }
  all: split; [|discriminate].
  - destruct (n_signal n); try discriminate E. by injection E as <-.
  - unfold signalStep in E. destruct (n_signal n) eqn:Es; try discriminate E; injection E as <-.
    + by case_match.
    + by apply (shut_same (closeListener n)), closeListener_shut.
    + by apply (shut_same n).
    + by apply (shut_same n).
  - unfold closerStep in E. destruct (n_closer n) eqn:Ec; try discriminate E.
    + case_match; [|discriminate E]. injection E as <-. by apply (shut_same n).
    + injection E as <-. by apply (shut_same n).
  - unfold tickerStep in E. repeat case_match; try discriminate E; injection E as <-; by apply (shut_same n).
  - unfold quicStep in E. destruct (n_quic n) eqn:Eq, i as [[]|[]|[]|]; try discriminate E; repeat case_match; try discriminate E;
      injection E as <-; try by apply (shut_same n). by apply (shut_same (makeReady n)), makeReady_shut.
  - unfold quicCloserStep in E. case_match; [|discriminate E]. injection E as <-. by apply (shut_same n).
  - unfold quicStreamStep in E. repeat case_match; try discriminate E; injection E as <-; by apply (shut_same n).
  - destruct (httpBind _ _); [|discriminate E]. injection E as <-. by apply (shut_same n).
  - case_match; [|discriminate E]. destruct (httpShutdown _); [|discriminate E]. injection E as <-. by apply (shut_same n).
  - destruct (httpBind _ _); [|discriminate E]. injection E as <-. by apply (shut_same n).
  - case_match; [|discriminate E]. destruct (httpShutdown _); [|discriminate E]. injection E as <-. by apply (shut_same n).
  - unfold wsRequest in E. case_match; [|discriminate E]. case_match; injection E as <-; by apply (shut_same n).
  - destruct (thread_step _ _ _ _) eqn:Et; [|discriminate E]. injection E as <-. by apply (shut_same n).
  - case_match; [|discriminate E]. injection E as <-. by apply (shut_same n).
Qed.

Lemma shut_exec ls n n' :
  node_exec pool ls n = Some n' -> node_inv n -> shut n -> n_open n' = false /\ forall nc, NMain (InAccept (Accepted nc)) ∉ ls.
Proof.
  revert n. induction ls as [|l ls IH]; intros n E HI Hs; cbn in E.
  - injection E as <-. split; [apply Hs|]. intros nc. apply not_elem_of_nil.
  - destruct (node_next pool l n) as [n1|] eqn:E1; [|discriminate E]. destruct (shut_next _ _ _ E1 HI Hs) as [H1 H2].
    destruct (IH n1 E (node_next_inv _ _ _ E1 HI) H1) as [H3 H4]. split; [done|]. intros nc.
    rewrite not_elem_of_cons. split; [|done]. intros Heq. by apply (H2 nc).
Qed.
End Runs.

(** * Properties *)

(** C9: The relay process runs the relay it was configured for and nothing else.
    Whatever the flags, the answers of the operating system, the HTTP requests, the
    signals and the interleaving of all its goroutines: the state of its server is one
    that the transition system of RelayServer.v reaches, so every theorem about
    reachable relays holds of the process; it never closes the ready channel twice,
    although both [Start] and [StartQUIC] close it, and it has closed it only if a TCP
    or a QUIC listener was really bound (a failed bind never does); the WebSocket server
    and the metrics server it has are those asked for on the command line, with that
    address and those TLS files (none for the metrics); and a QUIC listener or a QUIC
    connection exists only if QUIC was asked for and is in the build. *)
Theorem node_refines pool quicBuilt cfg now ls n :
  node_exec pool ls (bootRelay quicBuilt cfg now) = Some n ->
  reachable pool (n_srv n) /\ n_panic n = false /\
  (n_ready n = true -> (n_stored n = true /\ n_bound n <> None) \/ quic_up (n_quic n)) /\
  (forall addr tls, n_ws n = HttpServing addr tls -> rc_ws cfg = Some (addr, tls) /\ addr <> []) /\
  (forall addr tls, n_metrics n = HttpServing addr tls -> rc_metrics cfg = Some addr /\ tls = None /\ addr <> []) /\
  (n_quicOpen n = true \/ n_quicConns n <> 0%nat -> quicBuilt = true /\ rc_quic cfg = true).
Proof.
  intros E. destruct (node_exec_inv pool ls _ n E (boot_inv _ _ _) (boot_reachable pool _ _ _)) as [HI Hr].
  destruct (configured_exec pool _ _ ls _ n E (boot_configured quicBuilt cfg now)) as [Cm Cw Cq _].
  split; [done|]. split; [apply (ni_panic n HI)|]. split_and!.
  - intros H. destruct (ni_ready n HI H) as [Hs|Hq]; [left|by right]. split; [done|by apply (ni_stored n HI)].
  - intros addr tls Ew. by rewrite Ew in Cw.
  - intros addr tls Em. rewrite Em in Cm. destruct Cm as [Ea Hne].
    destruct (rc_metrics cfg); [|discriminate Ea]. by injection Ea as -> <-.
  - unfold quic_from in Cq. intros Hq. destruct (n_quic n) as [| | | | | |[] ?]; try exact Cq; destruct Cq as [Co Cc], Hq as [Hq|Hq]; congruence.
Qed.

(** C10: An interrupt shuts the relay down.  In every state the process can be in after
    the signal has arrived, at most thirteen steps of its main goroutine, its signal
    handler and the goroutine that waits for the end of the context end it, whatever
    the other goroutines and clients are doing, with status 0 if the port was bound; [r]
    is the answer if it is still to be bound.  The accept loop leaves its blocking
    [Accept] only because one of these goroutines has closed the listener.  And once
    the goroutine that waits for the end of the context has closed the listener, no
    TCP connection is accepted any more, in any continuation. *)
Theorem node_shutdown pool quicBuilt cfg now ls n r :
  node_exec pool ls (bootRelay quicBuilt cfg now) = Some n -> exited n = false ->
  (n_signal n <> SWait ->
   exists ls' n', (length ls' <= 13)%nat /\ Forall own ls' /\ node_exec pool ls' n = Some n' /\
     n_main n' = MExit (exit_status r (n_main n))) /\
  (n_closer n = CSessions \/ n_closer n = CDone ->
   forall ls' n', node_exec pool ls' n = Some n' -> n_open n' = false /\ forall nc, NMain (InAccept (Accepted nc)) ∉ ls').
Proof.
  intros E He. destruct (node_exec_inv pool ls _ n E (boot_inv _ _ _) (boot_reachable pool _ _ _)) as [HI _]. split.
  - intros Hs. apply (soon_trans pool 4 9 (cancelled (n_main n)) (ended (exit_status r (n_main n)))); [by apply interrupt_soon|].
    intros n1 (Hc & <- & HI1). by apply done_soon.
  - intros Hc ls' n' E'. apply (shut_exec pool ls' n n' E' HI). destruct (ni_closer n HI) as [Hb Ho]; [by destruct Hc as [->| ->]|].
    split; [done|]. apply Ho. by destruct Hc as [->| ->].
Qed.

(** ** Concrete runs *)

Definition nodeConfig : relay_config :=
  mkRelayConfig (str "0.0.0.0:8443") (Some (str "0.0.0.0:8444", None)) None true false false (mkLog FormatText LevelInfo false).

(** A publisher's connection is accepted and its first frame read; then a signal comes, the
    handlers close listener and sessions; then the connection's goroutine goes on. *)
Definition lateRun : list node_label :=
  [NMain (InListen (Some (str "0.0.0.0:8443"))); NMain InNone; NMain InNone; NMain (InAccept (Accepted demoPub))] ++
  replicate 1 (NRun 1 mapOrder) ++ [NInterrupt; NSignal; NSignal; NSignal; NSignal; NCloser; NCloser] ++
  replicate 3 (NRun 1 mapOrder) ++ [NMain (InAccept AcceptClosed); NMain InNone; NMain InNone].
Definition lateNode : Node := default (bootRelay false nodeConfig 0) (node_exec [] lateRun (bootRelay false nodeConfig 0)).

(** Closing all sessions does not stop the handlers.  A connection accepted before
    the signal creates its session after the signal handler and [Start] have closed
    all sessions; it is still there, open, when the process exits. *)
Theorem session_after_shutdown :
  node_exec [] lateRun (bootRelay false nodeConfig 0) = Some lateNode /\ n_main lateNode = MExit 0 /\
  n_closer lateNode = CDone /\ n_signal lateNode = SDone /\
  exists s rs, sv_sessions (n_srv lateNode) !! demoSid = Some s /\ sv_heap (n_srv lateNode) !! s = Some rs /\ rs_closed rs = false.
Proof. split; [vm_compute; reflexivity|]. vm_compute. repeat split. eexists _, _. repeat split. Qed.

Definition signalledRun : list node_label := take 7 lateRun.
Definition signalled : Node := default (bootRelay false nodeConfig 0) (node_exec [] signalledRun (bootRelay false nodeConfig 0)).

Lemma node_refines_witness :
  reachable [] (n_srv signalled) /\ n_panic signalled = false /\
  (n_ready signalled = true -> (n_stored signalled = true /\ n_bound signalled <> None) \/ quic_up (n_quic signalled)) /\
  (forall addr tls, n_ws signalled = HttpServing addr tls -> rc_ws nodeConfig = Some (addr, tls) /\ addr <> []) /\
  (forall addr tls, n_metrics signalled = HttpServing addr tls -> rc_metrics nodeConfig = Some addr /\ tls = None /\ addr <> []) /\
  (n_quicOpen signalled = true \/ n_quicConns signalled <> 0%nat -> false = true /\ rc_quic nodeConfig = true).
Proof. apply (node_refines [] false nodeConfig 0 signalledRun). vm_compute. reflexivity. Defined.

Lemma node_shutdown_witness :
  n_main signalled = MAccept /\ n_signal signalled <> SWait /\
  exists ls' n', (length ls' <= 13)%nat /\ Forall own ls' /\ node_exec [] ls' signalled = Some n' /\ n_main n' = MExit 0.
Proof.
  split; [vm_compute; reflexivity|]. split; [vm_compute; discriminate|].
  destruct (node_shutdown [] false nodeConfig 0 signalledRun signalled None) as [H _]; [vm_compute; reflexivity..|].
  apply H. vm_compute. discriminate.
Defined.
